(* ===== verification/_CoqProject ===== *)
-Q . S2P
Prelude.v
Effects.v
GoStrings.v
Sha256.v
GoJson.v
GoFloat.v
GoDecimal.v
Codex.v
RetryTypes.v
RetryValidate.v
RetryState.v
RetryManaged.v
RetryMachine.v
RetryQuota.v
RetryObserve.v
RetrySubmit.v
RetrySys.v
RetryStore.v
RetryController.v
RetryWp.v
RetrySafety.v
RetryPolicy.v
RetryPolicyStore.v
RetryPolicyFacts.v
RetrySample.v
GoTime.v
GoLibrary.v
Communication.v
CommunicationOps.v
CommunicationHistory.v
CommunicationFacts.v
ProgressObserver.v
GoTimeParse.v
GoUtf8.v
LifecycleTypes.v
LifecycleOps.v
LifecycleStoreFacts.v
LifecyclePropose.v
LifecycleFacts.v
ArchivePreparation.v
ArchivePreparationFacts.v
LifecycleCommands.v
LifecycleJobs.v
LifecycleRequests.v
LifecycleCommandFacts.v
LifecycleSample.v
GoDecode.v
Attention.v
Notifications.v
NotificationOps.v
NotificationRequests.v
AttentionFacts.v
NotificationFacts.v
NotificationLoad.v
NotificationDeliveryFacts.v
NotificationSample.v
SessionPreparation.v
PreparationStore.v
PreparationOps.v
PreparationRequests.v
PreparationMachine.v
PreparationFacts.v
PreparationSafety.v
UploadTypes.v
UploadStore.v
UploadBackend.v
UploadClaims.v
UploadWp.v
UploadInv.v
UploadScopeFacts.v
UploadClaimFacts.v
UploadDeleteFacts.v
UploadFileFacts.v
UploadCreateFacts.v
UploadFacts.v
UploadClaimSafety.v
UploadSample.v
CreationProgress.v
CreationProgressCodec.v
CreationProgressFacts.v
