(* ===== verification/Prelude.v ===== *)
(** * Verification of the dev-workspace portal

    The repository holds a portal (Go, [src/portal]) that serves a developer's
    workspace: sessions are directories tracked on disk, each with a conversation run
    by an external Codex server; the portal retries failed turns, carries messages
    between sessions, watches long turns, creates, archives, revives and deletes
    sessions.  This library models the parts of it that decide what is sent, stored
    and shown, and proves that they keep their promises for every behaviour of
    the file system, the clock, the Codex server and other processes.

    ** How the code is modelled

    A Go struct is a Record with the fields in the source's order and a prefix where
    Rocq needs distinct names ([pend_ID] is [Pending.ID]); an [error] is a value of
    [Effects.error] with the sentinels the code compares; a nil slice is [None] of
    [slice]; an [int64] or [uint64] is a [Z] wrapped by [i64] and [u64]; text is a
    byte string, checked for UTF-8 where the code does.  A method on a pointer is a
    function of the old value.  Code with effects lives in the state and error monad
    [SE] of [Effects.v]: its state holds what the code stores (files, maps) and an
    opaque world [W] for the rest; each call into the rest of the system is a field of a
    runtime record (or of the typeclass [CodexWeb] for the Codex client library, which
    is not part of the repository), an arbitrary function of the world.  A file holds a
    decoded record or is damaged; writing it fails, succeeds, or succeeds without its
    directory being synchronised.  Locks are entries of the state, or the whole
    operation is one step when it holds its mutex throughout.  Calls whose order matters append
    an event to a trace.  [wp] and [rel_steps] ([RetryWp.v], [Effects.v]) are the
    program logic; the hint database [proc] closes the routine goals.

    ** Files

    - [Prelude], [Effects]: notations, record update, tactics, the monad.
    - [GoStrings], [GoUtf8], [GoJson], [GoDecimal], [GoFloat], [GoTime], [GoTimeParse],
      [GoLibrary], [GoDecode], [Sha256]: what the source uses of Go's standard library
      ([strings], [unicode/utf8], [path/filepath], [encoding/json], [strconv], [math],
      [time], [crypto/sha256]), executable.  [Codex]: the interface of the client library.
    - [turnretry/]: [RetryTypes], [RetryValidate] (records, decisions, JSON,
      hashes, validity), [RetryState] and [RetryManaged] (the methods of [State], user
      actions), [RetrySys] and [RetryStore] ([Store],
      [Transaction]), [RetryController] ([Controller.Step], [ReconcileOnly]),
      [RetryPolicy] and [RetryPolicyStore] (session policy and its summary);
      [RetryMachine], [RetryQuota], [RetryObserve], [RetrySubmit],
      [RetryWp], [RetrySafety], [RetryPolicyFacts] and [RetrySample] hold the theorems.
    - [communication/]: [Communication] (registry, validity, admission),
      [CommunicationOps] ([Service.Run], [Read], [Expire], [Dispatch]), and
      [CommunicationHistory], [CommunicationFacts] the theorems.
    - [progressobserver/state.go]: [ProgressObserver].
    - [creationprogress/progress.go]: [CreationProgress] (frames and the stream
      decoder), [CreationProgressCodec], [CreationProgressFacts].
    - [uploads/store.go]: [UploadTypes] (catalog records, JSON text, names),
      [UploadStore] (the catalog file, [transaction], compaction, scopes), [UploadBackend]
      (the operations that move bytes) and [UploadClaims] (submissions, claims,
      observation, expiry, forks); [UploadWp], [UploadInv], [UploadScopeFacts],
      [UploadClaimFacts], [UploadDeleteFacts], [UploadFileFacts], [UploadCreateFacts],
      [UploadFacts], [UploadClaimSafety] and [UploadSample] hold the theorems.
    - Archive, delete and revive ([web/operation_state.go], [operation_store.go],
      [lifecycle_target.go], [service_cleanup_handoff.go], [archive_preparation.go],
      [archive_worker.go] and the lifecycle part of [server.go]): [LifecycleTypes]
      (records, JSON, validity, messages), [LifecycleOps] (the receipt file and the steps under [operationMu]),
      [LifecyclePropose] (target identities, journal evidence, reconciliation),
      [ArchivePreparation] (the repair loop), [LifecycleCommands] (starting),
      [LifecycleJobs] (running and finishing) and [LifecycleRequests] (the handlers);
      [LifecycleStoreFacts], [LifecycleFacts], [ArchivePreparationFacts],
      [LifecycleCommandFacts] and [LifecycleSample] hold the theorems.
    - Attention and browser notifications ([web/attention.go], [notifications.go],
      [notifications_store.go], and the checks of [notifications_transport.go]): [Attention]
      (events over successive observations of a session), [Notifications] (the state, its JSON
      text, [change], the checks of a subscription), [NotificationLoad] (opening the store),
      [NotificationOps] (observing, reconciling, sending, a pass of the loop) and
      [NotificationRequests] (the requests, and histories of passes and requests);
      [AttentionFacts], [NotificationFacts], [NotificationDeliveryFacts] and
      [NotificationSample] hold the theorems.
    - Session preparations, the accepted requests for new sessions ([web/preparation.go],
      [preparation_store.go], [session_name.go], and what they call of [creation.go] and
      [creation_store.go]): [SessionPreparation] (records, JSON text, digests, validity, names),
      [PreparationStore] (saving, confirming, start-up), [PreparationOps] (accepting, starting and
      mutating workers, reservation, the installation and retirement of creation receipts)
      and [PreparationRequests] (the worker, the requests, reconciliation, shutdown);
      [PreparationMachine] is the abstract machine, [PreparationFacts] proves that every
      operation is a run of it, [PreparationSafety] holds the theorems and a small portal.

    ** What is shown

    - Automatic retry: a continuation is sent at most once per pass and only after the
      attempt is durably marked as submitted and proved never submitted before; an
      uncertain attempt survives every other operation; recovery never sends; at most
      [CyberLimit] charges lie in any window; each failure is observed once; proofs are revoked when
      settings change; retention, delays, identities and policy preferences are as documented.
    - Communication: a message is sent only under a live grant after its submission is
      recorded, never twice; records are never lost or rewritten; sessions are locked in order.
    - Creation progress: what the emitter writes is what the decoder observes, however
      the stream is cut and whatever text surrounds it; memory and diagnostics are bounded.
    - Progress observer: concerns keep their identity until resolved; records survive a save and load.
    - Uploads: whatever fails, every operation leaves a catalog that loads, agrees with the
      files on disk and is within its limits; the bytes of an acknowledged chunk are the
      bytes downloaded; an answered claim is durable and freezes its draft; a file goes only
      when the sessions that need it are locked, asked and found idle.  A flaw is shown: a fork
      at the record limit saves a catalog that no later operation can load.
    - Lifecycle receipts: a receipt is replaced durably or not at all, and read back
      after a restart; a job starts only for a saved receipt in place of one it may
      replace; reconciliation is a comparison and a swap; recorded journal evidence is
      never exchanged; success needs positive proof; a late executor cannot touch a newer
      attempt; only finished receipts are dismissed; any failure message becomes one a receipt may store.
    - Archive preparation: repair cycles end; only the recorded message is sent; nothing
      is sent after a cancellation, wherever the loop is when it is granted.  Three flaws are shown: a replaced attempt's loop
      fails the newer attempt, the reserve for final messages ignores JSON escapes, and cutting
      a blocker's text can split a character.
    - Notifications: an announcement has a cause (a new request, a turn seen to finish) and is
      made once while the cause lasts; the outbox holds only what is worth sending, and a
      push is made only when the last look under the mutex, before the payload is built, wants it; attempts are spaced and at most six; a
      saved preference is on disk and in force; after a failed write nothing changes or is
      sent until a restart, and a restart never falls back to the default.  A flaw is shown: one
      registration too many counts as a failed write.
    - Preparations: all requests, workers, reconciliations and shutdowns, with any failure and
      interference, are runs of a machine with ten kinds of step; hence an accepted
      request keeps its identity, input and name, a worker starts once per attempt and
      only for a durable record, names are exclusive, a creation is installed only under a
      durable reservation, and a late worker changes nothing.  When nothing fails a new
      request is answered with its worker started.  Start-up restores exactly the
      files.  A flaw is shown: an error message cut inside a character makes its record unreadable.

    ** Fuel

    [retain_loop] runs with the number of snapshots as fuel and [retain_terminates] shows
    it is enough; [drop_invalid] runs with the length of the text;
    [reconcileLifecycleOperation] takes the number of lost comparisons allowed, and
    [run_loop] and [watch_worker] the number of iterations (the source polls without
    bound): running out is a value of its own, and the theorems about them hold for any fuel.

    [reserve_from] tries [maxPreparationMappings + 1] numbers, as the source's loop does.

    ** Other goroutines

    Where a mutex is released between two steps, the lifecycle definitions apply an
    arbitrary function [others] to the shared state; theorems that need it bound what it does.
    A session's message lock is part of that state ([lf_messages]): a cancellation run by
    another goroutine while the repair loop has the lock is not granted; granted ones are logged.
    Notifications apply [nr_others] also between the last look at a delivery and its push.
    Uploads hold the catalog's file lock for a whole transaction; other processes act
    between transactions ([ur_others]), and are assumed to keep the same invariant.
    Preparations apply [pr_others] where [operationMu] is taken again; what it does is assumed to
    be steps of the same machine, which is what the operations are proved to do.

    ** Not modelled

    Of notifications: decoding a request's body, its origin and profile checks, the HTTP
    client, [url.Parse], [http.ParseTime] and the P-256 curve (parameters); a state file that
    opens and decodes is one [save] wrote.
    Of preparations and creations: the decoding of request forms and of files that no save wrote;
    the naming model, the worker of a creation ([runCreation]), its retry, proof and loading
    (parameters).
    Of uploads: the decoding of the catalog's JSON text (a file holds decoded members or
    damage), the retries of the file lock, results that Go returns next to an error.
    The Codex client library, git, Nix, the Ruby tools, HTTP routing, templates and
    the browser code (interfaces or another language); [agentteams], [session],
    [teamruntime], [codexproviders], [repository], [cluster],
    [workspacecodex] and the other files of [web] are left to later extensions. *)

From Stdlib Require Export ZArith Lia.
From stdpp Require Export base tactics decidable option list numbers strings gmap.

(** ** Notation for conditions as the Go source writes them *)

Declare Scope go_scope.
Delimit Scope go_scope with go.
Notation "x == y" := (bool_decide (x = y)) (at level 70, no associativity) : go_scope.
Notation "x != y" := (negb (bool_decide (x = y))) (at level 70, no associativity) : go_scope.
Open Scope go_scope.

(** ** Record update

    [r <| f := v |>] is the Go assignment [r.f = v] on a copy of [r].  A record
    type declares its eta expansion once as an [Eta] instance; the setter of a
    field is computed from it by replacing that field's projection. *)

Class Eta (R : Type) := eta : R → R.

Class Setter {R T : Type} (f : R → T) := setter : (T → T) → R → R.

Arguments setter {R T} f {_} g r.

Ltac field_setter R T f :=
  let inst := constr:(_ : Eta R) in
  let h := eval hnf in inst in
  let g := fresh "g" in
  let r := fresh "r" in
  unfold Setter; intros g r;
  let b := eval cbv beta in (h r) in
  let p := eval pattern (f r) in b in
  match p with
  | ?F _ => let t := eval cbv beta in (F (g (f r))) in exact t
  end.

#[export] Hint Extern 0 (@Setter ?R ?T ?f) => field_setter R T f : typeclass_instances.

Notation "r <| f := v |>" := (setter f (λ _, v) r)
  (at level 12, f at next level, left associativity,
   format "r  <| f  :=  v |>") : go_scope.
Notation "r <| f ::= g |>" := (setter f g r)
  (at level 12, f at next level, left associativity,
   format "r  <| f  ::=  g |>") : go_scope.

(** [if b { f }]: a statement that may update a value in place. *)
Definition when {A : Type} (b : bool) (f : A → A) (a : A) : A := if b then f a else a.
Arguments when {A} b f a : simpl never.

Lemma when_true {A} (f : A → A) a : when true f a = f a.
Proof. done. Qed.
Lemma when_false {A} (f : A → A) a : when false f a = a.
Proof. done. Qed.

(** Case analysis on the conditions of [when] in a goal. *)
Ltac split_when :=
  repeat match goal with
  | |- context [when ?b _ _] => destruct b eqn:?; rewrite ?when_true, ?when_false
  end.

(** Unfolding a definition without expanding its [let]s. *)
Tactic Notation "reveal" reference(f) := cbv beta delta [f].

Lemma let_named {A B : Type} (P : B → Prop) (e : A) (b : A → B) :
  (∀ y, y = e → P (b y)) → P (let x := e in b x).
Proof. intros H. by apply H. Qed.

(** Naming the first [let]-bound value of the goal: it becomes a variable with
    its defining equation, so that a proof can state a fact and forget the rest. *)
Tactic Notation "name_let" ident(y) "as" ident(E) :=
  lazymatch goal with
  | |- context G [let x := ?e in @?b x] =>
      match type of (let x := e in b x) with
      | ?B =>
          let P := constr:(fun h : B => ltac:(let g := context G [h] in exact g)) in
          refine (let_named P e b _); intros y E; cbv beta
      end
  end.

(** ** Errors

    The sentinel errors the source compares with [errors.Is] are constructors;
    [ErrorsNew] is any other [errors.New] / [fmt.Errorf] value by its message,
    and [ErrWrap] is [fmt.Errorf("%w: ...", e)] with its text.  [ErrUnknownSendOutcome],
    [ErrTransport] and [ErrTargetChanged] are the error types asked for with
    [errors.As]; [ErrUpload] is a [conversation.UploadError]; [ErrNilDereference] is a panic; [ErrExternal] stands for an
    error value an operation outside the model produced. *)

Inductive error :=
  | ErrNotExist
  | ErrPolicyStale
  | ErrPolicyUnavailable
  | ErrMissingProof
  | ErrProofIncomplete
  | ErrSnapshotCapacity
  | ErrUnknownSendOutcome
  | ErrTransport
  | ErrTargetChanged
  | ErrDeadlineExceeded
  | ErrCanceled
  | ErrNilDereference
  | ErrPersistenceUnconfirmed
  | ErrUpload (status : Z) (message : string)
  | ErrorsNew (message : string)
  | ErrWrap (e : error) (message : string)
  | ErrExternal (code : Z).

#[export] Instance error_eq_dec : EqDecision error.
Proof. solve_decision. Defined.

(** [errors.Is(err, target)]: the chain of wrapped errors is searched. *)
Fixpoint errors_Is (err target : error) : bool :=
  (err == target) || match err with ErrWrap e _ => errors_Is e target | _ => false end.

Inductive result (A : Type) :=
  | Ok (a : A)
  | Err (e : error).
Arguments Ok {A} a.
Arguments Err {A} e.

#[export] Instance result_ret : MRet result := λ A a, Ok a.
#[export] Instance result_bind : MBind result := λ A B f r,
  match r with Ok a => f a | Err e => Err e end.

Definition is_ok {A} (r : result A) : bool := match r with Ok _ => true | Err _ => false end.

(** ** Slices

    A Go slice that the source compares with [nil], or marshals to JSON where
    nil is [null] and empty is [[]]. [None] is the nil slice. *)

Abbreviation slice A := (option (list A)).
Definition elems {A} (s : slice A) : list A := default [] s.
Definition slice_len {A} (s : slice A) : Z := Z.of_nat (length (elems s)).
Definition go_append {A} (s : slice A) (x : A) : slice A := Some (elems s ++ [x]).

(** ** Machine integers *)

Definition u64 (z : Z) : Z := z `mod` 2^64.
Definition i64 (z : Z) : Z := (z + 2^63) `mod` 2^64 - 2^63.
Definition max_u64 : Z := 2^64 - 1.

Definition is_i64 (z : Z) : Prop := (- 2^63 ≤ z < 2^63)%Z.
Definition is_u64 (z : Z) : Prop := (0 ≤ z < 2^64)%Z.

Lemma i64_id z : is_i64 z → i64 z = z.
Proof. unfold is_i64, i64. intros H. rewrite Z.mod_small; lia. Qed.

Lemma i64_range z : is_i64 (i64 z).
Proof. unfold is_i64, i64. pose proof (Z.mod_pos_bound (z + 2^63) (2^64)). lia. Qed.

Lemma u64_id z : is_u64 z → u64 z = z.
Proof. unfold is_u64, u64. intros H. apply Z.mod_small. lia. Qed.

Lemma u64_range z : is_u64 (u64 z).
Proof. apply Z.mod_pos_bound. lia. Qed.

Create HintDb int.
Create Rewrite HintDb int.
Create HintDb go.
#[export] Hint Resolve i64_range u64_range : int.
#[export] Hint Rewrite i64_id u64_id using (unfold is_i64, is_u64; lia) : int.

(** ** Strings are byte sequences *)

Definition strlen (s : string) : Z := Z.of_nat (String.length s).

(** ** Searching a list

    The first element a loop would stop at, with its index. *)

Fixpoint find_index {A} (f : A → bool) (l : list A) : option (nat * A) :=
  match l with
  | [] => None
  | x :: l => if f x then Some (O, x) else '(i, y) ← find_index f l; Some (S i, y)
  end.

Section FindIndex.
Context {A : Type} (f : A → bool).

Lemma find_index_app_l l k r : find_index f l = Some r → find_index f (l ++ k) = Some r.
Proof.
  revert r. induction l as [|x l IH]; intros r; simpl; [done|]. destruct (f x); [done|].
  destruct (find_index f l) as [[i y]|]; simpl; [|done]. intros [= <-]. by rewrite (IH _ eq_refl).
Qed.

Lemma find_index_app_r l k :
  find_index f l = None → find_index f (l ++ k) = ('(i, y) ← find_index f k; Some (length l + i, y))%nat.
Proof.
  induction l as [|x l IH]; simpl; [by destruct (find_index f k) as [[]|]|]. destruct (f x); [done|].
  destruct (find_index f l) as [[i y]|]; simpl; [done|]. intros _. rewrite IH by done.
  by destruct (find_index f k) as [[]|].
Qed.

Lemma find_index_insert_same l i x y :
  find_index f l = Some (i, x) → f y = true → find_index f (<[i := y]> l) = Some (i, y).
Proof.
  revert i. induction l as [|z l IH]; intros i; simpl; [done|]. destruct (f z) eqn:E.
  - intros [= <- <-] Hy. simpl. by rewrite Hy.
  - destruct (find_index f l) as [[j u]|]; simpl; [|done]. intros [= <- <-] Hy. simpl. rewrite E.
    by rewrite (IH j eq_refl Hy).
Qed.

Lemma find_index_insert_other l i x y :
  l !! i = Some x → f x = false → f y = false → find_index f (<[i := y]> l) = find_index f l.
Proof.
  revert i. induction l as [|z l IH]; intros [|i]; simpl; try done.
  - intros [= ->] Hx Hy. by rewrite Hx, Hy.
  - intros Hi Hx Hy. by rewrite IH.
Qed.

Lemma find_index_lookup l i x : find_index f l = Some (i, x) → l !! i = Some x ∧ f x = true.
Proof.
  revert i. induction l as [|y l IH]; intros i; simpl; [done|]. destruct (f y) eqn:E.
  - by intros [= <- <-].
  - destruct (find_index f l) as [[j z]|]; simpl; [|done]. intros [= <- <-]. by apply IH.
Qed.
End FindIndex.

(** Evaluates both sides of an equality, for the concrete runs. *)
Ltac computed := lazymatch goal with |- @eq ?T _ ?b => vm_cast_no_check (@eq_refl T b) end.
