(* ===== verification/Effects.v ===== *)
(** * Effects: state, errors and early returns

    The source's functions read and change some state, call operations that may
    fail and return early on errors.  [SE S] is the monad they are translated
    into: a function of the state that gives the new state, kept also on error, and
    a [result].  [wp] is its weakest precondition; client files reason with the lemmas here. *)

From S2P Require Import Prelude.

Section Effects.
Context {S : Type}.

Definition SE (A : Type) : Type := S → S * result A.

#[export] Instance SE_ret : MRet SE := λ A a σ, (σ, Ok a).
#[export] Instance SE_bind : MBind SE := λ A B f m σ,
  match m σ with (σ, Ok a) => f a σ | (σ, Err e) => (σ, Err e) end.

Definition fail {A} (e : error) : SE A := λ σ, (σ, Err e).
Definition gets {A} (f : S → A) : SE A := λ σ, (σ, Ok (f σ)).
Definition modify (f : S → S) : SE unit := λ σ, (f σ, Ok tt).

(** [err := ...; if err != nil { ... }] *)
Definition attempt {A} (m : SE A) : SE (result A) := λ σ, let '(σ, r) := m σ in (σ, Ok r).
Definition ignore {A} (m : SE A) : SE unit := attempt m;; mret tt.

Definition lift_error (e : option error) : SE unit := λ σ,
  (σ, match e with Some e => Err e | None => Ok tt end).
Definition lift_result {A} (r : result A) : SE A := λ σ, (σ, r).

(** ** Weakest preconditions *)

Definition wp {A} (m : SE A) (Q : S → result A → Prop) (σ : S) : Prop := Q (m σ).1 (m σ).2.

Lemma wp_mono {A} (m : SE A) (Q R : S → result A → Prop) σ :
  wp m Q σ → (∀ σ' r, Q σ' r → R σ' r) → wp m R σ.
Proof. unfold wp. auto. Qed.

Lemma wp_and {A} (m : SE A) (Q R : S → result A → Prop) σ :
  wp m Q σ → wp m R σ → wp m (λ σ r, Q σ r ∧ R σ r) σ.
Proof. by split. Qed.

Lemma wp_ret {A} (a : A) (Q : S → result A → Prop) σ : Q σ (Ok a) → wp (mret a) Q σ.
Proof. done. Qed.

Lemma wp_bind {A B} (m : SE A) (f : A → SE B) (Q : S → result B → Prop) σ :
  wp m (λ σ r, match r with Ok a => wp (f a) Q σ | Err e => Q σ (Err e) end) σ → wp (mbind f m) Q σ.
Proof. unfold wp, mbind, SE_bind. by destruct (m σ) as [σ' [a|e]]. Qed.

Lemma wp_attempt {A} (m : SE A) Q σ : wp m (λ σ r, Q σ (Ok r)) σ → wp (attempt m) Q σ.
Proof. unfold wp, attempt. by destruct (m σ). Qed.

Lemma wp_fail {A} e (Q : S → result A → Prop) σ : Q σ (Err e) → wp (fail e) Q σ.
Proof. done. Qed.
Lemma wp_gets {A} (f : S → A) Q σ : Q σ (Ok (f σ)) → wp (gets f) Q σ.
Proof. done. Qed.
Lemma wp_modify f Q σ : Q (f σ) (Ok tt) → wp (modify f) Q σ.
Proof. done. Qed.
Lemma wp_lift_result {A} (r : result A) Q σ : Q σ r → wp (lift_result r) Q σ.
Proof. done. Qed.
Lemma wp_lift_error e Q σ :
  Q σ (match e with Some e => Err e | None => Ok tt end) → wp (lift_error e) Q σ.
Proof. done. Qed.

(** A procedure that ends by returning its error never succeeds. *)
Lemma wp_then_fail {A B} (m : SE A) e (Q : S → result B → Prop) σ :
  (∀ σ' e, Q σ' (Err e)) → wp (m;; fail e) Q σ.
Proof. intros H. unfold wp, mbind, SE_bind. destruct (m σ) as [σ' [a|e']]; apply H. Qed.

(** ** Invariants of a procedure

    A relation between the states before and after that every construct keeps. *)

Definition rel_steps {A} (R : S → S → Prop) (m : SE A) : Prop := ∀ σ, R σ (m σ).1.

Lemma rel_wp {A} (R : S → S → Prop) (m : SE A) σ : rel_steps R m → wp m (λ σ' _, R σ σ') σ.
Proof. intros H. apply H. Qed.

Section Relation.
Context (R : S → S → Prop) `{HR : !PreOrder R}.

Lemma rel_ret {A} (a : A) : rel_steps R (mret a : SE A).
Proof. intros σ. reflexivity. Qed.
Lemma rel_fail {A} e : rel_steps R (fail e : SE A).
Proof. intros σ. reflexivity. Qed.
Lemma rel_gets {A} (f : S → A) : rel_steps R (gets f).
Proof. intros σ. reflexivity. Qed.
Lemma rel_lift_error e : rel_steps R (lift_error e).
Proof. intros σ. reflexivity. Qed.
Lemma rel_lift_result {A} (r : result A) : rel_steps R (lift_result r).
Proof. intros σ. reflexivity. Qed.
Lemma rel_modify f : (∀ σ, R σ (f σ)) → rel_steps R (modify f).
Proof. intros H σ. apply H. Qed.
Lemma rel_bind {A B} (m : SE A) (f : A → SE B) :
  rel_steps R m → (∀ a, rel_steps R (f a)) → rel_steps R (mbind f m).
Proof.
  intros Hm Hf σ. specialize (Hm σ). unfold mbind, SE_bind.
  destruct (m σ) as [σ' [a|e]]; [|done]. etrans; [exact Hm|apply Hf].
Qed.
Lemma rel_attempt {A} (m : SE A) : rel_steps R m → rel_steps R (attempt m).
Proof. intros Hm σ. specialize (Hm σ). unfold attempt. by destruct (m σ). Qed.
Lemma rel_ignore {A} (m : SE A) : rel_steps R m → rel_steps R (ignore m).
Proof. intros Hm. apply rel_bind; [by apply rel_attempt|]. intros _. apply rel_ret. Qed.

End Relation.
End Effects.

Arguments SE S A : clear implicits.

Create HintDb proc.
#[export] Hint Resolve rel_ret rel_fail rel_gets rel_lift_error rel_lift_result rel_attempt rel_ignore : proc.
#[export] Hint Extern 1 (PreOrder _) => typeclasses eauto : proc.

(** Goals [rel_steps R m]: one lemma per construct. *)
Ltac procs :=
  intros;
  first [ solve [eauto with proc]
        | apply rel_bind; [try typeclasses eauto|procs|procs]
        | apply rel_attempt; procs
        | apply rel_ignore; procs
        | case_match; procs
        | idtac ].
