(* ===== verification/GoStrings.v ===== *)
(** * Go's string and byte operations

    The parts of packages [strings], [unicode/utf8], [encoding/hex], [regexp]
    and [path/filepath] the source uses, on strings as byte sequences. *)

From S2P Require Import Prelude.
From Stdlib Require Import Ascii.

Open Scope Z_scope.

(** ** Bytes *)

Definition code (c : ascii) : Z := Z.of_N (N_of_ascii c).
Definition byte_chr (z : Z) : ascii := ascii_of_N (Z.to_N (z `mod` 256)).

Fixpoint bytes_of (s : string) : list Z :=
  match s with EmptyString => [] | String c s => code c :: bytes_of s end.
Fixpoint string_of (l : list Z) : string :=
  match l with [] => EmptyString | z :: l => String (byte_chr z) (string_of l) end.

Fixpoint all_chars (p : ascii → bool) (s : string) : bool :=
  match s with EmptyString => true | String c s => p c && all_chars p s end.

(** [strings.ContainsAny] / [strings.ContainsRune] for single-byte sets. *)
Fixpoint contains_char (p : ascii → bool) (s : string) : bool :=
  match s with EmptyString => false | String c s => p c || contains_char p s end.

(** ** UTF-8 *)

Definition in_range (lo hi x : Z) : bool := (lo <=? x) && (x <=? hi).
Definition cont (x : Z) : bool := in_range 128 191 x.

(** The accepted first bytes and second-byte ranges of [utf8.DecodeRune]. *)
Definition utf8_two (a b : Z) : bool := in_range 194 223 a && cont b.
Definition utf8_three (a b c : Z) : bool :=
  ((a =? 224) && in_range 160 191 b
   || in_range 225 236 a && cont b
   || (a =? 237) && in_range 128 159 b
   || in_range 238 239 a && cont b) && cont c.
Definition utf8_four (a b c d : Z) : bool :=
  ((a =? 240) && in_range 144 191 b
   || in_range 241 243 a && cont b
   || (a =? 244) && in_range 128 143 b) && cont c && cont d.

(** [utf8.ValidString] *)
Fixpoint utf8_valid (s : string) : bool :=
  match s with
  | EmptyString => true
  | String a s1 =>
      if code a <? 128 then utf8_valid s1 else
      match s1 with
      | EmptyString => false
      | String b s2 =>
          if utf8_two (code a) (code b) then utf8_valid s2 else
          match s2 with
          | EmptyString => false
          | String c s3 =>
              if utf8_three (code a) (code b) (code c) then utf8_valid s3 else
              match s3 with
              | EmptyString => false
              | String d s4 => utf8_four (code a) (code b) (code c) (code d) && utf8_valid s4
              end
          end
      end
  end.

(** ** White space

    The UTF-8 encodings of the runes [unicode.IsSpace] accepts. *)
Definition space_encodings : list (list Z) :=
  [[9]; [10]; [11]; [12]; [13]; [32]; [194; 133]; [194; 160]; [225; 154; 128];
   [226; 128; 128]; [226; 128; 129]; [226; 128; 130]; [226; 128; 131]; [226; 128; 132];
   [226; 128; 133]; [226; 128; 134]; [226; 128; 135]; [226; 128; 136]; [226; 128; 137];
   [226; 128; 138]; [226; 128; 168]; [226; 128; 169]; [226; 128; 175]; [226; 129; 159];
   [227; 128; 128]].

Fixpoint strip_prefix (p l : list Z) : option (list Z) :=
  match p, l with
  | [], _ => Some l
  | x :: p, y :: l => if x =? y then strip_prefix p l else None
  | _ :: _, [] => None
  end.

Fixpoint strip_first (ps : list (list Z)) (l : list Z) : option (list Z) :=
  match ps with
  | [] => None
  | p :: ps => match strip_prefix p l with Some r => Some r | None => strip_first ps l end
  end.

(** Every stripped encoding is non-empty, so the length bounds the rounds. *)
Fixpoint trim_left (fuel : nat) (ps : list (list Z)) (l : list Z) : list Z :=
  match fuel with
  | O => l
  | S fuel => match strip_first ps l with Some r => trim_left fuel ps r | None => l end
  end.

Definition trim_space_bytes (l : list Z) : list Z :=
  let l := trim_left (length l) space_encodings l in
  rev (trim_left (length l) (map (@rev Z) space_encodings) (rev l)).

(** [strings.TrimSpace] *)
Definition TrimSpace (s : string) : string := string_of (trim_space_bytes (bytes_of s)).

(** [len(strings.Fields(s))]: maximal runs of non-space text. *)
Fixpoint count_fields (fuel : nat) (inside : bool) (l : list Z) : Z :=
  match fuel with
  | O => 0
  | S fuel =>
      match l with
      | [] => 0
      | _ :: rest =>
          match strip_first space_encodings l with
          | Some r => count_fields fuel false r
          | None => (if inside then 0 else 1) + count_fields fuel true rest
          end
      end
  end.
Definition FieldsLen (s : string) : Z := count_fields (S (String.length s)) false (bytes_of s).

(** ** Hexadecimal *)

Definition hex_digit (z : Z) : ascii := byte_chr (if z <? 10 then 48 + z else 87 + z).
Definition is_lower_hex (c : ascii) : bool := in_range 48 57 (code c) || in_range 97 102 (code c).

(** [hex.EncodeToString] and the [%x] verb on byte slices *)
Fixpoint hex_encode (l : list Z) : string :=
  match l with
  | [] => EmptyString
  | z :: l => String (hex_digit ((z `div` 16) `mod` 16)) (String (hex_digit (z `mod` 16)) (hex_encode l))
  end.

(** ** Anchored patterns made of single-character classes *)

Definition is_char (c d : ascii) : bool := code c =? code d.

Fixpoint match_classes (ps : list (ascii → bool)) (s : string) : bool :=
  match ps, s with
  | [], EmptyString => true
  | p :: ps, String c s => p c && match_classes ps s
  | _, _ => false
  end.

(** [^[0-9a-f]{8}-[0-9a-f]{4}-[0-9a-f]{4}-[0-9a-f]{4}-[0-9a-f]{12}$] *)
Definition uuid_classes : list (ascii → bool) :=
  let hex n := repeat is_lower_hex n in
  let dash := [is_char "-"%char] in
  hex 8%nat ++ dash ++ hex 4%nat ++ dash ++ hex 4%nat ++ dash ++ hex 4%nat ++ dash ++ hex 12%nat.

(** ** Paths *)

(** [filepath.IsAbs] on Unix *)
Definition IsAbs (path : string) : bool :=
  match path with String c _ => code c =? 47 | EmptyString => false end.

(** ** Lemmas *)

Lemma code_range c : 0 <= code c < 256.
Proof. destruct c as [[] [] [] [] [] [] [] []]; vm_compute; split; congruence. Qed.

Lemma code_byte_chr z : 0 <= z < 256 → code (byte_chr z) = z.
Proof.
  intros Hz. unfold code, byte_chr. rewrite Z.mod_small by lia.
  rewrite N_ascii_embedding by lia. apply Z2N.id. lia.
Qed.

Lemma hex_digit_hex z : 0 <= z < 16 → is_lower_hex (hex_digit z) = true.
Proof.
  intros Hz. unfold is_lower_hex, hex_digit, in_range.
  destruct (Z.ltb_spec z 10); rewrite code_byte_chr by lia; lia.
Qed.

Lemma hex_encode_all_hex l : all_chars is_lower_hex (hex_encode l) = true.
Proof.
  induction l as [|z l IH]; simpl; [done|].
  rewrite !hex_digit_hex by (apply Z.mod_pos_bound; lia). done.
Qed.

Lemma hex_encode_length l : String.length (hex_encode l) = (2 * length l)%nat.
Proof. induction l as [|z l IH]; simpl; lia. Qed.

Lemma match_classes_app ps qs s t :
  match_classes ps s = true → match_classes qs t = true →
  match_classes (ps ++ qs) (s +:+ t) = true.
Proof.
  revert s; induction ps as [|p ps IH]; intros [|c s]; simpl; try done.
  intros [-> Hs]%andb_prop Ht. by rewrite IH.
Qed.

Lemma match_classes_repeat p s n :
  String.length s = n → all_chars p s = true → match_classes (repeat p n) s = true.
Proof.
  intros <-. induction s as [|c s IH]; simpl; [done|].
  intros [-> Hs]%andb_prop. by rewrite IH.
Qed.

Lemma match_hex_encode l n :
  length l = n → match_classes (repeat is_lower_hex (2 * n)) (hex_encode l) = true.
Proof.
  intros <-. apply match_classes_repeat; [apply hex_encode_length|apply hex_encode_all_hex].
Qed.

#[export] Hint Resolve match_hex_encode hex_encode_all_hex : go.
