(* ===== verification/Sha256.v ===== *)
(** * SHA-256

    [crypto/sha256.Sum256], which the source uses for every stored identity and
    digest, on byte lists; [hash] is the source's hexadecimal form of it. *)

From S2P Require Import Prelude GoStrings.

Open Scope Z_scope.

Definition w32 (z : Z) : Z := Z.land z 4294967295.
Definition rotr (n x : Z) : Z := Z.lor (Z.shiftr x n) (w32 (Z.shiftl x (32 - n))).

(** The constants are the first 32 bits of the fractional parts of the cube and
    square roots of the first primes; the roots are computed bit by bit. *)
Definition primes : list Z :=
  [2; 3; 5; 7; 11; 13; 17; 19; 23; 29; 31; 37; 41; 43; 47; 53; 59; 61; 67; 71; 73; 79; 83; 89; 97;
   101; 103; 107; 109; 113; 127; 131; 137; 139; 149; 151; 157; 163; 167; 173; 179; 181; 191; 193; 197; 199;
   211; 223; 227; 229; 233; 239; 241; 251; 257; 263; 269; 271; 277; 281; 283; 293; 307; 311].
Fixpoint root_bits (k n : Z) (bits : nat) (r : Z) : Z :=
  match bits with
  | O => r
  | S bits => let r' := r + 2 ^ Z.of_nat bits in root_bits k n bits (if r' ^ k <=? n then r' else r)
  end.
Definition fractional_root (k p : Z) : Z := w32 (root_bits k (p * 2 ^ (32 * k)) 40 0).

Definition round_constants : list Z := Eval vm_compute in map (fractional_root 3) primes.
Definition initial_words : list Z := Eval vm_compute in map (fractional_root 2) (firstn 8 primes).

Fixpoint be_word (l : list Z) : list Z :=
  match l with
  | a :: b :: c :: d :: l => (a * 16777216 + b * 65536 + c * 256 + d) :: be_word l
  | _ => []
  end.

Definition be_bytes (n : nat) (z : Z) : list Z :=
  rev (map (λ i, Z.shiftr z (8 * Z.of_nat i) `mod` 256) (seq 0 n)).

Definition pad (l : list Z) : list Z :=
  let n := Z.of_nat (length l) in
  l ++ [128] ++ repeat 0 (Z.to_nat ((55 - n) `mod` 64)) ++ be_bytes 8 (8 * n).

(** The message schedule, newest word first. *)
Fixpoint schedule (n : nat) (w : list Z) : list Z :=
  match n with
  | O => w
  | S n =>
      let at_ i := nth i w 0 in
      let s0 := let x := at_ 14%nat in Z.lxor (Z.lxor (rotr 7 x) (rotr 18 x)) (Z.shiftr x 3) in
      let s1 := let x := at_ 1%nat in Z.lxor (Z.lxor (rotr 17 x) (rotr 19 x)) (Z.shiftr x 10) in
      schedule n (w32 (at_ 15%nat + s0 + at_ 6%nat + s1) :: w)
  end.

Definition round (v : list Z) (kw : Z * Z) : list Z :=
  match v with
  | [a; b; c; d; e; f; g; h] =>
      let s1 := Z.lxor (Z.lxor (rotr 6 e) (rotr 11 e)) (rotr 25 e) in
      let ch := Z.lxor (Z.land e f) (Z.land (Z.lxor e 4294967295) g) in
      let t1 := h + s1 + ch + kw.1 + kw.2 in
      let s0 := Z.lxor (Z.lxor (rotr 2 a) (rotr 13 a)) (rotr 22 a) in
      let maj := Z.lxor (Z.lxor (Z.land a b) (Z.land a c)) (Z.land b c) in
      [w32 (t1 + s0 + maj); a; b; c; w32 (d + t1); e; f; g]
  | _ => v
  end.

Definition compress (h : list Z) (block : list Z) : list Z :=
  let w := rev (schedule 48 (rev (be_word block))) in
  zip_with (λ x y, w32 (x + y)) h (fold_left round (zip round_constants w) h).

Fixpoint blocks (n : nat) (l : list Z) : list (list Z) :=
  match n with O => [] | S n => firstn 64 l :: blocks n (skipn 64 l) end.

(** [sha256.Sum256] *)
Definition Sum256 (data : list Z) : list Z :=
  let p := pad data in
  concat (map (be_bytes 4) (fold_left compress (blocks (length p / 64) p) initial_words)).

(** [hash] of [turnretry/store.go] *)
Definition hash (value : string) : string := hex_encode (Sum256 (bytes_of value)).

(** The published test vectors. *)
Example sha256_abc :
  hash "abc" = "ba7816bf8f01cfea414140de5dae2223b00361a396177a9cb410ff61f20015ad".
Proof. vm_compute. reflexivity. Qed.

Example sha256_empty :
  hash "" = "e3b0c44298fc1c149afbf4c8996fb92427ae41e4649b934ca495991b7852b855".
Proof. vm_compute. reflexivity. Qed.

Example sha256_two_blocks :
  hash "abcdbcdecdefdefgefghfghighijhijkijkljklmklmnlmnomnopnopq" =
  "248d6a61d20638b8e5c026930c3e6039a33ce45964ff2167f6ecedd419db06c1".
Proof. vm_compute. reflexivity. Qed.

Lemma hash_hex value : all_chars is_lower_hex (hash value) = true.
Proof. apply hex_encode_all_hex. Qed.

Lemma be_bytes_length n z : length (be_bytes n z) = n.
Proof. unfold be_bytes. by rewrite length_rev, length_map, length_seq. Qed.

Lemma fold_compress_length bs h :
  length h = 8%nat → length (fold_left compress bs h) = 8%nat.
Proof.
  revert h; induction bs as [|b bs IH]; intros h Hh; simpl; [done|].
  apply IH. unfold compress. rewrite length_zip_with, Hh.
  cut (∀ kws v, length v = 8%nat → length (fold_left round kws v) = 8%nat).
  { intros Hr. by rewrite Hr. }
  induction kws as [|kw kws IHk]; intros v Hv; simpl; [done|].
  apply IHk. do 8 (destruct v as [|? v]; [done|]). by destruct v.
Qed.

(** A digest is 64 lower-case hexadecimal digits, whatever was hashed. *)
Lemma hash_length value : String.length (hash value) = 64%nat.
Proof.
  unfold hash. rewrite hex_encode_length. unfold Sum256.
  assert (∀ ws, length (concat (map (be_bytes 4) ws)) = (4 * length ws)%nat) as ->.
  { induction ws as [|w ws IH]; cbn [map concat length]; [done|].
    rewrite length_app, be_bytes_length, IH. lia. }
  by rewrite fold_compress_length.
Qed.

Lemma match_hash value : match_classes (repeat is_lower_hex 64) (hash value) = true.
Proof. apply match_classes_repeat; [apply hash_length|apply hash_hex]. Qed.

#[export] Hint Resolve hash_hex match_hash : go.
Arguments hash : simpl never.
Arguments Sum256 : simpl never.
