(* ===== verification/GoJson.v ===== *)
(** * JSON as [encoding/json] writes it

    [json.Marshal] of the values the source marshals: strings with Go's HTML
    escaping, integers, booleans, nil-able pointers and slices, structs with
    [omitempty], maps with sorted string keys and [json.RawMessage], which is
    checked and compacted.  [None] is a marshalling error.  The source compares
    the length of these texts with its limits and hashes them. *)

From S2P Require Import Prelude GoStrings.
From Stdlib Require Import Ascii.
From stdpp Require Import pretty.

Open Scope Z_scope.

Definition json := option string.

(** ** Strings *)

Definition dquote : ascii := "034"%char.
Definition bslash : ascii := "092"%char.
Definition escaped (c : ascii) (s : string) : string := String bslash (String c s).
Definition u_escape (z : Z) : string :=
  String bslash (String "u"%char (String "0"%char (String "0"%char (hex_encode [z])))).
Definition replacement_escape : string := String bslash "ufffd".

(** One ASCII character under [htmlSafeSet] and the short escapes. *)
Definition escape_ascii (c : ascii) : string :=
  let z := code c in
  if (z =? 34) || (z =? 92) then escaped c ""
  else if z =? 8 then escaped "b" "" else if z =? 12 then escaped "f" ""
  else if z =? 10 then escaped "n" "" else if z =? 13 then escaped "r" ""
  else if z =? 9 then escaped "t" ""
  else if (z <? 32) || (z =? 38) || (z =? 60) || (z =? 62) then u_escape z
  else String c "".

Definition escape_three (a b c : ascii) : string :=
  if (code a =? 226) && (code b =? 128) && (code c =? 168) then String bslash "u2028"
  else if (code a =? 226) && (code b =? 128) && (code c =? 169) then String bslash "u2029"
  else String a (String b (String c "")).

Fixpoint json_escape (s : string) : string :=
  match s with
  | EmptyString => EmptyString
  | String a s1 =>
      if code a <? 128 then escape_ascii a +:+ json_escape s1 else
      match s1 with
      | EmptyString => replacement_escape
      | String b s2 =>
          if utf8_two (code a) (code b) then String a (String b (json_escape s2)) else
          match s2 with
          | EmptyString => replacement_escape +:+ json_escape s1
          | String c s3 =>
              if utf8_three (code a) (code b) (code c)
              then escape_three a b c +:+ json_escape s3 else
              match s3 with
              | EmptyString => replacement_escape +:+ json_escape s1
              | String d s4 =>
                  if utf8_four (code a) (code b) (code c) (code d)
                  then String a (String b (String c (String d (json_escape s4))))
                  else replacement_escape +:+ json_escape s1
              end
          end
      end
  end.

Definition json_string_text (s : string) : string :=
  String dquote (json_escape s +:+ String dquote "").

Definition json_string (s : string) : json := Some (json_string_text s).
Definition json_int (z : Z) : json := Some (pretty z).
Definition json_bool (b : bool) : json := Some (if b then "true" else "false").
Definition json_null : json := Some "null".

(** ** Composites *)

Fixpoint join (sep : string) (l : list string) : string :=
  match l with [] => "" | [x] => x | x :: l => x +:+ sep +:+ join sep l end.

Definition json_array (l : list json) : json :=
  l ← mapM id l; Some ("[" +:+ join "," l +:+ "]").

(** A nil slice is [null]. *)
Definition json_slice {A} (f : A → json) (s : slice A) : json :=
  match s with None => json_null | Some l => json_array (map f l) end.

(** A nil pointer is [null]. *)
Definition json_ptr {A} (f : A → json) (p : option A) : json :=
  match p with None => json_null | Some a => f a end.

(** A struct field: [None] when [omitempty] drops it. *)
Definition jfield := option (string * json).
Definition field (name : string) (v : json) : jfield := Some (name, v).
Definition omitempty (empty : bool) (name : string) (v : json) : jfield :=
  if empty then None else Some (name, v).

Definition member_text (m : string * json) : json :=
  v ← m.2; Some (json_string_text m.1 +:+ ":" +:+ v).

Definition json_struct (fields : list jfield) : json :=
  l ← mapM member_text (omap id fields); Some ("{" +:+ join "," l +:+ "}").

(** Map keys are sorted by their bytes. *)
Fixpoint insert_key {A} (m : string * A) (l : list (string * A)) : list (string * A) :=
  match l with
  | [] => [m]
  | x :: l' => if String.leb m.1 x.1 then m :: l else x :: insert_key m l'
  end.
Definition sort_keys {A} (l : list (string * A)) : list (string * A) := foldr insert_key [] l.
Lemma insert_key_perm {A} (m : string * A) l : insert_key m l ≡ₚ m :: l.
Proof. induction l as [|x l IH]; [done|]. cbn. destruct (String.leb _ _); [done|]. rewrite IH. constructor. Qed.
Lemma sort_keys_perm {A} (l : list (string * A)) : sort_keys l ≡ₚ l.
Proof. induction l as [|x l IH]; [done|]. cbn. by rewrite insert_key_perm, IH. Qed.

Definition json_map {A} (f : A → json) (m : gmap string A) : json :=
  l ← mapM member_text (map (λ kv, (kv.1, f kv.2)) (sort_keys (map_to_list m)));
  Some ("{" +:+ join "," l +:+ "}").

(** ** [json.RawMessage]

    A recogniser of JSON values that writes the compacted text.  The input is
    consumed at every step of a string, number or composite, so its length
    bounds the fuel; [depth] is the decoder's nesting limit. *)

Definition is_ws (c : ascii) : bool :=
  let z := code c in (z =? 32) || (z =? 9) || (z =? 10) || (z =? 13).
Fixpoint skip_ws (l : list ascii) : list ascii :=
  match l with c :: l' => if is_ws c then skip_ws l' else l | [] => [] end.
Definition is_digit (c : ascii) : bool := in_range 48 57 (code c).
Definition is_hex (c : ascii) : bool := is_lower_hex c || in_range 65 70 (code c).

Definition parsed := option (list ascii * list ascii).

Fixpoint take_digits (l : list ascii) : list ascii * list ascii :=
  match l with
  | c :: l' => if is_digit c then let '(d, r) := take_digits l' in (c :: d, r) else ([], l)
  | [] => ([], [])
  end.

Definition some_digits (l : list ascii) : parsed :=
  match take_digits l with ([], _) => None | (d, r) => Some (d, r) end.

Definition scan_integer (l : list ascii) : parsed :=
  match l with
  | "0"%char :: r => Some (["0"%char], r)
  | _ => some_digits l
  end.

Definition scan_fraction (l : list ascii) : parsed :=
  match l with
  | "."%char :: r => '(d, r) ← some_digits r; Some ("."%char :: d, r)
  | _ => Some ([], l)
  end.

Definition scan_exponent (l : list ascii) : parsed :=
  match l with
  | e :: r =>
      if (code e =? 101) || (code e =? 69) then
        match r with
        | s :: r' => if (code s =? 43) || (code s =? 45)
                     then '(d, r) ← some_digits r'; Some (e :: s :: d, r)
                     else '(d, r) ← some_digits r; Some (e :: d, r)
        | [] => None
        end
      else Some ([], l)
  | [] => Some ([], [])
  end.

Definition scan_number (l : list ascii) : parsed :=
  let '(sign, l) := match l with "-"%char :: r => (["-"%char], r) | _ => ([], l) end in
  '(i, l) ← scan_integer l; '(f, l) ← scan_fraction l; '(e, l) ← scan_exponent l;
  Some (sign ++ i ++ f ++ e, l).

Definition escape_in_compact (c : ascii) : list ascii :=
  if (code c =? 38) || (code c =? 60) || (code c =? 62)
  then String.list_ascii_of_string (u_escape (code c)) else [c].

(** The body of a string after its opening quote. *)
Fixpoint scan_string (l : list ascii) : parsed :=
  match l with
  | [] => None
  | c :: l1 =>
      if code c =? 34 then Some ([c], l1)
      else if code c =? 92 then
        match l1 with
        | e :: l2 =>
            if existsb (Z.eqb (code e)) [34; 92; 47; 98; 102; 110; 114; 116]
            then '(o, r) ← scan_string l2; Some (c :: e :: o, r)
            else match e, l2 with
                 | "u"%char, h1 :: h2 :: h3 :: h4 :: l3 =>
                     if forallb is_hex [h1; h2; h3; h4]
                     then '(o, r) ← scan_string l3; Some (c :: e :: h1 :: h2 :: h3 :: h4 :: o, r)
                     else None
                 | _, _ => None
                 end
        | [] => None
        end
      else if code c <? 32 then None
      else match l1 with
           | b :: d :: l3 =>
               if (code c =? 226) && (code b =? 128) && ((code d =? 168) || (code d =? 169))
               then '(o, r) ← scan_string l3;
                    Some (String.list_ascii_of_string (escape_three c b d) ++ o, r)
               else '(o, r) ← scan_string l1; Some (escape_in_compact c ++ o, r)
           | _ => '(o, r) ← scan_string l1; Some (escape_in_compact c ++ o, r)
           end
  end.

Definition scan_word (w : string) (l : list ascii) : parsed :=
  let w := String.list_ascii_of_string w in
  if decide (firstn (length w) l = w) then Some (w, skipn (length w) l) else None.

Definition max_nesting : Z := 10000.

Inductive scan_mode := Value | Elements | Members.

(** [Elements] and [Members] scan the rest of a composite after an element. *)
Fixpoint scan (fuel : nat) (mode : scan_mode) (depth : Z) (l : list ascii) : parsed :=
  match fuel with
  | O => None
  | S fuel =>
      let member depth l :=
        match skip_ws l with
        | "034"%char :: l =>
            '(k, l) ← scan_string l;
            match skip_ws l with
            | ":"%char :: l =>
                '(v, l) ← scan fuel Value depth l;
                '(o, l) ← scan fuel Members depth l;
                Some (dquote :: k ++ ":"%char :: v ++ o, l)
            | _ => None
            end
        | _ => None
        end in
      let element depth l :=
        '(v, l) ← scan fuel Value depth l; '(o, l) ← scan fuel Elements depth l;
        Some (v ++ o, l) in
      match mode, skip_ws l with
      | Elements, "]"%char :: l => Some (["]"%char], l)
      | Elements, ","%char :: l => '(o, l) ← element depth l; Some (","%char :: o, l)
      | Members, "}"%char :: l => Some (["}"%char], l)
      | Members, ","%char :: l => '(o, l) ← member depth l; Some (","%char :: o, l)
      | Value, "{"%char :: l =>
          if max_nesting <=? depth then None else
          match skip_ws l with
          | "}"%char :: l => Some (["{"%char; "}"%char], l)
          | l => '(o, l) ← member (depth + 1) l; Some ("{"%char :: o, l)
          end
      | Value, "["%char :: l =>
          if max_nesting <=? depth then None else
          match skip_ws l with
          | "]"%char :: l => Some (["["%char; "]"%char], l)
          | l => '(o, l) ← element (depth + 1) l; Some ("["%char :: o, l)
          end
      | Value, "034"%char :: l => '(o, l) ← scan_string l; Some (dquote :: o, l)
      | Value, "t"%char :: _ => scan_word "true" (skip_ws l)
      | Value, "f"%char :: _ => scan_word "false" (skip_ws l)
      | Value, "n"%char :: _ => scan_word "null" (skip_ws l)
      | Value, l => scan_number l
      | _, _ => None
      end
  end.

(** [json.RawMessage.MarshalJSON] followed by the encoder's compaction; a nil
    or empty message is [null] (fields with [omitempty] drop it instead). *)
Definition json_raw (raw : string) : json :=
  match raw with
  | EmptyString => json_null
  | _ =>
      let l := String.list_ascii_of_string raw in
      '(o, r) ← scan (S (S (2 * length l))) Value 0 l;
      match skip_ws r with [] => Some (String.string_of_list_ascii o) | _ => None end
  end.

Example json_string_example :
  json_string (String "060" (String "010" "a")) =
  Some (String "034" (String "092" "u003c" +:+ String "092" "n" +:+ String "a" (String "034" ""))).
Proof. vm_compute. reflexivity. Qed.

Example json_raw_example : json_raw " [1, true ,{ } ] " = Some "[1,true,{}]".
Proof. vm_compute. reflexivity. Qed.

Example json_raw_invalid : json_raw "[1,]" = None.
Proof. vm_compute. reflexivity. Qed.

Arguments json_struct : simpl never.
Arguments json_slice : simpl never.
Arguments json_map : simpl never.
Arguments json_raw : simpl never.
