(* ===== verification/GoFloat.v ===== *)
(** * The binary64 arithmetic behind the retry jitter

    The source multiplies an integer duration by a random [float64] and
    converts the product back.  A finite [float64] is [m * 2^e]; the product is
    rounded to 53 bits, ties to even, and truncated toward zero. *)

From S2P Require Import Prelude.

Open Scope Z_scope.

Inductive float64 :=
  | F64_nan
  | F64_inf (negative : bool)
  | F64_fin (m e : Z).

(** [x < 0] and [x > 1]; comparisons with NaN are false. *)
Definition f64_lt_0 (x : float64) : bool :=
  match x with F64_nan => false | F64_inf n => n | F64_fin m _ => m <? 0 end.
Definition f64_gt_1 (x : float64) : bool :=
  match x with
  | F64_nan => false
  | F64_inf n => negb n
  | F64_fin m e => if 0 <=? e then 1 <? m * 2 ^ e else 2 ^ (- e) <? m
  end.

(** Rounding of [m >= 0] to 53 significant bits: the shift and the result. *)
Definition round53 (m : Z) : Z * Z :=
  if m <? 2 ^ 53 then (m, 0) else
  let k := Z.log2 m - 52 in
  let q := m `div` 2 ^ k in
  let r := m `mod` 2 ^ k in
  let half := 2 ^ (k - 1) in
  (if r <? half then q else if half <? r then q + 1 else if Z.even q then q else q + 1, k).

(** [float64(d) * x] for an integer [d >= 0] below [2^53] and [x >= 0]; the
    exponent range is not exceeded for the durations of the source. *)
Definition f64_mul_int (d : Z) (x : float64) : float64 :=
  match x with
  | F64_nan => F64_nan
  | F64_inf n => if d =? 0 then F64_nan else F64_inf n
  | F64_fin m e => let '(q, k) := round53 (d * m) in F64_fin q (e + k)
  end.

(** [int64(x)]; Go leaves the value of an unrepresentable conversion to the
    implementation, and the packaged platform (x86-64) yields [-2^63]. *)
Definition f64_to_int64 (x : float64) : Z :=
  match x with
  | F64_nan | F64_inf _ => - 2 ^ 63
  | F64_fin m e =>
      let t := if 0 <=? e then m * 2 ^ e else Z.quot m (2 ^ (- e)) in
      if (- 2 ^ 63 <=? t) && (t <? 2 ^ 63) then t else - 2 ^ 63
  end.

(** ** Lemmas *)

Lemma round53_nonneg m : 0 <= m → 0 <= (round53 m).1 ∧ 0 <= (round53 m).2.
Proof.
  intros Hm. unfold round53. destruct (Z.ltb_spec m (2 ^ 53)); simpl; [lia|].
  assert (53 <= Z.log2 m) by (apply Z.log2_le_pow2; lia).
  pose proof (Z.div_pos m (2 ^ (Z.log2 m - 52))).
  split; [|lia].
  repeat case_match; lia.
Qed.

(** Rounding does not pass a representable bound: when [m] is at most a multiple
    [j] of the rounding unit, so is the rounded value. *)
Lemma round53_le m j :
  0 <= m → m <= j * 2 ^ (round53 m).2 → (round53 m).1 <= j.
Proof.
  intros Hm. unfold round53. destruct (Z.ltb_spec m (2 ^ 53)); simpl; [lia|].
  assert (53 <= Z.log2 m) as Hl by (apply Z.log2_le_pow2; lia).
  set (k := Z.log2 m - 52). intros Hj.
  assert (2 ^ k = 2 * 2 ^ (k - 1)) as Hk.
  { rewrite <- Z.pow_succ_r by lia. f_equal. lia. }
  assert (0 < 2 ^ (k - 1)) by (apply Z.pow_pos_nonneg; lia).
  pose proof (Z.div_mod m (2 ^ k)) as Hd. pose proof (Z.mod_pos_bound m (2 ^ k)).
  set (q := m `div` 2 ^ k) in *. set (r := m `mod` 2 ^ k) in *.
  assert (q <= j) by nia.
  assert (0 < r → q + 1 <= j) by (intros; nia).
  repeat case_match; lia.
Qed.

Lemma round53_shift_bound m c :
  0 <= m → 0 <= c → m < 2 ^ (53 + c) → (round53 m).2 <= c.
Proof.
  intros Hm Hc Hb. unfold round53. destruct (Z.ltb_spec m (2 ^ 53)); simpl; [lia|].
  assert (Z.log2 m < 53 + c) by (apply Z.log2_lt_pow2; lia). lia.
Qed.

(** A duration scaled by a factor in [0, 1] stays between zero and itself. *)
Lemma scaled_duration_bounds d x :
  0 <= d < 2 ^ 53 → x ≠ F64_nan → f64_lt_0 x = false → f64_gt_1 x = false →
  0 <= f64_to_int64 (f64_mul_int d x) <= d.
Proof.
  intros Hd Hnan Hlo Hhi. destruct x as [|[]|m e]; try done; simpl in Hlo, Hhi.
  apply Z.ltb_ge in Hlo. unfold f64_mul_int.
  assert (0 <= d * m) as Hdm by nia.
  destruct (round53_nonneg (d * m) Hdm) as [Hq Hk].
  pose proof (round53_le (d * m)) as Hle. pose proof (round53_shift_bound (d * m)) as Hsh.
  destruct (round53 (d * m)) as [q k] eqn:Er. simpl in *.
  assert (0 <= (if 0 <=? e + k then q * 2 ^ (e + k) else Z.quot q (2 ^ (- (e + k)))) <= d) as Ht.
  { destruct (Z.leb_spec 0 e) as [He|He].
    - assert (m <= 1) by (pose proof (Z.pow_pos_nonneg 2 e); apply Z.ltb_ge in Hhi; nia).
      assert (k <= 0) by (apply (Hsh 0); nia).
      assert (k = 0) as -> by lia. rewrite Z.add_0_r.
      rewrite (proj2 (Z.leb_le 0 e)) by lia.
      assert (q <= d * m) by (apply Hle; lia).
      apply Z.ltb_ge in Hhi. pose proof (Z.pow_pos_nonneg 2 e). nia.
    - apply Z.ltb_ge in Hhi.
      assert (k <= - e) as Hke.
      { apply Hsh; [lia|lia|]. rewrite Z.pow_add_r by lia.
        pose proof (Z.pow_pos_nonneg 2 (- e)). nia. }
      assert (q <= d * 2 ^ (- (e + k))) as Hqd.
      { apply Hle; [lia|]. rewrite <- Z.mul_assoc, <- Z.pow_add_r by lia.
        replace (- (e + k) + k) with (- e) by lia. nia. }
      destruct (Z.leb_spec 0 (e + k)) as [H0|H0].
      + assert (e + k = 0) as Hz by lia. rewrite Hz in *. simpl in *. lia.
      + rewrite Z.quot_div_nonneg by (try apply Z.pow_pos_nonneg; lia).
        pose proof (Z.pow_pos_nonneg 2 (- (e + k))).
        split; [apply Z.div_pos; lia|].
        apply Z.div_le_upper_bound; [lia|]. nia. }
  unfold f64_to_int64. rewrite (proj2 (andb_true_iff _ _)); [done|]. split; lia.
Qed.
