(* ===== verification/GoDecimal.v ===== *)
(** * Decimal text

    Strings as lists of characters, and the decimal digits [strconv] and the JSON
    encoder print and the parsers read back. *)

From S2P Require Import Prelude GoStrings GoJson.
From Stdlib Require Import Ascii.
From stdpp Require Import pretty.

Open Scope Z_scope.

Abbreviation chars := String.list_ascii_of_string.

Definition digit (c : ascii) : Z := code c - 48.
Definition digits_value (acc : Z) (l : list ascii) : Z := foldl (λ a c, 10 * a + digit c) acc l.

Lemma code_inj c d : code c = code d → c = d.
Proof.
  unfold code. intros H%N2Z.inj. by rewrite <- (ascii_N_embedding c), <- (ascii_N_embedding d), H.
Qed.
Lemma is_char_spec c d : is_char c d = true ↔ c = d.
Proof. unfold is_char. rewrite Z.eqb_eq. split; [apply code_inj|by intros ->]. Qed.
Lemma append_cons c a b : String c a +:+ b = String c (a +:+ b).
Proof. done. Qed.
Lemma strlen_append a b : strlen (a +:+ b) = strlen a + strlen b.
Proof. unfold strlen. induction a as [|c a IH]; [done|]. rewrite append_cons. cbn [String.length]. lia. Qed.
Lemma append_nil b : "" +:+ b = b.
Proof. done. Qed.
Lemma chars_app a b : chars (a +:+ b) = chars a ++ chars b.
Proof. induction a as [|c a IH]; [done|]. rewrite append_cons. simpl. by rewrite IH. Qed.
Lemma append_assoc (a b c : string) : (a +:+ b) +:+ c = a +:+ (b +:+ c).
Proof. induction a as [|x a IH]; [done|]. by rewrite !append_cons, IH. Qed.

Lemma string_of_chars s : String.string_of_list_ascii (chars s) = s.
Proof. apply String.string_of_list_ascii_of_string. Qed.

Lemma digit_cases c : is_digit c = true →
  In c ["0"; "1"; "2"; "3"; "4"; "5"; "6"; "7"; "8"; "9"]%char.
Proof.
  unfold is_digit, in_range. rewrite andb_true_iff, !Z.leb_le. intros H.
  assert (In (code c) [48; 49; 50; 51; 52; 53; 54; 55; 56; 57]) as Hin by (simpl; lia).
  simpl in Hin. simpl. destruct_or! Hin; try done;
    [left|right; left|right;right;left|do 3 right; left|do 4 right; left|do 5 right; left|do 6 right; left
    |do 7 right; left|do 8 right; left|do 9 right; left]; by apply code_inj.
Qed.

(** ** Decimal integers *)

Lemma pretty_digit x : (x < 10)%N →
  is_digit (pretty_N_char x) = true ∧ code (pretty_N_char x) - 48 = Z.of_N x ∧ (pretty_N_char x = "0"%char → x = 0%N).
Proof.
  intros H. assert (In x [0; 1; 2; 3; 4; 5; 6; 7; 8; 9]%N) as Hin by (simpl; lia).
  simpl in Hin. by destruct_or! Hin; subst.
Qed.

Lemma pretty_go_digits x s :
  forallb is_digit (chars s) = true →
  forallb is_digit (chars (pretty_N_go x s)) = true ∧
  digits_value 0 (chars (pretty_N_go x s)) = digits_value (Z.of_N x) (chars s) ∧
  (x ≠ 0%N → ∃ d s', pretty_N_go x s = String d s' ∧ d ≠ "0"%char).
Proof.
  revert s. induction (N.lt_wf_0 x) as [x _ IH]; intros s Hs.
  destruct (decide (x = 0%N)) as [->|Hx]; [by rewrite pretty_N_go_0|].
  rewrite pretty_N_go_step by lia.
  destruct (pretty_digit (x `mod` 10)) as (Hd & Hv & Hz); [by apply N.mod_lt|].
  destruct (IH (x `div` 10)%N (N.div_lt x 10 ltac:(lia) eq_refl) (String (pretty_N_char (x `mod` 10)) s)) as (H1 & H2 & H3).
  { simpl. by rewrite Hd, Hs. }
  split; [done|]. split.
  - rewrite H2. unfold digits_value. simpl. f_equal. unfold digit. rewrite Hv. pose proof (N.div_mod x 10). lia.
  - intros _. destruct (decide (x `div` 10 = 0)%N) as [E|E]; [|by apply H3].
    rewrite E, pretty_N_go_0. exists (pretty_N_char (x `mod` 10)), s. split; [done|]. intros Hc%Hz.
    apply Hx. pose proof (N.div_mod x 10). lia.
Qed.

Lemma pretty_go_length (k : nat) x s : (x < 10 ^ N.of_nat k)%N → (String.length (pretty_N_go x s) ≤ k + String.length s)%nat.
Proof.
  revert x s. induction k as [|k IH]; intros x s Hx.
  - assert (x = 0%N) as -> by (simpl in Hx; lia). by rewrite pretty_N_go_0.
  - destruct (decide (x = 0%N)) as [->|Hne]; [rewrite pretty_N_go_0; lia|].
    rewrite pretty_N_go_step by lia. etrans; [apply IH|simpl; lia].
    apply N.Div0.div_lt_upper_bound. rewrite Nat2N.inj_succ, N.pow_succ_r' in Hx. lia.
Qed.

Lemma chars_length s : length (chars s) = String.length s.
Proof. induction s; simpl; auto. Qed.
