(* ===== verification/Codex.v ===== *)
(** * The codex-web client library

    The portal imports [github.com/aither64/codex-web/codex], which is not part
    of the repository.  [CodexWeb] is the interface the source relies on: the
    types it stores, the fields it reads or assigns, [==] on the comparable
    ones, [reflect.DeepEqual] on thread policies and the JSON text of each type
    ([None] is a marshalling error).  The laws are those of struct fields. *)

From S2P Require Import Prelude GoStrings GoJson.

Class CodexWeb := {
  ThreadPolicy : Type;
  TurnOptions : Type;
  AdditionalContextEntry : Type;
  SendReceipt : Type;

  opts_Model : TurnOptions → string;
  opts_ReasoningEffort : TurnOptions → string;
  opts_ThreadPolicy : TurnOptions → ThreadPolicy;
  opts_AdditionalContext : TurnOptions → option (gmap string AdditionalContextEntry);
  opts_set_AdditionalContext :
    TurnOptions → gmap string AdditionalContextEntry → TurnOptions;
  make_entry : string → string → AdditionalContextEntry;
  receipt_TurnID : SendReceipt → string;

  entry_eq_dec :: EqDecision AdditionalContextEntry;
  DeepEqual : ThreadPolicy → ThreadPolicy → bool;

  marshal_ThreadPolicy : ThreadPolicy → json;
  marshal_TurnOptions : TurnOptions → json;
  marshal_Entry : AdditionalContextEntry → json;
  marshal_SendReceipt : SendReceipt → json;

  opts_get_set : ∀ o m, opts_AdditionalContext (opts_set_AdditionalContext o m) = Some m;
  opts_set_keeps : ∀ o m,
    let o' := opts_set_AdditionalContext o m in
    opts_Model o' = opts_Model o ∧ opts_ReasoningEffort o' = opts_ReasoningEffort o ∧
    opts_ThreadPolicy o' = opts_ThreadPolicy o;
}.

(** A concrete instance, used to run the model on examples. *)

Record sample_options := mkSample {
  sample_model : string;
  sample_effort : string;
  sample_policy : string;
  sample_context : option (gmap string (string * string)) }.

Definition sample_marshal (o : sample_options) : json :=
  json_struct [field "model" (json_string (sample_model o));
               field "effort" (json_string (sample_effort o));
               field "policy" (json_string (sample_policy o));
               field "additionalContext"
                 (json_ptr (json_map (λ e, json_string e.2)) (sample_context o))].

#[refine] Definition SampleCodex : CodexWeb := {|
  ThreadPolicy := string;
  TurnOptions := sample_options;
  AdditionalContextEntry := (string * string)%type;
  SendReceipt := string;
  opts_Model := sample_model;
  opts_ReasoningEffort := sample_effort;
  opts_ThreadPolicy := sample_policy;
  opts_AdditionalContext := sample_context;
  opts_set_AdditionalContext o m :=
    mkSample (sample_model o) (sample_effort o) (sample_policy o) (Some m);
  make_entry kind value := (kind, value);
  receipt_TurnID := λ r, r;
  DeepEqual p q := bool_decide (p = q);
  marshal_ThreadPolicy := json_string;
  marshal_TurnOptions := sample_marshal;
  marshal_Entry e := json_string e.2;
  marshal_SendReceipt := json_string;
|}.
Proof. all: done. Defined.
