(* ===== verification/RetryTypes.v ===== *)
(** * Automatic retry: data

    The types of package [turnretry] ([state.go], [managed_turn.go] and the
    session authority of [policy.go]), their JSON text and their digests. *)

From S2P Require Import Prelude GoStrings Sha256 GoJson Codex.

Open Scope Z_scope.

Definition Schema : Z := 2.
Definition MaxBytes : Z := 1024 * 1024.
Definition MaxSnapshotBytes : Z := 256 * 1024.
Definition CyberLimit : Z := 30.
Definition MaxSnapshots : Z := 64.
Definition receiptReserveBytes : Z := 8192.
Definition Continuation : string :=
  "Continue the interrupted task from the saved conversation. Inspect the current state before repeating actions.".

Definition attemptIDPattern (s : string) : bool := match_classes uuid_classes s.

Record Scope := mkScope {
  scope_Workspace : string; scope_Slug : string; scope_Root : string;
  scope_Thread : string; scope_Socket : string }.

#[export] Instance Scope_eq_dec : EqDecision Scope.
Proof. solve_decision. Defined.

Definition Scope_json (s : Scope) : json :=
  json_struct [field "workspace" (json_string (scope_Workspace s));
               field "slug" (json_string (scope_Slug s));
               field "root" (json_string (scope_Root s));
               field "thread" (json_string (scope_Thread s));
               field "socket" (json_string (scope_Socket s))].

Record Charge := mkCharge { charge_ID : string; charge_AtMS : Z; charge_Accepted : bool }.
#[export] Instance eta_Charge : Eta Charge :=
  λ c, mkCharge (charge_ID c) (charge_AtMS c) (charge_Accepted c).
#[export] Instance Charge_eq_dec : EqDecision Charge.
Proof. solve_decision. Defined.

Record Observation := mkObservation { obs_Turn : string; obs_Status : string; obs_Code : string }.
#[export] Instance Observation_eq_dec : EqDecision Observation.
Proof. solve_decision. Defined.

(** Session authority: [Enrollment], [Suppression] and [Decision]. *)
Record Enrollment := mkEnrollment { enr_Turn : string; enr_Active : bool }.
Record Suppression := mkSuppression { sup_Chain : string; sup_Pending : string; sup_Result : string }.

#[export] Instance Enrollment_eq_dec : EqDecision Enrollment.
Proof. solve_decision. Defined.
#[export] Instance Suppression_eq_dec : EqDecision Suppression.
Proof. solve_decision. Defined.
#[export] Instance eta_Suppression : Eta Suppression :=
  λ v, mkSuppression (sup_Chain v) (sup_Pending v) (sup_Result v).

Record Decision := mkDecision {
  dec_Revision : string;
  dec_Capacity : bool; dec_Cybersecurity : bool;
  dec_CapacityBaseline : Enrollment; dec_CybersecurityBaseline : Enrollment;
  dec_Suppressed : list Suppression }.

Section Types.
Context {CW : CodexWeb}.

Record Snapshot := mkSnapshot {
  snap_Epoch : Z; snap_Version : Z;
  snap_ID : string; snap_Turn : string; snap_Origin : string;
  snap_Provider : string; snap_Mode : string; snap_CommonInstructions : string;
  snap_Options : TurnOptions;
  snap_Digest : string; snap_Proven : bool; snap_TextDigest : string;
  snap_SocketIdentity : string; snap_NativeContext : string; snap_BindingDigest : string }.

#[export] Instance eta_Snapshot : Eta Snapshot := λ s,
  mkSnapshot (snap_Epoch s) (snap_Version s) (snap_ID s) (snap_Turn s) (snap_Origin s)
    (snap_Provider s) (snap_Mode s) (snap_CommonInstructions s) (snap_Options s)
    (snap_Digest s) (snap_Proven s) (snap_TextDigest s) (snap_SocketIdentity s)
    (snap_NativeContext s) (snap_BindingDigest s).

Definition Snapshot_json (s : Snapshot) : json :=
  json_struct [field "epoch" (json_int (snap_Epoch s));
               field "version" (json_int (snap_Version s));
               field "id" (json_string (snap_ID s));
               field "turn" (json_string (snap_Turn s));
               field "origin" (json_string (snap_Origin s));
               field "provider" (json_string (snap_Provider s));
               field "mode" (json_string (snap_Mode s));
               field "commonInstructions" (json_string (snap_CommonInstructions s));
               field "options" (marshal_TurnOptions (snap_Options s));
               field "digest" (json_string (snap_Digest s));
               field "proven" (json_bool (snap_Proven s));
               field "textDigest" (json_string (snap_TextDigest s));
               field "socketIdentity" (json_string (snap_SocketIdentity s));
               omitempty (snap_NativeContext s == "") "nativeContext"
                 (json_raw (snap_NativeContext s));
               field "bindingDigest" (json_string (snap_BindingDigest s))].

(** [Snapshot.Hash]: the receiver is a copy, so clearing fields is local. *)
Definition Snapshot_Hash (s : Snapshot) : result string :=
  let s := s <| snap_Digest := "" |> <| snap_Turn := "" |> <| snap_Proven := false |> in
  match Snapshot_json s with
  | None => Err (ErrorsNew "json: error calling MarshalJSON")
  | Some data =>
      if MaxSnapshotBytes <? strlen data
      then Err (ErrorsNew "retry settings snapshot exceeds 256 KiB")
      else Ok (hash data)
  end.

Record Binding := mkBinding {
  bind_Epoch : Z; bind_SocketIdentity : string; bind_Provider : string;
  bind_Policy : ThreadPolicy; bind_CommonInstructions : string; bind_Digest : string }.

#[export] Instance eta_Binding : Eta Binding := λ b,
  mkBinding (bind_Epoch b) (bind_SocketIdentity b) (bind_Provider b) (bind_Policy b)
    (bind_CommonInstructions b) (bind_Digest b).

Definition Binding_json (b : Binding) : json :=
  json_struct [field "epoch" (json_int (bind_Epoch b));
               field "socketIdentity" (json_string (bind_SocketIdentity b));
               field "provider" (json_string (bind_Provider b));
               field "policy" (marshal_ThreadPolicy (bind_Policy b));
               field "commonInstructions" (json_string (bind_CommonInstructions b));
               field "digest" (json_string (bind_Digest b))].

Definition Binding_Hash (b : Binding) : result string :=
  match Binding_json (b <| bind_Digest := "" |>) with
  | None => Err (ErrorsNew "json: error calling MarshalJSON")
  | Some data => Ok (hash data)
  end.

Record Pending := mkPending {
  pend_ID : string; pend_Action : string; pend_Failure : string;
  pend_Snapshot : Snapshot; pend_ChargedAtMS : Z; pend_ResultTurn : string }.

#[export] Instance eta_Pending : Eta Pending := λ p,
  mkPending (pend_ID p) (pend_Action p) (pend_Failure p) (pend_Snapshot p)
    (pend_ChargedAtMS p) (pend_ResultTurn p).

Definition Pending_json (p : Pending) : json :=
  json_struct [field "id" (json_string (pend_ID p));
               field "action" (json_string (pend_Action p));
               field "failure" (json_string (pend_Failure p));
               field "snapshot" (Snapshot_json (pend_Snapshot p));
               field "chargedAtMs" (json_int (pend_ChargedAtMS p));
               field "resultTurn" (json_string (pend_ResultTurn p))].

Definition Charge_json (c : Charge) : json :=
  json_struct [field "id" (json_string (charge_ID c));
               field "atMs" (json_int (charge_AtMS c));
               field "accepted" (json_bool (charge_Accepted c))].

(** [managed_turn.go]: authority once, and a commitment to the accepted prefix.
    [None] is the nil [AdditionalContext] map. *)
Record ManagedTurn := mkManagedTurn {
  mt_Version : Z; mt_Turn : string; mt_Epoch : Z; mt_BindingDigest : string;
  mt_Count : Z; mt_Digest : string; mt_LastUserItemID : string;
  mt_AdditionalContext : option (gmap string AdditionalContextEntry) }.

#[export] Instance eta_ManagedTurn : Eta ManagedTurn := λ m,
  mkManagedTurn (mt_Version m) (mt_Turn m) (mt_Epoch m) (mt_BindingDigest m) (mt_Count m)
    (mt_Digest m) (mt_LastUserItemID m) (mt_AdditionalContext m).

Definition ManagedTurn_json (m : ManagedTurn) : json :=
  json_struct [field "version" (json_int (mt_Version m));
               field "turn" (json_string (mt_Turn m));
               field "epoch" (json_int (mt_Epoch m));
               field "bindingDigest" (json_string (mt_BindingDigest m));
               field "count" (json_int (mt_Count m));
               field "digest" (json_string (mt_Digest m));
               field "lastUserItemId" (json_string (mt_LastUserItemID m));
               field "additionalContext"
                 (json_ptr (json_map marshal_Entry) (mt_AdditionalContext m))].

Record State := mkState {
  Epoch : Z; State_Schema : Z; State_Scope : Scope;
  Enabled : bool; Enrolled : bool; Boundary : string;
  Baseline : string; BaselineActive : bool;
  Handled : string; Chain : string; Class_ : string; Phase : string; Reason : string;
  Attempt : Z; Capacity : Z; DeadlineMS : Z; ClockMS : Z;
  Cyber : slice Charge; Cancelled : bool;
  State_Pending : option Pending; Snapshots : slice Snapshot;
  State_Binding : option Binding; State_ManagedTurn : option ManagedTurn }.

#[export] Instance eta_State : Eta State := λ s,
  mkState (Epoch s) (State_Schema s) (State_Scope s) (Enabled s) (Enrolled s) (Boundary s)
    (Baseline s) (BaselineActive s) (Handled s) (Chain s) (Class_ s) (Phase s) (Reason s)
    (Attempt s) (Capacity s) (DeadlineMS s) (ClockMS s) (Cyber s) (Cancelled s)
    (State_Pending s) (Snapshots s) (State_Binding s) (State_ManagedTurn s).

(** [json.Marshal(state)] *)
Definition State_json (s : State) : json :=
  json_struct [field "epoch" (json_int (Epoch s));
               field "schema" (json_int (State_Schema s));
               field "scope" (Scope_json (State_Scope s));
               field "enabled" (json_bool (Enabled s));
               field "enrolled" (json_bool (Enrolled s));
               field "boundary" (json_string (Boundary s));
               field "baseline" (json_string (Baseline s));
               field "baselineActive" (json_bool (BaselineActive s));
               field "handled" (json_string (Handled s));
               field "chain" (json_string (Chain s));
               field "class" (json_string (Class_ s));
               field "phase" (json_string (Phase s));
               field "reason" (json_string (Reason s));
               field "attempt" (json_int (Attempt s));
               field "capacity" (json_int (Capacity s));
               field "deadlineMs" (json_int (DeadlineMS s));
               field "clockMs" (json_int (ClockMS s));
               field "cyber" (json_slice Charge_json (Cyber s));
               field "cancelled" (json_bool (Cancelled s));
               field "pending" (json_ptr Pending_json (State_Pending s));
               field "snapshots" (json_slice Snapshot_json (Snapshots s));
               omitempty (bool_decide (State_Binding s = None)) "binding"
                 (json_ptr Binding_json (State_Binding s));
               omitempty (bool_decide (State_ManagedTurn s = None)) "managedTurn"
                 (json_ptr ManagedTurn_json (State_ManagedTurn s))].

(** [New] *)
Definition New (scope : Scope) : State :=
  mkState 1 Schema scope true false "" "" false "" "" "" "idle" "" 0 0 0 0
    (Some []) false None (Some []) None None.

End Types.

Arguments Snapshot_json : simpl never.
Arguments State_json : simpl never.
Arguments Snapshot_Hash : simpl never.
Arguments Binding_Hash : simpl never.

(** ** Automatic retry: session authority

    [Class] of [state.go] and the methods of [Decision] ([policy.go]): whether a
    failure class is enabled, whether the current chain may proceed, and whether
    an observed failure may start one. *)

(** [Class]: the retryable class of a failure code, or [""]. *)
Definition ClassOf (code : string) : string :=
  if code == "serverOverloaded" then "capacity"
  else if code == "cyberPolicy" then "cybersecurity"
  else "".

(** [Decision.Enabled] *)
Definition Decision_Enabled (d : Decision) (class : string) : bool :=
  (dec_Revision d != "") &&
  ((class == "capacity") && dec_Capacity d || (class == "cybersecurity") && dec_Cybersecurity d).

Section Decision.
Context {CW : CodexWeb}.

Definition pending_is (s : State) (p : Pending → bool) : bool :=
  match State_Pending s with Some v => p v | None => false end.

(** The loop body of [Decision.Allows]. *)
Definition suppresses (s : State) (v : Suppression) : bool :=
  (sup_Chain v == Chain s)
  || pending_is s (λ p, (sup_Pending v != "") && (sup_Pending v == pend_ID p)).

(** [Decision.Allows] *)
Definition Allows (d : Decision) (s : State) : bool :=
  if negb (Decision_Enabled d (Class_ s)) || Cancelled s then false
  else negb (existsb (suppresses s) (dec_Suppressed d)).

(** The loop body of [Decision.Eligible]. *)
Definition excludes (s : State) (o : Observation) (v : Suppression) : bool :=
  (obs_Turn o == sup_Chain v)
  || (sup_Result v != "") && (obs_Turn o == sup_Result v)
  || pending_is s (λ p, (pend_ResultTurn p == obs_Turn o) &&
                        ((sup_Chain v == Chain s) || (sup_Pending v == pend_ID p))).

(** [Decision.Eligible] *)
Definition Eligible (d : Decision) (s : State) (o : Observation) : bool :=
  let class := ClassOf (obs_Code o) in
  if negb (Decision_Enabled d class) then false else
  let baseline := if class == "cybersecurity" then dec_CybersecurityBaseline d
                  else dec_CapacityBaseline d in
  if (obs_Turn o == enr_Turn baseline) && negb (enr_Active baseline) then false
  else negb (existsb (excludes s o) (dec_Suppressed d)).

(** ** Lemmas *)

Lemma class_cases code : ClassOf code = "" ∨ ClassOf code = "capacity" ∨ ClassOf code = "cybersecurity".
Proof. unfold ClassOf. repeat case_bool_decide; auto. Qed.

Lemma Decision_Enabled_class d class :
  Decision_Enabled d class = true → class = "capacity" ∨ class = "cybersecurity".
Proof.
  unfold Decision_Enabled. intros [_ [[H _]%andb_prop|[H _]%andb_prop]%orb_prop]%andb_prop;
    apply bool_decide_eq_true in H; auto.
Qed.

Lemma Allows_Enabled d s : Allows d s = true → Decision_Enabled d (Class_ s) = true ∧ Cancelled s = false.
Proof. unfold Allows. by destruct (Decision_Enabled d (Class_ s)), (Cancelled s). Qed.

Lemma Allows_cancelled d s : Cancelled s = true → Allows d s = false.
Proof. unfold Allows. intros ->. by rewrite orb_true_r. Qed.

Lemma Eligible_Enabled d s o :
  Eligible d s o = true → Decision_Enabled d (ClassOf (obs_Code o)) = true.
Proof. unfold Eligible. by destruct (Decision_Enabled d (ClassOf (obs_Code o))). Qed.

End Decision.

#[export] Hint Resolve Allows_Enabled Allows_cancelled Eligible_Enabled : go.
