(* ===== verification/RetryValidate.v ===== *)
(** * Automatic retry: the durable record's invariant

    [validate] of [store.go] and [validateManagedTurn] of [managed_turn.go]:
    the condition under which a state is loaded, saved and used as a candidate.
    An error is [Some e], as the source's [error] result. *)

From S2P Require Import Prelude GoStrings GoJson Sha256 Codex RetryTypes.
From Stdlib Require Import Ascii.

Open Scope Z_scope.

Definition phases : list string :=
  ["idle"; "scheduled"; "submitting"; "reconciling"; "running"; "cancelled"; "exhausted"; "blocked"].

Definition one_of (value : string) (allowed : list string) : bool :=
  existsb (λ c, value == c) allowed.

Fixpoint first_error {A} (check : A → option error) (l : list A) : option error :=
  match l with
  | [] => None
  | x :: l => match check x with Some e => Some e | None => first_error check l end
  end.

(** The loop over [state.Cyber] with its [charges] map; the zero [Charge] of a
    missing key has an empty ID. *)
Fixpoint collect_charges (m : gmap string Charge) (l : list Charge) : result (gmap string Charge) :=
  match l with
  | [] => Ok m
  | c :: l =>
      if negb (attemptIDPattern (charge_ID c)) || (charge_AtMS c <=? 0)
         || match m !! charge_ID c with Some d => charge_ID d != "" | None => false end
      then Err (ErrorsNew "invalid cyber dispatch time")
      else collect_charges (<[charge_ID c := c]> m) l
  end.

Definition hex_value (c : ascii) : Z :=
  let z := code c in if z <? 58 then z - 48 else if z <? 71 then z - 55 else z - 87.

(** [hex.DecodeString], which accepts either case. *)
Fixpoint hex_decode (s : string) : option (list Z) :=
  match s with
  | EmptyString => Some []
  | String a (String b s) =>
      if is_hex a && is_hex b
      then l ← hex_decode s; Some (16 * hex_value a + hex_value b :: l)
      else None
  | _ => None
  end.

(** [validDigest] *)
Definition validDigest (value : string) : bool :=
  match hex_decode value with
  | None => false
  | Some data => (Z.of_nat (length data) =? 32) && (hex_encode data == value)
  end.

Section Validate.
Context {CW : CodexWeb}.

(** [State.Uncertain] *)
Definition Uncertain (s : State) : bool :=
  pending_is s (λ _, (Phase s == "submitting") || (Phase s == "reconciling")).

(** [State.Owned] *)
Definition Owned (s : State) : bool := (Phase s == "scheduled") || Uncertain s.

(** [ManagedTurnSeed] and [ManagedInputDigest]; these marshal without error. *)
Definition ManagedTurnSeed (scope : Scope) (epoch : Z) (binding turn : string) : string :=
  hash (default "" (json_array [json_string "managed-turn/v1"; Scope_json scope;
                                json_int epoch; json_string binding; json_string turn])).

Definition ManagedInputDigest (previous item client text : string) : string :=
  hash (default "" (json_array (map json_string
          ["managed-turn/input/v1"; previous; item; client; text]))).

(** [State.validateManagedTurn] *)
Definition validateManagedTurn (s : State) : option error :=
  match State_ManagedTurn s with
  | None => None
  | Some m =>
      if (State_Schema s != Schema) || (mt_Version m != 1) || (mt_Turn m == "")
         || (4096 <? strlen (mt_Turn m)) || (mt_Epoch m != Epoch s)
         || match State_Binding s with
            | None => true
            | Some b => mt_BindingDigest m != bind_Digest b
            end
         || negb (validDigest (mt_Digest m))
         || bool_decide (mt_AdditionalContext m = None)
         || (4096 <? strlen (mt_LastUserItemID m))
      then Some (ErrorsNew "managed turn authority is invalid")
      else if (mt_Count m =? 0) &&
              ((mt_LastUserItemID m != "")
               || negb (Z.of_nat (size (default ∅ (mt_AdditionalContext m))) =? 0)
               || (mt_Digest m != ManagedTurnSeed (State_Scope s) (mt_Epoch m) (mt_BindingDigest m) (mt_Turn m)))
              || (0 <? mt_Count m) && (mt_LastUserItemID m == "")
      then Some (ErrorsNew "managed turn prefix is invalid")
      else match ManagedTurn_json m with
           | None => Some (ErrorsNew "managed turn context exceeds its bounds")
           | Some data => if MaxSnapshotBytes <? strlen data
                          then Some (ErrorsNew "managed turn context exceeds its bounds") else None
           end
  end.

(** The [check] closure of [validate]. *)
Definition check_snapshot (state : State) (snapshot : Snapshot) : option error :=
  if match Snapshot_Hash snapshot with Err _ => true | Ok digest => snap_Digest snapshot != digest end
     || (snap_Epoch snapshot =? 0) || (Epoch state <? snap_Epoch snapshot)
     || (snap_Version snapshot != 1) || (snap_ID snapshot == "")
  then Some (ErrorsNew "retry settings snapshot is invalid")
  else if snap_Proven snapshot &&
          ((snap_Turn snapshot == "") || (opts_Model (snap_Options snapshot) == "")
           || (opts_ReasoningEffort (snap_Options snapshot) == "") || (snap_Provider snapshot == "")
           || (snap_Mode snapshot != "default") && (snap_Mode snapshot != "plan"))
  then Some (ErrorsNew "retry settings proof is incomplete")
  else None.

Definition validate_binding (state : State) : option error :=
  match State_Binding state with
  | None => None
  | Some b =>
      if match Binding_Hash b with Err _ => true | Ok digest => bind_Digest b != digest end
         || (bind_Epoch b != Epoch state) || (bind_SocketIdentity b == "") || (bind_Provider b == "")
      then Some (ErrorsNew "retry loaded binding is invalid") else None
  end.

Definition validate_pending (charges : gmap string Charge) (state : State) : option error :=
  match State_Pending state with
  | None => None
  | Some p =>
      if negb (attemptIDPattern (pend_ID p)) || (pend_Action p == "") || (pend_Failure p == "")
      then Some (ErrorsNew "retry attempt identity is incomplete")
      else match check_snapshot state (pend_Snapshot p) with
      | Some e => Some e
      | None =>
          if negb (pend_ChargedAtMS p =? 0) &&
             match charges !! pend_ID p with
             | None => true
             | Some c => (charge_ID c == "") || (charge_AtMS c != pend_ChargedAtMS p)
             end
          then Some (ErrorsNew "retry quota reservation changed")
          else if (Class_ state == "cybersecurity") &&
                  ((Phase state == "submitting") || (Phase state == "reconciling")
                   || (Phase state == "running")) && (pend_ChargedAtMS p =? 0)
          then Some (ErrorsNew "retry quota reservation is missing")
          else None
      end
  end.

(** [validate] *)
Definition validate (scope : Scope) (state : State) : option error :=
  if (State_Schema state != 1) && (State_Schema state != Schema) || (Epoch state =? 0)
     || (State_Scope state != scope) || (128 <? strlen (Reason state))
     || (CyberLimit + 1 <? slice_len (Cyber state)) || (MaxSnapshots <? slice_len (Snapshots state))
     || bool_decide (Cyber state = None) || bool_decide (Snapshots state = None)
  then Some (ErrorsNew "retry state identity or bounds changed")
  else if negb (one_of (Phase state) phases) then Some (ErrorsNew "unsupported retry phase")
  else if (Class_ state != "") && (Class_ state != "capacity") && (Class_ state != "cybersecurity")
  then Some (ErrorsNew "unsupported retry class")
  else match collect_charges ∅ (elems (Cyber state)) with
  | Err e => Some e
  | Ok charges =>
  match first_error (check_snapshot state) (elems (Snapshots state)) with
  | Some e => Some e
  | None =>
  match validate_binding state with
  | Some e => Some e
  | None =>
  match validateManagedTurn state with
  | Some e => Some e
  | None =>
  match validate_pending charges state with
  | Some e => Some e
  | None =>
      if (Phase state == "scheduled") &&
         (bool_decide (State_Pending state = None) || (DeadlineMS state <=? 0))
         || Uncertain state && bool_decide (State_Pending state = None)
      then Some (ErrorsNew "retry phase is incomplete")
      else None
  end end end end end.

End Validate.

Arguments ManagedTurnSeed : simpl never.
Arguments ManagedInputDigest : simpl never.
Arguments check_snapshot : simpl never.
Arguments validate : simpl never.
