(* ===== verification/RetryState.v ===== *)
(** * Automatic retry: the per-thread state machine

    The operations of [turnretry/state.go] on [State].  A method that mutates its
    receiver returns the new state; one that also returns an [error] returns the
    pair, because the source keeps the mutations made before a failure. *)

From S2P Require Import Prelude GoStrings GoJson GoFloat Sha256 Codex.
From S2P Require Import RetryTypes RetryValidate.

Open Scope Z_scope.

(** [CapacityDelay], in nanoseconds. *)
Definition second : Z := 1000000000.
Definition backoff_seconds : list Z := [15; 30; 60; 120; 240; 300].

Definition CapacityDelay (attempt : Z) (random : float64) : Z :=
  let index := Z.min attempt (Z.of_nat (length backoff_seconds) - 1) in
  let base := nth (Z.to_nat index) backoff_seconds 0 * second in
  let random := if f64_lt_0 random then F64_fin 0 0 else random in
  let random := if f64_gt_1 random then F64_fin 1 0 else random in
  let jitter := f64_to_int64 (f64_mul_int (Z.min (3 * second) (Z.quot base 10)) random) in
  Z.min (300 * second) (i64 (base + jitter)).

Definition Milliseconds (d : Z) : Z := Z.quot d 1000000.

(** [NewID]: [None] is a failed read of the random source. *)
Definition NewID (rnd : option (list Z)) : result string :=
  match rnd with
  | None => Err (ErrorsNew "crypto/rand: read failed")
  | Some b =>
      let b := <[6%nat := Z.lor (Z.land (nth 6 b 0) 15) 64]> b in
      let b := <[8%nat := Z.lor (Z.land (nth 8 b 0) 63) 128]> b in
      let part i j := hex_encode (firstn (j - i) (skipn i b)) in
      Ok (part 0%nat 4%nat +:+ "-" +:+ part 4%nat 6%nat +:+ "-" +:+ part 6%nat 8%nat +:+ "-" +:+
          part 8%nat 10%nat +:+ "-" +:+ part 10%nat 16%nat)
  end.

Section State.
Context {CW : CodexWeb}.

(** [State.Enroll] *)
Definition Enroll (s : State) (o : Observation) : State :=
  if Enrolled s then s else
  s <| Enrolled := true |> <| Baseline := obs_Turn o |>
    <| BaselineActive := (obs_Status o == "inProgress") |>.

(** [State.Cancel] *)
Definition Cancel (s : State) (reason : string) : State :=
  let s := s <| Cancelled := true |> <| DeadlineMS := 0 |> <| Reason := reason |> in
  let s := match State_Pending s with
           | Some p => when (pend_ResultTurn p != "") (λ s, s <| Handled := pend_ResultTurn p |>) s
           | None => s
           end in
  when (negb (Uncertain s)) (λ s, s <| Phase := "cancelled" |> <| State_Pending := None |>) s.

(** [State.SetEnabled] *)
Definition SetEnabled (s : State) (enabled : bool) (baseline : Observation) : State :=
  if Enabled s == enabled then s else
  let s := s <| Enabled := enabled |> in
  let s := Cancel s "disabled" in
  if enabled then
    let consumed := Handled s == obs_Turn baseline in
    let s := s <| Baseline := obs_Turn baseline |>
               <| BaselineActive := (obs_Status baseline == "inProgress") |>
               <| Handled := obs_Turn baseline |> in
    when (BaselineActive s && negb consumed) (λ s, s <| Handled := "" |>) s
  else s.

(** [State.InvalidateSettings] *)
Definition InvalidateSettings (s : State) (turn : string) : State * option error :=
  if (Epoch s =? 0) || (Epoch s =? max_u64)
  then (s, Some (ErrorsNew "retry provenance epoch is unavailable"))
  else
    let s := s <| Epoch ::= λ e, u64 (e + 1) |> in
    let s := Cancel s "settings_changed" in
    let s := when (turn != "") (λ s, s <| Handled := turn |>) s in
    (s <| State_Binding := None |> <| State_ManagedTurn := None |>, None).

(** [State.Now]; [now] is [now.UnixMilli()]. *)
Definition Now (s : State) (now : Z) : State * Z :=
  if now <? ClockMS s then (s, ClockMS s) else (s <| ClockMS := now |>, now).

Definition within_window (now : Z) (c : Charge) : bool := i64 (now - 300000) <? charge_AtMS c.

(** [State.CyberUsed] *)
Definition CyberUsed (s : State) (now : Z) : Z :=
  Z.of_nat (length (List.filter (within_window now) (elems (Cyber s)))).

(** [State.Proof]: the newest proven snapshot of the turn in the current epoch. *)
Definition proves (s : State) (turn : string) (p : Snapshot) : bool :=
  (snap_Turn p == turn) && snap_Proven p && (snap_Epoch p == Epoch s).
Definition Proof_ (s : State) (turn : string) : option Snapshot :=
  List.find (proves s turn) (rev (elems (Snapshots s))).

Definition retry_action (turn digest id : string) : string :=
  "turn-retry:" +:+ turn +:+ ":" +:+ digest +:+ ":" +:+ id.

(** [State.Observe], after the early returns: a retryable, eligible failure. *)
Definition schedule_retry (s : State) (o : Observation) (class : string) (clock : Z)
    (random : float64) (rnd : option (list Z)) : State * option error :=
  let s := s <| Handled := obs_Turn o |> in
  let continuing := pending_is s (λ p, pend_ResultTurn p == obs_Turn o) && negb (Cancelled s) in
  let s := when (negb continuing) (λ s, s <| Chain := obs_Turn o |> <| Attempt := 0 |>
                  <| Capacity := 0 |> <| Cancelled := false |>) s in
  let s := s <| Class_ := class |> in
  match Proof_ s (obs_Turn o) with
  | None => (s <| Phase := "blocked" |> <| Reason := "settings_unproven" |>
               <| State_Pending := None |> <| DeadlineMS := 0 |>, None)
  | Some proof =>
      if (class == "cybersecurity") && (CyberLimit <=? CyberUsed s clock)
      then (s <| Phase := "exhausted" |> <| Reason := "cyber_limit" |>
              <| State_Pending := None |> <| DeadlineMS := 0 |>, None)
      else match NewID rnd with
      | Err e => (s, Some e)
      | Ok id =>
          let s := s <| State_Pending := Some (mkPending id
                         (retry_action (obs_Turn o) (snap_Digest proof) id)
                         (obs_Turn o) proof 0 "") |> in
          let s := s <| Phase := "scheduled" |> <| Reason := "" |> <| DeadlineMS := clock |> in
          (when (class == "capacity") (λ s, s <| DeadlineMS ::= λ d,
             i64 (d + Milliseconds (CapacityDelay (Capacity s) random)) |>) s, None)
      end
  end.

(** [State.Observe], for a failed turn. *)
Definition observe_failure (s : State) (o : Observation) (clock : Z) (random : float64)
    (decision : Decision) (rnd : option (list Z)) : State * option error :=
  let class := ClassOf (obs_Code o) in
  if class == "" then
    let s := s <| Handled := obs_Turn o |> in
    (when (pending_is s (λ p, pend_ResultTurn p == obs_Turn o)) (λ s,
       s <| Phase := "blocked" |> <| Reason := "unsupported_failure" |>
         <| DeadlineMS := 0 |> <| Cancelled := true |>) s, None)
  else if negb (Eligible decision s o) then
    (when (pending_is s (λ p, pend_ResultTurn p == obs_Turn o)) (λ s,
       s <| Class_ := class |> <| Cancelled := true |> <| DeadlineMS := 0 |>
         <| Reason := "disabled" |> <| Phase := "cancelled" |> <| Handled := obs_Turn o |>) s, None)
  else schedule_retry s o class clock random rnd.

(** The conditions of [State.Observe]: an unaccepted attempt overtaken by another
    turn, an accepted one still running, one overtaken by another turn, and a
    turn already consumed. *)
Definition pending_superseded (s : State) (o : Observation) : bool :=
  pending_is s (λ p, (pend_ResultTurn p == "") && (obs_Turn o != pend_Failure p) && (obs_Turn o != "")).
Definition result_running (s : State) (o : Observation) : bool :=
  pending_is s (λ p, (pend_ResultTurn p != "") && (obs_Turn o == pend_ResultTurn p)
                     && (obs_Status o == "inProgress")).
Definition result_superseded (s : State) (o : Observation) : bool :=
  pending_is s (λ p, (pend_ResultTurn p != "") && (obs_Turn o != pend_ResultTurn p)).
Definition already_consumed (s : State) (o : Observation) : bool :=
  (obs_Turn o == Handled s) || (obs_Turn o == Baseline s) && negb (BaselineActive s).

(** [State.Observe] *)
Definition Observe (s : State) (o : Observation) (now : Z) (random : float64)
    (decision : Decision) (rnd : option (list Z)) : State * option error :=
  let '(s, clock) := Now s now in
  if negb (Enrolled s) then (Enroll s o, None) else
  if Uncertain s then (s, None) else
  if Cancelled s && pending_is s (λ _, true) then (s, None) else
  let s := when (pending_superseded s o) (λ s, Cancel s "superseded") s in
  if result_running s o then (s, None) else
  if obs_Status o == "inProgress" then (s, None) else
  if already_consumed s o then (s, None) else
  let s := when (result_superseded s o) (λ s, Cancel s "superseded") s in
  if obs_Status o != "failed" then
    let s := when (obs_Turn o != "") (λ s, s <| Handled := obs_Turn o |>) s in
    (when (negb (Uncertain s)) (λ s, s <| Phase := "idle" |> <| State_Pending := None |>
       <| DeadlineMS := 0 |> <| Class_ := "" |>) s, None)
  else observe_failure s o clock random decision rnd.

(** [State.ReserveUnsubmitted] *)
Definition ReserveUnsubmitted (s : State) (now : Z) (decision : Decision) : State * option error :=
  if negb (Allows decision s) then (s, Some ErrPolicyUnavailable) else
  if Class_ s != "cybersecurity" then (s, None) else
  match State_Pending s with
  | None => (s, Some (ErrorsNew "retry reservation has no intent"))
  | Some p =>
      let '(s, clock) := Now s now in
      let kept := List.filter (λ c, (charge_ID c != pend_ID p) && within_window clock c)
                    (elems (Cyber s)) in
      let s := s <| Cyber := Some kept |> in
      if CyberLimit <=? Z.of_nat (length kept)
      then (s <| Phase := "exhausted" |> <| Reason := "cyber_limit" |> <| DeadlineMS := 0 |>
              <| State_Pending := None |>, None)
      else (s <| Cyber := Some (kept ++ [mkCharge (pend_ID p) clock false]) |>
              <| State_Pending := Some (p <| pend_ChargedAtMS := clock |>) |>, None)
  end.

(** [State.Begin] *)
Definition Begin (s : State) (now : Z) (decision : Decision) : State * option error :=
  let '(s, clock) := Now s now in
  if negb (Allows decision s) || (Phase s != "scheduled") || bool_decide (State_Pending s = None)
     || (clock <? DeadlineMS s)
  then (s, Some (ErrorsNew "retry is not due")) else
  match ReserveUnsubmitted s now decision with
  | (s, Some e) => (s, Some e)
  | (s, None) =>
      if bool_decide (State_Pending s = None) then (s, None) else
      let s := s <| Attempt ::= λ a, u64 (a + 1) |> in
      let s := when (Class_ s == "capacity") (λ s, s <| Capacity ::= λ c, u64 (c + 1) |>) s in
      (s <| Phase := "submitting" |> <| DeadlineMS := 0 |> <| Reason := "" |>, None)
  end.

(** [State.protectedSnapshot] *)
Definition protectedSnapshot (s : State) (p : Snapshot) : bool :=
  (snap_Turn p == "") ||
  pending_is s (λ v, (snap_ID p == pend_ID v) || (snap_ID p == snap_ID (pend_Snapshot v))
                     || (snap_Turn p == snap_Turn (pend_Snapshot v))).

(** [State.SuppressTurn] *)
Definition SuppressTurn (s : State) (turn : string) : State :=
  let s := s <| Handled := turn |> in
  s <| Snapshots := Some (List.filter
         (λ p, negb ((snap_Turn p == turn) && (snap_Proven p || (snap_Origin p == "executed"))
                     && negb (protectedSnapshot s p)))
         (elems (Snapshots s))) |>.

(** [State.RetireObsoleteProofs] *)
Definition RetireObsoleteProofs (s : State) (latest : string) : State * bool :=
  if latest == "" then (s, false) else
  let kept := List.filter
        (λ p, negb ((snap_Turn p != "") && (snap_Turn p != latest)
                    && (snap_Proven p || (snap_Origin p == "executed"))
                    && negb (protectedSnapshot s p)))
        (elems (Snapshots s)) in
  if Z.of_nat (length kept) =? slice_len (Snapshots s) then (s, false)
  else (s <| Snapshots := Some kept |>, true).

(** The snapshot [retainSnapshot] may retire to make [snapshot] fit. *)
Definition retirable (candidate : State) (snapshot : Snapshot) (currentTurn : string)
    (p : Snapshot) : bool :=
  (snap_ID p != snap_ID snapshot)
  && ((snap_Turn p != currentTurn) || (currentTurn != "") && (currentTurn == Handled candidate))
  && negb (snap_Proven p) && (snap_Origin p != "executed") && negb (protectedSnapshot candidate p)
  && (negb (snap_Proven snapshot) || (snap_Turn p != snap_Turn snapshot)).

(** Removing one retired snapshot, and the cached proofs of its turn. *)
Definition retire_at (snaps : list Snapshot) (index : nat) (turn currentTurn : string) : list Snapshot :=
  let snaps := delete index snaps in
  if turn != currentTurn
  then List.filter (λ p, (snap_Turn p != turn) || negb (snap_Proven p) && (snap_Origin p != "executed")) snaps
  else snaps.

(** The [for] loop of [retainSnapshot]; every round removes a snapshot, so more
    rounds than snapshots are never needed ([None] is running out of rounds). *)
Fixpoint retain_loop (fuel : nat) (candidate : State) (snapshot : Snapshot) (currentTurn : string)
    (retire : bool) (reserve : Z) : option (result State) :=
  match fuel with
  | O => None
  | S fuel =>
      match State_json candidate with
      | None => Some (Err (ErrorsNew "json: error calling MarshalJSON"))
      | Some data =>
          if (slice_len (Snapshots candidate) <=? MaxSnapshots) && (strlen data + 1 + reserve <=? MaxBytes)
          then match validate (State_Scope candidate) candidate with
               | Some e => Some (Err e)
               | None => Some (Ok candidate)
               end
          else
            match (if retire && (currentTurn != "")
                   then find_index (retirable candidate snapshot currentTurn) (elems (Snapshots candidate))
                   else None) with
            | None => Some (Err ErrSnapshotCapacity)
            | Some (index, p) =>
                retain_loop fuel
                  (candidate <| Snapshots :=
                     Some (retire_at (elems (Snapshots candidate)) index (snap_Turn p) currentTurn) |>)
                  snapshot currentTurn retire reserve
            end
      end
  end.

(** Replacing the snapshot with the same ID, or appending. *)
Definition put_snapshot (snaps : list Snapshot) (snapshot : Snapshot) : list Snapshot :=
  match find_index (λ p, snap_ID p == snap_ID snapshot) snaps with
  | Some (i, _) => <[i := snapshot]> snaps
  | None => snaps ++ [snapshot]
  end.

(** [State.retainSnapshot] *)
Definition retainSnapshot (s : State) (snapshot : Snapshot) (currentTurn : string)
    (retire : bool) (reserve : Z) : State * option error :=
  let snaps := put_snapshot (elems (Snapshots s)) snapshot in
  let candidate := s <| Snapshots := Some snaps |> in
  match retain_loop (S (length snaps)) candidate snapshot currentTurn retire reserve with
  | Some (Ok candidate) => (candidate, None)
  | Some (Err e) => (s, Some e)
  | None => (s, Some ErrSnapshotCapacity)
  end.

Definition AddSnapshot (s : State) (snapshot : Snapshot) : State * option error :=
  retainSnapshot s snapshot "" false 0.
Definition RetainSnapshot (s : State) (snapshot : Snapshot) (currentTurn : string) : State * option error :=
  retainSnapshot s snapshot currentTurn true 0.
Definition AdmitSnapshot (s : State) (snapshot : Snapshot) (currentTurn : string) : State * option error :=
  retainSnapshot s snapshot currentTurn true receiptReserveBytes.

(** [State.RetainProof] *)
Definition RetainProof (s : State) (snapshot : Snapshot) : State * option error :=
  match Snapshot_json snapshot with
  | None => (s, Some (ErrorsNew "json: error calling MarshalJSON"))
  | Some data => retainSnapshot s snapshot (snap_Turn snapshot) true (strlen data + receiptReserveBytes)
  end.

(** [State.resultSnapshot]; a hashing error leaves the digest empty. *)
Definition resultSnapshot (p : Pending) (turn : string) : Snapshot :=
  let proof := pend_Snapshot p <| snap_ID := pend_ID p |> <| snap_Turn := turn |>
                 <| snap_Origin := "automatic" |> <| snap_Proven := false |>
                 <| snap_TextDigest := hash Continuation |> <| snap_NativeContext := "" |> in
  proof <| snap_Digest := match Snapshot_Hash proof with Ok d => d | Err _ => "" end |>.

(** [State.PreflightAccepted] *)
Definition PreflightAccepted (s : State) : State * option error :=
  match State_Pending s with
  | None => (s, Some (ErrorsNew "retry receipt has no exact turn"))
  | Some p =>
      let preview := s <| State_Pending := Some (p <| pend_ResultTurn := pend_ID p |>) |> in
      match retainSnapshot preview (resultSnapshot (p <| pend_ResultTurn := pend_ID p |>) (pend_ID p))
              (pend_Failure p) true receiptReserveBytes with
      | (_, Some e) => (s, Some e)
      | (preview, None) =>
          (s <| Snapshots := Some (List.filter (λ v, snap_ID v != pend_ID p) (elems (Snapshots preview))) |>
             <| Handled := Handled preview |>, None)
      end
  end.

(** One iteration of the charge loop of [Accepted]: the state, whether a charge
    of the attempt was found, and the charges rewritten so far. *)
Definition accept_charge (id : string) (now : Z) (acc : State * bool * list Charge) (charge : Charge) :
    State * bool * list Charge :=
  let '(s, found, out) := acc in
  if charge_ID charge != id then (s, found, out ++ [charge]) else
  if charge_Accepted charge then (s, true, out ++ [charge]) else
  let '(s, clock) := Now s now in
  let charge := charge <| charge_AtMS := Z.max (charge_AtMS charge) clock |>
                       <| charge_Accepted := true |> in
  (s <| State_Pending ::= fmap (λ p, p <| pend_ChargedAtMS := charge_AtMS charge |>) |>,
   true, out ++ [charge]).

Definition accept_charges (s : State) (id : string) (now : Z) : State * bool :=
  let '(s, found, out) := fold_left (accept_charge id now) (elems (Cyber s)) (s, false, []) in
  (s <| Cyber ::= fmap (λ _, out) |>, found).

(** [State.Accepted], after the quota settlement. *)
Definition accept_result (s : State) (p : Pending) (turn : string) : State * option error :=
  let alreadySuppressed := (pend_ResultTurn p == turn) && (Handled s == turn) in
  let p := p <| pend_ResultTurn := turn |> in
  let s := s <| State_Pending := Some p |> in
  let running s :=
    let s := s <| Phase := "running" |> <| Reason := "" |> in
    (when (Cancelled s) (λ s, s <| Phase := "cancelled" |> <| Handled := turn |>) s, None) in
  if alreadySuppressed then
    if Phase s == "blocked" then (s, None) else running s
  else match RetainSnapshot s (resultSnapshot p turn) turn with
  | (s, None) => running s
  | (s, Some e) =>
      if negb (errors_Is e ErrSnapshotCapacity) then (s, Some e) else
      let s := SuppressTurn s turn in
      (s <| Phase := "blocked" |> <| Reason := "settings_unproven" |> <| Cancelled := true |>
         <| DeadlineMS := 0 |>, None)
  end.

(** [State.Accepted] *)
Definition Accepted (s : State) (turn : string) (now : Z) : State * option error :=
  match State_Pending s with
  | None => (s, Some (ErrorsNew "retry receipt has no exact turn"))
  | Some p =>
      if turn == "" then (s, Some (ErrorsNew "retry receipt has no exact turn")) else
      if (pend_ResultTurn p != "") && (pend_ResultTurn p != turn)
      then (s, Some (ErrorsNew "retry receipt identity changed")) else
      let '(s, found) := if Class_ s == "cybersecurity" then accept_charges s (pend_ID p) now
                         else (s, true) in
      if negb found then (s, Some (ErrorsNew "retry receipt has no quota reservation")) else
      match State_Pending s with
      | None => (s, None)
      | Some p => accept_result s p turn
      end
  end.

End State.

Arguments retainSnapshot : simpl never.
