(* ===== verification/RetryManaged.v ===== *)
(** * Automatic retry: the managed turn's committed prefix

    [CompactManagedInput] of [turnretry/managed_turn.go]: one accepted native
    item is folded into a constant-size commitment and its snapshot removed. *)

From S2P Require Import Prelude GoStrings Sha256 GoJson Codex RetryTypes RetryValidate RetryState.
From Stdlib Require Import Ascii.

Open Scope Z_scope.

Section Managed.
Context {CW : CodexWeb}.

Definition input_matches (client text : string) (p : Snapshot) : bool :=
  (client != "") && (snap_ID p == client)
  || (client == "") && (snap_Origin p == "initial") && (snap_TextDigest p == text).

(** The index of the only matching snapshot. *)
Fixpoint unique_index {A} (f : A → bool) (l : list A) : option (nat * A) :=
  match l with
  | [] => None
  | x :: l => if f x then (if existsb f l then None else Some (O, x))
              else '(i, y) ← unique_index f l; Some (S i, y)
  end.

(** The source's refusal of a snapshot that is not this binding's evidence. *)
Definition input_unproven (p : Snapshot) (b : Binding) (turn text : string) : bool :=
  (snap_TextDigest p != text) || (snap_Turn p != "") && (snap_Turn p != turn) || snap_Proven p
  || (snap_Epoch p != bind_Epoch b) || (snap_BindingDigest p != bind_Digest b)
  || (snap_SocketIdentity p != bind_SocketIdentity b) || (snap_Provider p != bind_Provider b)
  || (snap_CommonInstructions p != bind_CommonInstructions b)
  || negb (DeepEqual (opts_ThreadPolicy (snap_Options p)) (bind_Policy b))
  || (snap_Origin p == "queue")
     && negb (Z.of_nat (size (default ∅ (opts_AdditionalContext (snap_Options p)))) =? 0).

(** A key both maps hold with different entries. *)
Definition context_conflict (old new : gmap string AdditionalContextEntry) : bool :=
  existsb (λ kv, match old !! kv.1 with Some e => e != kv.2 | None => false end) (map_to_list new).

(** The prefix the input extends: the turn's own, or a fresh one. *)
Definition managed_base (s : State) (b : Binding) (turn : string) : ManagedTurn :=
  let fresh := mkManagedTurn 1 turn (Epoch s) (bind_Digest b) 0
                 (ManagedTurnSeed (State_Scope s) (Epoch s) (bind_Digest b) turn) "" None in
  match State_ManagedTurn s with
  | Some m => if mt_Turn m == turn then m else fresh
  | None => fresh
  end.

Definition remove_compacted (snaps : list Snapshot) (index : nat) (turn : string) : list Snapshot :=
  omap id (imap (λ i p, if bool_decide (i = index) || (snap_Turn p == turn) && (snap_Origin p == "executed")
                        then None else Some p) snaps).

(** [State.CompactManagedInput] *)
Definition CompactManagedInput (s : State) (turn item client text : string) : State * option error :=
  match State_Binding s with
  | None => (s, Some ErrMissingProof)
  | Some b =>
      if (bind_Epoch b != Epoch s) || (item == "") || (4096 <? strlen item) || (turn == "")
         || (Handled s == turn) then (s, Some ErrMissingProof) else
      match unique_index (input_matches client text) (elems (Snapshots s)) with
      | None => (s, Some ErrMissingProof)
      | Some (index, p) =>
          if input_unproven p b turn text then (s, Some ErrMissingProof) else
          let candidate := s <| State_Schema := Schema |> in
          let m := managed_base s b turn in
          let old := default ∅ (mt_AdditionalContext m) in
          let new := default ∅ (opts_AdditionalContext (snap_Options p)) in
          if context_conflict old new then (s, Some ErrMissingProof) else
          if mt_Count m == max_u64 then (s, Some (ErrorsNew "managed turn prefix count overflow")) else
          let m := m <| mt_AdditionalContext := Some (new ∪ old) |>
                     <| mt_Count ::= λ c, u64 (c + 1) |>
                     <| mt_Digest ::= λ d, ManagedInputDigest d item client text |>
                     <| mt_LastUserItemID := item |> in
          let candidate := candidate <| State_ManagedTurn := Some m |>
                <| Snapshots := Some (remove_compacted (elems (Snapshots s)) index turn) |> in
          match validate (State_Scope candidate) candidate with
          | Some e => (s, Some e)
          | None => (candidate, None)
          end
      end
  end.

End Managed.

(** ** Automatic retry: user actions on a chain

    [Stop], [RetryNow] and [ActionToken] of [turnretry/policy.go]. *)

(** [ActionToken]: the joined identity with NUL separators. *)
Definition nul : string := String "000"%char "".
Definition ActionToken (incarnation thread chain revision operation pending : string) : string :=
  hash (incarnation +:+ nul +:+ thread +:+ nul +:+ chain +:+ nul +:+ revision +:+ nul +:+
        operation +:+ nul +:+ pending).

Section Ops.
Context {CW : CodexWeb}.

(** [Stop]: the owning attempt is put back after [Cancel]. *)
Definition Stop (s : State) : State * bool :=
  if Cancelled s then (s, false) else
  let s := match State_Pending s with
           | Some p =>
               let s := s <| Handled := pend_Failure p |> in
               when (pend_ResultTurn p != "") (λ s, s <| Handled := pend_ResultTurn p |>) s
           | None => s
           end in
  let pending := State_Pending s in
  let s := Cancel s "cancelled" in
  (s <| State_Pending := pending |>, true).

(** [RetryNow] *)
Definition RetryNow (s : State) (now : Z) : State * bool :=
  if Cancelled s || (Phase s != "scheduled") || bool_decide (State_Pending s = None)
     || (DeadlineMS s <=? Z.max now (ClockMS s)) then (s, false) else
  let '(s, clock) := Now s now in
  (s <| DeadlineMS := clock |>, true).

End Ops.
