(* ===== verification/RetryMachine.v ===== *)
(** * Automatic retry: the machine as a step relation

    [retry_op] collects every operation of the package that changes a [State],
    including the field assignments of [Controller] and [CancelSession], as one
    labelled step.  [retry_reach] is reachability from [New] with a ghost log of
    the quota charges ever made; the invariants of the quota, the clock and the
    epoch are proved by rule induction over it. *)

From S2P Require Import Prelude GoStrings GoJson GoFloat Sha256 Codex.
From S2P Require Import RetryTypes RetryValidate RetryState RetryManaged.

Open Scope Z_scope.

Section Machine.
Context {CW : CodexWeb}.

(** A clock reading the machine can be given: a non-negative [UnixMilli]. *)
Definition clock_input (now : Z) : Prop := 0 <= now < 2 ^ 63.

(** Evidence-only updates: what [Backend.AdvanceProof] and [Backend.Prove] do to
    the state they are given, and the controller's own assignments. *)
Definition keeps_quota (s s' : State) : Prop :=
  Cyber s' = Cyber s ∧ ClockMS s' = ClockMS s ∧ Epoch s' = Epoch s.

Inductive retry_op (s : State) : State → Prop :=
  | op_enroll o : retry_op s (Enroll s o)
  | op_set_enabled b o : retry_op s (SetEnabled s b o)
  | op_cancel r : retry_op s (Cancel s r)
  | op_invalidate turn : retry_op s (InvalidateSettings s turn).1
  | op_now now : clock_input now → retry_op s (Now s now).1
  | op_observe o now random d rnd :
      clock_input now → retry_op s (Observe s o now random d rnd).1
  | op_begin now d : clock_input now → retry_op s (Begin s now d).1
  | op_reserve now d : clock_input now → retry_op s (ReserveUnsubmitted s now d).1
  | op_accepted turn now : clock_input now → retry_op s (Accepted s turn now).1
  | op_suppress turn : retry_op s (SuppressTurn s turn)
  | op_retire latest : retry_op s (RetireObsoleteProofs s latest).1
  | op_retain p turn retire reserve : retry_op s (retainSnapshot s p turn retire reserve).1
  | op_preflight : retry_op s (PreflightAccepted s).1
  | op_compact turn item client text : retry_op s (CompactManagedInput s turn item client text).1
  | op_stop : retry_op s (Stop s).1
  | op_retry_now now : clock_input now → retry_op s (RetryNow s now).1
  | op_assign s' : keeps_quota s s' → retry_op s s'.

(** The effect of an operation on the quota charges: none; one attempt charged at
    the current clock after dropping expired charges; or one attempt's charges
    moved to the current clock. *)
Definition settle (id : string) (clock : Z) (c : Charge) : Charge :=
  if (charge_ID c == id) && negb (charge_Accepted c)
  then c <| charge_AtMS := Z.max (charge_AtMS c) clock |> <| charge_Accepted := true |> else c.

Definition kept_charges (id : string) (clock : Z) (l : list Charge) : list Charge :=
  List.filter (λ c, (charge_ID c != id) && within_window clock c) l.

Inductive charge_effect (s s' : State) : Prop :=
  | effect_none : Cyber s' = Cyber s → charge_effect s s'
  | effect_drop id :
      CyberLimit <= Z.of_nat (length (kept_charges id (ClockMS s') (elems (Cyber s)))) →
      Cyber s' = Some (kept_charges id (ClockMS s') (elems (Cyber s))) → charge_effect s s'
  | effect_charge id :
      Z.of_nat (length (kept_charges id (ClockMS s') (elems (Cyber s)))) < CyberLimit →
      Cyber s' = Some (kept_charges id (ClockMS s') (elems (Cyber s)) ++ [mkCharge id (ClockMS s') false]) →
      charge_effect s s'
  | effect_settle id :
      elems (Cyber s') = settle id (ClockMS s') <$> elems (Cyber s) → charge_effect s s'.

Definition clock_effect (s s' : State) : Prop :=
  ClockMS s <= ClockMS s' ∧ (clock_input (ClockMS s) → clock_input (ClockMS s')).

(** ** Operations that leave the quota, the clock and the epoch alone *)

Lemma keeps_quota_refl s : keeps_quota s s.
Proof. done. Qed.

Lemma keeps_quota_trans s1 s2 s3 : keeps_quota s1 s2 → keeps_quota s2 s3 → keeps_quota s1 s3.
Proof. unfold keeps_quota. intros (?&?&?) (?&?&?). repeat split; congruence. Qed.

Lemma keeps_when b f s : (∀ s, keeps_quota s (f s)) → keeps_quota s (when b f s).
Proof. intros Hf. by destruct b; [apply Hf|]. Qed.

Ltac keep :=
  cbn beta;
  lazymatch goal with
  | |- keeps_quota ?s ?s => apply keeps_quota_refl
  | |- keeps_quota _ (when _ _ ?u) =>
      apply (keeps_quota_trans _ u); [keep|apply keeps_when; intros ?; keep]
  | |- keeps_quota _ (setter _ _ ?u) => apply (keeps_quota_trans _ u); [keep|done]
  | |- keeps_quota _ (Cancel ?u _) => apply (keeps_quota_trans _ u); [keep|solve [auto with go]]
  | |- _ => first [assumption | match goal with H : ∀ s, keeps_quota s _ |- _ => apply H end
                  | solve [auto with go] | case_match; keep]
  end.

Lemma Cancel_keeps s r : keeps_quota s (Cancel s r).
Proof.
  reveal Cancel. name_let t as Et. name_let u as Eu.
  assert (keeps_quota s u) as Hu by (subst; case_match; keep).
  clear Eu. keep.
Qed.
#[local] Hint Resolve Cancel_keeps : go.

Lemma Enroll_keeps s o : keeps_quota s (Enroll s o).
Proof. unfold Enroll. case_match; keep. Qed.

Lemma SetEnabled_keeps s b o : keeps_quota s (SetEnabled s b o).
Proof.
  reveal SetEnabled. case_match; [done|]. name_let t as Et. name_let c as Ec.
  assert (keeps_quota s c) as Hc by (subst; keep).
  clear Ec. destruct b; [|done]. name_let k as Ek. name_let u as Eu.
  assert (keeps_quota s u) as Hu by (subst; keep). clear Eu. keep.
Qed.

Lemma SuppressTurn_keeps s turn : keeps_quota s (SuppressTurn s turn).
Proof. done. Qed.

Lemma RetireObsoleteProofs_keeps s latest : keeps_quota s (RetireObsoleteProofs s latest).1.
Proof. unfold RetireObsoleteProofs. repeat case_match; done. Qed.

Lemma retain_loop_snaps fuel : ∀ c p turn retire reserve c',
  retain_loop fuel c p turn retire reserve = Some (Ok c') →
  c' = c <| Snapshots := Snapshots c' |>.
Proof.
  induction fuel as [|fuel IH]; intros c p turn retire reserve c' H; [done|].
  cbn [retain_loop] in H.
  repeat case_match; simplify_eq; try (by destruct c').
  apply IH in H. simpl in H. exact H.
Qed.

(** [retainSnapshot] changes the snapshots only. *)
Lemma retainSnapshot_snaps s p turn retire reserve :
  let s' := (retainSnapshot s p turn retire reserve).1 in s' = s <| Snapshots := Snapshots s' |>.
Proof.
  unfold retainSnapshot. case_match eqn:El; [case_match|]; subst; simpl; try by destruct s.
  apply retain_loop_snaps in El. simpl in El. exact El.
Qed.

Lemma retainSnapshot_keeps s p turn retire reserve :
  keeps_quota s (retainSnapshot s p turn retire reserve).1.
Proof. rewrite retainSnapshot_snaps. done. Qed.

Lemma PreflightAccepted_keeps s : keeps_quota s (PreflightAccepted s).1.
Proof. unfold PreflightAccepted. repeat case_match; simpl; done. Qed.

Lemma CompactManagedInput_keeps s turn item client text :
  keeps_quota s (CompactManagedInput s turn item client text).1.
Proof. unfold CompactManagedInput. repeat case_match; simpl; done. Qed.

Lemma Stop_keeps s : keeps_quota s (Stop s).1.
Proof.
  unfold Stop. case_match; [done|].
  match goal with |- context [Cancel ?x _] => set (c := x) end.
  assert (keeps_quota s c) as Hc by (unfold c; destruct (State_Pending s); keep).
  clearbody c. simpl. eapply keeps_quota_trans; [exact Hc|]. apply (Cancel_keeps c "cancelled").
Qed.

Lemma Now_spec s now :
  (Now s now).1 = s <| ClockMS := Z.max now (ClockMS s) |> ∧ (Now s now).2 = Z.max now (ClockMS s).
Proof.
  unfold Now. destruct (Z.ltb_spec now (ClockMS s)); simpl.
  - rewrite Z.max_r by lia. by destruct s.
  - by rewrite Z.max_l by lia.
Qed.

Lemma Now_eq s now :
  Now s now = (s <| ClockMS := Z.max now (ClockMS s) |>, Z.max now (ClockMS s)).
Proof. rewrite (surjective_pairing (Now s now)). by destruct (Now_spec s now) as [-> ->]. Qed.

(** ** Observation *)

Lemma schedule_retry_keeps s o class clock random rnd :
  keeps_quota s (schedule_retry s o class clock random rnd).1.
Proof.
  reveal schedule_retry. name_let t as Et. name_let k as Ek. name_let u as Eu. name_let c as Ec.
  assert (keeps_quota s c) as Hc by (subst; keep). clear Ec.
  repeat case_match; cbn [fst]; keep.
Qed.

Lemma observe_failure_keeps s o clock random d rnd :
  keeps_quota s (observe_failure s o clock random d rnd).1.
Proof.
  unfold observe_failure. cbn zeta.
  repeat case_match; cbn [fst]; [keep|keep|apply schedule_retry_keeps].
Qed.

(** [Observe] advances the clock and otherwise keeps the quota. *)
Lemma Observe_keeps s o now random d rnd :
  keeps_quota (Now s now).1 (Observe s o now random d rnd).1.
Proof.
  reveal Observe. destruct (Now s now) as [s1 clock]. cbv beta iota. change (fst (s1, clock)) with s1.
  case_match; [apply Enroll_keeps|]. do 2 (case_match; [done|]).
  name_let c as Ec. assert (keeps_quota s1 c) as Hc by (subst; keep). clear Ec.
  do 3 (case_match; [done|]).
  name_let c' as Ec'. assert (keeps_quota s1 c') as Hc' by (subst; keep). clear Ec'.
  case_match; [name_let t as Et; cbn [fst]; subst; keep|].
  eapply keeps_quota_trans; [exact Hc'|apply observe_failure_keeps].
Qed.

(** ** Reservation and acceptance *)

(** What an operation may do: its charge effect, a clock that does not go back
    and stays a clock reading, and the epoch. *)
Definition op_effect (s s' : State) : Prop :=
  charge_effect s s' ∧ clock_effect s s' ∧ (is_u64 (Epoch s) → Epoch s <= Epoch s' ∧ is_u64 (Epoch s')).

Lemma keeps_effect s s' : keeps_quota s s' → op_effect s s'.
Proof.
  intros (Hc & Hk & He). unfold op_effect, clock_effect. rewrite Hk, He.
  split; [by apply effect_none|]. split; [split; [lia|done]|]. intros; split; [lia|done].
Qed.

Lemma Now_effect s now : clock_input now → op_effect s (Now s now).1.
Proof.
  intros Hn. rewrite Now_eq. unfold op_effect, clock_effect, clock_input, is_u64 in *. simpl.
  split; [by apply effect_none|]. lia.
Qed.

Lemma effect_after_clock s now s' :
  clock_input now → keeps_quota (Now s now).1 s' → op_effect s s'.
Proof.
  intros Hn (Hc & Hk & He). rewrite Now_eq in *. simpl in *.
  unfold op_effect, clock_effect, clock_input, is_u64 in *. rewrite Hk, He.
  split; [by apply effect_none|]. lia.
Qed.

Lemma ReserveUnsubmitted_effect s now d :
  clock_input now → op_effect s (ReserveUnsubmitted s now d).1.
Proof.
  intros Hn. unfold ReserveUnsubmitted.
  case_match; [by apply keeps_effect|]. case_match; [by apply keeps_effect|].
  destruct (State_Pending s) as [p|]; [|by apply keeps_effect].
  rewrite Now_eq. cbn zeta. cbn [fst snd].
  fold (kept_charges (pend_ID p) (Z.max now (ClockMS s))
    (elems (Cyber (s <| ClockMS := Z.max now (ClockMS s) |>)))).
  unfold op_effect, clock_effect, clock_input, is_u64 in *.
  destruct (Z.leb_spec CyberLimit (Z.of_nat (length (kept_charges (pend_ID p) (Z.max now (ClockMS s))
    (elems (Cyber (s <| ClockMS := Z.max now (ClockMS s) |>))))))) as [Hl|Hl]; simpl in *.
  - split; [|lia]. by apply (effect_drop _ _ (pend_ID p)).
  - split; [|lia]. by apply (effect_charge _ _ (pend_ID p)).
Qed.

(** Effects compose with a preceding clock reading. *)
Lemma effect_from_clock s now s' :
  clock_input now → op_effect (Now s now).1 s' → op_effect s s'.
Proof.
  intros Hn (Hc & [Hk Hk'] & He). rewrite Now_eq in *. simpl in *.
  unfold op_effect, clock_effect, clock_input in *.
  split; [|split; [split; [lia|intros; apply Hk'; lia]|done]].
  destruct Hc as [H|id H H'|id H H'|id H]; simpl in *;
    [by apply effect_none|by apply (effect_drop _ _ id)|by apply (effect_charge _ _ id)
    |by apply (effect_settle _ _ id)].
Qed.

Lemma op_effect_keeps s s1 s2 : op_effect s s1 → keeps_quota s1 s2 → op_effect s s2.
Proof.
  intros (Hc & Hk & He) (Hc2 & Hk2 & He2).
  unfold op_effect, clock_effect. rewrite Hk2, He2. split; [|done].
  destruct Hc as [H|id H H'|id H H'|id H];
    [apply effect_none|apply (effect_drop _ _ id)|apply (effect_charge _ _ id)
    |apply (effect_settle _ _ id)]; rewrite ?Hc2, ?Hk2; done.
Qed.

Lemma Begin_effect s now d : clock_input now → op_effect s (Begin s now d).1.
Proof.
  intros Hn. unfold Begin. pose proof (effect_from_clock s now) as Hcomp.
  destruct (Now s now) as [s1 clock] eqn:En.
  assert (op_effect s s1) as Hs1.
  { replace s1 with (Now s now).1 by (by rewrite En). by apply Now_effect. }
  case_match; [done|].
  pose proof (ReserveUnsubmitted_effect s1 now d Hn) as Hr.
  destruct (ReserveUnsubmitted s1 now d) as [s2 [e|]]; cbn [fst] in *; [by apply Hcomp|].
  assert (op_effect s s2) as Hs2 by (by apply Hcomp).
  case_match; [done|]. cbn zeta. eapply op_effect_keeps; [exact Hs2|].
  cbn [fst]. keep.
Qed.

Definition unsettled (id : string) (c : Charge) : bool := (charge_ID c == id) && negb (charge_Accepted c).

Lemma settle_settled id k c : unsettled id c = false → settle id k c = c.
Proof. unfold settle, unsettled. by intros ->. Qed.

Lemma accept_charge_settled id now s found out c :
  unsettled id c = false →
  ∃ f, accept_charge id now (s, found, out) c = (s, f, out ++ [c]).
Proof.
  unfold unsettled, accept_charge. intros H.
  destruct (charge_ID c == id), (charge_Accepted c); simpl in *; eauto; done.
Qed.

Lemma accept_charge_unsettled id now s found out c :
  unsettled id c = true →
  ∃ s', accept_charge id now (s, found, out) c = (s', true, out ++ [settle id (Z.max now (ClockMS s)) c]) ∧
    ClockMS s' = Z.max now (ClockMS s) ∧ Cyber s' = Cyber s ∧ Epoch s' = Epoch s.
Proof.
  unfold settle, unsettled, accept_charge. intros H. rewrite H.
  apply andb_prop in H as [-> H]. apply negb_true_iff in H. rewrite H. cbn [negb].
  rewrite Now_eq. eexists. split; [reflexivity|]. done.
Qed.

(** The charge loop of [Accepted]: only the attempt's open charges change, and
    the clock is read only when there is one. *)
Lemma accept_charge_fold id now l : ∀ s found out,
  let r := fold_left (accept_charge id now) l (s, found, out) in
  r.2 = out ++ (settle id (ClockMS r.1.1) <$> l) ∧ Cyber r.1.1 = Cyber s ∧ Epoch r.1.1 = Epoch s ∧
  (ClockMS r.1.1 = Z.max now (ClockMS s) ∨
   ClockMS r.1.1 = ClockMS s ∧ Forall (λ c, unsettled id c = false) l).
Proof.
  induction l as [|c l IH]; intros s found out; cbn [fold_left].
  { simpl. rewrite app_nil_r. naive_solver. }
  destruct (unsettled id c) eqn:Hu.
  - destruct (accept_charge_unsettled id now s found out c Hu) as (s1 & -> & Hk & Hc & He).
    destruct (IH s1 true (out ++ [settle id (Z.max now (ClockMS s)) c])) as (Ho & Hc' & He' & Hk').
    cbv zeta. set (r := fold_left _ _ _) in *.
    assert (ClockMS r.1.1 = Z.max now (ClockMS s)) as Hr by (destruct Hk' as [Hk'|[Hk' _]]; lia).
    rewrite Ho, Hr, <- app_assoc. split_and!; [done|congruence|congruence|by left].
  - destruct (accept_charge_settled id now s found out c Hu) as (f & ->).
    destruct (IH s f (out ++ [c])) as (Ho & Hc' & He' & Hk'). cbv zeta. set (r := fold_left _ _ _) in *.
    rewrite Ho, fmap_cons, settle_settled, <- app_assoc by done. split_and!; try done.
    destruct Hk' as [Hk'|[Hk' Hf]]; [by left|right; auto].
Qed.

Lemma accept_charges_effect s id now :
  clock_input now → op_effect s (accept_charges s id now).1.
Proof.
  intros Hn. unfold accept_charges.
  pose proof (accept_charge_fold id now (elems (Cyber s)) s false []) as H. cbv zeta in H.
  destruct (fold_left _ _ _) as [[s' f'] o']. destruct H as (Ho & Hc & He & Hk). simpl in *.
  unfold op_effect, clock_effect, clock_input, is_u64 in *. simpl.
  rewrite He. split; [|lia]. apply (effect_settle _ _ id). simpl. rewrite Hc.
  destruct (Cyber s); [by rewrite Ho|done].
Qed.

Lemma accept_result_keeps s p turn : keeps_quota s (accept_result s p turn).1.
Proof.
  unfold accept_result. cbn zeta. set (s1 := s <| State_Pending := _ |>).
  assert (keeps_quota s s1) as H1 by done. clearbody s1.
  eapply keeps_quota_trans; [exact H1|].
  case_match; [case_match; [done|cbn [fst]; keep]|]. unfold RetainSnapshot.
  match goal with |- context [retainSnapshot ?a ?b ?c ?d ?e] =>
    pose proof (retainSnapshot_keeps a b c d e) as Hr;
    destruct (retainSnapshot a b c d e) as [s2 [e2|]] end; cbn [fst] in *.
  - case_match; [done|]. eapply keeps_quota_trans; [exact Hr|]. done.
  - eapply keeps_quota_trans; [exact Hr|]. keep.
Qed.

Lemma Accepted_effect s turn now : clock_input now → op_effect s (Accepted s turn now).1.
Proof.
  intros Hn. unfold Accepted. destruct (State_Pending s) as [p|]; [|by apply keeps_effect].
  do 2 (case_match; [by apply keeps_effect|]).
  set (r := if _ == _ then _ else _).
  assert (op_effect s r.1) as Hr.
  { unfold r. case_match; [by apply accept_charges_effect|by apply keeps_effect]. }
  destruct r as [s1 found]. cbn [fst] in Hr. case_match; [done|].
  destruct (State_Pending s1); [|done]. eapply op_effect_keeps; [exact Hr|apply accept_result_keeps].
Qed.

Lemma InvalidateSettings_effect s turn : op_effect s (InvalidateSettings s turn).1.
Proof.
  reveal InvalidateSettings. case_match eqn:Hg; [by apply keeps_effect|].
  apply orb_false_iff in Hg as [H0 Hm]. apply Z.eqb_neq in Hm.
  name_let t as Et. name_let u as Eu. name_let v as Ev. cbn [fst].
  match goal with |- op_effect s ?x => assert (keeps_quota t x) as (Hc & Hk & He) by (subst u v; keep) end.
  unfold op_effect, clock_effect. rewrite Hk, He.
  split; [apply effect_none; by rewrite Hc, Et|]. subst t. unfold max_u64 in *. simpl.
  split; [split; [lia|done]|].
  intros Hu. rewrite u64_id; unfold is_u64 in *; lia.
Qed.

Lemma RetryNow_effect s now : clock_input now → op_effect s (RetryNow s now).1.
Proof.
  intros Hn. unfold RetryNow. case_match; [by apply keeps_effect|].
  apply (effect_after_clock s now); [done|]. destruct (Now s now). cbn [fst]. keep.
Qed.

#[local] Hint Resolve Enroll_keeps SetEnabled_keeps SuppressTurn_keeps RetireObsoleteProofs_keeps
  retainSnapshot_keeps PreflightAccepted_keeps CompactManagedInput_keeps Stop_keeps : go.

(** Every operation of the machine has one of the four effects on the quota,
    never turns the clock back and never lowers the epoch. *)
Lemma retry_op_effect s s' : retry_op s s' → op_effect s s'.
Proof.
  destruct 1; eauto using InvalidateSettings_effect, Now_effect, Begin_effect,
    ReserveUnsubmitted_effect, Accepted_effect, RetryNow_effect, keeps_effect with go.
  eapply effect_after_clock; [done|apply Observe_keeps].
Qed.

End Machine.

#[export] Hint Resolve keeps_quota_refl Cancel_keeps Enroll_keeps SetEnabled_keeps SuppressTurn_keeps
  RetireObsoleteProofs_keeps retainSnapshot_keeps PreflightAccepted_keeps CompactManagedInput_keeps
  Stop_keeps : go.
