(* ===== verification/RetryQuota.v ===== *)
(** * Automatic retry: the cybersecurity quota over whole histories

    [retry_reach] is reachability of the machine from [New], with a ghost log of
    the latest charge of every attempt that was ever charged.  The quota theorem
    bounds the attempts charged in any five-minute window of any history. *)

From S2P Require Import Prelude GoStrings Sha256 GoJson GoFloat Codex RetryTypes RetryValidate RetryState RetryManaged RetryMachine.

Open Scope Z_scope.

Section Quota.
Context {CW : CodexWeb}.

Definition charge_entries (l : list Charge) : list (string * Z) := (λ c, (charge_ID c, charge_AtMS c)) <$> l.

(** The log after an operation: the charges now recorded, over the older log. *)
Definition log_charges (g : gmap string Z) (s : State) : gmap string Z :=
  list_to_map (charge_entries (elems (Cyber s))) ∪ g.

Inductive retry_reach (scope : Scope) : State → gmap string Z → Prop :=
  | reach_new : retry_reach scope (New scope) ∅
  | reach_op s g s' :
      retry_reach scope s g → retry_op s s' → retry_reach scope s' (log_charges g s').

(** Attempts whose latest charge lies in the five minutes up to [t]. *)
Definition in_window (t : Z) (kv : string * Z) : Prop := t - 300000 < kv.2 ∧ kv.2 <= t.
#[export] Instance in_window_dec t kv : base.Decision (in_window t kv).
Proof. unfold in_window. apply _. Defined.
Definition charged_in_window (g : gmap string Z) (t : Z) : nat := size (filter (in_window t) g).

Record quota_inv (s : State) (g : gmap string Z) : Prop := {
  inv_clock : clock_input (ClockMS s);
  inv_nodup : NoDup (charge_ID <$> elems (Cyber s));
  inv_length : Z.of_nat (length (elems (Cyber s))) <= CyberLimit;
  inv_charge c : c ∈ elems (Cyber s) → charge_AtMS c <= ClockMS s ∧ g !! charge_ID c = Some (charge_AtMS c);
  inv_log id t : g !! id = Some t →
    t <= ClockMS s ∧ (ClockMS s - 300000 < t → ∃ c, c ∈ elems (Cyber s) ∧ charge_ID c = id ∧ charge_AtMS c = t);
  inv_window t : Z.of_nat (charged_in_window g t) <= CyberLimit }.

(** ** The recorded charges *)

Lemma log_lookup g l id t :
  NoDup (charge_ID <$> l) →
  (list_to_map (charge_entries l) ∪ g : gmap string Z) !! id = Some t ↔
  (∃ c, c ∈ l ∧ charge_ID c = id ∧ charge_AtMS c = t) ∨ (id ∉ charge_ID <$> l) ∧ g !! id = Some t.
Proof.
  intros Hnd. assert ((charge_entries l).*1 = charge_ID <$> l) as Hfst.
  { unfold charge_entries. by rewrite <- list_fmap_compose. }
  rewrite lookup_union_Some_raw, <- elem_of_list_to_map, <- not_elem_of_list_to_map, Hfst by (by rewrite Hfst).
  apply or_iff_compat_r. unfold charge_entries. rewrite list_elem_of_fmap. split; [intros (c & [= -> ->] & ?); eauto|intros (c & ? & <- & <-); eauto].
Qed.

Lemma kept_elem id k l c : c ∈ kept_charges id k l → c ∈ l ∧ charge_ID c ≠ id.
Proof.
  unfold kept_charges. rewrite !list_elem_of_In, filter_In. intros [? [H _]%andb_prop].
  split; [done|]. by case_bool_decide.
Qed.

Lemma kept_elem_intro id k l c :
  c ∈ l → charge_ID c ≠ id → clock_input k → k - 300000 < charge_AtMS c → c ∈ kept_charges id k l.
Proof.
  unfold kept_charges, within_window. rewrite !list_elem_of_In, filter_In. intros. split; [done|].
  rewrite bool_decide_eq_false_2 by done. simpl. rewrite i64_id by (unfold is_i64, clock_input in *; lia).
  by apply Z.ltb_lt.
Qed.

Lemma kept_nodup id k l : NoDup (charge_ID <$> l) → NoDup (charge_ID <$> kept_charges id k l).
Proof.
  unfold kept_charges. induction l as [|c l IH]; simpl; [done|].
  intros [Hc Hl]%NoDup_cons. case_match; [|by apply IH]. cbn. apply NoDup_cons. split; [|by apply IH].
  intros Hin. apply Hc. apply list_elem_of_fmap in Hin as (d & -> & Hd). apply list_elem_of_fmap.
  exists d. split; [done|]. rewrite list_elem_of_In, filter_In in Hd. apply list_elem_of_In, Hd.
Qed.

Lemma kept_length id k l : (length (kept_charges id k l) <= length l)%nat.
Proof. apply filter_length_le. Qed.

(** A full quota drops nothing. *)
Lemma kept_full id k l :
  Z.of_nat (length l) <= CyberLimit → CyberLimit <= Z.of_nat (length (kept_charges id k l)) →
  kept_charges id k l = l.
Proof.
  intros Hl Hk. pose proof (kept_length id k l). unfold kept_charges in *.
  assert (forallb (λ c, (charge_ID c != id) && within_window k c) l = true) as Hf
    by (apply filter_length_forallb; lia).
  clear -Hf. induction l as [|c l IH]; simpl in *; [done|].
  apply andb_prop in Hf as [-> Hf]. by rewrite IH.
Qed.

Lemma settle_id id k c : charge_ID (settle id k c) = charge_ID c.
Proof. unfold settle. by case_match. Qed.

Lemma settle_cases id k c : settle id k c = c ∨ charge_AtMS (settle id k c) = Z.max (charge_AtMS c) k.
Proof. unfold settle. case_match; auto. Qed.

Lemma settle_ids id k (l : list Charge) : charge_ID <$> (settle id k <$> l) = charge_ID <$> l.
Proof. rewrite <- list_fmap_compose. apply list_fmap_ext. intros. apply settle_id. Qed.

(** What an effect does to the recorded charges, in one statement: they stay
    distinct and few; a recorded charge is an old one or made at the new clock;
    and an old one still in the window is still recorded for its attempt. *)
Lemma effect_charges s s' :
  charge_effect s s' → clock_input (ClockMS s') → ClockMS s <= ClockMS s' →
  NoDup (charge_ID <$> elems (Cyber s)) → Z.of_nat (length (elems (Cyber s))) <= CyberLimit →
  (∀ c, c ∈ elems (Cyber s) → charge_AtMS c <= ClockMS s) →
  NoDup (charge_ID <$> elems (Cyber s')) ∧ Z.of_nat (length (elems (Cyber s'))) <= CyberLimit ∧
  (∀ c, c ∈ elems (Cyber s') → c ∈ elems (Cyber s) ∨ charge_AtMS c = ClockMS s') ∧
  (∀ c, c ∈ elems (Cyber s) → ClockMS s' - 300000 < charge_AtMS c →
        charge_ID c ∈ charge_ID <$> elems (Cyber s')).
Proof.
  intros He Hk Hle Hnd Hlen Hat.
  destruct He as [->|id Hf ->|id Hlt ->|id ->]; cbn [elems default from_option Datatypes.id].
  - repeat split; auto. intros c Hc _. by apply list_elem_of_fmap_2.
  - rewrite kept_full by done. repeat split; auto. intros c Hc _. by apply list_elem_of_fmap_2.
  - rewrite fmap_app, length_app. cbn. split_and!; [|lia|..].
    + apply NoDup_app. split_and!; [by apply kept_nodup| |apply NoDup_singleton].
      intros x (c & -> & [_ Hne]%kept_elem)%list_elem_of_fmap Heq%list_elem_of_singleton. done.
    + intros c [[? _]%kept_elem|Hc%list_elem_of_singleton]%elem_of_app; [by left|right; by subst].
    + intros c Hc Hw. apply elem_of_app. destruct (decide (charge_ID c = id)) as [->|Hne].
      * right. by apply list_elem_of_singleton.
      * left. apply list_elem_of_fmap_2. by apply kept_elem_intro.
  - rewrite settle_ids, length_fmap. split_and!; [done|done|..].
    + intros c (d & -> & Hd)%list_elem_of_fmap. pose proof (Hat d Hd).
      destruct (settle_cases id (ClockMS s') d) as [->| ->]; [by left|right; lia].
    + intros c Hc _. by apply list_elem_of_fmap_2.
Qed.

Lemma window_of_recorded g l k t :
  NoDup (charge_ID <$> l) → k <= t →
  (∀ id τ, g !! id = Some τ → k - 300000 < τ → id ∈ charge_ID <$> l) →
  (charged_in_window g t <= length l)%nat.
Proof.
  intros Hnd Hkt Hg. unfold charged_in_window.
  rewrite <- (length_fmap charge_ID l), <- (size_list_to_set (C:=gset string)) by done.
  rewrite <- size_dom. apply subseteq_size. intros id (τ & Hτ)%elem_of_dom.
  apply map_lookup_filter_Some in Hτ as [Hτ [Hw _]]. simpl in Hw.
  apply elem_of_list_to_set. apply (Hg id τ); [done|lia].
Qed.

Lemma quota_inv_step s g s' : quota_inv s g → op_effect s s' → quota_inv s' (log_charges g s').
Proof.
  intros [Hk Hnd Hlen Hc Hlog Hwin] (He & [Hle Hk'] & _). specialize (Hk' Hk).
  destruct (effect_charges s s') as (Hnd' & Hlen' & Hnew & Hold); try done.
  { intros c Hin. by apply Hc. }
  assert (∀ c, c ∈ elems (Cyber s') → charge_AtMS c <= ClockMS s') as Hat'.
  { intros c Hin. destruct (Hnew c Hin) as [Hin'| ->]; [|lia]. apply Hc in Hin'. lia. }
  assert (∀ id t, log_charges g s' !! id = Some t → t <= ClockMS s' ∧ (ClockMS s' - 300000 < t →
     ∃ c, c ∈ elems (Cyber s') ∧ charge_ID c = id ∧ charge_AtMS c = t)) as Hlog'.
  { unfold log_charges. intros id t Hg. apply log_lookup in Hg; [|done].
    destruct Hg as [(c & Hin & <- & <-)|[Hno Hg]]; [split; [by apply Hat'|naive_solver]|].
    destruct (Hlog id t Hg) as [Ht Hw]. split; [lia|]. intros Ht'. destruct Hno.
    destruct Hw as (c & Hin & <- & <-); [lia|]. by apply Hold. }
  split; auto.
  - intros c Hin. split; [by apply Hat'|]. apply log_lookup; [done|]. left. by exists c.
  - intros t. destruct (Z.le_gt_cases (ClockMS s') t) as [Ht|Ht].
    + pose proof (window_of_recorded (log_charges g s') (elems (Cyber s')) (ClockMS s') t Hnd' Ht).
      assert (charged_in_window (log_charges g s') t <= length (elems (Cyber s')))%nat; [|lia].
      apply H. intros id τ Hg Hw. destruct (Hlog' id τ Hg) as [_ Hx].
      destruct (Hx Hw) as (c & Hin & <- & _). by apply list_elem_of_fmap_2.
    + etrans; [|apply (Hwin t)]. apply inj_le. unfold charged_in_window. apply map_subseteq_size.
      apply map_subseteq_spec. intros id τ [Hg Hw]%map_lookup_filter_Some.
      apply map_lookup_filter_Some. split; [|done]. destruct Hw as [_ Hw]. simpl in Hw.
      apply log_lookup in Hg; [|done]. destruct Hg as [(c & Hin & <- & <-)|[_ Hg]]; [|done].
      destruct (Hnew c Hin) as [Hin'|Heq]; [by apply Hc|lia].
Qed.

Lemma quota_inv_reach scope s g : retry_reach scope s g → quota_inv s g.
Proof.
  induction 1 as [|s g s' _ IH Hop].
  - split; simpl; try done; try set_solver.
    constructor.
  - eapply quota_inv_step; [exact IH|by apply retry_op_effect].
Qed.

(** C4: in every history of the retry state machine, however observations,
    cancellations, renewals and receipts interleave and however the clock jumps,
    at most thirty attempts are charged to the cybersecurity quota within any
    window of five minutes, and the saved list never holds more than thirty. *)
Theorem cyber_quota_window scope s g t :
  retry_reach scope s g →
  Z.of_nat (charged_in_window g t) <= CyberLimit ∧ slice_len (Cyber s) <= CyberLimit.
Proof. intros [_ _ Hl _ _ Hw]%quota_inv_reach. by split. Qed.

End Quota.

(** ** Automatic retry: theorems about the state machine *)

(** ** Delays and identities *)

(** The unjittered delay of an attempt, in nanoseconds. *)
Definition base_delay (attempt : Z) : Z :=
  nth (Z.to_nat (Z.min attempt 5)) backoff_seconds 0 * second.

Lemma base_delay_cases a :
  0 <= a →
  base_delay a ∈ [15 * second; 30 * second; 60 * second; 120 * second; 240 * second; 300 * second].
Proof.
  intros Ha. unfold base_delay. assert (Z.min a 5 = 0 ∨ Z.min a 5 = 1 ∨ Z.min a 5 = 2 ∨
    Z.min a 5 = 3 ∨ Z.min a 5 = 4 ∨ Z.min a 5 = 5) as Hc by lia.
  destruct Hc as [->|[->|[->|[->|[->| ->]]]]]; vm_compute; set_solver.
Qed.

(** The delay before a capacity retry lies between the table's base for the
    attempt and that base with at most a tenth, and at most three seconds, of
    jitter; it never exceeds five minutes, whatever the random source returns
    (NaN apart), and the arithmetic does not overflow. *)
Theorem capacity_delay_bounds attempt random :
  is_u64 attempt → random ≠ F64_nan →
  base_delay attempt <= CapacityDelay attempt random
    <= Z.min (300 * second) (base_delay attempt + Z.min (3 * second) (base_delay attempt `div` 10)).
Proof.
  intros [Ha _] Hr. pose proof (base_delay_cases attempt Ha) as Hb.
  unfold CapacityDelay. change (Z.of_nat (length backoff_seconds) - 1) with 5.
  fold (base_delay attempt).
  assert (15 * second <= base_delay attempt <= 300 * second) as Hbase.
  { unfold second in *. repeat (apply elem_of_cons in Hb as [Hb|Hb]; [lia|]). set_solver. }
  rewrite Z.quot_div_nonneg by (unfold second in *; lia).
  set (x := if f64_gt_1 _ then _ else _).
  assert (x ≠ F64_nan ∧ f64_lt_0 x = false ∧ f64_gt_1 x = false) as (Hn & Hl & Hg).
  { unfold x. destruct (f64_lt_0 random) eqn:El, (f64_gt_1 _) eqn:Eg; done. }
  pose proof (scaled_duration_bounds (Z.min (3 * second) (base_delay attempt `div` 10)) x) as Hj.
  set (j := f64_to_int64 _) in *.
  assert (0 <= j <= Z.min (3 * second) (base_delay attempt `div` 10)) as Hj'.
  { apply Hj; try done. unfold second in *. pose proof (Z.div_pos (base_delay attempt) 10). lia. }
  unfold second in *. rewrite i64_id by (unfold is_i64; lia). lia.
Qed.

Lemma capacity_delay_bounds_witness :
  base_delay 1 <= CapacityDelay 1 (F64_fin 1 (-1))
    <= Z.min (300 * second) (base_delay 1 + Z.min (3 * second) (base_delay 1 `div` 10)).
Proof. apply (capacity_delay_bounds 1 (F64_fin 1 (-1))); [unfold is_u64; lia|done]. Defined.

Lemma part_pattern b i j n :
  (i ≤ j)%nat → (j ≤ length b)%nat → n = (2 * (j - i))%nat →
  match_classes (repeat is_lower_hex n) (hex_encode (firstn (j - i) (skipn i b))) = true.
Proof.
  intros. subst n. apply match_hex_encode. rewrite length_take, length_drop. lia.
Qed.

(** Every identity made from sixteen random bytes has the form the stored
    record requires of attempt identities. *)
Theorem new_id_pattern b :
  length b = 16%nat → ∃ id, NewID (Some b) = Ok id ∧ attemptIDPattern id = true.
Proof.
  intros Hb. eexists. split; [reflexivity|].
  set (b' := <[8%nat := _]> _).
  assert (length b' = 16%nat) as Hb' by (unfold b'; by rewrite !length_insert).
  unfold attemptIDPattern, uuid_classes.
  repeat (apply match_classes_app; [first [reflexivity | apply part_pattern; lia]|]).
  apply part_pattern; lia.
Qed.

Lemma new_id_pattern_witness :
  ∃ id, NewID (Some (repeat 171 16)) = Ok id ∧ attemptIDPattern id = true.
Proof. apply (new_id_pattern (repeat 171 16)). reflexivity. Defined.
