(* ===== verification/RetryObserve.v ===== *)
(** * Automatic retry: observation, cancellation and epochs

    Theorems about the transitions that do not submit anything: an observation is
    consumed once, an uncertain submission survives every transition that is not
    its own settlement, and changed settings revoke every earlier proof. *)

From S2P Require Import Prelude GoStrings GoJson GoFloat Sha256 Codex.
From S2P Require Import RetryTypes RetryValidate RetryState RetryManaged RetryMachine.

Open Scope Z_scope.

Section Observe.
Context {CW : CodexWeb}.

(** ** Cancellation *)

Definition handled_by_cancel (s : State) : string :=
  match State_Pending s with
  | Some p => if pend_ResultTurn p != "" then pend_ResultTurn p else Handled s
  | None => Handled s
  end.

(** What [Cancel] leaves: everything but the stop markers is as before, and an
    uncertain submission keeps its attempt and phase. *)
Lemma Cancel_fields s r c :
  Cancel s r = c →
  Cancelled c = true ∧ DeadlineMS c = 0 ∧ Reason c = r ∧ Enrolled c = Enrolled s ∧
  Baseline c = Baseline s ∧ BaselineActive c = BaselineActive s ∧ Snapshots c = Snapshots s ∧
  Handled c = handled_by_cancel s ∧ State_Scope c = State_Scope s ∧
  State_Pending c = (if Uncertain s then State_Pending s else None) ∧
  Phase c = (if Uncertain s then Phase s else "cancelled").
Proof.
  reveal Cancel. name_let t as Et. name_let u as Eu.
  assert (Uncertain u = Uncertain s ∧ State_Pending u = State_Pending s ∧ Phase u = Phase s) as (Hu & Hp & Hph).
  { subst u t. unfold Uncertain, pending_is. simpl. destruct (State_Pending s) eqn:E; split_when; simpl; by rewrite ?E. }
  rewrite Hu. intros <-. assert (Handled u = handled_by_cancel s) as Hh.
  { subst u t. unfold handled_by_cancel. simpl. destruct (State_Pending s); split_when; done. }
  assert (Cancelled u = true ∧ DeadlineMS u = 0 ∧ Reason u = r ∧ Enrolled u = Enrolled s ∧
    Baseline u = Baseline s ∧ BaselineActive u = BaselineActive s ∧ Snapshots u = Snapshots s ∧
    State_Scope u = State_Scope s) as H.
  { subst u t. simpl. destruct (State_Pending s); split_when; done. }
  destruct_and! H. clear Eu Et. destruct (Uncertain s); cbn [negb]; rewrite ?when_true, ?when_false;
    split_and!; simpl; congruence.
Qed.

Lemma Cancel_uncertain s r : Uncertain (Cancel s r) = Uncertain s.
Proof.
  destruct (Cancel_fields s r _ eq_refl) as (_ & _ & _ & _ & _ & _ & _ & _ & _ & Hp & Hph).
  unfold Uncertain at 1, pending_is. rewrite Hp, Hph.
  destruct (Uncertain s) eqn:E; [|done]. unfold Uncertain, pending_is in E. by destruct (State_Pending s).
Qed.

(** ** An observation is consumed once *)

(** Observing [o] again changes nothing but the clock. *)
Definition consumed (d : Decision) (s : State) (o : Observation) : Prop :=
  ∀ now random rnd, Observe s o now random d rnd = ((Now s now).1, None).

Lemma clocked s now : ∃ k, (Now s now).1 = s <| ClockMS := k |>.
Proof. rewrite Now_eq. eauto. Qed.

Lemma consumed_uncertain d s o : Enrolled s = true → Uncertain s = true → consumed d s o.
Proof.
  intros He Hu now random rnd. unfold Observe. rewrite Now_eq. cbv zeta.
  change (Enrolled (s <| ClockMS := _ |>)) with (Enrolled s).
  change (Uncertain (s <| ClockMS := _ |>)) with (Uncertain s). by rewrite He, Hu.
Qed.

Lemma consumed_stopped d s o :
  Enrolled s = true → Cancelled s = true → pending_is s (λ _, true) = true → consumed d s o.
Proof.
  intros He Hc Hp now random rnd. unfold Observe. rewrite Now_eq. cbv zeta.
  change (Enrolled (s <| ClockMS := _ |>)) with (Enrolled s).
  change (Cancelled (s <| ClockMS := _ |>)) with (Cancelled s).
  change (pending_is (s <| ClockMS := _ |>) _) with (pending_is s (λ _, true)).
  rewrite He, Hc, Hp. cbn [negb andb]. by case_match.
Qed.

Lemma consumed_quiet d s o :
  Enrolled s = true → pending_superseded s o = false →
  obs_Status o = "inProgress" ∨ already_consumed s o = true ∨ result_running s o = true →
  consumed d s o.
Proof.
  intros He Hs Hq now random rnd. reveal Observe. rewrite Now_eq. cbv beta iota.
  change (Enrolled (s <| ClockMS := _ |>)) with (Enrolled s). rewrite He. cbn [negb].
  do 2 (case_match; [done|]).
  change (pending_superseded (s <| ClockMS := _ |>) o) with (pending_superseded s o).
  rewrite Hs, when_false. cbv zeta.
  change (result_running (s <| ClockMS := _ |>) o) with (result_running s o).
  change (already_consumed (s <| ClockMS := _ |>) o) with (already_consumed s o).
  destruct Hq as [->|[->| ->]]; [by case_match|by do 2 (case_match; [done|])|done].
Qed.

(** After the guards, what the second observation of a finished turn does. *)
Lemma Observe_reaches d s o now random rnd :
  Enrolled s = true → Uncertain s = false → (Cancelled s && pending_is s (λ _, true)) = false →
  pending_superseded s o = false → result_running s o = false → obs_Status o ≠ "inProgress" →
  already_consumed s o = false → result_superseded s o = false → 
  Observe s o now random d rnd =
    let s := (Now s now).1 in
    if obs_Status o != "failed" then
      let s := when (obs_Turn o != "") (λ s, s <| Handled := obs_Turn o |>) s in
      (when (negb (Uncertain s)) (λ s, s <| Phase := "idle" |> <| State_Pending := None |>
         <| DeadlineMS := 0 |> <| Class_ := "" |>) s, None)
    else observe_failure s o (Z.max now (ClockMS s)) random d rnd.
Proof.
  intros He Hu Hc Hs Hr Hp Ha Hrs. reveal Observe. rewrite Now_eq. cbv beta iota.
  change (Enrolled (s <| ClockMS := _ |>)) with (Enrolled s).
  change (Uncertain (s <| ClockMS := _ |>)) with (Uncertain s).
  change (Cancelled (s <| ClockMS := _ |>)) with (Cancelled s).
  change (pending_is (s <| ClockMS := _ |>) _) with (pending_is s (λ _, true)).
  change (pending_superseded (s <| ClockMS := _ |>) o) with (pending_superseded s o).
  change (result_running (s <| ClockMS := _ |>) o) with (result_running s o).
  change (already_consumed (s <| ClockMS := _ |>) o) with (already_consumed s o).
  rewrite He, Hu, Hc, Hs, when_false. cbv beta iota zeta. cbn [negb].
  change (result_running (s <| ClockMS := _ |>) o) with (result_running s o).
  change (already_consumed (s <| ClockMS := _ |>) o) with (already_consumed s o).
  change (result_superseded (s <| ClockMS := _ |>) o) with (result_superseded s o).
  rewrite Hr, Ha, Hrs, when_false, (bool_decide_eq_false_2 (obs_Status o = _)) by done.
  cbn [fst]. change (ClockMS (s <| ClockMS := ?k |>)) with k. rewrite Z.max_assoc, Z.max_id. done.
Qed.

(** What the guards of [Observe] establish of the state they pass on. *)
Record passed (s : State) (o : Observation) : Prop := {
  passed_enrolled : Enrolled s = true;
  passed_certain : Uncertain s = false;
  passed_live : (Cancelled s && pending_is s (λ _, true)) = false;
  passed_current : pending_superseded s o = false }.

Lemma passed_cancel s o r : Enrolled s = true → Uncertain s = false → passed (Cancel s r) o.
Proof.
  intros He Hu. destruct (Cancel_fields s r _ eq_refl) as (_ & _ & _ & HE & _ & _ & _ & _ & _ & Hp & _).
  rewrite Hu in Hp. split; unfold pending_superseded, pending_is; rewrite ?Hp, ?andb_false_r; try done.
  - congruence.
  - by rewrite Cancel_uncertain.
Qed.

Lemma passed_when_cancel s o b r :
  passed s o → passed (when b (λ s, Cancel s r) s) o.
Proof. intros [] . destruct b; [by apply passed_cancel|done]. Qed.

Lemma schedule_retry_consumed s o class clock random rnd s1 d :
  Enrolled s = true → schedule_retry s o class clock random rnd = (s1, None) → consumed d s1 o.
Proof.
  intros He. reveal schedule_retry. name_let t as Et. name_let k as Ek. name_let u as Eu. name_let c as Ec.
  assert (Enrolled c = true ∧ Handled c = obs_Turn o) as [Hec Hhc] by (subst; split_when; done).
  clear Et Ek Eu Ec. cbv zeta. intros H. apply consumed_quiet.
  - repeat case_match; simplify_eq; split_when; exact Hec.
  - repeat case_match; simplify_eq; unfold pending_superseded, pending_is; split_when; simpl;
      rewrite ?(bool_decide_eq_true_2 (obs_Turn o = obs_Turn o)); done.
  - right; left. unfold already_consumed. apply orb_true_iff; left. apply bool_decide_eq_true.
    repeat case_match; simplify_eq; split_when; simpl; done.
Qed.

Lemma observe_failure_consumed s o clock random d rnd s1 :
  passed s o → result_running s o = false → obs_Status o = "failed" →
  already_consumed s o = false → result_superseded s o = false →
  observe_failure s o clock random d rnd = (s1, None) → consumed d s1 o.
Proof.
  intros [He Hu Hl Hc] Hr Hst Ha Hs. unfold observe_failure at 1. cbv zeta.
  case_match eqn:Hclass; [|case_match eqn:Hel]; [intros [= <-]..|by apply schedule_retry_consumed].
  - change (pending_is (s <| Handled := obs_Turn o |>) (λ p, pend_ResultTurn p == obs_Turn o))
      with (pending_is s (λ p, pend_ResultTurn p == obs_Turn o)).
    apply consumed_quiet; [by split_when| |right; left]; split_when; try exact Hc;
      unfold already_consumed; simpl; by rewrite bool_decide_eq_true_2.
  - destruct (pending_is s (λ p, pend_ResultTurn p == obs_Turn o)) eqn:Hp; rewrite ?when_true, ?when_false.
    + apply consumed_stopped; [done|done|]. unfold pending_is in *. simpl. by destruct (State_Pending s).
    + intros now' random' rnd'. rewrite Observe_reaches by (try done; by rewrite Hst).
      rewrite Hst. cbv zeta. cbn [negb]. rewrite bool_decide_eq_true_2 by done. cbn [negb].
      unfold observe_failure. rewrite Hclass. destruct (clocked s now') as [k ->].
      change (Eligible d (s <| ClockMS := k |>) o) with (Eligible d s o). rewrite Hel.
      change (pending_is (s <| ClockMS := k |>) (λ p, pend_ResultTurn p == obs_Turn o))
        with (pending_is s (λ p, pend_ResultTurn p == obs_Turn o)). by rewrite Hp, when_false.
Qed.

(** The second supersession leaves a state in which the turn is still unconsumed. *)
Lemma superseded_unconsumed s o :
  passed s o → result_running s o = false → already_consumed s o = false →
  let c := when (result_superseded s o) (λ s, Cancel s "superseded") s in
  passed c o ∧ result_running c o = false ∧ already_consumed c o = false ∧ result_superseded c o = false.
Proof.
  intros Hp Hr Ha. split; [by apply passed_when_cancel|].
  destruct (result_superseded s o) eqn:Hs; rewrite ?when_true, ?when_false; [|done].
  destruct (Cancel_fields s "superseded" _ eq_refl) as (_ & _ & _ & _ & HB & HBA & _ & HH & _ & HP & _).
  rewrite (passed_certain _ _ Hp) in HP.
  unfold result_running, result_superseded, pending_is at 1 2. rewrite HP. split_and!; try done.
  unfold already_consumed in *. rewrite HB, HBA, HH. apply orb_false_iff in Ha as [Ha ->].
  rewrite orb_false_r. apply bool_decide_eq_false. unfold handled_by_cancel.
  unfold result_superseded, pending_is in Hs. destruct (State_Pending s); [|done].
  apply andb_prop in Hs as [-> Hs]. by case_bool_decide.
Qed.

(** Observing a turn a second time, at any later moment, has no effect
    but the clock: each terminal state of a turn is handled exactly once. *)
Theorem observe_once s o now random d rnd s1 now' random' rnd' :
  Enrolled s = true → Observe s o now random d rnd = (s1, None) →
  Observe s1 o now' random' d rnd' = ((Now s1 now').1, None).
Proof.
  intros He. cut (Observe s o now random d rnd = (s1, None) → consumed d s1 o); [intros H ?; by apply H|].
  reveal Observe. rewrite Now_eq. cbv beta iota. set (s0 := s <| ClockMS := _ |>).
  assert (Enrolled s0 = true) as He0 by done. generalize (Z.max now (ClockMS s)). intros clock.
  clearbody s0. clear He s. rewrite He0. cbv beta iota delta [negb].
  case_match eqn:Hu; [intros [= <-]; by apply consumed_uncertain|].
  case_match eqn:Hl; [intros [= <-]; apply andb_prop in Hl as [??]; by apply consumed_stopped|].
  name_let c as Ec.
  assert (passed c o) as Hc.
  { subst c. destruct (pending_superseded s0 o) eqn:Hp; [by apply passed_cancel|by split]. }
  clear Ec. pose proof Hc as [HE HU HL HC].
  case_match eqn:Hr; [intros [= <-]; apply consumed_quiet; auto|].
  case_match eqn:Hst; [intros [= <-]; apply consumed_quiet; auto; left; by apply bool_decide_eq_true in Hst|].
  case_match eqn:Ha; [intros [= <-]; apply consumed_quiet; auto|].
  destruct (superseded_unconsumed c o Hc Hr Ha) as (Hpc' & Hr' & Ha' & Hs').
  name_let c' as Ec'. rewrite <- Ec' in *. clear Ec'.
  case_match eqn:Hf.
  2:{ apply negb_false_iff, bool_decide_eq_true in Hf. by apply observe_failure_consumed. }
  name_let t as Et. assert (Uncertain t = false) as Ht.
  { subst t. destruct Hpc'. by split_when. }
  rewrite Ht. cbn [negb]. rewrite when_true. intros [= <-].
  destruct (obs_Turn o == "") eqn:Hempty; subst t; cbn [negb]; rewrite ?when_true, ?when_false.
  2:{ apply consumed_quiet; [apply Hpc'|done|]. right; left. unfold already_consumed. simpl.
      by rewrite bool_decide_eq_true_2. }
  intros now'' random'' rnd''. rewrite Observe_reaches; try done; [|apply Hpc'|by rewrite andb_false_r|].
  2:{ by apply bool_decide_eq_false in Hst. }
  change (if obs_Status o == "failed" then false else true) with (obs_Status o != "failed") in Hf.
  rewrite Hf, Hempty. cbv zeta. cbn [negb]. rewrite when_false.
  rewrite Now_eq. cbn [fst]. destruct c'; reflexivity.
Qed.

(** ** An uncertain submission is never lost *)

(** The operations that do not settle a submission. *)
Inductive unsettling_op (s : State) : State → Prop :=
  | uns_enroll o : unsettling_op s (Enroll s o)
  | uns_set_enabled b o : unsettling_op s (SetEnabled s b o)
  | uns_cancel r : unsettling_op s (Cancel s r)
  | uns_invalidate turn : unsettling_op s (InvalidateSettings s turn).1
  | uns_observe o now random d rnd : unsettling_op s (Observe s o now random d rnd).1
  | uns_begin now d : unsettling_op s (Begin s now d).1
  | uns_suppress turn : unsettling_op s (SuppressTurn s turn)
  | uns_retire latest : unsettling_op s (RetireObsoleteProofs s latest).1
  | uns_retain p turn retire reserve : unsettling_op s (retainSnapshot s p turn retire reserve).1
  | uns_preflight : unsettling_op s (PreflightAccepted s).1
  | uns_compact turn item client text : unsettling_op s (CompactManagedInput s turn item client text).1
  | uns_stop : unsettling_op s (Stop s).1
  | uns_retry_now now : unsettling_op s (RetryNow s now).1.

Definition same_attempt (s s' : State) : Prop :=
  State_Pending s' = State_Pending s ∧ Phase s' = Phase s.

Lemma same_attempt_trans s1 s2 s3 : same_attempt s1 s2 → same_attempt s2 s3 → same_attempt s1 s3.
Proof. unfold same_attempt. intros [??] [??]. split; congruence. Qed.

Lemma same_attempt_uncertain s s' : same_attempt s s' → Uncertain s' = Uncertain s.
Proof. unfold same_attempt, Uncertain, pending_is. by intros [-> ->]. Qed.

Lemma same_attempt_cancel s s' r : same_attempt s s' → Uncertain s = true → same_attempt s (Cancel s' r).
Proof.
  intros Hs Hu. destruct (Cancel_fields s' r _ eq_refl) as (_ & _ & _ & _ & _ & _ & _ & _ & _ & Hp & Hph).
  rewrite (same_attempt_uncertain _ _ Hs), Hu in Hp, Hph. destruct Hs. split; congruence.
Qed.

Lemma same_attempt_when (b : bool) f s s' :
  same_attempt s s' → same_attempt s (f s') → same_attempt s (when b f s').
Proof. by destruct b. Qed.

Lemma phase_of_uncertain s : Uncertain s = true → Phase s ≠ "scheduled".
Proof.
  unfold Uncertain, pending_is. destruct (State_Pending s); [|done]. intros H Hp. by rewrite Hp in H.
Qed.

#[local] Hint Resolve same_attempt_cancel same_attempt_when : go.
#[local] Hint Extern 1 (same_attempt _ _) => split; reflexivity : go.

Lemma SetEnabled_same_attempt s b o : Uncertain s = true → same_attempt s (SetEnabled s b o).
Proof.
  intros Hu. reveal SetEnabled. case_match; [done|]. name_let t as Et. name_let c as Ec.
  assert (same_attempt s c) as Hc by (subst; by apply same_attempt_cancel). clear Ec.
  destruct b; [|done]. name_let k as Ek. name_let u as Eu.
  assert (same_attempt s u) by (by subst). clear Eu. by apply same_attempt_when.
Qed.

Lemma Stop_same_attempt s : Uncertain s = true → same_attempt s (Stop s).1.
Proof.
  intros Hu. reveal Stop. case_match; [done|]. name_let t as Et. name_let p as Ep. name_let c as Ec.
  assert (same_attempt s t) as Ht by (subst; destruct (State_Pending s); [apply same_attempt_when|]; done).
  assert (same_attempt s c) as Hc by (subst c; by apply same_attempt_cancel).
  cbn [fst]. destruct Ht as [Ht _], Hc as [_ Hc]. subst p. by split.
Qed.

Lemma unsettling_same_attempt s s' : Uncertain s = true → unsettling_op s s' → same_attempt s s'.
Proof.
  intros Hu Hop. destruct Hop; auto using SetEnabled_same_attempt, Stop_same_attempt with go.
  - unfold Enroll. by case_match.
  - reveal InvalidateSettings. case_match; [done|]. name_let t as Et. name_let c as Ec. name_let u as Eu.
    cbn [fst]. assert (same_attempt s c) by (subst; by apply same_attempt_cancel).
    assert (same_attempt s u) by (subst u; by apply same_attempt_when). done.
  - unfold Observe. rewrite Now_eq. cbv zeta.
    change (Uncertain (s <| ClockMS := _ |>)) with (Uncertain s). rewrite Hu.
    unfold Enroll. by repeat case_match.
  - unfold Begin. rewrite Now_eq. change (Phase (s <| ClockMS := _ |>)) with (Phase s).
    rewrite (bool_decide_eq_false_2 (Phase s = _)) by (by apply phase_of_uncertain).
    cbn [negb]. by rewrite orb_true_r.
  - unfold RetireObsoleteProofs. by repeat case_match.
  - rewrite retainSnapshot_snaps. done.
  - unfold PreflightAccepted. by repeat case_match.
  - unfold CompactManagedInput. by repeat case_match.
  - unfold RetryNow. rewrite (bool_decide_eq_false_2 (Phase s = _)) by (by apply phase_of_uncertain).
    cbn [negb]. by rewrite orb_true_r.
Qed.

(** C5: once a submission may have been sent, no observation, cancellation,
    opt-out, settings change, stop, retirement of evidence or repeated attempt to
    begin changes the attempt or its phase: only its receipt or a positive proof
    can settle it, whatever sequence of such operations runs. *)
Theorem uncertain_attempt_survives s s' :
  Uncertain s = true → rtc unsettling_op s s' →
  Uncertain s' = true ∧ State_Pending s' = State_Pending s ∧ Phase s' = Phase s.
Proof.
  intros Hu Hrtc. induction Hrtc as [s|s s1 s' Hop _ IH]; [done|].
  pose proof (unsettling_same_attempt _ _ Hu Hop) as Hs.
  rewrite <- (same_attempt_uncertain _ _ Hs) in Hu. destruct Hs as [<- <-]. by apply IH.
Qed.

(** ** Settings changes revoke proofs *)

Lemma first_error_None {A} (check : A → option error) l x :
  first_error check l = None → x ∈ l → check x = None.
Proof.
  induction l as [|y l IH]; simpl; [set_solver|].
  destruct (check y) eqn:E; [done|]. intros Hl [->|Hx]%elem_of_cons; auto.
Qed.

Lemma validate_snapshot scope s p :
  validate scope s = None → p ∈ elems (Snapshots s) → check_snapshot s p = None.
Proof.
  intros Hv Hp. unfold validate in Hv. repeat case_match; try done.
  by eapply first_error_None.
Qed.

Lemma check_snapshot_epoch s p : check_snapshot s p = None → snap_Epoch p <= Epoch s.
Proof.
  unfold check_snapshot. case_match eqn:H; [done|]. intros _.
  rewrite !orb_false_iff in H. destruct_and! H. lia.
Qed.

Lemma Proof_Some s turn p :
  Proof_ s turn = Some p → p ∈ elems (Snapshots s) ∧ proves s turn p = true.
Proof.
  unfold Proof_. intros [Hin Hp]%List.find_some. split; [|done].
  apply list_elem_of_In. by apply in_rev.
Qed.

(** Changing settings moves a valid state to the next epoch, in which no
    saved snapshot proves any turn and no binding or managed prefix is left;
    a submission that may have been sent is kept for reconciliation. *)
Theorem invalidate_revokes_proofs s turn s' :
  is_u64 (Epoch s) → validate (State_Scope s) s = None →
  InvalidateSettings s turn = (s', None) →
  Epoch s' = Epoch s + 1 ∧ (∀ t, Proof_ s' t = None) ∧
  State_Binding s' = None ∧ State_ManagedTurn s' = None ∧
  (Uncertain s = true → State_Pending s' = State_Pending s ∧ Phase s' = Phase s) ∧
  (Uncertain s = false → State_Pending s' = None).
Proof.
  intros Hu Hv Hi. pose proof Hi as Hi'. revert Hi. reveal InvalidateSettings. case_match eqn:Hg; [done|].
  apply orb_false_iff in Hg as [H0 Hm]. apply Z.eqb_neq in Hm.
  name_let t as Et. name_let c as Ec. name_let u as Eu. intros [= <-].
  destruct (keeps_when (turn != "") (λ s, s <| Handled := turn |>) c) as (_ & _ & He); [done|].
  destruct (Cancel_keeps t "settings_changed") as (_ & _ & He').
  destruct (Cancel_fields t "settings_changed" _ eq_refl) as (_ & _ & _ & _ & _ & _ & HS & _ & _ & HP & HPh).
  rewrite <- Ec in He', HS, HP, HPh. rewrite <- Eu in He.
  assert (Epoch u = Epoch s + 1) as Heu.
  { rewrite He, He', Et. unfold max_u64 in *. simpl. apply u64_id. unfold is_u64 in *. lia. }
  assert (Snapshots u = Snapshots s ∧ State_Pending u = State_Pending c ∧ Phase u = Phase c) as (Hsn & Hpu & Hphu).
  { subst u. split_when; simpl; rewrite HS, Et; done. }
  assert (Uncertain t = Uncertain s) as Hut by (by subst t). rewrite Hut in HP, HPh.
  split_and!; simpl; try done.
  - intros x. destruct (Proof_ _ x) as [p|] eqn:Hp; [|done]. apply Proof_Some in Hp as [Hin Hpr].
    simpl in Hin. rewrite Hsn in Hin. pose proof (validate_snapshot _ _ _ Hv Hin) as Hc.
    apply check_snapshot_epoch in Hc. unfold proves in Hpr. simpl in Hpr. rewrite Heu in Hpr.
    apply andb_prop in Hpr as [_ Hpr]. apply bool_decide_eq_true in Hpr. lia.
  - intros Hun. rewrite Hun in HP, HPh. rewrite Hpu, Hphu, HP, HPh. by subst t.
  - intros Hun. rewrite Hun in HP. by rewrite Hpu.
Qed.

End Observe.
