(* ===== verification/RetrySubmit.v ===== *)
(** * Automatic retry: evidence retention, submission and receipts

    Theorems about the transitions around a submission: what retaining evidence
    may discard, when an attempt begins, and how a receipt settles it. *)

From S2P Require Import Prelude GoStrings GoJson GoFloat Sha256 Codex.
From S2P Require Import RetryTypes RetryValidate RetryState RetryManaged RetryMachine.
From S2P Require Import RetryObserve.

Open Scope Z_scope.

Section Submit.
Context {CW : CodexWeb}.

(** ** Retained evidence *)

Lemma elem_of_delete_ne {A} (l : list A) i x y : l !! i = Some x → y ∈ l → y ≠ x → y ∈ delete i l.
Proof.
  revert i. induction l as [|z l IH]; intros [|i] Hi Hy Hne; simpl in *; try done.
  - simplify_eq. by apply elem_of_cons in Hy as [?|?].
  - apply elem_of_cons in Hy as [->|Hy]; apply elem_of_cons; [by left|right; by apply IH].
Qed.

Lemma retire_at_length snaps i p turn cur :
  snaps !! i = Some p → (length (retire_at snaps i turn cur) < length snaps)%nat.
Proof.
  intros Hi. pose proof (length_delete snaps i (mk_is_Some _ _ Hi)) as Hd.
  pose proof (lookup_lt_Some _ _ _ Hi). unfold retire_at. cbv zeta.
  match goal with |- context [List.filter ?f ?l] => pose proof (filter_length_le f l) end.
  case_match; lia.
Qed.

Lemma retain_loop_total fuel : ∀ c p cur retire reserve,
  (length (elems (Snapshots c)) < fuel)%nat → is_Some (retain_loop fuel c p cur retire reserve).
Proof.
  induction fuel as [|fuel IH]; intros c p cur retire reserve Hf; [lia|]. cbn [retain_loop].
  destruct (State_json c); [|done]. case_match; [by case_match|].
  destruct (if retire && _ then _ else _) as [[i q]|] eqn:Hi; [|done].
  case_match; [|done]. apply find_index_lookup in Hi as [Hi _]. apply IH.
  change (elems (Snapshots (c <| Snapshots := Some ?l |>))) with l.
  pose proof (retire_at_length _ _ _ (snap_Turn q) cur Hi). simpl. lia.
Qed.

(** The retention loop always ends: the rounds [retainSnapshot] allows are
    enough for any state, any candidate snapshot and any size limit. *)
Theorem retain_terminates s p cur retire reserve :
  is_Some (retain_loop (S (length (put_snapshot (elems (Snapshots s)) p)))
             (s <| Snapshots := Some (put_snapshot (elems (Snapshots s)) p) |>) p cur retire reserve).
Proof. apply retain_loop_total. simpl. lia. Qed.

(** Evidence the loop may not discard: that of unsubmitted turns and of the
    pending attempt's source turn, the attempt's own unproven evidence, the
    proofs of the current turn, and the new snapshot itself. *)
Definition source_turn (s : State) (turn : string) : bool :=
  (turn == "") || pending_is s (λ v, turn == snap_Turn (pend_Snapshot v)).
Definition is_proof (q : Snapshot) : bool := snap_Proven q || (snap_Origin q == "executed").

Definition indispensable (s : State) (p : Snapshot) (cur : string) (q : Snapshot) : Prop :=
  source_turn s (snap_Turn q) = true
  ∨ protectedSnapshot s q = true ∧ is_proof q = false
  ∨ snap_Turn q = cur ∧ is_proof q = true
  ∨ q = p ∧ (snap_Proven p = true ∨ is_proof p = false ∨ snap_Turn p = cur).

Lemma source_turn_protected s q : source_turn s (snap_Turn q) = true → protectedSnapshot s q = true.
Proof.
  unfold source_turn, protectedSnapshot, pending_is. intros [->|H]%orb_prop; [done|].
  destruct (State_Pending s); [|done]. by rewrite H, !orb_true_r.
Qed.

Lemma retirable_facts s p cur r :
  retirable s p cur r = true →
  snap_ID r ≠ snap_ID p ∧ is_proof r = false ∧ protectedSnapshot s r = false ∧
  (snap_Proven p = true → snap_Turn r ≠ snap_Turn p).
Proof.
  unfold retirable, is_proof. rewrite !andb_true_iff, !negb_true_iff.
  intros (((((Hid & _) & Hp) & Ho) & Hpr) & Ht). rewrite Hp. simpl.
  apply bool_decide_eq_false in Hid. split_and!; try done; try (by apply orb_false_iff).
  intros Hpp. rewrite Hpp in Ht. simpl in Ht. by apply negb_true_iff, bool_decide_eq_false in Ht.
Qed.

Lemma indispensable_not_retired s p cur q r snaps i :
  retirable s p cur r = true → snaps !! i = Some r →
  indispensable s p cur q → q ∈ snaps → q ∈ retire_at snaps i (snap_Turn r) cur.
Proof.
  intros (Hid & Hpf & Hpr & Hpt)%retirable_facts Hi Hq Hin.
  assert (source_turn s (snap_Turn r) = false) as Hsrc.
  { destruct (source_turn s (snap_Turn r)) eqn:E; [|done]. by rewrite (source_turn_protected _ _ E) in Hpr. }
  assert (q ∈ delete i snaps) as Hdel.
  { apply (elem_of_delete_ne _ _ r); [done|done|]. intros ->.
    destruct Hq as [Hq|[[Hq _]|[[_ Hq]|[-> _]]]]; congruence. }
  unfold retire_at. cbv zeta. case_bool_decide as Hcur; cbn [negb]; [done|].
  apply list_elem_of_In, filter_In. split; [by apply list_elem_of_In|].
  destruct (decide (snap_Turn q = snap_Turn r)) as [Heq|Hne]; [|by rewrite bool_decide_eq_false_2].
  assert (is_proof q = false) as Hqf.
  { destruct Hq as [Hq|[[_ Hq]|[[Hq _]|[-> [Hq|[Hq|Hq]]]]]]; try congruence.
    by destruct (Hpt Hq). }
  unfold is_proof in Hqf. apply orb_false_iff in Hqf as [-> ->]. by rewrite orb_true_r.
Qed.

Lemma indispensable_pending s s' p cur q :
  State_Pending s' = State_Pending s → indispensable s p cur q → indispensable s' p cur q.
Proof. unfold indispensable, source_turn, protectedSnapshot, pending_is. by intros ->. Qed.

Lemma retain_loop_sound fuel : ∀ c p cur retire reserve c',
  retain_loop fuel c p cur retire reserve = Some (Ok c') →
  validate (State_Scope c) c' = None ∧ slice_len (Snapshots c') <= MaxSnapshots ∧
  (∃ data, State_json c' = Some data ∧ strlen data + 1 + reserve <= MaxBytes) ∧
  (∀ q, q ∈ elems (Snapshots c) → indispensable c p cur q → q ∈ elems (Snapshots c')).
Proof.
  induction fuel as [|fuel IH]; intros c p cur retire reserve c' H; [done|]. cbn [retain_loop] in H.
  destruct (State_json c) as [data|] eqn:Hj; [|done].
  case_match eqn:Hfit.
  - destruct (validate (State_Scope c) c) eqn:Hv; [done|]. simplify_eq.
    apply andb_prop in Hfit as [H1%Z.leb_le H2%Z.leb_le]. split_and!; eauto.
  - destruct (if retire && _ then _ else _) as [[i r]|] eqn:Hi; [|done].
    case_match; [|done]. apply find_index_lookup in Hi as [Hi Hr].
    apply IH in H as (Hv & Hl & Hd & Hk). split_and!; try done.
    intros q Hq Hind. apply Hk; [|by eapply indispensable_pending].
    change (elems (Snapshots (c <| Snapshots := Some ?l |>))) with l.
    by eapply indispensable_not_retired.
Qed.

Lemma put_snapshot_elem snaps p : p ∈ put_snapshot snaps p.
Proof.
  unfold put_snapshot. destruct (find_index _ snaps) as [[i q]|] eqn:E.
  - apply find_index_lookup in E as [E _]. apply list_elem_of_lookup. exists i.
    apply list_lookup_insert_eq. by eapply lookup_lt_Some.
  - apply elem_of_app. right. by apply list_elem_of_singleton.
Qed.

Lemma put_snapshot_keeps snaps p q : q ∈ snaps → snap_ID q ≠ snap_ID p → q ∈ put_snapshot snaps p.
Proof.
  intros Hq Hne. unfold put_snapshot. destruct (find_index _ snaps) as [[i r]|] eqn:E.
  - apply find_index_lookup in E as [E Hr]. apply bool_decide_eq_true in Hr.
    apply list_elem_of_lookup in Hq as [j Hj]. apply list_elem_of_lookup. exists j.
    rewrite list_lookup_insert_ne; [done|]. intros ->. congruence.
  - apply elem_of_app. by left.
Qed.

(** Retaining a snapshot either leaves the state as it was and reports an
    error, or changes only the evidence, to a list that is within the count and
    (with the asked reserve) the byte limit, forms a valid record, and still holds
    everything indispensable: the source of a pending attempt, evidence of turns
    not yet submitted, current proofs, and the snapshot itself. *)
Theorem retain_snapshot_sound s p cur retire reserve s' e :
  retainSnapshot s p cur retire reserve = (s', e) →
  match e with
  | Some _ => s' = s
  | None =>
      s' = s <| Snapshots := Snapshots s' |> ∧
      validate (State_Scope s) s' = None ∧ slice_len (Snapshots s') <= MaxSnapshots ∧
      (∃ data, State_json s' = Some data ∧ strlen data + 1 + reserve <= MaxBytes) ∧
      (snap_Proven p = true ∨ is_proof p = false ∨ snap_Turn p = cur → p ∈ elems (Snapshots s')) ∧
      (∀ q, q ∈ elems (Snapshots s) → snap_ID q ≠ snap_ID p → indispensable s p cur q →
            q ∈ elems (Snapshots s'))
  end.
Proof.
  unfold retainSnapshot. cbv zeta. set (snaps := put_snapshot _ _).
  case_match eqn:Hl; [case_match; subst|]; intros [= <- <-]; [|done|done].
  pose proof (retain_loop_snaps _ _ _ _ _ _ _ Hl) as Hs.
  apply retain_loop_sound in Hl as (Hv & Hlen & Hd & Hk). split_and!; try done.
  - intros Hp. apply Hk; [apply put_snapshot_elem|]. right; right; right. by split.
  - intros q Hq Hne Hind. apply Hk; [by apply put_snapshot_keeps|done].
Qed.

(** ** Submission *)

(** Authority depends on the chain and the attempt's identity only. *)
Lemma Allows_same d s s' :
  Class_ s' = Class_ s → Cancelled s' = Cancelled s → Chain s' = Chain s →
  pend_ID <$> State_Pending s' = pend_ID <$> State_Pending s → Allows d s' = Allows d s.
Proof.
  intros Hc Hca Hch Hp. unfold Allows. rewrite Hc, Hca. case_match; [done|]. f_equal.
  induction (dec_Suppressed d) as [|v l IH]; simpl; [done|]. rewrite IH. f_equal.
  unfold suppresses, pending_is. rewrite Hch.
  destruct (State_Pending s'), (State_Pending s); simpl in Hp; try discriminate; [|done].
  by injection Hp as ->.
Qed.

(** An attempt that is only charged. *)
Definition recharged (p p' : Pending) : Prop := p' = p <| pend_ChargedAtMS := pend_ChargedAtMS p' |>.

Lemma recharged_refl p : recharged p p.
Proof. by destruct p. Qed.

Lemma Reserve_outcome s now d s' :
  ReserveUnsubmitted s now d = (s', None) →
  Allows d s = true ∧ Class_ s' = Class_ s ∧ Phase s' = (if bool_decide (State_Pending s' = None) && bool_decide (Class_ s = "cybersecurity") then "exhausted" else Phase s) ∧
  Attempt s' = Attempt s ∧
  ∀ p', State_Pending s' = Some p' → Allows d s' = true ∧ ∃ p, State_Pending s = Some p ∧ recharged p p' ∧
    (Class_ s = "cybersecurity" →
      pend_ChargedAtMS p' = Z.max now (ClockMS s) ∧
      mkCharge (pend_ID p') (Z.max now (ClockMS s)) false ∈ elems (Cyber s')).
Proof.
  unfold ReserveUnsubmitted. case_match eqn:Ha; [done|]. apply negb_false_iff in Ha.
  case_match eqn:Hc.
  - intros [= <-]. apply negb_true_iff, bool_decide_eq_false in Hc.
    rewrite (bool_decide_eq_false_2 (Class_ s = _)), andb_false_r by done.
    split_and!; try done. intros p' ->. split; [done|]. exists p'. split_and!; [done|apply recharged_refl|done].
  - apply negb_false_iff, bool_decide_eq_true in Hc. destruct (State_Pending s) as [p|] eqn:Hp; [|done].
    rewrite Now_eq. cbv zeta. rewrite (bool_decide_eq_true_2 (Class_ s = _)) by done.
    case_match; intros [= <-]; split_and!; try done. intros p' [= <-]. split.
    { rewrite <- Ha. apply Allows_same; try done. simpl. by rewrite Hp. }
    exists p. split_and!; try done.
    split; [done|]. simpl. apply elem_of_app. right. by apply list_elem_of_singleton.
Qed.

Lemma Begin_spec s now d s' :
  Begin s now d = (s', None) →
  Allows d s = true ∧ Phase s = "scheduled" ∧ DeadlineMS s <= Z.max now (ClockMS s) ∧
  match State_Pending s' with
  | None => Class_ s = "cybersecurity" ∧ Phase s' = "exhausted"
  | Some p' =>
      Phase s' = "submitting" ∧ Uncertain s' = true ∧ Attempt s' = u64 (Attempt s + 1) ∧ Allows d s' = true ∧
      ∃ p, State_Pending s = Some p ∧ recharged p p' ∧
      (Class_ s = "cybersecurity" →
         pend_ChargedAtMS p' = Z.max now (ClockMS s) ∧
         mkCharge (pend_ID p') (Z.max now (ClockMS s)) false ∈ elems (Cyber s'))
  end.
Proof.
  reveal Begin. rewrite Now_eq. cbv beta iota. set (s0 := s <| ClockMS := _ |>).
  case_match eqn:Hg; [done|]. rewrite !orb_false_iff, !negb_false_iff in Hg.
  destruct Hg as (((Ha & Hp) & Hn) & Hd). apply bool_decide_eq_true in Hp. apply Z.ltb_ge in Hd.
  apply bool_decide_eq_false in Hn.
  destruct (ReserveUnsubmitted s0 now d) as [s1 [e|]] eqn:Hr; [done|].
  destruct (Reserve_outcome _ _ _ _ Hr) as (_ & Hc & Hph & Hat & Hpe).
  replace (Z.max now (ClockMS s0)) with (Z.max now (ClockMS s)) in Hpe by (subst s0; simpl; lia).
  case_bool_decide as Hnone.
  - intros [= <-]. split_and!; try done. rewrite Hnone in *.
    destruct (decide (Class_ s = "cybersecurity")) as [Hcy|Hcy].
    { change (Class_ s0) with (Class_ s) in Hph. by rewrite (bool_decide_eq_true_2 _ Hcy) in Hph. }
    exfalso. unfold ReserveUnsubmitted in Hr. rewrite Ha in Hr. cbn [negb] in Hr.
    change (Class_ s0) with (Class_ s) in Hr. rewrite bool_decide_eq_false_2 in Hr by done. by simplify_eq/=.
  - name_let t as Et. name_let u as Eu. intros [= <-]. split_and!; try done.
    assert (State_Pending u = State_Pending s1 ∧ Attempt u = u64 (Attempt s + 1) ∧ Cyber u = Cyber s1) as (Hpu & Hau & Hcu).
    { subst u t. split_when; simpl; rewrite Hat; done. }
    change (State_Pending (u <| Phase := _ |> <| DeadlineMS := _ |> <| Reason := _ |>)) with (State_Pending u).
    rewrite Hpu. destruct (State_Pending s1) as [p'|] eqn:Hp'; [|done].
    destruct (Hpe p' eq_refl) as (Hal & p & Hps & Hre & Hcy).
    split_and!; [done|unfold Uncertain, pending_is; simpl; by rewrite Hpu|done| |exists p; split_and!; try done].
    { rewrite <- Hal. apply Allows_same; subst u t; split_when; done. }
    change (Cyber (u <| Phase := _ |> <| DeadlineMS := _ |> <| Reason := _ |>)) with (Cyber u).
    by rewrite Hcu.
Qed.

(** An attempt begins only when the session allows its chain, it is
    scheduled and its deadline has passed on a clock that never runs backwards;
    then it counts as one attempt, is marked as possibly submitted before
    anything is sent, and a cybersecurity attempt is charged to the quota.
    Otherwise a full quota ends the chain, and nothing is left to send. *)
Theorem begin_outcome s now d s' :
  Begin s now d = (s', None) →
  Allows d s = true ∧ Phase s = "scheduled" ∧ DeadlineMS s <= Z.max now (ClockMS s) ∧
  match State_Pending s' with
  | None => Class_ s = "cybersecurity" ∧ Phase s' = "exhausted"
  | Some p' =>
      Phase s' = "submitting" ∧ Uncertain s' = true ∧ Attempt s' = u64 (Attempt s + 1) ∧ Allows d s' = true ∧
      ∃ p, State_Pending s = Some p ∧ recharged p p' ∧
      (Class_ s = "cybersecurity" →
         pend_ChargedAtMS p' = Z.max now (ClockMS s) ∧
         mkCharge (pend_ID p') (Z.max now (ClockMS s)) false ∈ elems (Cyber s'))
  end.
Proof. apply Begin_spec. Qed.

(** Asking to retry now makes a scheduled capacity retry due at once: the
    next attempt to begin it succeeds at any later reading of the clock. *)
Theorem retry_now_is_due s now now' d s1 :
  RetryNow s now = (s1, true) → Allows d s1 = true → Class_ s = "capacity" →
  ∃ s2, Begin s1 now' d = (s2, None) ∧ Uncertain s2 = true.
Proof.
  unfold RetryNow. case_match eqn:Hg; [done|]. rewrite Now_eq. intros [= <-] Ha Hc.
  rewrite !orb_false_iff, negb_false_iff in Hg. destruct Hg as (((_ & Hp) & Hn) & _).
  apply bool_decide_eq_true in Hp. apply bool_decide_eq_false in Hn.
  set (s1 := s <| ClockMS := _ |> <| DeadlineMS := _ |>) in *.
  destruct (State_Pending s) as [p|] eqn:Hps; [|done].
  assert (Begin s1 now' d = (let s := s1 <| ClockMS := Z.max now' (ClockMS s1) |> <| Attempt ::= λ a, u64 (a + 1) |> in
     when (Class_ s == "capacity") (λ s, s <| Capacity ::= λ c, u64 (c + 1) |>) s
       <| Phase := "submitting" |> <| DeadlineMS := 0 |> <| Reason := "" |>, None)) as ->.
  { unfold Begin. rewrite Now_eq. change (Allows d (s1 <| ClockMS := _ |>)) with (Allows d s1). rewrite Ha.
    change (Phase (s1 <| ClockMS := _ |>)) with (Phase s). rewrite Hp.
    change (State_Pending (s1 <| ClockMS := _ |>)) with (State_Pending s). rewrite Hps.
    change (DeadlineMS (s1 <| ClockMS := _ |>)) with (Z.max now (ClockMS s)).
    rewrite (proj2 (Z.ltb_ge _ _)) by (simpl; lia). cbn [negb orb bool_decide].
    unfold ReserveUnsubmitted. change (Allows d (s1 <| ClockMS := _ |>)) with (Allows d s1). rewrite Ha.
    change (Class_ (s1 <| ClockMS := _ |>)) with (Class_ s). rewrite Hc. cbn [negb].
    simpl. rewrite Hps. reflexivity. }
  eexists. split; [reflexivity|]. unfold Uncertain, pending_is. cbv zeta. split_when; simpl; by rewrite Hps.
Qed.

(** ** Receipts *)

(** The charge loop finds the attempt exactly when it was charged. *)
Lemma accept_charge_found id now l : ∀ s found out,
  (fold_left (accept_charge id now) l (s, found, out)).1.2
  = found || existsb (λ c, charge_ID c == id) l.
Proof.
  induction l as [|c l IH]; intros s found out; cbn [fold_left existsb]; [by rewrite orb_false_r|].
  unfold accept_charge at 2. rewrite Now_eq.
  destruct (charge_ID c == id); cbn [negb]; [destruct (charge_Accepted c)|]; rewrite IH;
    by rewrite ?orb_true_r.
Qed.

(** The states the loop passes through: the attempt is only re-dated. *)
Definition redated (s s' : State) : Prop :=
  Phase s' = Phase s ∧ Cancelled s' = Cancelled s ∧ Handled s' = Handled s ∧ Class_ s' = Class_ s ∧
  Snapshots s' = Snapshots s ∧
  ∀ p, State_Pending s = Some p → ∃ at_ms, State_Pending s' = Some (p <| pend_ChargedAtMS := at_ms |>).

Lemma redated_refl s : redated s s.
Proof. unfold redated. split_and!; try done. intros p ->. exists (pend_ChargedAtMS p). by destruct p. Qed.

Lemma accept_charge_redates id now s found out c s0 :
  redated s0 s → redated s0 (accept_charge id now (s, found, out) c).1.1.
Proof.
  intros (?&?&?&?&?&Hp). unfold accept_charge. rewrite Now_eq.
  do 2 (case_match; [by split_and!|]). unfold redated. split_and!; try done.
  intros p Hs. destruct (Hp p Hs) as [k Hk]. simpl. rewrite Hk. by eexists.
Qed.

Lemma accept_fold_redates id now l : ∀ s found out s0,
  redated s0 s → redated s0 (fold_left (accept_charge id now) l (s, found, out)).1.1.
Proof.
  induction l as [|c l IH]; intros s found out s0 Hs; cbn [fold_left]; [done|].
  pose proof (accept_charge_redates id now s found out c s0 Hs).
  destruct (accept_charge id now (s, found, out) c) as [[s1 f1] o1]. by apply IH.
Qed.

(** The attempt is charged, and every charge of it is accepted. *)
Definition settled_charges (s : State) (id : string) : Prop :=
  (∃ c, c ∈ elems (Cyber s) ∧ charge_ID c = id) ∧
  ∀ c, c ∈ elems (Cyber s) → charge_ID c = id → charge_Accepted c = true.

Lemma accept_charges_settles s id now s1 :
  accept_charges s id now = (s1, true) → redated s s1 ∧ settled_charges s1 id.
Proof.
  unfold accept_charges.
  pose proof (accept_charge_fold id now (elems (Cyber s)) s false []) as Hf. cbv zeta in Hf.
  pose proof (accept_charge_found id now (elems (Cyber s)) s false []) as Hfound.
  pose proof (accept_fold_redates id now (elems (Cyber s)) s false [] s (redated_refl s)) as Hr.
  destruct (fold_left _ _ _) as [[s' f'] o']. simpl in Hf, Hfound, Hr. destruct Hf as (Ho & Hc & _).
  intros [= <- ->]. split; [exact Hr|]. symmetry in Hfound.
  apply existsb_exists in Hfound as (c & Hin%list_elem_of_In & Hid%bool_decide_eq_true).
  assert (elems (Cyber (s' <| Cyber ::= fmap (λ _, o') |>)) = settle id (ClockMS s') <$> elems (Cyber s)) as Hcy.
  { simpl. rewrite Hc. by destruct (Cyber s). }
  unfold settled_charges. rewrite Hcy. split.
  - exists (settle id (ClockMS s') c). split; [by apply list_elem_of_fmap_2|].
    unfold settle. by case_match.
  - intros d (d' & -> & _)%list_elem_of_fmap. unfold settle. case_match eqn:Hu; [done|].
    intros Heq. rewrite bool_decide_eq_true_2 in Hu by done. simpl in Hu. by apply negb_false_iff in Hu.
Qed.

Lemma accept_result_settles s p turn s' :
  accept_result s p turn = (s', None) →
  Uncertain s' = false ∧ Cyber s' = Cyber s ∧
  State_Pending s' = Some (p <| pend_ResultTurn := turn |>) ∧
  (Phase s' = "running" → Cancelled s = false).
Proof.
  unfold accept_result. cbv zeta. set (p' := p <| pend_ResultTurn := turn |>).
  assert (∀ q cur retire reserve t e,
    retainSnapshot (s <| State_Pending := Some p' |>) q cur retire reserve = (t, e) →
    Cyber t = Cyber s ∧ State_Pending t = Some p' ∧ Cancelled t = Cancelled s) as Hret.
  { intros q cur retire reserve t e H.
    pose proof (retainSnapshot_snaps (s <| State_Pending := Some p' |>) q cur retire reserve) as Hs.
    rewrite H in Hs. simpl in Hs. by rewrite Hs. }
  unfold Uncertain, pending_is.
  destruct ((pend_ResultTurn p == turn) && (Handled s == turn)).
  - change (Phase (s <| State_Pending := Some p' |>)) with (Phase s).
    case_match eqn:Hb; [apply bool_decide_eq_true in Hb|]; intros [= <-]; simpl.
    + by rewrite Hb.
    + destruct (Cancelled s) eqn:Hc; by rewrite ?when_true, ?when_false.
  - unfold RetainSnapshot. destruct (retainSnapshot _ _ _ _ _) as [t [e|]] eqn:E;
      destruct (Hret _ _ _ _ _ _ E) as (Hcy & Hpt & Hca).
    + case_match; [done|]. intros [= <-]. simpl. by rewrite Hpt.
    + intros [= <-]. simpl. rewrite <- Hca. destruct (Cancelled t) eqn:Hc; rewrite ?when_true, ?when_false;
        simpl; by rewrite Hpt.
Qed.

Lemma Accepted_spec s turn now s' e :
  Accepted s turn now = (s', e) →
  match e with
  | None =>
      ∃ p k, State_Pending s = Some p ∧ turn ≠ "" ∧ (pend_ResultTurn p = "" ∨ pend_ResultTurn p = turn) ∧
        State_Pending s' = Some (p <| pend_ChargedAtMS := k |> <| pend_ResultTurn := turn |>) ∧
        Uncertain s' = false ∧ (Phase s' = "running" → Cancelled s = false) ∧
        (Class_ s = "cybersecurity" → settled_charges s' (pend_ID p)) ∧
        (Class_ s ≠ "cybersecurity" → Cyber s' = Cyber s)
  | Some _ =>
      (∀ p, State_Pending s = Some p → pend_ResultTurn p ≠ "" → pend_ResultTurn p ≠ turn → s' = s)
  end.
Proof.
  unfold Accepted. destruct (State_Pending s) as [p|] eqn:Hp; [|by intros [= <- <-]].
  case_match eqn:Ht; [by intros [= <- <-]|]. apply bool_decide_eq_false in Ht.
  case_match eqn:Hm; [by intros [= <- <-]|].
  assert (pend_ResultTurn p = "" ∨ pend_ResultTurn p = turn) as Hres.
  { apply andb_false_iff in Hm as [Hm|Hm]; apply negb_false_iff, bool_decide_eq_true in Hm; auto. }
  set (r := if Class_ s == "cybersecurity" then _ else _). destruct r as [s1 found] eqn:Hr. subst r.
  destruct found; cbn [negb]; [|intros [= <- <-] q [= <-]; naive_solver].
  assert (redated s s1 ∧ (Class_ s = "cybersecurity" → settled_charges s1 (pend_ID p)) ∧
          (Class_ s ≠ "cybersecurity" → s1 = s)) as ((Hph & Hca & Hh & Hcl & Hsn & Hpe) & Hset & Hsame).
  { case_bool_decide; [apply accept_charges_settles in Hr as [? ?]; by split_and!|].
    simplify_eq. split_and!; try done. apply redated_refl. }
  destruct (Hpe p Hp) as [k Hk]. rewrite Hk. destruct e as [e|].
  { intros _ q [= <-]. naive_solver. }
  intros (Hu & Hcy & Hps & Hrun)%accept_result_settles. exists p, k. split_and!; try done.
  - intros H. rewrite <- Hca. by apply Hrun.
  - intros Hc. unfold settled_charges. rewrite Hcy. by apply Hset.
  - intros Hc. rewrite Hcy. by rewrite (Hsame Hc).
Qed.

(** A receipt names the attempt's resulting turn once.  When it is taken, the
    submission is settled: the attempt keeps its identity and gains that turn, its
    phase is no longer uncertain, it does not run if the chain was cancelled, and
    a cybersecurity attempt's reservation is consumed.  A receipt for another turn
    than the one already recorded is refused and changes nothing. *)
Theorem accepted_settles s turn now s' e :
  Accepted s turn now = (s', e) →
  match e with
  | None =>
      ∃ p k, State_Pending s = Some p ∧ turn ≠ "" ∧ (pend_ResultTurn p = "" ∨ pend_ResultTurn p = turn) ∧
        State_Pending s' = Some (p <| pend_ChargedAtMS := k |> <| pend_ResultTurn := turn |>) ∧
        Uncertain s' = false ∧ (Phase s' = "running" → Cancelled s = false) ∧
        (Class_ s = "cybersecurity" → settled_charges s' (pend_ID p)) ∧
        (Class_ s ≠ "cybersecurity" → Cyber s' = Cyber s)
  | Some _ =>
      (∀ p, State_Pending s = Some p → pend_ResultTurn p ≠ "" → pend_ResultTurn p ≠ turn → s' = s)
  end.
Proof. apply Accepted_spec. Qed.

End Submit.
