(* ===== verification/RetrySys.v ===== *)
(** * Automatic retry: transactions over the outside world

    The controller's methods read and replace a durable record, call the backend
    (which owns the conversation) and the policy sidecar, and return early on
    errors: they are procedures of the monad [SE].  A system state
    [Sys] holds the records on disk, the open [Transaction], the world behind the
    interfaces and the [trace] of effects, oldest first.  The interfaces are
    quantified over: [Runtime] is the clock, randomness and file-system outcomes,
    [Backend] the source's interface of that name. *)

From S2P Require Import Prelude Effects GoStrings GoFloat Codex RetryTypes.

Open Scope Z_scope.

(** What writing a file with [os.CreateTemp], [Write], [Sync], [Close] and
    [os.Rename], then syncing its directory, comes to: a failure before or at the
    rename leaves the old file, one after it the new file. *)
Inductive write_outcome :=
  | write_failed (e : error)
  | write_unsynced (e : error)
  | write_ok.

Section Sys.
Context {CW : CodexWeb}.

(** A file of the record directory: a decoded state and whether its text has the
    [managedTurn] key, or a file that does not decode, with the scope a lenient
    reading of its header gives. *)
Inductive record_file :=
  | rec_decoded (state : State) (managed_field : bool)
  | rec_damaged (e : error) (header : option Scope).

(** The effects worth ordering. *)
Inductive event :=
  | ev_save (state : State) (outcome : write_outcome)
  | ev_boundary (r : result string)
  | ev_observe (r : result Observation)
  | ev_check (p : Snapshot) (r : option error)
  | ev_advance (turn : string) (e : option error)
  | ev_prove (turn : string) (e : option error)
  | ev_decide (r : result Decision)
  | ev_checkpoint (e : option error)
  | ev_reconcile (p : Pending) (r : result (SendReceipt * bool))
  | ev_never (p : Pending) (r : result bool)
  | ev_continue (p : Pending) (r : result SendReceipt).

Context {W : Type}.

Record Sys := mkSys {
  world : W;
  disk : gmap (string * string) record_file;
  tx_scope : Scope;
  tx_open : bool;
  tx_State : State;
  trace : list event }.

#[export] Instance eta_Sys : Eta Sys := λ σ,
  mkSys (world σ) (disk σ) (tx_scope σ) (tx_open σ) (tx_State σ) (trace σ).

(** ** Procedures *)

Abbreviation Proc := (SE Sys).

(** A call on the world that may fail, recorded in the trace. *)
Definition ask {A} (f : W → W * A) : Proc A :=
  λ σ, let '(w, a) := f (world σ) in (σ <| world := w |>, Ok a).
Definition emit (ev : event) : Proc unit := modify (λ σ, σ <| trace ::= λ tr, tr ++ [ev] |>).

(** Updating the transaction's state, with an operation of the state machine. *)
Definition update (f : State → State) : Proc unit := modify (λ σ, σ <| tx_State ::= f |>).
Definition update_try (f : State → State * option error) : Proc unit := λ σ,
  let '(s, e) := f (tx_State σ) in
  (σ <| tx_State := s |>, match e with Some e => Err e | None => Ok tt end).

End Sys.

Arguments Sys {CW} W.
Abbreviation Proc W := (SE (Sys W)).


Section Interfaces.
Context {CW : CodexWeb}.

(** The clock in Unix milliseconds, the random sources, and what the operating
    system answers: reaching the admission lock (context, directory, [flock]), the
    guard of the record count, reading a file, writing a record. *)
Record Runtime (W : Type) := mkRuntime {
  rt_now : W → W * Z;
  rt_random : W → W * float64;
  rt_rand16 : W → W * option (list Z);
  rt_admission : Scope → W → W * option error;
  rt_guard : W → W * option error;
  rt_read : W → W * option error;
  rt_write : State → W → W * write_outcome }.

(** [Backend].  [be_AdvanceProof] either leaves the transaction alone ([None]) or
    leaves a state in it that it saves; [be_Prove] updates the state in place. *)
Class Backend (W : Type) := {
  be_Observe : Scope → W → W * result Observation;
  be_Boundary : Scope → W → W * result string;
  be_AdvanceProof : Scope → State → string → W → W * (option State * option error);
  be_Prove : Scope → State → string → W → W * (State * option error);
  be_Check : Scope → Snapshot → W → W * option error;
  be_Reconcile : Scope → Pending → W → W * result (SendReceipt * bool);
  be_Continue : Scope → Pending → W → W * result SendReceipt;
  be_NeverSubmitted : Scope → Pending → W → W * result bool }.

(** [PolicyAuthority] *)
Record PolicyAuthority (W : Type) := mkAuthority {
  pa_Decide : State → W → W * result Decision;
  pa_Checkpoint : State → option Observation → Z → bool → W → W * option error }.

End Interfaces.

Arguments rt_now {CW W} _ _. Arguments rt_random {CW W} _ _. Arguments rt_rand16 {CW W} _ _.
Arguments rt_admission {CW W} _ _ _. Arguments rt_guard {CW W} _ _. Arguments rt_read {CW W} _ _.
Arguments rt_write {CW W} _ _ _.
Arguments pa_Decide {CW W} _ _ _. Arguments pa_Checkpoint {CW W} _ _ _ _ _ _.
