(* ===== verification/RetryStore.v ===== *)
(** * Automatic retry: the durable records

    [turnretry/store.go]: scopes, the admission lock, loading, saving and the
    cancellation of a whole session's records.  File contents are modelled by the
    states they decode to. *)

From S2P Require Import Prelude Effects GoStrings GoJson Sha256 Codex.
From S2P Require Import RetryTypes RetryValidate RetryState RetrySys.
From Stdlib Require Import Ascii.

Open Scope Z_scope.

Record Store := mkStore { store_Root : string; store_Workspace : string }.

(** A record's place under the store's directory: the session's directory and the
    file name. *)
Definition path (scope : Scope) : string * string :=
  (scope_Slug scope, hash (scope_Thread scope) +:+ ".json").

Definition is_separator (c : ascii) : bool := is_char c "/"%char || is_char c "\"%char.

(** [Store.validScope] *)
Definition validScope (s : Store) (scope : Scope) : bool :=
  IsAbs (store_Root s) && IsAbs (store_Workspace s) && (scope_Workspace scope == store_Workspace s)
  && (scope_Slug scope != "") && (scope_Slug scope != ".") && (scope_Slug scope != "..")
  && negb (contains_char is_separator (scope_Slug scope))
  && (scope_Root scope != "") && (scope_Thread scope != "") && (strlen (scope_Thread scope) <=? 4096)
  && IsAbs (scope_Socket scope).

(** ** Syntax of a record file

    The tree the YAML library parses a file into; a mapping's content alternates
    keys and values, and a key is any node with its scalar text. *)
#[warnings="-register-all"]
Inductive yaml_node :=
  | AliasNode
  | MappingNode (content : list (string * yaml_node * yaml_node))
  | SequenceNode (content : list yaml_node)
  | ScalarNode.

Fixpoint duplicate_key (seen : gset string) (keys : list string) : bool :=
  match keys with
  | [] => false
  | k :: keys => bool_decide (k ∈ seen) || duplicate_key ({[k]} ∪ seen) keys
  end.

(** [uniqueKeys]; the keys of a mapping are checked before its children, which are
    visited in order, keys included. *)
Fixpoint uniqueKeys (node : yaml_node) : option error :=
  match node with
  | AliasNode => Some (ErrorsNew "retry record has aliases")
  | ScalarNode => None
  | SequenceNode content =>
      (fix visit l := match l with
         | [] => None
         | x :: l => match uniqueKeys x with Some e => Some e | None => visit l end
         end) content
  | MappingNode content =>
      if duplicate_key ∅ (map (λ kv, kv.1.1) content)
      then Some (ErrorsNew "retry record has duplicate keys")
      else (fix visit l := match l with
         | [] => None
         | (_, k, v) :: l =>
             match uniqueKeys k with
             | Some e => Some e
             | None => match uniqueKeys v with Some e => Some e | None => visit l end
             end
         end) content
  end.

Section Store.
Context {CW : CodexWeb} {W : Type}.
Context (rt : Runtime W) (store : Store).

(** ** [Store.Load] *)

Definition load_file (scope : Scope) (file : option record_file) : result State :=
  match file with
  | None => Err ErrNotExist
  | Some (rec_damaged e _) => Err e
  | Some (rec_decoded state managed_field) =>
      if managed_field && ((State_Schema state =? 1) || bool_decide (State_ManagedTurn state = None))
      then Err (ErrorsNew "managed turn requires a schema-2 object")
      else match validate scope state with Some e => Err e | None => Ok state end
  end.

Definition Load (scope : Scope) : Proc W State :=
  if negb (validScope store scope) then fail (ErrorsNew "invalid retry scope") else
  e ← ask (rt_read rt);
  lift_error e;;
  file ← gets (λ σ, disk σ !! path scope);
  lift_result (load_file scope file).

(** ** [Transaction.Save] *)

Definition write_record (state : State) (σ : Sys W) : Sys W :=
  σ <| disk ::= insert (path (tx_scope σ)) (rec_decoded state (negb (bool_decide (State_ManagedTurn state = None)))) |>.

Definition Save : Proc W unit :=
  is_open ← gets tx_open;
  if negb is_open then fail (ErrorsNew "retry admission lock is closed") else
  candidate ← gets (λ σ, tx_State σ <| State_Schema := Schema |>);
  scope ← gets tx_scope;
  lift_error (validate scope candidate);;
  match State_json candidate with
  | None => fail (ErrorsNew "json: error calling MarshalJSON")
  | Some data =>
      if MaxBytes <? strlen data + 1 then fail (ErrorsNew "retry state exceeds 1 MiB") else
      outcome ← ask (rt_write rt candidate);
      emit (ev_save candidate outcome);;
      match outcome with
      | write_failed e => fail e
      | write_unsynced e => modify (write_record candidate);; fail e
      | write_ok =>
          modify (write_record candidate);;
          update (λ s, s <| State_Schema := Schema |>)
      end
  end.

Definition Close : Proc W unit := modify (λ σ, σ <| tx_open := false |>).

(** ** [Store.lock] *)

(** [filepath.Glob] over a session's directory, in lexical order. *)
Definition insert_path (p : string) (l : list string) : list string :=
  (fix ins l := match l with
     | [] => [p]
     | q :: l' => if (p <=? q)%string then p :: l else q :: ins l'
     end) l.
Definition glob (slug : string) (d : gmap (string * string) record_file) : list string :=
  foldr insert_path [] (omap (λ kv, if kv.1.1 == slug then Some kv.1.2 else None) (map_to_list d)).

Definition closing {A} (m : Proc W A) : Proc W A :=
  r ← attempt m;
  match r with Ok a => mret a | Err e => Close;; fail e end.

Definition lock (scope : Scope) (create : bool) : Proc W unit :=
  if negb (validScope store scope) then fail (ErrorsNew "invalid retry scope") else
  e ← ask (rt_admission rt scope);
  lift_error e;;
  modify (λ σ, σ <| tx_scope := scope |> <| tx_open := true |>);;
  r ← attempt (Load scope);
  match r with
  | Ok state => update (λ _, state)
  | Err e =>
      if errors_Is e ErrNotExist then
        if negb create then update (λ _, New scope) else
        e ← ask (rt_guard rt);
        closing (lift_error e);;
        entries ← gets (λ σ, glob (scope_Slug scope) (disk σ));
        if 128 <=? Z.of_nat (length entries)
        then (Close;; fail (ErrorsNew "retry session record limit reached"))
        else (update (λ _, New scope);; closing Save)
      else (Close;; fail e)
  end.

Definition Lock (scope : Scope) : Proc W unit := lock scope true.
Definition Inspect (scope : Scope) : Proc W unit := lock scope false.

(** ** [Store.CancelSession] *)

Section Cancel.
Context `{BE : !Backend W}.

Definition header_of (file : record_file) : option Scope :=
  match file with rec_decoded state _ => Some (State_Scope state) | rec_damaged _ header => header end.

(** The receipt or the positive absence of an uncertain attempt, asked of the
    backend when there is one; errors of the backend leave the attempt alone. *)
Definition settle_cancelled (scope : Scope) (p : Pending) : Proc W unit :=
  r ← ask (be_Reconcile scope p);
  emit (ev_reconcile p r);;
  match r with
  | Ok (receipt, true) =>
      now ← ask (rt_now rt);
      closing (update_try (λ s, Accepted s (receipt_TurnID receipt) now))
  | Ok (_, false) =>
      never ← ask (be_NeverSubmitted scope p);
      emit (ev_never p never);;
      match never with
      | Ok true => update (λ s, s <| Phase := "cancelled" |> <| State_Pending := None |>)
      | _ => mret tt
      end
  | Err _ => mret tt
  end.

(** One record of the loop; the result is whether it is still uncertain. *)
Definition cancel_record (slug root socket : string) (backend : bool) (name : string) : Proc W bool :=
  e ← ask (rt_read rt);
  lift_error e;;
  file ← gets (λ σ, disk σ !! (slug, name));
  match file with
  | None => fail ErrNotExist
  | Some file =>
  match header_of file with
  | None => fail (ErrorsNew "retry session identity changed")
  | Some header =>
      if (scope_Slug header != slug) || (scope_Root header != root) || (scope_Socket header != socket)
      then fail (ErrorsNew "retry session identity changed") else
      Lock header;;
      update (λ s, Cancel s "lifecycle" <| State_Binding := None |> <| State_ManagedTurn := None |>);;
      s ← gets tx_State;
      (match (if Uncertain s && backend then State_Pending s else None) with
       | Some p => settle_cancelled header p
       | None => mret tt
       end : Proc W unit);;
      err ← attempt Save;
      uncertain ← gets (λ σ, Uncertain (tx_State σ));
      Close;;
      lift_result err;;
      mret uncertain
  end end.

Fixpoint cancel_records (slug root socket : string) (backend : bool) (names : list string)
    (unresolved : bool) : Proc W bool :=
  match names with
  | [] => mret unresolved
  | name :: names =>
      uncertain ← cancel_record slug root socket backend name;
      cancel_records slug root socket backend names (unresolved || uncertain)
  end.

Definition CancelSession (slug root socket : string) (backend : bool) : Proc W unit :=
  names ← gets (λ σ, glob slug (disk σ));
  unresolved ← cancel_records slug root socket backend names false;
  if (unresolved : bool) then fail (ErrorsNew "thread has an unresolved automatic submission") else mret tt.

End Cancel.
End Store.

Arguments Save {CW W} rt : simpl never.
Arguments lock {CW W} rt store scope create : simpl never.
