(* ===== verification/RetryController.v ===== *)
(** * Automatic retry: the controller

    [turnretry/controller.go]: one pass over a conversation under its admission
    lock.  [Step] reconciles an uncertain attempt, checks authority, observes,
    schedules and dispatches; every state is saved before the effect it permits. *)

From S2P Require Import Prelude Effects GoStrings GoJson GoFloat Sha256 Codex.
From S2P Require Import RetryTypes RetryValidate RetryState RetrySys RetryStore.

Open Scope Z_scope.

Section Controller.
Context {CW : CodexWeb} {W : Type} `{BE : !Backend W}.
Context (rt : Runtime W) (store : Store).

(** [Controller.Policy]: nil, or an authority. *)
Context (policy : option (PolicyAuthority W)).

Definition now : Proc W Z := ask (rt_now rt).
Definition random : Proc W float64 := ask (rt_random rt).
Definition rand16 : Proc W (option (list Z)) := ask (rt_rand16 rt).
Definition state : Proc W State := gets tx_State.

(** Backend calls, with their place in the trace. *)
Definition Backend_Observe (scope : Scope) : Proc W Observation :=
  r ← ask (be_Observe scope);
  emit (ev_observe r);;
  lift_result r.

Definition Backend_Check (scope : Scope) (p : Snapshot) : Proc W unit :=
  e ← ask (be_Check scope p);
  emit (ev_check p e);;
  lift_error e.

Definition Backend_NeverSubmitted (scope : Scope) (p : Pending) : Proc W bool :=
  r ← ask (be_NeverSubmitted scope p);
  emit (ev_never p r);;
  lift_result r.

Definition Backend_AdvanceProof (scope : Scope) (turn : string) : Proc W unit :=
  s ← state;
  r ← ask (be_AdvanceProof scope s turn);
  match r.1 with
  | None => mret tt
  | Some s => update (λ _, s);; Save rt
  end;;
  emit (ev_advance turn r.2);;
  lift_error r.2.

Definition Backend_Prove (scope : Scope) (turn : string) : Proc W unit :=
  s ← state;
  r ← ask (be_Prove scope s turn);
  update (λ _, r.1);;
  emit (ev_prove turn r.2);;
  lift_error r.2.

(** [c.Policy.Checkpoint], for a non-nil policy. *)
Definition Checkpoint (a : PolicyAuthority W) (o : option Observation) (fresh : bool) : Proc W unit :=
  s ← state;
  t ← now;
  e ← ask (pa_Checkpoint a s o t fresh);
  emit (ev_checkpoint e);;
  lift_error e.

Definition checkpoint_ignored : Proc W unit :=
  match policy with Some a => ignore (Checkpoint a None false) | None => mret tt end.

(** [Controller.checkBoundary] *)
Definition checkBoundary : Proc W unit :=
  s ← state;
  boundary ← ask (be_Boundary (State_Scope s));
  emit (ev_boundary boundary);;
  boundary ← lift_result boundary;
  if Boundary s == "" then update (λ s, s <| Boundary := boundary |>)
  else if Boundary s != boundary then
    update (λ s, Cancel s "identity_changed");;
    Save rt;;
    fail (ErrorsNew "retry session incarnation changed")
  else mret tt.

(** The end of [Controller.reconcile]: the outcome stays unknown. *)
Definition outcome_unknown (err : option error) : Proc W bool :=
  update (λ s, s <| Phase := "reconciling" |> <| Reason := "outcome_unknown" |>);;
  Save rt;;
  fail (default (ErrorsNew "automatic submission requires reconciliation") err).

(** [Controller.reconcile]; the source dereferences a nil [Pending] when there is
    none, so its callers always have one. *)
Definition reconcile (p : Pending) : Proc W bool :=
  s ← state;
  r ← ask (be_Reconcile (State_Scope s) p);
  emit (ev_reconcile p r);;
  match r with
  | Ok (receipt, true) =>
      t ← now;
      update_try (λ s, Accepted s (receipt_TurnID receipt) t);;
      Save rt;;
      checkpoint_ignored;;
      mret false
  | Ok (_, false) =>
      never ← attempt (Backend_NeverSubmitted (State_Scope s) p);
      match never with
      | Ok true =>
          update (λ s, when (Cancelled s) (λ s, s <| Phase := "cancelled" |> <| State_Pending := None |>) s);;
          s ← state;
          Save rt;;
          mret (negb (bool_decide (State_Pending s = None)))
      | Ok false => outcome_unknown None
      | Err e => outcome_unknown (Some e)
      end
  | Err e => outcome_unknown (Some e)
  end.

(** The deferred value of [*s.Pending]. *)
Definition pending : Proc W Pending :=
  s ← state;
  match State_Pending s with
  | Some p => mret p
  | None => fail (ErrorsNew "invalid memory address or nil pointer dereference")
  end.

(** [Controller.ReconcileLocked] *)
Definition ReconcileLocked : Proc W unit :=
  checkBoundary;;
  s ← state;
  if negb (Uncertain s) then mret tt else
  p ← pending;
  reconcile p;;
  mret tt.

(** [Controller.ReconcileOnly] *)
Definition ReconcileOnly (scope : Scope) : Proc W unit :=
  r ← attempt (Load rt store scope);
  match r with
  | Err e => if errors_Is e ErrNotExist then mret tt else fail e
  | Ok _ => Lock rt store scope;; closing ReconcileLocked;; Close
  end.

(** [Controller.preflightAccepted] *)
Definition preflightAccepted : Proc W unit :=
  r ← attempt (update_try PreflightAccepted);
  match r with
  | Ok _ => mret tt
  | Err e =>
      (if errors_Is e ErrSnapshotCapacity then
         p ← pending;
         update (λ s, s <| Handled := pend_Failure p |> <| Phase := "blocked" |>
           <| Reason := "settings_unproven" |> <| Cancelled := true |> <| DeadlineMS := 0 |>);;
         Save rt
       else mret tt);;
      fail e
  end.

(** [Controller.dispatch]; an error is a [codex.UnknownSendOutcomeError] or not. *)
Definition dispatch (p : Pending) : Proc W unit :=
  s ← state;
  r ← ask (be_Continue (State_Scope s) p);
  emit (ev_continue p r);;
  match r with
  | Ok receipt =>
      t ← now;
      update_try (λ s, Accepted s (receipt_TurnID receipt) t);;
      Save rt;;
      checkpoint_ignored
  | Err e =>
      (if errors_Is e ErrUnknownSendOutcome
       then update (λ s, s <| Phase := "reconciling" |> <| Reason := "outcome_unknown" |>)
       else
         never ← attempt (Backend_NeverSubmitted (State_Scope s) p);
         match never with
         | Ok true => update (λ s, s <| Phase := "blocked" |> <| Reason := "dispatch_refused" |>
                                     <| State_Pending := None |>)
         | _ => update (λ s, s <| Phase := "reconciling" |> <| Reason := "outcome_unknown" |>)
         end);;
      Save rt;;
      fail e
  end.

(** [Controller.decision] *)
Definition decision : Proc W Decision :=
  match policy with
  | None => fail ErrPolicyUnavailable
  | Some a =>
      s ← state;
      d ← ask (pa_Decide a s);
      emit (ev_decide d);;
      lift_result d
  end.

(** [Backend.Check] in [Step]: a refusal holds the attempt. *)
Definition admission (scope : Scope) (p : Snapshot) : Proc W unit :=
  r ← attempt (Backend_Check scope p);
  match r with
  | Ok _ => mret tt
  | Err e =>
      update (λ s, s <| Reason := "admission_held" |>);;
      Save rt;;
      fail e
  end.

(** The end of [Step]: [if s.Pending == nil { return nil }; return c.dispatch(...)]. *)
Definition send : Proc W unit :=
  s ← state;
  match State_Pending s with None => mret tt | Some p => dispatch p end.

(** [Step], for an attempt whose outcome is uncertain. *)
Definition step_uncertain (scope : Scope) : Proc W unit :=
  p ← pending;
  unsubmitted ← reconcile p;
  if negb (unsubmitted : bool) then mret tt else
  d ← decision;
  s ← state;
  if negb (Allows d s) then
    update (λ s, Cancel s "disabled" <| Phase := "cancelled" |>);;
    Save rt
  else
    p ← pending;
    admission scope (pend_Snapshot p);;
    preflightAccepted;;
    t ← now;
    update_try (λ s, ReserveUnsubmitted s t d);;
    Save rt;;
    send.

(** [Step], for a thread seen for the first time: the baseline is read twice. *)
Definition step_enroll (scope : Scope) (o : Observation) : Proc W unit :=
  update (λ s, Enroll s o);;
  Save rt;;
  after ← Backend_Observe scope;
  update (when (o != after) (λ s, s <| Baseline := obs_Turn after |> <| BaselineActive := false |>));;
  Save rt.

(** [Step]: evidence of the observed turn is advanced, then proved if it failed. *)
Definition step_advance (scope : Scope) (o : Observation) : Proc W unit :=
  s ← state;
  if ((obs_Status o == "inProgress") || (obs_Status o == "failed")) && (obs_Turn o != Handled s) then
    r ← attempt (Backend_AdvanceProof scope (obs_Turn o));
    match r with
    | Ok _ => mret tt
    | Err e =>
        (if errors_Is e ErrMissingProof && (obs_Status o == "failed")
         then update (λ s, s <| Phase := "blocked" |> <| Reason := "settings_unproven" |>
                             <| Handled := obs_Turn o |>);;
              Save rt
         else mret tt);;
        fail e
    end
  else mret tt.

Definition step_prove (scope : Scope) (d : Decision) (o : Observation) : Proc W unit :=
  s ← state;
  if (obs_Status o == "failed") && Eligible d s o && (obs_Turn o != Handled s)
     && ((obs_Turn o != Baseline s) || BaselineActive s) then
    r ← attempt (Backend_Prove scope (obs_Turn o));
    match r with
    | Ok _ => mret tt
    | Err e =>
        update (λ s, when (errors_Is e ErrMissingProof) (λ s, s <| Handled := obs_Turn o |>)
                       (s <| Phase := "blocked" |> <| Reason := "settings_unproven" |>));;
        Save rt;;
        fail e
    end
  else mret tt.

(** [Step]: an attempt that is due is checked, proved unsubmitted and begun. *)
Definition step_dispatch (scope : Scope) (d : Decision) : Proc W unit :=
  s ← state;
  if (Phase s != "scheduled") || bool_decide (State_Pending s = None) || negb (Allows d s) then mret tt else
  t ← now;
  update (λ s, (Now s t).1);;
  if (Now s t).2 <? DeadlineMS s then mret tt else
  p ← pending;
  admission scope (pend_Snapshot p);;
  p ← pending;
  unsubmitted ← reconcile p;
  if negb (unsubmitted : bool) then mret tt else
  preflightAccepted;;
  t ← now;
  update_try (λ s, Begin s t d);;
  Save rt;;
  send.

(** [Step], when the current chain is not allowed: the attempt is kept for its receipt. *)
Definition step_disallowed (a : PolicyAuthority W) (d : Decision) : Proc W unit :=
  s ← state;
  if pending_is s (λ _, true) && negb (Cancelled s) && negb (Allows d s) then
    update (λ s, Cancel s "disabled" <| State_Pending := State_Pending s |>);;
    Save rt;;
    ignore (Checkpoint a None false)
  else mret tt.

(** [Step], for an attempt whose outcome is certain or that does not exist. *)
Definition step_certain (a : PolicyAuthority W) (scope : Scope) : Proc W unit :=
  d ← decision;
  Checkpoint a None false;;
  step_disallowed a d;;
  o ← Backend_Observe scope;
  s ← state;
  (let '(s, retired) := RetireObsoleteProofs s (obs_Turn o) in
   if retired then update (λ _, s);; Save rt else mret tt);;
  s ← state;
  if negb (Enrolled s) then step_enroll scope o else
  Checkpoint a (Some o) false;;
  step_advance scope o;;
  step_prove scope d o;;
  previous ← state;
  t ← now;
  x ← random;
  b ← rand16;
  update_try (λ s, Observe s o t x d b);;
  Save rt;;
  s ← state;
  Checkpoint a None (Chain previous != Chain s);;
  step_dispatch scope d.

Definition step_locked (scope : Scope) : Proc W unit :=
  checkBoundary;;
  s ← state;
  if Uncertain s then step_uncertain scope else
  match policy with
  | None => fail ErrPolicyUnavailable
  | Some a => step_certain a scope
  end.

(** [Controller.Step] *)
Definition Step (scope : Scope) : Proc W unit :=
  Lock rt store scope;;
  closing (step_locked scope);;
  Close.

End Controller.
