(* ===== verification/RetryWp.v ===== *)
(** * Automatic retry: reasoning about transactions

    Weakest preconditions for [Proc], and the relation [grows]: the trace is
    only extended, what is saved is valid, and the records on disk are exactly what
    the saves in the trace left. *)

From S2P Require Import Prelude Effects GoStrings GoJson GoFloat Sha256 Codex.
From S2P Require Import RetryTypes RetryValidate RetryState RetrySys RetryStore.

Open Scope Z_scope.

Section Wp.
Context {CW : CodexWeb} {W : Type}.
Implicit Types σ : Sys W.
Implicit Types ev : event.

(** ** Primitive operations *)

Lemma wp_update f Q σ : Q (σ <| tx_State ::= f |>) (Ok tt) → wp (update f) Q σ.
Proof. done. Qed.
Lemma wp_emit ev Q σ : Q (σ <| trace ::= λ tr, tr ++ [ev] |>) (Ok tt) → wp (emit ev) Q σ.
Proof. done. Qed.
Lemma wp_ask {A} (f : W → W * A) (Q : Sys W → result A → Prop) σ :
  (∀ w a, Q (σ <| world := w |>) (Ok a)) → wp (ask f) Q σ.
Proof. unfold wp, ask. intros H. destruct (f (world σ)). apply H. Qed.

Lemma wp_update_try f (Q : Sys W → result unit → Prop) σ :
  (∀ s e, f (tx_State σ) = (s, e) →
    Q (σ <| tx_State := s |>) (match e with Some e => Err e | None => Ok tt end)) →
  wp (update_try f) Q σ.
Proof. unfold wp, update_try. intros H. pose proof (λ s e, H s e) as H'. by destruct (f (tx_State σ)); apply H'. Qed.

(** ** What the trace says was written *)

Definition written (ev : event) : option State :=
  match ev with
  | ev_save st write_ok | ev_save st (write_unsynced _) => Some st
  | _ => None
  end.

Definition as_file (st : State) : record_file :=
  rec_decoded st (negb (bool_decide (State_ManagedTurn st = None))).

(** The directory after the writes of a trace. *)
Definition replay (scope : Scope) (tr : list event) (d : gmap (string * string) record_file) :=
  foldl (λ d ev, match written ev with Some st => <[path scope := as_file st]> d | None => d end) d tr.

(** A saved state is a valid record of current schema within the size limit. *)
Definition saved_ok (scope : Scope) (ev : event) : Prop :=
  match ev with
  | ev_save st _ => State_Schema st = Schema ∧ validate scope st = None ∧
      ∃ data, State_json st = Some data ∧ strlen data + 1 <= MaxBytes
  | _ => True
  end.

Definition grows (P : event → Prop) (σ σ' : Sys W) : Prop :=
  tx_scope σ' = tx_scope σ ∧
  ∃ tr, trace σ' = trace σ ++ tr ∧ Forall P tr ∧ Forall (saved_ok (tx_scope σ)) tr ∧
    disk σ' = replay (tx_scope σ) tr (disk σ).

Lemma grows_refl P σ : grows P σ σ.
Proof. split; [done|]. exists []. rewrite app_nil_r. by split_and!. Qed.

Lemma grows_trans P σ1 σ2 σ3 : grows P σ1 σ2 → grows P σ2 σ3 → grows P σ1 σ3.
Proof.
  intros [Hs1 (tr1 & Ht1 & Hp1 & Hv1 & Hd1)] [Hs2 (tr2 & Ht2 & Hp2 & Hv2 & Hd2)].
  split; [congruence|]. exists (tr1 ++ tr2). rewrite Ht2, Ht1, Hd2, Hd1, Hs1, app_assoc in *.
  unfold replay. rewrite foldl_app. split_and!; [done|by apply Forall_app|by apply Forall_app|done].
Qed.

#[export] Instance grows_preorder P : PreOrder (grows P).
Proof. split; [intros σ; apply grows_refl|intros σ1 σ2 σ3; apply grows_trans]. Qed.

(** Procedures that extend the trace with events in [P]. *)
Abbreviation steps P m := (rel_steps (grows P) m).

Lemma grows_weaken (P R : event → Prop) σ σ' : (∀ ev, P ev → R ev) → grows P σ σ' → grows R σ σ'.
Proof.
  intros HPR [Hs (tr & Ht & Hp & Hv & Hd)]. split; [done|]. exists tr. split_and!; try done.
  by apply (Forall_impl P).
Qed.

Lemma grows_state P σ σ' f : grows P σ σ' → grows P σ (σ' <| tx_State ::= f |>).
Proof. done. Qed.

Lemma steps_wp {A} P (m : Proc W A) σ : steps P m → wp m (λ σ' _, grows P σ σ') σ.
Proof. intros H. apply H. Qed.

Lemma steps_ask {A} P (f : W → W * A) : steps P (ask f).
Proof. intros σ. unfold ask. destruct (f (world σ)). apply (grows_refl P σ). Qed.
Lemma steps_update P f : steps P (update f : Proc W unit).
Proof. intros σ. apply (grows_refl P σ). Qed.
Lemma steps_update_try P f : steps P (update_try f : Proc W unit).
Proof. intros σ. unfold update_try. destruct (f (tx_State σ)). apply (grows_refl P σ). Qed.
Lemma steps_close P : steps P (Close : Proc W unit).
Proof. intros σ. apply (grows_refl P σ). Qed.

Lemma steps_emit (P : event → Prop) ev :
  P ev → (∀ st o, ev ≠ ev_save st o) → steps P (emit ev : Proc W unit).
Proof.
  intros HP Hev σ. split; [done|]. exists [ev]. split; [done|]. split; [by apply Forall_singleton|].
  destruct ev; try (by destruct (Hev state outcome)); (split; [by apply Forall_singleton|done]).
Qed.

Lemma steps_closing {A} P (m : Proc W A) : steps P m → steps P (closing m).
Proof.
  intros Hm. apply rel_bind; [apply _|by apply rel_attempt, Hm|]. intros [a|e]; [apply rel_ret, _|].
  apply rel_bind; [apply _|apply steps_close|]. intros _. apply rel_fail, _.
Qed.

(** ** Saving *)

(** The four ends of [Save] on the candidate [c]. *)
Definition candidate σ : State := tx_State σ <| State_Schema := Schema |>.

Inductive save_result σ : Sys W → result unit → Prop :=
  | save_refused e : save_result σ σ (Err e)
  | save_failed w e :
      tx_open σ = true → saved_ok (tx_scope σ) (ev_save (candidate σ) write_ok) →
      save_result σ (σ <| world := w |> <| trace ::= λ tr, tr ++ [ev_save (candidate σ) (write_failed e)] |>) (Err e)
  | save_unsynced w e :
      tx_open σ = true → saved_ok (tx_scope σ) (ev_save (candidate σ) write_ok) →
      save_result σ (σ <| world := w |> <| trace ::= λ tr, tr ++ [ev_save (candidate σ) (write_unsynced e)] |>
                       <| disk ::= insert (path (tx_scope σ)) (as_file (candidate σ)) |>) (Err e)
  | save_done w :
      tx_open σ = true → saved_ok (tx_scope σ) (ev_save (candidate σ) write_ok) →
      save_result σ (σ <| world := w |> <| trace ::= λ tr, tr ++ [ev_save (candidate σ) write_ok] |>
                       <| disk ::= insert (path (tx_scope σ)) (as_file (candidate σ)) |>
                       <| tx_State := candidate σ |>) (Ok tt).

Lemma Save_spec rt σ : save_result σ (Save rt σ).1 (Save rt σ).2.
Proof.
  change (wp (Save rt) (save_result σ) σ). unfold Save. apply wp_bind, wp_gets.
  destruct (tx_open σ) eqn:Ho; cbn [negb]; [|apply wp_fail; constructor].
  do 2 apply wp_bind, wp_gets. fold (candidate σ). apply wp_bind, wp_lift_error.
  destruct (validate (tx_scope σ) (candidate σ)) eqn:Hv; [constructor|].
  destruct (State_json (candidate σ)) as [data|] eqn:Hj; [|apply wp_fail; constructor].
  destruct (Z.ltb_spec MaxBytes (strlen data + 1)) as [Hl|Hl]; [apply wp_fail; constructor|].
  assert (saved_ok (tx_scope σ) (ev_save (candidate σ) write_ok)) as Hok by (split_and!; eauto).
  apply wp_bind, wp_ask. intros w [e|e|]; apply wp_bind, wp_emit.
  - apply wp_fail. by constructor.
  - apply wp_bind, wp_modify, wp_fail. exact (save_unsynced σ w e Ho Hok).
  - apply wp_bind, wp_modify, wp_update. exact (save_done σ w Ho Hok).
Qed.

Lemma steps_Save (P : event → Prop) rt : (∀ st o, P (ev_save st o)) → steps P (Save rt).
Proof.
  intros HP σ. pose proof (Save_spec rt σ) as H. destruct (Save rt σ) as [σ' r]. cbn [fst snd] in *.
  destruct H as [|w e _ Hok|w e _ Hok|w _ Hok]; [apply grows_refl|..];
    (split; [done|]; eexists; split; [reflexivity|]; split; [by apply Forall_singleton|];
     split; [by apply Forall_singleton|done]).
Qed.

End Wp.

Abbreviation steps P m := (rel_steps (grows P) m).

#[export] Hint Resolve grows_refl steps_ask steps_update steps_update_try steps_close steps_emit
  steps_closing steps_Save : proc.
