(* ===== verification/RetrySafety.v ===== *)
(** * Automatic retry: what one pass may send

    Safety of [Step] for every backend, authority, clock and file system: an
    attempt is sent only after it was durably recorded as possibly submitted and
    positively proved unsubmitted, at most once per pass, and at no later moment
    does the record forget it. *)

From S2P Require Import Prelude Effects GoStrings GoJson GoFloat Sha256 Codex.
From S2P Require Import RetryTypes RetryValidate RetryState RetryManaged RetryMachine.
From S2P Require Import RetryObserve RetrySubmit RetrySys RetryStore RetryController RetryWp.

Open Scope Z_scope.

Section Safety.
Context {CW : CodexWeb} {W : Type} `{BE : !Backend W}.
Context (rt : Runtime W) (store : Store) (policy : option (PolicyAuthority W)).
Implicit Types σ : Sys W.

(** ** Procedures that send nothing *)


Definition quiet (ev : event) : Prop := match ev with ev_continue _ _ => False | _ => True end.
#[local] Hint Extern 1 (quiet _) => exact I : proc.
#[local] Hint Extern 1 (_ ≠ _) => discriminate : proc.

Lemma steps_now : steps quiet (now rt). Proof. apply steps_ask. Qed.
Lemma steps_state : steps quiet (state : Proc W State). Proof. apply rel_gets, _. Qed.
#[local] Hint Resolve steps_now steps_state : proc.

Lemma steps_observe scope : steps quiet (Backend_Observe scope).
Proof. unfold Backend_Observe. procs. Qed.
Lemma steps_check scope p : steps quiet (Backend_Check scope p).
Proof. unfold Backend_Check. procs. Qed.
Lemma steps_never scope p : steps quiet (Backend_NeverSubmitted scope p).
Proof. unfold Backend_NeverSubmitted. procs. Qed.
Lemma steps_advance scope turn : steps quiet (Backend_AdvanceProof rt scope turn).
Proof. unfold Backend_AdvanceProof. procs. Qed.
Lemma steps_prove scope turn : steps quiet (Backend_Prove scope turn).
Proof. unfold Backend_Prove. procs. Qed.
Lemma steps_checkpoint a o fresh : steps quiet (Checkpoint rt a o fresh).
Proof. unfold Checkpoint. procs. Qed.
#[local] Hint Resolve steps_observe steps_check steps_never steps_advance steps_prove steps_checkpoint : proc.

Lemma steps_checkpoint_ignored : steps quiet (checkpoint_ignored rt policy).
Proof. unfold checkpoint_ignored. procs. Qed.
Lemma steps_checkBoundary : steps quiet (checkBoundary rt).
Proof. unfold checkBoundary. procs. Qed.
Lemma steps_outcome_unknown e : steps quiet (outcome_unknown rt e).
Proof. unfold outcome_unknown. procs. Qed.
#[local] Hint Resolve steps_checkpoint_ignored steps_checkBoundary steps_outcome_unknown : proc.
Lemma steps_reconcile p : steps quiet (reconcile rt policy p).
Proof. unfold reconcile. procs. Qed.
Lemma steps_pending : steps quiet (pending : Proc W Pending).
Proof. unfold pending. procs. Qed.
Lemma steps_decision : steps quiet (decision policy).
Proof. unfold decision. procs. Qed.
#[local] Hint Resolve steps_reconcile steps_pending steps_decision : proc.
Lemma steps_preflight : steps quiet (preflightAccepted rt : Proc W unit).
Proof. unfold preflightAccepted. procs. Qed.
Lemma steps_admission scope p : steps quiet (admission rt scope p).
Proof. unfold admission. procs. Qed.
Lemma steps_ReconcileLocked : steps quiet (ReconcileLocked rt policy).
Proof. unfold ReconcileLocked. procs. Qed.
Lemma steps_step_enroll scope o : steps quiet (step_enroll rt scope o).
Proof. unfold step_enroll. procs. Qed.
Lemma steps_step_advance scope o : steps quiet (step_advance rt scope o).
Proof. unfold step_advance. procs. Qed.
Lemma steps_step_prove scope d o : steps quiet (step_prove rt scope d o).
Proof. unfold step_prove. procs. Qed.
Lemma steps_step_disallowed a d : steps quiet (step_disallowed rt a d).
Proof. unfold step_disallowed. procs. Qed.
Lemma steps_Load scope : steps quiet (Load rt store scope).
Proof. unfold Load. procs. Qed.
#[local] Hint Resolve steps_preflight steps_admission steps_ReconcileLocked steps_step_enroll
  steps_step_advance steps_step_prove steps_step_disallowed steps_Load : proc.

(** ** Reading authority *)

(** A successful read leaves the transaction as it was. *)
Definition reading {A} (m : Proc W A) : Prop :=
  ∀ σ, wp m (λ σ' r, grows quiet σ σ' ∧ (is_ok r = true → tx_State σ' = tx_State σ)) σ.

Lemma reading_now : reading (now rt).
Proof. intros σ. apply wp_ask. intros w t. split; [apply (grows_refl quiet σ)|done]. Qed.

Lemma reading_admission scope p : reading (admission rt scope p).
Proof.
  intros σ. apply wp_and; [apply steps_wp; auto with proc|].
  unfold admission. apply wp_bind, wp_attempt. unfold Backend_Check.
  apply wp_bind, wp_ask. intros w [e|]; apply wp_bind, wp_emit, wp_lift_error; [|by apply wp_ret].
  apply wp_bind, wp_update, wp_bind. unfold wp. destruct (Save rt _) as [σ' [[]|e']]; intros H; discriminate H.
Qed.

(** A successful preflight changes the evidence only. *)
Lemma preflight_evidence σ :
  wp (preflightAccepted rt) (λ σ' r, grows quiet σ σ' ∧
    (is_ok r = true → ∃ l, tx_State σ' = tx_State σ <| Snapshots := l |>)) σ.
Proof.
  apply wp_and; [apply steps_wp; auto with proc|].
  unfold preflightAccepted. apply wp_bind, wp_attempt, wp_update_try. intros s e He.
  destruct e as [e|].
  - by apply wp_then_fail.
  - apply wp_ret. intros _. revert He. unfold PreflightAccepted.
    destruct (State_Pending (tx_State σ)) as [p|]; [|done]. cbv zeta.
    match goal with |- context [retainSnapshot ?a ?b ?c ?d ?x] =>
      pose proof (retainSnapshot_snaps a b c d x) as Hr;
      destruct (retainSnapshot a b c d x) as [t [e|]] end; [done|].
    intros [= <-]. simpl in Hr. assert (Handled t = Handled (tx_State σ)) as Hh by (by rewrite Hr).
    eexists (Some _). simpl. rewrite Hh. reflexivity.
Qed.

(** The decision is in the trace when it is used. *)
Lemma decision_traced σ :
  wp (decision policy) (λ σ' r, grows quiet σ σ' ∧
    ∀ d, r = Ok d → tx_State σ' = tx_State σ ∧ ev_decide (Ok d) ∈ trace σ') σ.
Proof.
  apply wp_and; [apply steps_wp; auto with proc|].
  unfold decision. destruct policy as [a|]; [|by apply wp_fail].
  apply wp_bind, wp_gets, wp_bind, wp_ask. intros w d. apply wp_bind, wp_emit, wp_lift_result.
  intros d' ->. split; [done|]. simpl. set_solver.
Qed.

(** ** Positive proof that an attempt was not submitted *)

Definition unsubmitted_in (tr : list event) (q : Pending) : Prop :=
  ∃ l1 rc l2, tr = l1 ++ [ev_reconcile q (Ok (rc, false)); ev_never q (Ok true)] ++ l2.

Lemma unsubmitted_app tr l q : unsubmitted_in tr q → unsubmitted_in (tr ++ l) q.
Proof. intros (l1 & rc & l2 & ->). exists l1, rc, (l2 ++ l). by rewrite <- !app_assoc. Qed.

Lemma unsubmitted_grows P σ σ' q : grows P σ σ' → unsubmitted_in (trace σ) q → unsubmitted_in (trace σ') q.
Proof. intros [_ (tr & -> & _)]. apply unsubmitted_app. Qed.

Lemma decided_grows P σ σ' ev : grows P σ σ' → ev ∈ trace σ → ev ∈ trace σ'.
Proof. intros [_ (tr & -> & _)]. set_solver. Qed.

Lemma quiet_grows σ σ' : grows quiet σ σ' → Forall quiet (trace σ) → Forall quiet (trace σ').
Proof. intros [_ (tr & -> & Hq & _)] H. by apply Forall_app. Qed.

(** A reconciliation that answers [true] has proved its attempt unsubmitted, and
    left it pending and not cancelled. *)
Lemma reconcile_unsubmitted p σ :
  wp (reconcile rt policy p) (λ σ' r, grows quiet σ σ' ∧
    (r = Ok true → tx_State σ' = candidate σ ∧ Cancelled (tx_State σ) = false ∧ unsubmitted_in (trace σ') p)) σ.
Proof.
  apply wp_and; [apply steps_wp; auto with proc|].
  unfold reconcile. apply wp_bind, wp_gets, wp_bind, wp_ask. intros w [[rc found]|e]; apply wp_bind, wp_emit.
  - destruct found.
    + apply wp_bind, wp_ask. intros w' t. unfold wp, mbind, SE_bind. repeat case_match; done.
    + apply wp_bind, wp_attempt, wp_bind, wp_ask. intros w' never. apply wp_bind, wp_emit, wp_lift_result.
      destruct never as [[|]|e].
      * apply wp_bind, wp_update, wp_bind, wp_gets, wp_bind. unfold wp at 1.
        match goal with |- context [Save rt ?s] => pose proof (Save_spec rt s) as Hs;
          destruct (Save rt s) as [σ' r] end. cbn [fst snd] in *.
        destruct Hs; try done. apply wp_ret. intros [= Hp].
        simpl in Hp. destruct (Cancelled (tx_State σ)) eqn:Hc; [by rewrite when_true in Hp|].
        split_and!; [unfold candidate; simpl; by rewrite Hc, when_false|done|].
        exists (trace σ), rc. eexists [_]. simpl. rewrite <- !app_assoc. reflexivity.
      * apply wp_bind, wp_update. by apply wp_then_fail.
      * apply wp_bind, wp_update. by apply wp_then_fail.
  - apply wp_bind, wp_update. by apply wp_then_fail.
Qed.

(** ** Sending *)

Definition same_identity (p q : Pending) : Prop :=
  pend_ID q = pend_ID p ∧ pend_Action q = pend_Action p ∧ pend_Failure q = pend_Failure p ∧
  pend_Snapshot q = pend_Snapshot p.

(** What was true before [p] was sent. *)
Record sent_safely (pre : list event) (p : Pending) : Prop := {
  sent_first : Forall quiet pre;
  sent_recorded : ∃ l st d, pre = l ++ [ev_save st write_ok] ∧ State_Pending st = Some p ∧
    Uncertain st = true ∧ ev_decide (Ok d) ∈ l ∧ Allows d st = true;
  sent_unsubmitted : ∃ q, unsubmitted_in pre q ∧ same_identity p q }.

(** The record last written by a trace, over an older one. *)
Definition recorded (st : State) (tr : list event) : State := default st (last (omap written tr)).

(** The record still names the attempt: its outcome is open, its receipt is
    recorded, or the attempt was positively refused since. *)
Definition still_named (p : Pending) (r : result SendReceipt) (since : list event) (st : State) : Prop :=
  (∃ q, State_Pending st = Some q ∧ same_identity p q ∧
     (Uncertain st = true ∨ ∃ rc, r = Ok rc ∧ pend_ResultTurn q = receipt_TurnID rc))
  ∨ ev_never p (Ok true) ∈ since ∧ Phase st = "blocked" ∧ Reason st = "dispatch_refused".

(** What is true after it, at every moment [l] of the rest of the pass. *)
Definition sent_kept (st : State) (p : Pending) (r : result SendReceipt) (post : list event) : Prop :=
  Forall quiet post ∧ ∀ l, l `prefix_of` post → still_named p r l (recorded st l).

Definition dispatch_ok (tr : list event) : Prop :=
  ∀ pre p r post, tr = pre ++ ev_continue p r :: post →
    sent_safely pre p ∧ ∃ st, last (omap written pre) = Some st ∧ sent_kept st p r post.

Lemma dispatch_ok_quiet tr : Forall quiet tr → dispatch_ok tr.
Proof. intros Hq pre p r post ->. apply Forall_app in Hq as [_ Hq]. by apply Forall_cons in Hq as [[] _]. Qed.

Lemma continue_unique pre p r post pre' p' r' post' :
  Forall quiet pre → Forall quiet post →
  pre ++ ev_continue p r :: post = pre' ++ ev_continue p' r' :: post' →
  pre = pre' ∧ p = p' ∧ r = r' ∧ post = post'.
Proof.
  revert pre'. induction pre as [|x pre IH]; intros [|y pre'] Hpre Hpost; simpl.
  - by intros [= -> -> ->].
  - intros [= _ ->]. apply Forall_app in Hpost as [_ Hq]. by apply Forall_cons in Hq as [[] _].
  - intros [= -> _]. by apply Forall_cons in Hpre as [[] _].
  - intros [= -> He]. apply Forall_cons in Hpre as [_ Hpre]. destruct (IH pre' Hpre Hpost He) as (-> & ?). auto.
Qed.

Lemma prefix_cons_cases (l : list event) x k :
  l `prefix_of` x :: k → l = [] ∨ ∃ l', l = x :: l' ∧ l' `prefix_of` k.
Proof. intros [m Hm]. destruct l as [|y l]; [by left|right]. simplify_eq/=. exists l. split; [done|by exists m]. Qed.

Lemma prefix_app_cases (l k1 k2 : list event) :
  l `prefix_of` k1 ++ k2 → l `prefix_of` k1 ∨ ∃ l', l = k1 ++ l' ∧ l' `prefix_of` k2.
Proof.
  revert l. induction k1 as [|x k1 IH]; intros l Hl; [right; by exists l|]. simpl in Hl.
  apply prefix_cons_cases in Hl as [->|(l' & -> & Hl)]; [left; apply prefix_nil|].
  destruct (IH _ Hl) as [H|(m & -> & H)]; [left; by apply prefix_cons|right; by exists m].
Qed.

(** The accepted receipt is in the record. *)
Lemma accepted_named s p rc t s' tr :
  State_Pending s = Some p → Accepted s (receipt_TurnID rc) t = (s', None) →
  still_named p (Ok rc) tr s'.
Proof.
  intros Hp H. apply Accepted_spec in H as (q & k & Hq & _ & _ & Hs' & _). simplify_eq.
  left. eexists. split; [exact Hs'|]. split; [by split_and!|]. right. by exists rc.
Qed.

Lemma unknown_named s p r tr :
  State_Pending s = Some p →
  still_named p r tr (s <| Phase := "reconciling" |> <| Reason := "outcome_unknown" |>).
Proof.
  intros Hp. left. exists p. split; [exact Hp|]. split; [by split_and!|]. left.
  unfold Uncertain, pending_is. simpl. by rewrite Hp.
Qed.

Lemma still_named_more p r l l' st : still_named p r l st → still_named p r (l ++ l') st.
Proof. intros [H|[H ?]]; [by left|right; split; [set_solver|done]]. Qed.

(** One more event keeps the record of the attempt if what it writes names it. *)
Lemma sent_kept_snoc st p r post ev :
  sent_kept st p r post → quiet ev →
  (∀ s, written ev = Some s → still_named p r (post ++ [ev]) s) →
  sent_kept st p r (post ++ [ev]).
Proof.
  intros [Hq Hk] Hev Hw. split; [apply Forall_app; split; [done|by apply Forall_singleton]|].
  intros l [Hl|(l' & -> & Hl)]%prefix_app_cases; [by apply Hk|].
  apply prefix_cons_cases in Hl as [->|(m & -> & Hm)].
  { rewrite app_nil_r. by apply Hk. }
  apply prefix_nil_inv in Hm as ->. unfold recorded. rewrite omap_app. simpl.
  destruct (written ev) as [s|] eqn:E; simpl.
  - rewrite last_snoc. by apply Hw.
  - rewrite app_nil_r. apply still_named_more. by apply Hk.
Qed.

(** A moment after the attempt was sent. *)
Definition after (tr0 : list event) (st : State) (p : Pending) (r : result SendReceipt) σ : Prop :=
  ∃ post, trace σ = tr0 ++ post ∧ sent_kept st p r post.

Lemma after_emit tr0 st p r ev σ :
  after tr0 st p r σ → quiet ev → written ev = None →
  after tr0 st p r (σ <| trace ::= λ tr, tr ++ [ev] |>).
Proof.
  intros (post & Ht & Hk) Hq Hw. exists (post ++ [ev]). split; [simpl; by rewrite Ht, app_assoc|].
  apply sent_kept_snoc; [done|done|by rewrite Hw].
Qed.

Lemma after_Save tr0 st p r σ :
  after tr0 st p r σ →
  (∀ post, trace σ = tr0 ++ post → still_named p r post (tx_State σ)) →
  wp (Save rt) (λ σ' _, after tr0 st p r σ') σ.
Proof.
  intros (post & Ht & Hk) Hn. specialize (Hn post Ht). unfold wp. pose proof (Save_spec rt σ) as Hs.
  destruct (Save rt σ) as [σ' e]. cbn [fst snd] in *.
  assert (∀ o, sent_kept st p r (post ++ [ev_save (candidate σ) o])) as Hsave.
  { intros o. apply sent_kept_snoc; [done|done|]. intros s Hs'. apply still_named_more.
    destruct o; simplify_eq/=; exact Hn. }
  destruct Hs; [by exists post|..]; eexists; (split; [simpl; rewrite Ht, <- app_assoc; reflexivity|apply Hsave]).
Qed.

Lemma dispatch_sends p σ :
  State_Pending (tx_State σ) = Some p → Uncertain (tx_State σ) = true →
  wp (dispatch rt policy p) (λ σ' _, ∃ r,
    after (trace σ ++ [ev_continue p r]) (tx_State σ) p r σ') σ.
Proof.
  intros Hp Hu. unfold dispatch. apply wp_bind, wp_gets, wp_bind, wp_ask. intros w r. apply wp_bind, wp_emit.
  set (tr0 := trace σ ++ [ev_continue p r]).
  set (σ1 := σ <| world := w |> <| trace ::= _ |>).
  assert (after tr0 (tx_State σ) p r σ1) as Ha.
  { exists []. split; [unfold tr0; simpl; by rewrite app_nil_r|]. split; [done|].
    intros l ->%prefix_nil_inv. left. exists p. split; [exact Hp|]. split; [by split_and!|by left]. }
  assert (tx_State σ1 = tx_State σ) as Hst by done. clearbody σ1.
  destruct r as [rc|e].
  - apply wp_bind, wp_ask. intros w' t. apply wp_bind, wp_update_try. intros s e He.
    destruct e as [e|]; [by exists (Ok rc)|]. apply wp_bind.
    eapply wp_mono; [apply (after_Save tr0 (tx_State σ) p (Ok rc)); [exact Ha|]|].
    { intros post _. simpl in *. eapply accepted_named; [|exact He]. by rewrite Hst. }
    intros σ2 [[]|e] H2; [|by exists (Ok rc)]. unfold checkpoint_ignored.
    destruct policy as [a|]; [|apply wp_ret; by exists (Ok rc)].
    apply wp_bind, wp_attempt. unfold Checkpoint.
    apply wp_bind, wp_gets, wp_bind, wp_ask. intros w2 t2. apply wp_bind, wp_ask. intros w3 e.
    apply wp_bind, wp_emit, wp_lift_error, wp_ret. exists (Ok rc). by apply after_emit.
  - apply wp_bind. 
    assert (∀ σ2, after tr0 (tx_State σ) p (Err e) σ2 →
      (∀ post, trace σ2 = tr0 ++ post → still_named p (Err e) post (tx_State σ2)) →
      wp (Save rt;; fail e : Proc W unit) (λ σ' _, ∃ r, after (trace σ ++ [ev_continue p r]) (tx_State σ) p r σ') σ2) as Hend.
    { intros σ2 H2 Hn. apply wp_bind. eapply wp_mono; [by apply after_Save|].
      intros σ3 [[]|e'] H3; [apply wp_fail|]; by exists (Err e). }
    case_match.
    { apply wp_update, Hend; [exact Ha|]. intros post _. simpl. apply unknown_named. by rewrite Hst. }
    apply wp_bind, wp_attempt, wp_bind, wp_ask. intros w' never. apply wp_bind, wp_emit, wp_lift_result.
    assert (∀ f post, f (tx_State σ1) = f (tx_State σ) → still_named p (Err e) post (f (tx_State σ)) →
      still_named p (Err e) post (f (tx_State σ1))) as Hf by (intros f post ->; done).
    assert (after tr0 (tx_State σ) p (Err e) (σ1 <| world := w' |> <| trace ::= λ tr, tr ++ [ev_never p never] |>)) as Ha'.
    { by apply (after_emit tr0 (tx_State σ) p (Err e) (ev_never p never) (σ1 <| world := w' |>)). }
    destruct never as [[|]|e']; apply wp_update, Hend; try exact Ha'; intros post Hpost; simpl in *.
    + right. split; [|done]. destruct Ha as (l & Hl & _). rewrite Hl, <- app_assoc in Hpost.
      apply app_inv_head in Hpost. subst post. set_solver.
    + apply unknown_named. by rewrite Hst.
    + apply unknown_named. by rewrite Hst.
Qed.

(** ** The pass *)

Definition calm σ : Prop := Forall quiet (trace σ).
Definition pass_ok σ {A} (_ : result A) : Prop := dispatch_ok (trace σ).

(** Ending a pass with a procedure that sends nothing. *)
Lemma wp_ends {A} (m : Proc W A) σ : steps quiet m → calm σ → wp m (λ σ' r, pass_ok σ' r) σ.
Proof.
  intros Hm Hc. eapply wp_mono; [by apply steps_wp|]. intros σ' r Hg.
  apply dispatch_ok_quiet, (quiet_grows _ _ Hg Hc).
Qed.

(** Going on after one. *)
Lemma wp_goes_on {A B} (m : Proc W A) (f : A → Proc W B) σ :
  steps quiet m → calm σ →
  (∀ σ' a, grows quiet σ σ' → calm σ' → wp (f a) (λ σ' r, pass_ok σ' r) σ') →
  wp (mbind f m) (λ σ' r, pass_ok σ' r) σ.
Proof.
  intros Hm Hc Hf. apply wp_bind. eapply wp_mono; [by apply steps_wp|]. intros σ' [a|e] Hg;
    pose proof (quiet_grows _ _ Hg Hc) as Hc'; [by apply Hf|by apply dispatch_ok_quiet].
Qed.

(** What must hold of the attempt that is about to be saved and sent. *)
Definition ready d σ : Prop :=
  calm σ ∧ ev_decide (Ok d) ∈ trace σ ∧ ∀ p, State_Pending (tx_State σ) = Some p →
    Uncertain (tx_State σ) = true ∧ Allows d (tx_State σ) = true ∧
    ∃ q, unsubmitted_in (trace σ) q ∧ same_identity p q.

Lemma Save_send d σ : ready d σ → wp (Save rt;; send rt policy) (λ σ' r, pass_ok σ' r) σ.
Proof.
  intros (Hc & Hd & Hr). apply wp_bind. unfold wp at 1. pose proof (Save_spec rt σ) as Hs.
  assert (Forall quiet (trace (Save rt σ).1)) as Hq.
  { refine (quiet_grows _ _ _ Hc). apply steps_Save. auto with proc. }
  destruct (Save rt σ) as [σ1 r]. cbn [fst snd] in *.
  destruct Hs as [e|w e _ _|w e _ _|w _ _]; try (by apply dispatch_ok_quiet).
  set (σ1 := _ <| tx_State := candidate σ |>) in *.
  assert (trace σ1 = trace σ ++ [ev_save (candidate σ) write_ok] ∧ tx_State σ1 = candidate σ) as [Ht Hst] by done.
  clearbody σ1. unfold send. apply wp_bind, wp_gets. rewrite Hst.
  change (State_Pending (candidate σ)) with (State_Pending (tx_State σ)).
  destruct (State_Pending (tx_State σ)) as [p|] eqn:Hp; [|apply wp_ret; by apply dispatch_ok_quiet].
  destruct (Hr p eq_refl) as (Hu & Ha & q & Hun & Hid).
  eapply wp_mono; [apply dispatch_sends; rewrite Hst; [exact Hp|exact Hu]|].
  intros σ2 e (r & post & Htr & Hkept). rewrite Hst, Ht in *. unfold pass_ok.
  rewrite <- app_assoc in Htr. simpl in Htr.
  intros pre p' r' post' Heq. rewrite Heq in Htr. symmetry in Htr.
  apply continue_unique in Htr as (<- & <- & <- & <-); [|exact Hq|apply Hkept]. split.
  - split; [exact Hq|..].
    + exists (trace σ), (candidate σ), d. by split_and!.
    + exists q. split; [by apply unsubmitted_app|done].
  - exists (candidate σ). rewrite omap_app. simpl. by rewrite last_snoc.
Qed.

Lemma recharged_identity p p' : recharged p p' → same_identity p' p.
Proof. intros ->. by split_and!. Qed.

(** The reservation or the start of an attempt proved unsubmitted makes it ready. *)
Lemma begun_ready d σ (f : State → State * option error) p :
  calm σ → ev_decide (Ok d) ∈ trace σ → unsubmitted_in (trace σ) p →
  State_Pending (tx_State σ) = Some p →
  (∀ s' p', f (tx_State σ) = (s', None) → State_Pending s' = Some p' →
     Uncertain s' = true ∧ Allows d s' = true ∧ recharged p p') →
  wp (update_try f;; Save rt;; send rt policy) (λ σ' r, pass_ok σ' r) σ.
Proof.
  intros Hc Hd Hun Hp Hf. apply wp_bind, wp_update_try. intros s [e|] He; [by apply dispatch_ok_quiet|].
  apply (Save_send d). split; [exact Hc|]. split; [exact Hd|]. intros p' Hp'.
  destruct (Hf s p' He Hp') as (Hu & Ha & Hr). split_and!; [done|done|].
  exists p. split; [exact Hun|by apply recharged_identity].
Qed.

Lemma pending_some p σ Q :
  State_Pending (tx_State σ) = Some p → Q σ (Ok p) → wp pending Q σ.
Proof. intros Hp HQ. unfold pending. apply wp_bind, wp_gets. rewrite Hp. by apply wp_ret. Qed.

Lemma uncertain_pending s : Uncertain s = true → ∃ p, State_Pending s = Some p.
Proof. unfold Uncertain, pending_is. destruct (State_Pending s); eauto; done. Qed.

Lemma step_uncertain_ok scope σ :
  calm σ → Uncertain (tx_State σ) = true → wp (step_uncertain rt policy scope) (λ σ' r, pass_ok σ' r) σ.
Proof.
  intros Hc Hu. destruct (uncertain_pending _ Hu) as [p Hp]. unfold step_uncertain.
  apply wp_bind, (pending_some p); [done|].
  apply wp_bind. eapply wp_mono; [apply reconcile_unsubmitted|]. intros σ1 [unsub|e] [Hg1 H1];
    pose proof (quiet_grows _ _ Hg1 Hc) as Hc1; [|by apply dispatch_ok_quiet].
  destruct unsub; [|apply wp_ret; by apply dispatch_ok_quiet]. cbn [negb].
  destruct (H1 eq_refl) as (Hs1 & _ & Hun1).
  apply wp_bind. eapply wp_mono; [apply decision_traced|]. intros σ2 [d|e] [Hg2 H2];
    pose proof (quiet_grows _ _ Hg2 Hc1) as Hc2; [|by apply dispatch_ok_quiet].
  destruct (H2 d eq_refl) as [Hs2 Hd2]. apply (unsubmitted_grows quiet _ σ2) in Hun1; [|done].
  apply wp_bind, wp_gets. destruct (Allows d (tx_State σ2)); cbn [negb].
  2:{ apply wp_ends; [procs|done]. }
  assert (State_Pending (tx_State σ2) = Some p ∧ Uncertain (tx_State σ2) = true) as [Hp2 Hu2].
  { rewrite Hs2, Hs1. by split. }
  apply wp_bind, (pending_some p); [done|].
  apply wp_bind. eapply wp_mono; [apply reading_admission|]. intros σ3 [[]|e] [Hg3 H3];
    pose proof (quiet_grows _ _ Hg3 Hc2) as Hc3; [|by apply dispatch_ok_quiet].
  apply wp_bind. eapply wp_mono; [apply preflight_evidence|]. intros σ4 [[]|e] [Hg4 H4];
    pose proof (quiet_grows _ _ Hg4 Hc3) as Hc4; [|by apply dispatch_ok_quiet].
  destruct (H4 eq_refl) as [l Hs4]. rewrite (H3 eq_refl) in Hs4.
  apply wp_bind, wp_ask. intros w t. apply (begun_ready d _ _ p); simpl.
  - exact Hc4.
  - by do 2 (eapply decided_grows; [eassumption|]).
  - by do 2 (eapply unsubmitted_grows; [eassumption|]).
  - by rewrite Hs4.
  - intros s' p' Hr Hp'. destruct (Reserve_outcome _ _ _ _ Hr) as (_ & _ & Hph & _ & Hpe).
    destruct (Hpe p' Hp') as (Ha & q & Hq & Hre & _). rewrite Hs4 in Hq. simpl in Hq. simplify_eq.
    split_and!; [|done|congruence]. rewrite Hp' in Hph. simpl in Hph.
    unfold Uncertain, pending_is in *. rewrite Hph, Hp', Hs4. simpl. by rewrite Hp2 in Hu2.
Qed.

Lemma step_dispatch_ok scope d σ :
  calm σ → ev_decide (Ok d) ∈ trace σ → wp (step_dispatch rt policy scope d) (λ σ' r, pass_ok σ' r) σ.
Proof.
  intros Hc Hd. unfold step_dispatch. apply wp_bind, wp_gets.
  case_match eqn:Hg; [apply wp_ret; by apply dispatch_ok_quiet|].
  rewrite !orb_false_iff in Hg. destruct Hg as ((_ & Hp) & _). apply bool_decide_eq_false in Hp.
  destruct (State_Pending (tx_State σ)) as [p|] eqn:Hps; [|done].
  apply wp_bind, wp_ask. intros w t. apply wp_bind, wp_update.
  case_match; [apply wp_ret; by apply dispatch_ok_quiet|].
  set (σ1 := σ <| world := w |> <| tx_State ::= _ |>).
  assert (calm σ1 ∧ ev_decide (Ok d) ∈ trace σ1 ∧ State_Pending (tx_State σ1) = Some p) as (Hc1 & Hd1 & Hp1).
  { subst σ1. simpl. by rewrite Now_eq. }
  clearbody σ1. apply wp_bind, (pending_some p); [done|].
  apply wp_bind. eapply wp_mono; [apply reading_admission|]. intros σ2 [[]|e] [Hg2 H2];
    pose proof (quiet_grows _ _ Hg2 Hc1) as Hc2; [|by apply dispatch_ok_quiet].
  specialize (H2 eq_refl). apply wp_bind, (pending_some p); [by rewrite H2|].
  apply wp_bind. eapply wp_mono; [apply reconcile_unsubmitted|]. intros σ3 [unsub|e] [Hg3 H3];
    pose proof (quiet_grows _ _ Hg3 Hc2) as Hc3; [|by apply dispatch_ok_quiet].
  destruct unsub; [|apply wp_ret; by apply dispatch_ok_quiet]. cbn [negb].
  destruct (H3 eq_refl) as (Hs3 & _ & Hun3).
  apply wp_bind. eapply wp_mono; [apply preflight_evidence|]. intros σ4 [[]|e] [Hg4 H4];
    pose proof (quiet_grows _ _ Hg4 Hc3) as Hc4; [|by apply dispatch_ok_quiet].
  destruct (H4 eq_refl) as [l Hs4].
  assert (State_Pending (tx_State σ4) = Some p) as Hp4 by (rewrite Hs4, Hs3; simpl; by rewrite H2).
  apply wp_bind, wp_ask. intros w' t'. apply (begun_ready d _ _ p); simpl.
  - exact Hc4.
  - by do 3 (eapply decided_grows; [eassumption|]).
  - by eapply unsubmitted_grows.
  - exact Hp4.
  - intros s' p' Hb Hp'. apply Begin_spec in Hb as (_ & _ & _ & Hb). rewrite Hp' in Hb.
    destruct Hb as (_ & Hu & _ & Ha & q & Hq & Hre & _). split_and!; [done|done|congruence].
Qed.

(** Between the decision and the dispatch nothing is sent. *)
Definition poised d σ : Prop := calm σ ∧ ev_decide (Ok d) ∈ trace σ.

Lemma wp_poised {A B} d (m : Proc W A) (f : A → Proc W B) σ :
  steps quiet m → poised d σ →
  (∀ a σ', poised d σ' → wp (f a) (λ σ' r, pass_ok σ' r) σ') →
  wp (mbind f m) (λ σ' r, pass_ok σ' r) σ.
Proof.
  intros Hm [Hc Hd] Hf. apply wp_goes_on; [done|done|]. intros σ' a Hg Hc'. apply Hf.
  split; [done|]. by eapply decided_grows.
Qed.

Lemma step_certain_ok a scope σ :
  calm σ → wp (step_certain rt policy a scope) (λ σ' r, pass_ok σ' r) σ.
Proof.
  intros Hc. unfold step_certain. apply wp_bind. eapply wp_mono; [apply decision_traced|].
  intros σ1 [d|e] [Hg1 H1]; pose proof (quiet_grows _ _ Hg1 Hc) as Hc1; [|by apply dispatch_ok_quiet].
  destruct (H1 d eq_refl) as [_ Hd]. assert (poised d σ1) as Hp by done. clear -Hp. revert σ1 Hp.
  let go := (intros σ Hp; apply (wp_poised d); [procs|exact Hp|]; clear Hp σ) in
  go; intros _; go; intros _; go; intros o; go; intros s; go; intros _; go; intros s'.
  case_match; [intros σ [Hc _]; apply wp_ends; auto with proc|].
  let go := (intros σ Hp; apply (wp_poised d); [procs|exact Hp|]; clear Hp σ) in
  go; intros _; go; intros _; go; intros _; go; intros previous; go; intros t; go; intros x; go; intros b;
  go; intros _; go; intros _; go; intros s''; go; intros _.
  intros σ [Hc Hd]. by apply step_dispatch_ok.
Qed.

Lemma step_locked_ok scope σ :
  calm σ → wp (step_locked rt policy scope) (λ σ' r, pass_ok σ' r) σ.
Proof.
  intros Hc. unfold step_locked. apply wp_goes_on; [auto with proc|done|]. intros σ1 [] _ Hc1.
  apply wp_bind, wp_gets. case_match; [by apply step_uncertain_ok|].
  destruct policy as [a|] eqn:Ha; [rewrite <- Ha; by apply step_certain_ok|].
  apply wp_fail. by apply dispatch_ok_quiet.
Qed.

(** ** The whole pass *)

(** [Lock] saves a new record for its scope at most. *)
Lemma lock_calm scope create σ :
  calm σ → wp (lock rt store scope create) (λ σ' _, calm σ') σ.
Proof.
  intros Hc. unfold lock. case_match; [by apply wp_fail|].
  apply wp_bind, wp_ask. intros w e. apply wp_bind, wp_lift_error. destruct e as [e|]; [done|].
  apply wp_bind, wp_modify.
  match goal with |- wp ?m _ ?s => assert (steps quiet m) as Hm by procs;
    eapply wp_mono; [by apply steps_wp|] end.
  intros σ' r Hg. by apply (quiet_grows _ _ Hg).
Qed.

(** C1: in one pass, for every backend, policy, clock and file system, a
    continuation is sent at most once, and only when the attempt had just been
    durably saved as possibly submitted, the backend had positively proved in this
    pass that it was never submitted, and the session's decision allowed it.  At
    every later moment of the pass the saved record still names the attempt, with
    an open outcome or its receipt, or its refusal was positively proved. *)
Theorem step_dispatch_safe scope σ :
  trace σ = [] → dispatch_ok (trace (Step rt store policy scope σ).1).
Proof.
  intros Ht. change (wp (Step rt store policy scope) (λ σ' _, dispatch_ok (trace σ')) σ).
  unfold Step. apply wp_bind. eapply wp_mono; [apply lock_calm; unfold calm; by rewrite Ht|].
  intros σ1 [[]|e] Hc; [|by apply dispatch_ok_quiet]. apply wp_bind, wp_bind, wp_attempt.
  eapply wp_mono; [by apply step_locked_ok|]. intros σ2 [[]|e] Hok; [exact Hok|].
  apply wp_bind, wp_modify, wp_fail. exact Hok.
Qed.

(** Recovering an existing attempt never sends one, whatever its record, the
    backend and the policy say. *)
Theorem reconcile_only_sends_nothing scope σ :
  trace σ = [] → Forall quiet (trace (ReconcileOnly rt store policy scope σ).1).
Proof.
  intros Ht. change (wp (ReconcileOnly rt store policy scope) (λ σ' _, calm σ') σ).
  assert (calm σ) as Hc by (unfold calm; by rewrite Ht). unfold ReconcileOnly. apply wp_bind, wp_attempt.
  eapply wp_mono; [apply (steps_wp quiet); auto with proc|]. intros σ1 r Hg.
  pose proof (quiet_grows _ _ Hg Hc) as Hc1. destruct r as [s|e]; [|by case_match].
  apply wp_bind. eapply wp_mono; [by apply lock_calm|]. intros σ2 [[]|e] Hc2; [|done].
  match goal with |- wp ?m _ ?s => assert (steps quiet m) as Hm by procs;
    eapply wp_mono; [by apply steps_wp|] end.
  intros σ' r Hg'. by apply (quiet_grows _ _ Hg').
Qed.

(** ** What a pass writes *)

Definition any (ev : event) : Prop := True.
#[local] Hint Extern 1 (any _) => exact I : proc.

Lemma steps_any {A} (m : Proc W A) : steps quiet m → steps any m.
Proof. intros Hm σ. by apply (grows_weaken quiet). Qed.
#[local] Hint Extern 2 (rel_steps (grows any) _) => apply steps_any : proc.

Lemma any_dispatch p : steps any (dispatch rt policy p).
Proof. unfold dispatch. procs. Qed.
#[local] Hint Resolve any_dispatch : proc.
Lemma any_send : steps any (send rt policy).
Proof. unfold send. procs. Qed.
#[local] Hint Resolve any_send : proc.
Lemma any_step_uncertain scope : steps any (step_uncertain rt policy scope).
Proof. unfold step_uncertain. procs. Qed.
Lemma any_step_dispatch scope d : steps any (step_dispatch rt policy scope d).
Proof. unfold step_dispatch. procs. Qed.
#[local] Hint Resolve any_step_uncertain any_step_dispatch : proc.
Lemma any_step_certain a scope : steps any (step_certain rt policy a scope).
Proof. unfold step_certain. procs. Qed.
#[local] Hint Resolve any_step_certain : proc.
Lemma any_step_locked scope : steps any (step_locked rt policy scope).
Proof. unfold step_locked. procs. Qed.

(** [Lock] works on its own scope's record. *)
Definition own_writes (scope : Scope) σ σ' : Prop :=
  ∃ tr, trace σ' = trace σ ++ tr ∧ Forall (saved_ok scope) tr ∧ disk σ' = replay scope tr (disk σ).

Lemma own_writes_grows P scope σ σ1 σ2 :
  own_writes scope σ σ1 → tx_scope σ1 = scope → grows P σ1 σ2 → own_writes scope σ σ2.
Proof.
  intros (tr1 & Ht1 & Hv1 & Hd1) <- [_ (tr2 & Ht2 & _ & Hv2 & Hd2)].
  exists (tr1 ++ tr2). unfold replay. rewrite foldl_app, Ht2, Ht1, Hd2, Hd1, app_assoc.
  split_and!; [done|by apply Forall_app|done].
Qed.

Lemma lock_own_writes scope create σ :
  wp (lock rt store scope create) (λ σ' r, own_writes scope σ σ' ∧ (is_ok r = true → tx_scope σ' = scope)) σ.
Proof.
  assert (∀ w, own_writes scope σ (σ <| world := w |>)) as Hrefl.
  { intros w. exists []. rewrite app_nil_r. by split_and!. }
  unfold lock. case_match; [apply wp_fail; split; [|done]; specialize (Hrefl (world σ)); by destruct σ|].
  apply wp_bind, wp_ask. intros w e. apply wp_bind, wp_lift_error. destruct e as [e|]; [by split|].
  apply wp_bind, wp_modify. set (σ1 := _ <| tx_open := true |>).
  assert (own_writes scope σ σ1 ∧ tx_scope σ1 = scope) as [H1 Hs] by (split; [apply Hrefl|done]). clearbody σ1.
  match goal with |- wp ?m _ ?s => assert (steps any m) as Hm by procs;
    eapply wp_mono; [by apply steps_wp|] end.
  intros σ' r Hg. split; [exact (own_writes_grows any _ _ _ _ H1 Hs Hg)|]. intros _. by rewrite (proj1 Hg).
Qed.

(** A pass writes nothing but valid records of the current schema within the
    size limit, all of them to its own conversation's file: the records on disk
    afterwards are those before it with exactly the saves of its trace applied,
    also when it fails. *)
Theorem step_writes scope σ : own_writes scope σ (Step rt store policy scope σ).1.
Proof.
  change (wp (Step rt store policy scope) (λ σ' _, own_writes scope σ σ') σ).
  unfold Step. apply wp_bind. eapply wp_mono; [apply lock_own_writes|].
  intros σ1 [[]|e] [H1 Hs]; [|done]. specialize (Hs eq_refl).
  match goal with |- wp ?m _ ?s => assert (steps any m) as Hm by (pose proof (any_step_locked scope); procs);
    eapply wp_mono; [by apply steps_wp|] end.
  intros σ2 r Hg. exact (own_writes_grows any _ _ _ _ H1 Hs Hg).
Qed.

End Safety.
