(* ===== verification/RetryPolicy.v ===== *)
(** * Automatic retry: session policy

    [turnretry/policy_store.go], [policy.go] and [summary.go]: the durable choice
    per session, its enrolment baselines, suppressions and chain summaries.  A file
    is modelled by the policy it decodes to; [Update] is the cross-process
    read-modify-write.  [SessionPolicy] implements the controller's [PolicyAuthority]. *)

From S2P Require Import Prelude Effects GoStrings GoJson Sha256 Codex.
From S2P Require Import RetryTypes RetryValidate RetryState RetrySys RetryStore.

Open Scope Z_scope.

Definition PolicySchema : Z := 1.
Definition MaxPolicyBytes : Z := 1024 * 1024.
Definition MaxPolicyThreads : Z := 128.
Definition maxJSONInteger : Z := 2 ^ 53 - 1.

Record PolicyScope := mkPolicyScope {
  ps_Workspace : string; ps_Slug : string; ps_Root : string; ps_Incarnation : string }.

#[export] Instance PolicyScope_eq_dec : EqDecision PolicyScope.
Proof. solve_decision. Defined.

Record Summary := mkSummary {
  sum_Chain : string; sum_Class : string; sum_Phase : string; sum_Outcome : string;
  sum_Reason : string; sum_ConfirmedStarts : option Z; sum_CountQuality : string;
  sum_StartedAtMS : option Z; sum_FinishedAtMS : option Z; sum_TimingQuality : string;
  sum_LastConfirmed : string; sum_PendingID : string }.

#[export] Instance eta_Summary : Eta Summary := λ v,
  mkSummary (sum_Chain v) (sum_Class v) (sum_Phase v) (sum_Outcome v) (sum_Reason v)
    (sum_ConfirmedStarts v) (sum_CountQuality v) (sum_StartedAtMS v) (sum_FinishedAtMS v)
    (sum_TimingQuality v) (sum_LastConfirmed v) (sum_PendingID v).

(** [turnretry.ThreadPolicy]; the library has a type of that name too. *)
Record PolicyEntry := mkEntry {
  entry_Thread : string; entry_Capacity : Enrollment; entry_Cybersecurity : Enrollment;
  entry_Suppressed : slice Suppression; entry_Summary : option Summary }.

#[export] Instance eta_PolicyEntry : Eta PolicyEntry := λ e,
  mkEntry (entry_Thread e) (entry_Capacity e) (entry_Cybersecurity e) (entry_Suppressed e) (entry_Summary e).

Record Policy := mkPolicy {
  pol_Schema : Z; pol_Scope : PolicyScope; pol_Revision : string;
  pol_Capacity : bool; pol_Cybersecurity : bool; pol_Threads : slice PolicyEntry }.

#[export] Instance eta_Policy : Eta Policy := λ p,
  mkPolicy (pol_Schema p) (pol_Scope p) (pol_Revision p) (pol_Capacity p) (pol_Cybersecurity p) (pol_Threads p).

(** ** JSON *)

Definition Enrollment_json (e : Enrollment) : json :=
  json_struct [field "turn" (json_string (enr_Turn e)); field "active" (json_bool (enr_Active e))].
Definition Suppression_json (v : Suppression) : json :=
  json_struct [field "chain" (json_string (sup_Chain v)); field "pending" (json_string (sup_Pending v));
               field "result" (json_string (sup_Result v))].
Definition Summary_json (v : Summary) : json :=
  json_struct [field "chain" (json_string (sum_Chain v)); field "class" (json_string (sum_Class v));
               field "phase" (json_string (sum_Phase v)); field "outcome" (json_string (sum_Outcome v));
               field "reason" (json_string (sum_Reason v));
               field "confirmedStarts" (json_ptr json_int (sum_ConfirmedStarts v));
               field "countQuality" (json_string (sum_CountQuality v));
               field "startedAtMs" (json_ptr json_int (sum_StartedAtMS v));
               field "finishedAtMs" (json_ptr json_int (sum_FinishedAtMS v));
               field "timingQuality" (json_string (sum_TimingQuality v));
               field "lastConfirmed" (json_string (sum_LastConfirmed v));
               field "pendingId" (json_string (sum_PendingID v))].
Definition PolicyEntry_json (e : PolicyEntry) : json :=
  json_struct [field "thread" (json_string (entry_Thread e));
               field "capacity" (Enrollment_json (entry_Capacity e));
               field "cybersecurity" (Enrollment_json (entry_Cybersecurity e));
               field "suppressed" (json_slice Suppression_json (entry_Suppressed e));
               field "summary" (json_ptr Summary_json (entry_Summary e))].
Definition PolicyScope_json (s : PolicyScope) : json :=
  json_struct [field "workspace" (json_string (ps_Workspace s)); field "slug" (json_string (ps_Slug s));
               field "root" (json_string (ps_Root s)); field "incarnation" (json_string (ps_Incarnation s))].
Definition Policy_json (p : Policy) : json :=
  json_struct [field "schema" (json_int (pol_Schema p)); field "scope" (PolicyScope_json (pol_Scope p));
               field "revision" (json_string (pol_Revision p));
               field "capacity" (json_bool (pol_Capacity p));
               field "cybersecurity" (json_bool (pol_Cybersecurity p));
               field "threads" (json_slice PolicyEntry_json (pol_Threads p))].
Arguments Policy_json : simpl never.

(** ** Validity *)

Definition boundedIdentity (value : string) : bool := (value != "") && (strlen value <=? 4096).

Definition PolicyStore_validScope (s : Store) (scope : PolicyScope) : bool :=
  IsAbs (store_Root s) && IsAbs (store_Workspace s) && (ps_Workspace scope == store_Workspace s)
  && boundedIdentity (ps_Slug scope) && (ps_Slug scope != ".") && (ps_Slug scope != "..")
  && negb (contains_char is_separator (ps_Slug scope))
  && boundedIdentity (ps_Root scope) && boundedIdentity (ps_Incarnation scope).

(** The loop over a thread's suppressions. *)
Fixpoint valid_suppressions (chains : gset string) (l : list Suppression) : bool :=
  match l with
  | [] => true
  | stop :: l =>
      boundedIdentity (sup_Chain stop) && negb (bool_decide (sup_Chain stop ∈ chains))
      && (strlen (sup_Result stop) <=? 4096)
      && ((sup_Pending stop == "") || attemptIDPattern (sup_Pending stop))
      && valid_suppressions ({[sup_Chain stop]} ∪ chains) l
  end.

Definition valid_integer (n : option Z) : bool :=
  match n with Some n => (0 <=? n) && (n <=? maxJSONInteger) | None => true end.

Definition valid_summary (v : Summary) : bool :=
  boundedIdentity (sum_Chain v) && ((sum_Class v == "capacity") || (sum_Class v == "cybersecurity"))
  && (strlen (sum_Reason v) <=? 128)
  && ((sum_LastConfirmed v == "") || attemptIDPattern (sum_LastConfirmed v))
  && ((sum_PendingID v == "") || attemptIDPattern (sum_PendingID v))
  && one_of (sum_Phase v) ["scheduled"; "submitting"; "reconciling"; "running"; "terminal"]
  && one_of (sum_CountQuality v) ["exact"; "partial"; "unavailable"]
  && one_of (sum_TimingQuality v) ["exact"; "partial"; "unavailable"]
  && one_of (sum_Outcome v) [""; "success"; "stopped"; "exhausted"; "superseded"; "blocked"]
  && valid_integer (sum_ConfirmedStarts v) && valid_integer (sum_StartedAtMS v)
  && valid_integer (sum_FinishedAtMS v)
  && ((sum_CountQuality v == "unavailable") == bool_decide (sum_ConfirmedStarts v = None))
  && ((sum_TimingQuality v == "unavailable") == bool_decide (sum_StartedAtMS v = None))
  && match sum_FinishedAtMS v, sum_StartedAtMS v with
     | Some f, Some t => t <=? f
     | _, _ => true
     end.

Fixpoint valid_entries (seen : gset string) (l : list PolicyEntry) : bool :=
  match l with
  | [] => true
  | thread :: l =>
      boundedIdentity (entry_Thread thread) && negb (bool_decide (entry_Thread thread ∈ seen))
      && negb (bool_decide (entry_Suppressed thread = None)) && (slice_len (entry_Suppressed thread) <=? 2)
      && (strlen (enr_Turn (entry_Capacity thread)) <=? 4096)
      && (strlen (enr_Turn (entry_Cybersecurity thread)) <=? 4096)
      && negb (enr_Active (entry_Capacity thread) && (enr_Turn (entry_Capacity thread) == ""))
      && negb (enr_Active (entry_Cybersecurity thread) && (enr_Turn (entry_Cybersecurity thread) == ""))
      && valid_suppressions ∅ (elems (entry_Suppressed thread))
      && match entry_Summary thread with Some v => valid_summary v | None => true end
      && valid_entries ({[entry_Thread thread]} ∪ seen) l
  end.

(** [validatePolicy] *)
Definition validatePolicy (scope : PolicyScope) (p : Policy) : option error :=
  if (pol_Schema p == PolicySchema) && (pol_Scope p == scope) && attemptIDPattern (pol_Revision p)
     && negb (bool_decide (pol_Threads p = None)) && (slice_len (pol_Threads p) <=? MaxPolicyThreads)
     && valid_entries ∅ (elems (pol_Threads p))
  then None else Some ErrPolicyUnavailable.

(** ** Entries *)

Definition is_thread (thread : string) (e : PolicyEntry) : bool := entry_Thread e == thread.

(** [Policy.Thread]: the first entry of the thread, by its index. *)
Definition Thread (p : Policy) (thread : string) : option (nat * PolicyEntry) :=
  find_index (is_thread thread) (elems (pol_Threads p)).

(** Assigning through the pointer [Thread] returns. *)
Definition set_entry (p : Policy) (i : nat) (e : PolicyEntry) : Policy :=
  p <| pol_Threads ::= fmap (λ l, <[i := e]> l) |>.
Definition append_entry (p : Policy) (e : PolicyEntry) : Policy :=
  p <| pol_Threads ::= λ l, go_append l e |>.

(** [Policy.EqualChoices] *)
Definition EqualChoices (p : Policy) (capacity cybersecurity : bool) : bool :=
  eqb (pol_Capacity p) capacity && eqb (pol_Cybersecurity p) cybersecurity.
