(* ===== verification/RetryPolicyStore.v ===== *)
(** * Automatic retry: session policy operations

    [PolicyStore.Load] and [Update], [PreparePolicy], and [SessionPolicy.Decide] and
    [Checkpoint], over a world that holds the policy files. *)

From S2P Require Import Prelude Effects GoStrings GoJson Sha256 Codex.
From S2P Require Import RetryTypes RetryValidate RetryState RetrySys RetryStore RetryPolicy.

Open Scope Z_scope.

Inductive policy_file :=
  | pf_decoded (p : Policy)
  | pf_damaged.

(** The policy files of a world, by slug, and what the operating system answers:
    reaching the lock, opening a file, the context before the replacement, the
    replacement itself and the random source. *)
Record PolicyIO (W : Type) := mkPolicyIO {
  pio_files : W → gmap string policy_file;
  pio_set : gmap string policy_file → W → W;
  pio_lock : PolicyScope → W → W * option error;
  pio_open : W → W * option error;
  pio_context : W → W * option error;
  pio_replace : Policy → W → W * write_outcome;
  pio_rand16 : W → W * option (list Z) }.
Arguments pio_files {W} _ _. Arguments pio_set {W} _ _ _. Arguments pio_lock {W} _ _ _.
Arguments pio_open {W} _ _. Arguments pio_context {W} _ _. Arguments pio_replace {W} _ _ _.
Arguments pio_rand16 {W} _ _.

(** ** Preparing a choice *)

Section Prepare.
Context {CW : CodexWeb}.

Record PolicyThread := mkPolicyThread { pt_State : State; pt_Before : Observation; pt_After : Observation }.

Definition thread_of (v : PolicyThread) : string := scope_Thread (State_Scope (pt_State v)).

(** The first loop of [PreparePolicy]: every observation is stable, complete and of
    the policy's own session; a disabled thread turns a bootstrap off. *)
Definition admissible_thread (p : Policy) (v : PolicyThread) : bool :=
  let after := pt_After v in
  negb ((obs_Turn after == "") && (obs_Status after != "")
        || (obs_Turn after != "") && negb (one_of (obs_Status after) ["inProgress"; "completed"; "failed"; "interrupted"]))
  && (pt_Before v == after)
  && (scope_Root (State_Scope (pt_State v)) == ps_Root (pol_Scope p))
  && (scope_Slug (State_Scope (pt_State v)) == ps_Slug (pol_Scope p))
  && (scope_Workspace (State_Scope (pt_State v)) == ps_Workspace (pol_Scope p))
  && ((Boundary (pt_State v) == "") || (Boundary (pt_State v) == ps_Incarnation (pol_Scope p))).

Fixpoint admissible (p : Policy) (seen : gset string) (threads : list PolicyThread) : bool :=
  match threads with
  | [] => true
  | v :: threads =>
      admissible_thread p v && negb (bool_decide (thread_of v ∈ seen))
      && admissible p ({[thread_of v]} ∪ seen) threads
  end.

Definition baseline_of (o : Observation) : Enrollment :=
  mkEnrollment (obs_Turn o) (obs_Status o == "inProgress").
Definition state_baseline (s : State) : Enrollment := mkEnrollment (Baseline s) (BaselineActive s).

(** The chain of a state with an attempt, in a class that the choice enables or
    disables. *)
Definition owned_in (s : State) (class : string) : bool :=
  (Chain s != "") && pending_is s (λ _, true) && (Class_ s == class).

Definition stops (s : State) (capacity cybersecurity : bool) : bool :=
  owned_in s "capacity" && negb capacity || owned_in s "cybersecurity" && negb cybersecurity.

(** Recording that the chain of [s] must not proceed. *)
Definition suppress_chain (s : State) (p : Pending) (l : list Suppression) : option (list Suppression) :=
  let stop := mkSuppression (Chain s) (pend_ID p) (pend_ResultTurn p) in
  let kept := List.filter (λ old, (sup_Chain old == Chain s) || (sup_Pending old == pend_ID p)) l in
  if existsb (λ old, sup_Chain old == sup_Chain stop) kept
  then Some (map (λ old, if sup_Chain old == sup_Chain stop then stop else old) kept)
  else if 2 <=? Z.of_nat (length kept) then None
  else Some (kept ++ [stop]).

(** The second loop's effect on one entry. *)
Definition prepare_entry (oldCapacity oldCyber capacity cybersecurity bootstrap : bool)
    (v : PolicyThread) (entry : PolicyEntry) : option PolicyEntry :=
  let s := pt_State v in
  let baseline := baseline_of (pt_After v) in
  let entry := when (bootstrap || negb (eqb oldCapacity capacity)) (λ e, e <| entry_Capacity := baseline |>) entry in
  let entry := when (bootstrap || negb (eqb oldCyber cybersecurity)) (λ e, e <| entry_Cybersecurity := baseline |>) entry in
  let inherited class enabled := bootstrap && owned_in s class && negb (Cancelled s) && enabled in
  let entry := when (inherited "capacity" capacity) (λ e, e <| entry_Capacity := state_baseline s |>) entry in
  let entry := when (inherited "cybersecurity" cybersecurity) (λ e, e <| entry_Cybersecurity := state_baseline s |>) entry in
  if stops s capacity cybersecurity then
    match State_Pending s with
    | Some p =>
        l ← suppress_chain s p (elems (entry_Suppressed entry));
        Some (entry <| entry_Suppressed := Some l |>)
    | None => Some entry
    end
  else Some entry.

Definition prepare_thread (oldCapacity oldCyber capacity cybersecurity bootstrap : bool)
    (p : Policy) (v : PolicyThread) : option Policy :=
  p ← (match Thread p (thread_of v) with
       | Some _ => Some p
       | None => if MaxPolicyThreads <=? slice_len (pol_Threads p) then None
                 else Some (append_entry p (mkEntry (thread_of v) (mkEnrollment "" false) (mkEnrollment "" false) (Some []) None))
       end);
  '(i, entry) ← Thread p (thread_of v);
  entry ← prepare_entry oldCapacity oldCyber capacity cybersecurity bootstrap v entry;
  Some (set_entry p i entry).

Fixpoint prepare_threads (oldCapacity oldCyber capacity cybersecurity bootstrap : bool)
    (p : Policy) (threads : list PolicyThread) : option Policy :=
  match threads with
  | [] => Some p
  | v :: threads =>
      p ← prepare_thread oldCapacity oldCyber capacity cybersecurity bootstrap p v;
      prepare_threads oldCapacity oldCyber capacity cybersecurity bootstrap p threads
  end.

(** [PreparePolicy]; the policy it leaves on an error is discarded by [Update]. *)
Definition PreparePolicy (rnd : option (list Z)) (p : Policy) (threads : list PolicyThread)
    (capacity cybersecurity : bool) (revision : string) (bootstrap : bool) : result Policy :=
  if (Z.of_nat (length threads) =? 0) || (MaxPolicyThreads <? Z.of_nat (length threads))
     || negb (admissible p ∅ threads) then Err ErrPolicyUnavailable else
  let off := bootstrap && existsb (λ v, negb (Enabled (pt_State v))) threads in
  let capacity := capacity && negb off in
  let cybersecurity := cybersecurity && negb off in
  if negb bootstrap && EqualChoices p capacity cybersecurity then Ok p else
  if negb bootstrap && (pol_Revision p != revision) then Err ErrPolicyStale else
  match prepare_threads (pol_Capacity p) (pol_Cybersecurity p) capacity cybersecurity bootstrap p threads with
  | None => Err ErrPolicyUnavailable
  | Some p =>
      p ← (if bootstrap then Ok p else next ← NewID rnd; Ok (p <| pol_Revision := next |>));
      Ok (p <| pol_Capacity := capacity |> <| pol_Cybersecurity := cybersecurity |>)
  end.

(** ** Chain summaries

    The callback of [SessionPolicy.Checkpoint]; [clock] is
    [max(now.UnixMilli(), s.ClockMS)]. *)

Definition record_result (s : State) (p : Pending) (l : list Suppression) : list Suppression :=
  map (λ v, if (sup_Chain v == Chain s) && (sup_Pending v == pend_ID p)
            then v <| sup_Result := pend_ResultTurn p |> else v) l.

Definition fresh_summary (s : State) (clock : Z) (fresh : bool) : Summary :=
  let v := mkSummary (Chain s) (Class_ s) "" "" "" None "unavailable" None None "unavailable" "" "" in
  when fresh (λ v, v <| sum_ConfirmedStarts := Some 0 |> <| sum_CountQuality := "exact" |>
                     <| sum_StartedAtMS := Some clock |> <| sum_TimingQuality := "exact" |>) v.

(** Counting a confirmed start once per attempt. *)
Definition confirm_start (p : Pending) (v : Summary) : option Summary :=
  let v := v <| sum_PendingID := pend_ID p |> in
  if (pend_ResultTurn p != "") && (sum_LastConfirmed v != pend_ID p) then
    v ← (match sum_ConfirmedStarts v with
         | Some n => if maxJSONInteger <=? n then None else Some (v <| sum_ConfirmedStarts := Some (n + 1) |>)
         | None => Some (v <| sum_ConfirmedStarts := Some 1 |> <| sum_CountQuality := "partial" |>)
         end);
    Some (v <| sum_LastConfirmed := pend_ID p |>)
  else Some v.

Definition superseding : list string := ["superseded"; "manual_input"; "activated"; "queue_started"].

Definition phase_outcome (s : State) : string * string :=
  if Phase s == "cancelled" then ("terminal", if one_of (Reason s) superseding then "superseded" else "stopped")
  else if Phase s == "exhausted" then ("terminal", "exhausted")
  else if Phase s == "blocked" then ("terminal", "blocked")
  else if Phase s == "idle" then ("terminal", "success")
  else (Phase s, "").

Definition observed_outcome (p : Pending) (o : Observation) (r : string * string) : string * string :=
  if (obs_Turn o == pend_ResultTurn p) && (obs_Status o != "inProgress") && (obs_Status o != "failed")
  then ("terminal", "success")
  else if (obs_Turn o != "") && (obs_Turn o != pend_ResultTurn p) then ("terminal", "superseded") else r.

Definition summary_outcome (s : State) (observation : option Observation) : string * string :=
  let r := phase_outcome s in
  let r := match observation, State_Pending s with
           | Some o, Some p => if pend_ResultTurn p != "" then observed_outcome p o r else r
           | _, _ => r
           end in
  if Cancelled s && (r.2 == "") then ("terminal", "stopped") else r.

Definition count_gap (s : State) (v : Summary) : bool :=
  (sum_PendingID v != "") && (sum_LastConfirmed v != sum_PendingID v)
  && negb (pending_is s (λ p, pend_ID p == sum_PendingID v)) && (sum_CountQuality v == "exact").

Definition update_summary (s : State) (observation : option Observation) (clock : Z) (v : Summary) : option Summary :=
  let v := v <| sum_Class := Class_ s |> <| sum_Reason := Reason s |> in
  let v := when (count_gap s v) (λ v, v <| sum_CountQuality := "partial" |>) v in
  v ← (match State_Pending s with Some p => confirm_start p v | None => Some v end);
  let '(phase, outcome) := summary_outcome s observation in
  let v := v <| sum_Phase := phase |> <| sum_Outcome := outcome |> in
  Some (when ((phase == "terminal") && bool_decide (sum_FinishedAtMS v = None))
          (λ v, v <| sum_FinishedAtMS := Some clock |>) v).

(** No summary is started for a chain that is already over. *)
Definition starts_nothing (s : State) (fresh : bool) (e : PolicyEntry) : bool :=
  match entry_Summary e with Some v => sum_Chain v != Chain s | None => true end
  && negb fresh && ((Phase s == "idle") || (Phase s == "cancelled")) && bool_decide (State_Pending s = None).

Definition checkpoint_entry (s : State) (observation : option Observation) (clock : Z) (fresh : bool)
    (e : PolicyEntry) : option PolicyEntry :=
  let e := match State_Pending s with
           | Some p => when (pend_ResultTurn p != "")
                         (λ e, e <| entry_Suppressed ::= fmap (record_result s p) |>) e
           | None => e
           end in
  if starts_nothing s fresh e then Some e else
  let v := match entry_Summary e with
           | Some v => if sum_Chain v == Chain s then v else fresh_summary s clock fresh
           | None => fresh_summary s clock fresh
           end in
  v ← update_summary s observation clock v;
  Some (e <| entry_Summary := Some v |>).

End Prepare.

(** ** The store *)

Section Store.
Context {CW : CodexWeb} {W : Type}.
Context (io : PolicyIO W) (store : Store).

Definition call {A} (f : W → W * A) : SE W A := λ w, let '(w, a) := f w in (w, Ok a).

(** [PolicyStore.Load] *)
Definition load_policy (scope : PolicyScope) (file : option policy_file) : result Policy :=
  match file with
  | None => Err ErrNotExist
  | Some pf_damaged => Err ErrPolicyUnavailable
  | Some (pf_decoded p) => match validatePolicy scope p with Some e => Err e | None => Ok p end
  end.

Definition PolicyStore_Load (scope : PolicyScope) : SE W Policy :=
  if negb (PolicyStore_validScope store scope) then fail ErrPolicyUnavailable else
  e ← call (pio_open io);
  lift_error e;;
  file ← gets (λ w, pio_files io w !! ps_Slug scope);
  lift_result (load_policy scope file).

Definition replacePolicy (scope : PolicyScope) (p : Policy) : SE W unit :=
  let put := modify (λ w, pio_set io (<[ps_Slug scope := pf_decoded p]> (pio_files io w)) w) in
  outcome ← call (pio_replace io p);
  match outcome with
  | write_failed e => fail e
  | write_unsynced e => put;; fail e
  | write_ok => put
  end.

(** A new policy enables both classes. *)
Definition new_policy (scope : PolicyScope) (revision : string) : Policy :=
  mkPolicy PolicySchema scope revision true true (Some []).

(** [PolicyStore.Update] *)
Definition Update (scope : PolicyScope) (create : bool) (update : Policy → result Policy) : SE W Policy :=
  if negb (PolicyStore_validScope store scope) then fail ErrPolicyUnavailable else
  e ← call (pio_lock io scope);
  lift_error e;;
  r ← attempt (PolicyStore_Load scope);
  rnd ← call (pio_rand16 io);
  '(existed, p) ← (match r with
    | Ok p => mret (true, p)
    | Err e => if errors_Is e ErrNotExist && create
               then revision ← lift_result (NewID rnd); mret (false, new_policy scope revision)
               else fail e
    end : SE W (bool * Policy));
  match Policy_json p with
  | None => fail (ErrorsNew "json: error calling MarshalJSON")
  | Some before =>
      p ← lift_result (update p);
      lift_error (validatePolicy scope p);;
      match Policy_json p with
      | None => fail (ErrWrap ErrPolicyUnavailable "size bound")
      | Some data =>
          if MaxPolicyBytes <? strlen data + 1 then fail (ErrWrap ErrPolicyUnavailable "size bound") else
          if existed && (before == data) then mret p else
          e ← call (pio_context io);
          lift_error e;;
          replacePolicy scope p;;
          mret p
      end
  end.

(** ** [SessionPolicy] *)

Context (scope : PolicyScope).

Definition session_mismatch (s : State) : bool :=
  (scope_Workspace (State_Scope s) != ps_Workspace scope) || (scope_Slug (State_Scope s) != ps_Slug scope)
  || (scope_Root (State_Scope s) != ps_Root scope) || (Boundary s != ps_Incarnation scope).

(** Enrolling a thread in the policy with its admission baseline. *)
Definition enroll_thread (s : State) (p : Policy) : result Policy :=
  match Thread p (scope_Thread (State_Scope s)) with
  | Some _ => Ok p
  | None => if MaxPolicyThreads <=? slice_len (pol_Threads p) then Err ErrPolicyUnavailable
            else Ok (append_entry p (mkEntry (scope_Thread (State_Scope s)) (state_baseline s) (state_baseline s) (Some []) None))
  end.

Definition decision_of (p : Policy) (e : PolicyEntry) : Decision :=
  mkDecision (pol_Revision p) (pol_Capacity p) (pol_Cybersecurity p) (entry_Capacity e)
    (entry_Cybersecurity e) (elems (entry_Suppressed e)).

(** [SessionPolicy.Decide]; after a successful enrolment the entry exists. *)
Definition Decide (s : State) : SE W Decision :=
  if session_mismatch s then fail ErrPolicyUnavailable else
  p ← PolicyStore_Load scope;
  match Thread p (scope_Thread (State_Scope s)) with
  | Some (_, entry) => mret (decision_of p entry)
  | None =>
      if negb (Enrolled s) then fail ErrPolicyUnavailable else
      p ← Update scope false (enroll_thread s);
      match Thread p (scope_Thread (State_Scope s)) with
      | Some (_, entry) => mret (decision_of p entry)
      | None => fail (ErrorsNew "invalid memory address or nil pointer dereference")
      end
  end.

(** [SessionPolicy.Checkpoint] *)
Definition checkpoint_policy (s : State) (observation : option Observation) (clock : Z) (fresh : bool)
    (p : Policy) : result Policy :=
  match Thread p (scope_Thread (State_Scope s)) with
  | None => Err ErrPolicyUnavailable
  | Some (i, e) =>
      match checkpoint_entry s observation clock fresh e with
      | None => Err ErrPolicyUnavailable
      | Some e => Ok (set_entry p i e)
      end
  end.

Definition Policy_Checkpoint (s : State) (observation : option Observation) (now : Z) (fresh : bool) : SE W unit :=
  if session_mismatch s then fail ErrPolicyUnavailable else
  if (Chain s == "") || (Class_ s == "") then mret tt else
  Update scope false (checkpoint_policy s observation (Z.max now (ClockMS s)) fresh);;
  mret tt.

(** The authority the controller is given. *)
Definition SessionPolicy : PolicyAuthority W := mkAuthority W
  Decide
  (λ s o now fresh w, let '(w, r) := Policy_Checkpoint s o now fresh w in
                      (w, match r with Ok _ => None | Err e => Some e end)).

End Store.

Arguments Update {W} io store scope create update : simpl never.
