(* ===== verification/RetryPolicyFacts.v ===== *)
(** * Automatic retry: theorems about session policy *)

From S2P Require Import Prelude Effects GoStrings GoJson Sha256 Codex.
From S2P Require Import RetryTypes RetryValidate RetryState RetrySys RetryStore.
From S2P Require Import RetryPolicy RetryPolicyStore.

Open Scope Z_scope.

(** ** Entries of a policy *)

Lemma is_thread_iff t e : is_thread t e = true ↔ entry_Thread e = t.
Proof. apply bool_decide_eq_true. Qed.
Lemma is_thread_not t e : is_thread t e = false ↔ entry_Thread e ≠ t.
Proof. apply bool_decide_eq_false. Qed.

Lemma Thread_named p t i e : Thread p t = Some (i, e) → entry_Thread e = t.
Proof. intros [_ H]%find_index_lookup. by apply is_thread_iff. Qed.

Lemma Thread_append_new p e : Thread p (entry_Thread e) = None →
  Thread (append_entry p e) (entry_Thread e) = Some (length (elems (pol_Threads p)), e).
Proof.
  intros H. unfold Thread. simpl. rewrite find_index_app_r by exact H. simpl.
  unfold is_thread. rewrite bool_decide_eq_true_2 by done. simpl. by rewrite Nat.add_0_r.
Qed.

Lemma Thread_append_other p e t : entry_Thread e ≠ t → Thread (append_entry p e) t = Thread p t.
Proof.
  intros Hne. unfold Thread. simpl. destruct (find_index (is_thread t) (elems (pol_Threads p))) eqn:E.
  - by apply find_index_app_l.
  - rewrite find_index_app_r by done. simpl. by rewrite (proj2 (is_thread_not t e) Hne).
Qed.

Lemma elems_set p i e : elems (pol_Threads (set_entry p i e)) = <[i := e]> (elems (pol_Threads p)).
Proof. unfold set_entry. simpl. by destruct (pol_Threads p). Qed.

Lemma Thread_set_same p t i e e' :
  Thread p t = Some (i, e) → entry_Thread e' = t → Thread (set_entry p i e') t = Some (i, e').
Proof.
  intros H He. unfold Thread. rewrite elems_set. eapply find_index_insert_same; [exact H|].
  by apply is_thread_iff.
Qed.

Lemma Thread_set_other p t t' i e e' :
  Thread p t = Some (i, e) → entry_Thread e' = t → t' ≠ t → Thread (set_entry p i e') t' = Thread p t'.
Proof.
  intros H He Hne. pose proof (Thread_named _ _ _ _ H). apply find_index_lookup in H as [Hi _].
  unfold Thread. rewrite elems_set. eapply find_index_insert_other; [exact Hi|..]; apply is_thread_not; congruence.
Qed.

Section Facts.
Context {CW : CodexWeb}.

(** ** Preparing a choice *)

(** A chain recorded as stopped stays stopped whatever is enabled later. *)
Definition stopped_in (e : PolicyEntry) (s : State) : Prop :=
  ∀ d, dec_Suppressed d = elems (entry_Suppressed e) → Allows d s = false.

Lemma suppressed_stops e s v : v ∈ elems (entry_Suppressed e) → sup_Chain v = Chain s → stopped_in e s.
Proof.
  intros Hv Hc d Hd. unfold Allows. case_match; [done|]. apply negb_false_iff, existsb_exists.
  exists v. split; [rewrite Hd; by apply list_elem_of_In|]. unfold suppresses.
  by rewrite bool_decide_eq_true_2.
Qed.

Lemma suppress_chain_records s p l l' :
  suppress_chain s p l = Some l' →
  mkSuppression (Chain s) (pend_ID p) (pend_ResultTurn p) ∈ l' ∧ Z.of_nat (length l') <= Z.max 2 (Z.of_nat (length l)).
Proof.
  unfold suppress_chain. set (kept := List.filter _ l). cbv zeta.
  pose proof (filter_length_le (λ old, (sup_Chain old == Chain s) || (sup_Pending old == pend_ID p)) l) as Hle.
  fold kept in Hle. case_match eqn:E; [|case_match eqn:E']; intros [= <-].
  - rewrite length_map. split; [|lia]. apply existsb_exists in E as (x & Hx & Hc). apply list_elem_of_In, in_map_iff.
    exists x. simpl in *. by rewrite Hc.
  - rewrite length_app. simpl. split; [apply elem_of_app; right; by apply list_elem_of_singleton|lia].
Qed.

Lemma prepare_entry_thread oc oy c y b v e e' : prepare_entry oc oy c y b v e = Some e' → entry_Thread e' = entry_Thread e.
Proof.
  reveal prepare_entry. name_let s as Es. name_let bl as Eb. name_let e1 as E1. name_let e2 as E2. cbv zeta.
  assert (entry_Thread e2 = entry_Thread e) as H by (subst; split_when; done). clear Es Eb E1 E2. intros Hp.
  repeat case_match; simplify_option_eq; split_when; exact H.
Qed.

Lemma prepare_entry_stops oc oy c y b v e e' :
  prepare_entry oc oy c y b v e = Some e' → stops (pt_State v) c y = true → stopped_in e' (pt_State v).
Proof.
  reveal prepare_entry. name_let s as Es. name_let bl as Eb. name_let e1 as E1. name_let e2 as E2. cbv zeta.
  rewrite <- Es. intros Hp Hs. rewrite Hs in Hp.
  destruct (State_Pending s) as [p|] eqn:Hpe.
  - destruct (suppress_chain s p _) as [l|] eqn:Hl; simplify_option_eq.
    apply suppress_chain_records in Hl as [Hl _]. by eapply suppressed_stops.
  - unfold stops, owned_in, pending_is in Hs. by rewrite Hpe, !andb_false_r in Hs.
Qed.

Lemma prepare_thread_spec oc oy c y b p v p' :
  prepare_thread oc oy c y b p v = Some p' →
  (∃ i e, Thread p' (thread_of v) = Some (i, e) ∧ (stops (pt_State v) c y = true → stopped_in e (pt_State v))) ∧
  ∀ t, t ≠ thread_of v → Thread p' t = Thread p t.
Proof.
  unfold prepare_thread. set (q := match Thread p (thread_of v) with Some _ => _ | None => _ end).
  assert (∀ p1, q = Some p1 → ∀ t, t ≠ thread_of v → Thread p1 t = Thread p t) as Hq.
  { subst q. intros p1 Hp1 t Ht. repeat case_match; simplify_eq; [done|]. by apply Thread_append_other. }
  destruct q as [p1|]; simpl; [|done]. specialize (Hq p1 eq_refl).
  destruct (Thread p1 (thread_of v)) as [[i e]|] eqn:Ht; simpl; [|done].
  destruct (prepare_entry _ _ _ _ _ v e) as [e'|] eqn:He; simpl; [|done]. intros [= <-].
  pose proof (Thread_named _ _ _ _ Ht) as Hn. pose proof (prepare_entry_thread _ _ _ _ _ _ _ _ He) as Hn'.
  split.
  - exists i, e'. split; [eapply Thread_set_same; [done|congruence]|by eapply prepare_entry_stops].
  - intros t Hne. rewrite (Thread_set_other _ (thread_of v) t _ e) by (done || congruence). by apply Hq.
Qed.

Lemma admissible_distinct p seen threads :
  admissible p seen threads = true →
  NoDup (map thread_of threads) ∧ ∀ v, v ∈ threads → thread_of v ∉ seen.
Proof.
  revert seen. induction threads as [|v l IH]; intros seen; simpl; [split; [constructor|set_solver]|].
  rewrite !andb_true_iff, negb_true_iff, bool_decide_eq_false. intros [[_ Hv] Hl].
  apply IH in Hl as [Hnd Hl]. split.
  - apply NoDup_cons. split; [|done]. intros (u & Hu & Hin)%list_elem_of_In%in_map_iff.
    apply list_elem_of_In, Hl in Hin. rewrite Hu in Hin. set_solver.
  - intros u [->|Hu]%elem_of_cons; [done|]. apply Hl in Hu. set_solver.
Qed.

Lemma prepare_threads_spec oc oy c y b threads : ∀ p p',
  NoDup (map thread_of threads) → prepare_threads oc oy c y b p threads = Some p' →
  (∀ t, t ∉ map thread_of threads → Thread p' t = Thread p t) ∧
  ∀ v, v ∈ threads → ∃ i e, Thread p' (thread_of v) = Some (i, e) ∧
    (stops (pt_State v) c y = true → stopped_in e (pt_State v)).
Proof.
  induction threads as [|v l IH]; intros p p' Hnd; simpl.
  { intros [= <-]. split; [done|]. set_solver. }
  apply NoDup_cons in Hnd as [Hv Hnd]. destruct (prepare_thread oc oy c y b p v) as [p1|] eqn:H1; simpl; [|done].
  intros [Hk Hall]%IH; [|done]. apply prepare_thread_spec in H1 as [(i & e & Ht & Hs) Ho]. split.
  - intros t [Hne Hin]%not_elem_of_cons. rewrite Hk by done. by apply Ho.
  - intros u [->|Hu]%elem_of_cons; [|by apply Hall]. exists i, e. rewrite Hk by done. by split.
Qed.

Lemma prepare_threads_scope oc oy c y b threads : ∀ p p',
  prepare_threads oc oy c y b p threads = Some p' → pol_Scope p' = pol_Scope p.
Proof.
  induction threads as [|v l IH]; intros p p'; simpl; [by intros [= <-]|].
  destruct (prepare_thread oc oy c y b p v) as [p1|] eqn:H1; simpl; [|done]. intros ->%IH.
  unfold prepare_thread in H1. set (q := match Thread p (thread_of v) with Some _ => _ | None => _ end) in H1.
  assert (∀ x, q = Some x → pol_Scope x = pol_Scope p) as Hq by (subst q; intros x; repeat case_match; by intros [= <-]).
  destruct q as [x|]; simpl in H1; [|done]. rewrite <- (Hq x) by done.
  destruct (Thread x (thread_of v)) as [[i e]|]; simpl in H1; [|done].
  destruct (prepare_entry _ _ _ _ _ v e); simpl in H1; [|done]. by injection H1 as <-.
Qed.

Lemma admissible_each p seen threads v : admissible p seen threads = true → v ∈ threads → admissible_thread p v = true.
Proof.
  revert seen. induction threads as [|u l IH]; intros seen; simpl; [set_solver|].
  rewrite !andb_true_iff. intros [[Hu _] Hl] [->|Hv]%elem_of_cons; [done|by eapply IH].
Qed.

(** A session's choice takes effect only on the revision it was made for,
    from one complete, stable observation of distinct threads of that session; and
    then every chain that owns an attempt in a class now disabled is recorded as
    stopped, so that no later decision made from that entry lets it proceed, even
    when the class is enabled again.  The same choice made twice changes nothing. *)
Theorem prepare_policy_stops rnd p threads capacity cybersecurity revision bootstrap p' :
  PreparePolicy rnd p threads capacity cybersecurity revision bootstrap = Ok p' →
  (bootstrap = false ∧ p' = p ∧ EqualChoices p capacity cybersecurity = true) ∨
  (bootstrap = false → pol_Revision p = revision) ∧ pol_Scope p' = pol_Scope p ∧
  (∀ v, v ∈ threads → admissible_thread p v = true) ∧
  (pol_Capacity p' = true → capacity = true) ∧ (pol_Cybersecurity p' = true → cybersecurity = true) ∧
  ∀ v, v ∈ threads → ∃ i e, Thread p' (thread_of v) = Some (i, e) ∧
    (stops (pt_State v) (pol_Capacity p') (pol_Cybersecurity p') = true → stopped_in e (pt_State v)).
Proof.
  unfold PreparePolicy. case_match eqn:Hg; [done|]. apply orb_false_iff in Hg as [_ Hg%negb_false_iff].
  cbv zeta. set (off := bootstrap && _).
  case_match eqn:Hsame; [intros [= <-]|case_match eqn:Hrev; [done|]].
  { apply andb_prop in Hsame as [Hb He]. apply negb_true_iff in Hb. left. split_and!; [done|done|].
    unfold off in He. by rewrite Hb, !andb_true_r in He. }
  destruct (prepare_threads _ _ _ _ _ p threads) as [p1|] eqn:Hp; [|done].
  set (r := if bootstrap then _ else _). intros H. right.
  assert (∃ rev, p' = p1 <| pol_Revision := rev |> <| pol_Capacity := capacity && negb off |>
                        <| pol_Cybersecurity := cybersecurity && negb off |>) as [rev ->].
  { subst r. destruct bootstrap.
    - exists (pol_Revision p1). injection H as <-. by destruct p1.
    - destruct (NewID rnd) as [id|]; [|done]. exists id. by injection H as <-. }
  pose proof (prepare_threads_scope _ _ _ _ _ _ _ _ Hp) as Hsc.
  apply prepare_threads_spec in Hp as [_ Hp]; [|by eapply admissible_distinct]. split_and!.
  - intros ->. simpl in Hrev. by apply negb_false_iff, bool_decide_eq_true in Hrev.
  - exact Hsc.
  - intros v. by eapply admissible_each.
  - by intros [? _]%andb_prop.
  - by intros [? _]%andb_prop.
  - exact Hp.
Qed.

(** ** Checkpoints *)

Lemma update_summary_count s o k v v' :
  update_summary s o k v = Some v' →
  sum_Chain v' = sum_Chain v ∧
  match State_Pending s with
  | Some p =>
      sum_PendingID v' = pend_ID p ∧
      (pend_ResultTurn p ≠ "" → sum_LastConfirmed v' = pend_ID p) ∧
      sum_ConfirmedStarts v' =
        if (pend_ResultTurn p != "") && (sum_LastConfirmed v != pend_ID p)
        then Some (default 0 (sum_ConfirmedStarts v) + 1) else sum_ConfirmedStarts v
  | None => sum_ConfirmedStarts v' = sum_ConfirmedStarts v
  end.
Proof.
  reveal update_summary. name_let v1 as E1. name_let v2 as E2.
  assert (sum_Chain v2 = sum_Chain v ∧ sum_ConfirmedStarts v2 = sum_ConfirmedStarts v ∧
          sum_LastConfirmed v2 = sum_LastConfirmed v) as (Hc & Hs & Hl) by (subst; split_when; done).
  clear E1 E2. rewrite <- Hc, <- Hs, <- Hl. clear Hc Hs Hl.
  destruct (State_Pending s) as [p|]; simpl.
  2:{ destruct (summary_outcome s o) as [ph out]. intros [= <-]. split_when; done. }
  unfold confirm_start. cbv zeta. simpl.
  destruct (pend_ResultTurn p != "") eqn:Hr; simpl.
  2:{ destruct (summary_outcome s o) as [ph out]. intros [= <-].
      apply negb_false_iff, bool_decide_eq_true in Hr. split_when; split_and!; try done; by rewrite Hr. }
  destruct (sum_LastConfirmed v2 == pend_ID p) eqn:Hl; simpl.
  { apply bool_decide_eq_true in Hl. destruct (summary_outcome s o) as [ph out]. intros [= <-].
    split_when; split_and!; done. }
  destruct (summary_outcome s o) as [ph out]. destruct (sum_ConfirmedStarts v2) as [n|] eqn:Hn; simpl.
  - destruct (maxJSONInteger <=? n); simpl; [done|]. intros [= <-]. split_when; split_and!; done.
  - intros [= <-]. split_when; split_and!; done.
Qed.

Lemma checkpoint_suppressed s e :
  let f e := match State_Pending s with
             | Some p => when (pend_ResultTurn p != "")
                           (λ e, e <| entry_Suppressed ::= fmap (record_result s p) |>) e
             | None => e
             end in
  f (f e) = f e ∧ entry_Summary (f e) = entry_Summary e.
Proof.
  simpl. destruct (State_Pending s) as [p|]; [|done]. split_when; [|done]. split; [|done].
  unfold setter. simpl. f_equal. destruct (entry_Suppressed e) as [l|]; [|done]. simpl. f_equal.
  unfold record_result. rewrite map_map. apply map_ext. intros v.
  destruct ((sup_Chain v == Chain s) && (sup_Pending v == pend_ID p)) eqn:E; simpl; by rewrite E.
Qed.

(** Checkpointing the same state again counts nothing again and keeps the
    stop records: an attempt's confirmed start is counted exactly once, however
    often a lost reply or a crash repeats the checkpoint. *)
Theorem checkpoint_counts_once s o k fresh e e1 o' k' e2 :
  checkpoint_entry s o k fresh e = Some e1 → checkpoint_entry s o' k' false e1 = Some e2 →
  entry_Suppressed e2 = entry_Suppressed e1 ∧
  sum_ConfirmedStarts <$> entry_Summary e2 = sum_ConfirmedStarts <$> entry_Summary e1.
Proof.
  unfold checkpoint_entry. pose proof (checkpoint_suppressed s) as Hsup. cbv zeta in Hsup.
  set (f e := match State_Pending s with Some p => _ | None => e end) in *.
  change (match State_Pending s with Some p => _ | None => e end) with (f e).
  change (match State_Pending s with Some p => _ | None => e1 end) with (f e1).
  destruct (Hsup e) as [Hff _]. cbv zeta.
  destruct (starts_nothing s fresh (f e)) eqn:Hn.
  - intros [= <-]. rewrite Hff.
    assert (starts_nothing s false (f e) = true) as ->; [|by intros [= <-]].
    unfold starts_nothing in *. rewrite !andb_true_iff in *. by destruct Hn as [[[? _] ?] ?].
  - set (v := match entry_Summary (f e) with Some v => _ | None => _ end).
    assert (sum_Chain v = Chain s) as Hv.
    { subst v. destruct (entry_Summary (f e)) as [u|]; [case_bool_decide; [done|]|]; unfold fresh_summary; by split_when. }
    destruct (update_summary s o k v) as [v1|] eqn:H1; simpl; [|done]. intros [= <-].
    apply update_summary_count in H1 as [Hc1 H1]. rewrite Hv in Hc1.
    set (e1 := f e <| entry_Summary := Some v1 |>).
    assert (f e1 = e1) as ->.
    { transitivity (f (f e) <| entry_Summary := Some v1 |>); [|by rewrite Hff].
      subst e1 f. simpl. destruct (State_Pending s); [|done]. by split_when. }
    assert (starts_nothing s false e1 = false) as ->.
    { unfold starts_nothing, e1. simpl. by rewrite bool_decide_eq_true_2. }
    subst e1. simpl. rewrite bool_decide_eq_true_2 by done.
    destruct (update_summary s o' k' v1) as [v2|] eqn:H2; simpl; [|done]. intros [= <-]. split; [done|].
    apply update_summary_count in H2 as [_ H2]. simpl. f_equal.
    destruct (State_Pending s) as [p|]; [|done]. destruct H1 as (_ & Hl & _), H2 as (_ & _ & H2).
    rewrite H2. case_bool_decide as Hr; [done|]. by rewrite (bool_decide_eq_true_2 _ (Hl Hr)).
Qed.

End Facts.

(** ** The store *)

(** The world's policy files change by [pio_set] only. *)
Class PolicyIOLaws {W} (io : PolicyIO W) : Prop := {
  pio_get_set m w : pio_files io (pio_set io m w) = m;
  pio_lock_files s w : pio_files io (pio_lock io s w).1 = pio_files io w;
  pio_open_exists w e : (pio_open io w).2 = Some e → errors_Is e ErrNotExist = false;
  pio_open_files w : pio_files io (pio_open io w).1 = pio_files io w;
  pio_context_files w : pio_files io (pio_context io w).1 = pio_files io w;
  pio_replace_files p w : pio_files io (pio_replace io p w).1 = pio_files io w;
  pio_rand16_files w : pio_files io (pio_rand16 io w).1 = pio_files io w }.

Section StoreFacts.
Context {CW : CodexWeb} {W : Type} (io : PolicyIO W) `{HL : !PolicyIOLaws io} (store : Store).

Lemma wp_call {A} (f : W → W * A) (Q : W → result A → Prop) w :
  (∀ w, pio_files io (f w).1 = pio_files io w) →
  (∀ w' a, pio_files io w' = pio_files io w → Q w' (Ok a)) → wp (call f) Q w.
Proof. unfold wp, call. intros Hf HQ. specialize (Hf w). destruct (f w). by apply HQ. Qed.

Lemma validatePolicy_err scope p e : validatePolicy scope p = Some e → e = ErrPolicyUnavailable.
Proof. unfold validatePolicy. case_match; [done|]. by intros [= <-]. Qed.

Lemma unavailable_exists : errors_Is ErrPolicyUnavailable ErrNotExist = true → False.
Proof. discriminate. Qed.

Lemma Load_spec scope w :
  wp (PolicyStore_Load io store scope) (λ w' r, pio_files io w' = pio_files io w ∧
    match r with
    | Ok p => pio_files io w !! ps_Slug scope = Some (pf_decoded p) ∧ validatePolicy scope p = None
    | Err e => errors_Is e ErrNotExist = true → pio_files io w !! ps_Slug scope = None
    end) w.
Proof.
  unfold PolicyStore_Load. case_match; [apply wp_fail; split; [done|by intros ?%unavailable_exists]|]. apply wp_bind. unfold wp at 1, call.
  pose proof (pio_open_files w) as Hf. pose proof (pio_open_exists w) as He.
  destruct (pio_open io w) as [w1 [e|]]; simpl in *; apply wp_bind, wp_lift_error.
  { split; [done|]. intros Hn. by rewrite (He e eq_refl) in Hn. }
  apply wp_bind, wp_gets, wp_lift_result. split; [done|]. rewrite Hf. unfold load_policy.
  destruct (_ !! _) as [[p|]|]; [|by intros ?%unavailable_exists|done].
  destruct (validatePolicy scope p) eqn:Hv; [|done].
  apply validatePolicy_err in Hv as ->. by intros ?%unavailable_exists.
Qed.

Lemma replace_spec scope p w :
  wp (replacePolicy io scope p) (λ w' r,
    (is_ok r = false ∧ pio_files io w' = pio_files io w) ∨
    pio_files io w' = <[ps_Slug scope := pf_decoded p]> (pio_files io w)) w.
Proof.
  unfold replacePolicy. cbv zeta. apply wp_bind, wp_call; [apply pio_replace_files|]. intros w1 o Hw1.
  destruct o as [e|e|]; [apply wp_fail; by left|apply wp_bind, wp_modify, wp_fail|apply wp_modify];
    right; by rewrite pio_get_set, Hw1.
Qed.

(** The policy an update starts from: the valid one on file, or a new one. *)
Definition update_base (scope : PolicyScope) (create : bool) (w : W) (p : Policy) : Prop :=
  pio_files io w !! ps_Slug scope = Some (pf_decoded p) ∧ validatePolicy scope p = None
  ∨ create = true ∧ pio_files io w !! ps_Slug scope = None ∧ ∃ rev, p = new_policy scope rev.

(** An update reads, checks and replaces one session's policy atomically:
    when it succeeds, the file holds the callback's valid result (or is untouched
    when the result has the same text); when it fails, the file is as it was, or
    holds the complete new policy if only the directory sync failed.  No other
    session's file changes. *)
Theorem update_effect scope create update w :
  let w' := (Update io store scope create update w).1 in
  (∀ slug, slug ≠ ps_Slug scope → pio_files io w' !! slug = pio_files io w !! slug) ∧
  match (Update io store scope create update w).2 with
  | Ok p' => ∃ p, update_base scope create w p ∧
      update p = Ok p' ∧ validatePolicy scope p' = None ∧
      (pio_files io w' !! ps_Slug scope = Some (pf_decoded p')
       ∨ pio_files io w' = pio_files io w ∧ Policy_json p' = Policy_json p)
  | Err _ => pio_files io w' = pio_files io w
      ∨ ∃ p', pio_files io w' !! ps_Slug scope = Some (pf_decoded p') ∧ validatePolicy scope p' = None
  end.
Proof.
  cbv zeta. set (files := pio_files io w). set (slug := ps_Slug scope).
  pose (Q := λ (w' : W) (r : result Policy),
    (∀ s, s ≠ slug → pio_files io w' !! s = files !! s) ∧
    match r with
    | Ok p' => ∃ p, update_base scope create w p ∧ update p = Ok p' ∧ validatePolicy scope p' = None ∧
        (pio_files io w' !! slug = Some (pf_decoded p') ∨ pio_files io w' = files ∧ Policy_json p' = Policy_json p)
    | Err _ => pio_files io w' = files ∨
        ∃ p', pio_files io w' !! slug = Some (pf_decoded p') ∧ validatePolicy scope p' = None
    end).
  change (wp (Update io store scope create update) Q w).
  assert (∀ w' e, pio_files io w' = files → Q w' (Err e)) as Hkeep by (intros w' e H; split; [intros s _; by rewrite H|by left]).
  unfold Update. case_match; [by apply wp_fail, Hkeep|].
  apply wp_bind, wp_call; [apply pio_lock_files|]. intros w1 e Hw1. apply wp_bind, wp_lift_error.
  destruct e as [e|]; [by apply Hkeep|]. apply wp_bind, wp_attempt.
  eapply wp_mono; [apply Load_spec|]. intros w2 r [Hw2 Hr]. rewrite Hw1 in Hw2, Hr.
  apply wp_bind, wp_call; [apply pio_rand16_files|]. intros w3 rnd Hw3. rewrite Hw2 in Hw3.
  apply wp_bind. eapply (wp_mono _ (λ w' r, pio_files io w' = files ∧ match r with
      | Ok (existed, p) => update_base scope create w p ∧ (existed = true → files !! slug = Some (pf_decoded p))
      | Err _ => True end)).
  { destruct r as [p|e]; [apply wp_ret; split; [done|]; split; [by left|by intros _; apply Hr]|].
    case_match eqn:Hn; [|by apply wp_fail]. apply andb_prop in Hn as [Hn Hc].
    apply wp_bind, wp_lift_result. destruct (NewID rnd) as [rev|e']; [|done]. apply wp_ret.
    split; [done|]. split; [right; split_and!; [done|by apply Hr|by exists rev]|done]. }
  intros w4 [[existed p]|e] [Hw4 Hb]; [|by apply Hkeep]. destruct Hb as [Hb Hex].
  destruct (Policy_json p) as [before|] eqn:Hj; [|by apply wp_fail, Hkeep].
  apply wp_bind, wp_lift_result. destruct (update p) as [p'|e] eqn:Hu; [|by apply Hkeep].
  apply wp_bind, wp_lift_error. destruct (validatePolicy scope p') eqn:Hv; [by apply Hkeep|].
  destruct (Policy_json p') as [data|] eqn:Hj'; [|by apply wp_fail, Hkeep].
  destruct (MaxPolicyBytes <? strlen data + 1); [by apply wp_fail, Hkeep|].
  destruct (existed && (before == data)) eqn:Hsame.
  { apply andb_prop in Hsame as [_ Hsame]. apply bool_decide_eq_true in Hsame. subst.
    apply wp_ret. unfold Q. rewrite Hw4. split; [done|]. exists p. split_and!; try done. right. split; [done|congruence]. }
  apply wp_bind, wp_call; [apply pio_context_files|]. intros w5 e Hw5. rewrite Hw4 in Hw5.
  apply wp_bind, wp_lift_error. destruct e as [e|]; [by apply Hkeep|].
  apply wp_bind. eapply wp_mono; [apply replace_spec|]. rewrite Hw5. fold files slug.
  intros w6 r' [[Hne Hw6]|Hw6]; [destruct r'; [done|by apply Hkeep]|].
  assert ((∀ s, s ≠ slug → pio_files io w6 !! s = files !! s) ∧ pio_files io w6 !! slug = Some (pf_decoded p')) as [Ho Hs].
  { rewrite Hw6. split; [intros s Hne; by rewrite lookup_insert_ne|by rewrite lookup_insert_eq]. }
  destruct r'; [apply wp_ret|]; (split; [done|]); [exists p; split_and!; try done; by left|right; by exists p'].
Qed.
End StoreFacts.
