(* ===== verification/RetrySample.v ===== *)
(** * Automatic retry: concrete runs

    A session with one failed turn, the operations run on it, a backend and a file
    system that answer, and the theorems of the preceding files applied there. *)

From S2P Require Import Prelude Effects GoStrings GoJson GoFloat Sha256 Codex.
From S2P Require Import RetryTypes RetryValidate RetryState RetryManaged RetryMachine.
From S2P Require Import RetryQuota RetryObserve RetrySubmit RetrySys RetryStore RetryController RetryWp RetrySafety.
From S2P Require Import RetryPolicy RetryPolicyStore RetryPolicyFacts.

Open Scope Z_scope.

#[local] Existing Instance SampleCodex.

Definition sample_scope : Scope := mkScope "/w" "demo" "root" "thread" "/run/socket".
Definition sample_random : option (list Z) := Some (repeat 171 16).
Definition sample_id : string := Eval vm_compute in match NewID sample_random with Ok id => id | Err _ => "" end.

Definition sample_snapshot (turn id : string) : Snapshot :=
  let s := mkSnapshot 1 1 id turn "executed" "openai" "default" "" (mkSample "model" "high" "policy" None)
             "" true "" "socket" "" "binding" in
  s <| snap_Digest := match Snapshot_Hash s with Ok d => d | Err _ => "" end |>.
Definition sample_proof : Snapshot := Eval vm_compute in sample_snapshot "turn-1" "executed:turn-1".

(** Enrolled at [turn-0], with a proof of the turn that will fail. *)
Definition sample_state : State :=
  New sample_scope <| Enrolled := true |> <| Boundary := "incarnation" |> <| Baseline := "turn-0" |>
    <| Snapshots := Some [sample_proof] |>.
Definition sample_decision : Decision :=
  mkDecision sample_id true true (mkEnrollment "turn-0" false) (mkEnrollment "turn-0" false) [].
Definition sample_failure : Observation := mkObservation "turn-1" "failed" "serverOverloaded".
Definition sample_cyber : Observation := mkObservation "turn-1" "failed" "cyberPolicy".
Definition zero_random : float64 := F64_fin 0 0.

Definition sample_scheduled : State := Eval vm_compute in
  (Observe sample_state sample_failure 1000000 zero_random sample_decision sample_random).1.
Definition sample_submitting : State := Eval vm_compute in
  (Begin sample_scheduled 1015000 sample_decision).1.

(** ** The machine *)

Lemma observe_once_witness :
  Observe sample_scheduled sample_failure 1000001 zero_random sample_decision sample_random
  = ((Now sample_scheduled 1000001).1, None).
Proof.
  apply (observe_once sample_state sample_failure 1000000 zero_random sample_decision sample_random sample_scheduled).
  - reflexivity.
  - computed.
Defined.

Lemma uncertain_attempt_survives_witness :
  let s := (InvalidateSettings sample_submitting "turn-2").1 in
  Uncertain s = true ∧ State_Pending s = State_Pending sample_submitting ∧ Phase s = Phase sample_submitting.
Proof.
  apply (uncertain_attempt_survives sample_submitting).
  - computed.
  - apply rtc_once, uns_invalidate.
Defined.

Lemma invalidate_revokes_proofs_witness :
  let s := (InvalidateSettings sample_scheduled "").1 in
  Epoch s = Epoch sample_scheduled + 1 ∧ (∀ t, Proof_ s t = None) ∧
  State_Binding s = None ∧ State_ManagedTurn s = None ∧
  (Uncertain sample_scheduled = true → State_Pending s = State_Pending sample_scheduled ∧ Phase s = Phase sample_scheduled) ∧
  (Uncertain sample_scheduled = false → State_Pending s = None).
Proof.
  apply (invalidate_revokes_proofs sample_scheduled "").
  - split; vm_compute; congruence.
  - computed.
  - computed.
Defined.

Lemma retain_snapshot_sound_witness :
  let s' := (RetainSnapshot sample_state (sample_snapshot "turn-2" "executed:turn-2") "turn-2").1 in
  s' = sample_state <| Snapshots := Snapshots s' |> ∧ validate sample_scope s' = None.
Proof.
  destruct (retain_snapshot_sound sample_state (sample_snapshot "turn-2" "executed:turn-2") "turn-2" true 0
    (RetainSnapshot sample_state (sample_snapshot "turn-2" "executed:turn-2") "turn-2").1 None) as (H1 & H2 & _).
  - computed.
  - split; [exact H1|exact H2].
Defined.

Lemma begin_outcome_witness :
  Allows sample_decision sample_scheduled = true ∧ Phase sample_scheduled = "scheduled" ∧
  DeadlineMS sample_scheduled <= Z.max 1015000 (ClockMS sample_scheduled).
Proof.
  destruct (begin_outcome sample_scheduled 1015000 sample_decision sample_submitting) as (H1 & H2 & H3 & _).
  - computed.
  - split; [exact H1|split; [exact H2|exact H3]].
Defined.

Lemma retry_now_is_due_witness :
  ∃ s2, Begin (RetryNow sample_scheduled 1000500).1 1000500 sample_decision = (s2, None) ∧ Uncertain s2 = true.
Proof.
  apply (retry_now_is_due sample_scheduled 1000500); computed.
Defined.

Definition sample_running : State := Eval vm_compute in (Accepted sample_submitting "turn-2" 1016000).1.

Lemma accepted_settles_witness : Uncertain sample_submitting = true ∧ Uncertain sample_running = false.
Proof.
  split; [computed|].
  destruct (accepted_settles sample_submitting "turn-2" 1016000 sample_running None)
    as (p & k & _ & _ & _ & _ & H & _).
  - computed.
  - exact H.
Defined.

(** A cybersecurity attempt is reserved once. *)
Definition cyber_scheduled : State := Eval vm_compute in
  (Observe sample_state sample_cyber 1000000 zero_random sample_decision sample_random).1.
Definition cyber_submitting : State := Eval vm_compute in (Begin cyber_scheduled 1000000 sample_decision).1.

Lemma cyber_quota_window_witness :
  ∃ g, charged_in_window g 1000000 = 1%nat ∧ slice_len (Cyber cyber_submitting) <= CyberLimit.
Proof.
  set (g1 := log_charges ∅ sample_state). set (g2 := log_charges g1 cyber_scheduled).
  exists (log_charges g2 cyber_submitting). split; [computed|].
  apply (cyber_quota_window sample_scope cyber_submitting (log_charges g2 cyber_submitting) 1000000).
  apply (reach_op _ cyber_scheduled).
  - apply (reach_op _ sample_state).
    + apply (reach_op _ (New sample_scope)); [constructor|]. apply op_assign. repeat split.
    + assert (cyber_scheduled = (Observe sample_state sample_cyber 1000000 zero_random sample_decision sample_random).1)
        as -> by (computed).
      apply op_observe. split; vm_compute; congruence.
  - assert (cyber_submitting = (Begin cyber_scheduled 1000000 sample_decision).1) as -> by (computed).
    apply op_begin. split; vm_compute; congruence.
Defined.

(** ** A pass *)

(** The world is a clock; the backend saw the failure and takes the continuation. *)
#[local] Instance sample_backend : Backend Z := {|
  be_Observe _ w := (w, Ok sample_failure);
  be_Boundary _ w := (w, Ok "incarnation");
  be_AdvanceProof _ _ _ w := (w, (None, None));
  be_Prove _ s _ w := (w, (s, None));
  be_Check _ _ w := (w, None);
  be_Reconcile _ _ w := (w, Ok ("", false));
  be_Continue _ _ w := (w, Ok "turn-2");
  be_NeverSubmitted _ _ w := (w, Ok true) |}.

Definition sample_runtime : Runtime Z := {|
  rt_now w := (w + 1, w);
  rt_random w := (w, zero_random);
  rt_rand16 w := (w, sample_random);
  rt_admission _ w := (w, None);
  rt_guard w := (w, None);
  rt_read w := (w, None);
  rt_write _ w := (w, write_ok) |}.

Definition sample_authority : PolicyAuthority Z := {|
  pa_Decide _ w := (w, Ok sample_decision);
  pa_Checkpoint _ _ _ _ w := (w, None) |}.

Definition sample_store : Store := mkStore "/state" "/w".

(** The file of the scheduled attempt, past its deadline. *)
Definition sample_sys : Sys Z :=
  mkSys 1015000 {[path sample_scope := as_file sample_scheduled]} sample_scope false (New sample_scope) [].

Definition sends (tr : list event) : bool :=
  existsb (λ ev, match ev with ev_continue _ _ => true | _ => false end) tr.

Lemma step_dispatch_safe_witness :
  let tr := trace (Step sample_runtime sample_store (Some sample_authority) sample_scope sample_sys).1 in
  sends tr = true ∧ dispatch_ok tr.
Proof.
  split; [computed|].
  apply (step_dispatch_safe sample_runtime sample_store (Some sample_authority) sample_scope sample_sys).
  reflexivity.
Defined.

Lemma reconcile_only_sends_nothing_witness :
  Forall quiet (trace (ReconcileOnly sample_runtime sample_store None sample_scope sample_sys).1).
Proof.
  apply (reconcile_only_sends_nothing sample_runtime sample_store None sample_scope sample_sys). reflexivity.
Defined.

(** ** Policy *)

Definition sample_policy_scope : PolicyScope := mkPolicyScope "/w" "demo" "root" "incarnation".
Definition sample_policy : Policy := new_policy sample_policy_scope sample_id.
Definition sample_stable : Observation := mkObservation "turn-1" "failed" "".
Definition sample_threads : list PolicyThread := [mkPolicyThread sample_scheduled sample_stable sample_stable].
Definition sample_off : Policy := Eval vm_compute in
  match PreparePolicy sample_random sample_policy sample_threads false true sample_id false with
  | Ok p => p | Err _ => sample_policy end.

(** Opting out of capacity retries stops the scheduled chain. *)
Lemma prepare_policy_stops_witness :
  ∃ i e, Thread sample_off "thread" = Some (i, e) ∧ stopped_in e sample_scheduled.
Proof.
  destruct (prepare_policy_stops sample_random sample_policy sample_threads false true sample_id false sample_off)
    as [(_ & _ & H)|(_ & _ & _ & _ & _ & H)].
  - computed.
  - exfalso. vm_compute in H. discriminate H.
  - destruct (H (mkPolicyThread sample_scheduled sample_stable sample_stable)) as (i & e & Ht & Hs).
    + apply list_elem_of_here.
    + exists i, e. split; [exact Ht|]. apply Hs. computed.
Defined.

Definition sample_entry : PolicyEntry :=
  mkEntry "thread" (mkEnrollment "turn-0" false) (mkEnrollment "turn-0" false) (Some []) None.
Definition sample_counted : PolicyEntry := Eval vm_compute in
  default sample_entry (checkpoint_entry sample_running None 1016000 true sample_entry).

Lemma checkpoint_counts_once_witness :
  sum_ConfirmedStarts <$> entry_Summary sample_counted = Some (Some 1) ∧
  ∃ e, checkpoint_entry sample_running None 1017000 false sample_counted = Some e ∧
    entry_Suppressed e = entry_Suppressed sample_counted ∧
    sum_ConfirmedStarts <$> entry_Summary e = sum_ConfirmedStarts <$> entry_Summary sample_counted.
Proof.
  split; [computed|].
  exists (default sample_entry (checkpoint_entry sample_running None 1017000 false sample_counted)).
  split; [computed|].
  apply (checkpoint_counts_once sample_running None 1016000 true sample_entry sample_counted None 1017000);
    computed.
Defined.

(** A world that is just the policy files. *)
Definition sample_io : PolicyIO (gmap string policy_file) := {|
  pio_files w := w;
  pio_set m _ := m;
  pio_lock _ w := (w, None);
  pio_open w := (w, None);
  pio_context w := (w, None);
  pio_replace _ w := (w, write_ok);
  pio_rand16 w := (w, sample_random) |}.

Lemma sample_io_laws : PolicyIOLaws sample_io.
Proof. split; try done. Qed.

Lemma update_effect_witness :
  let w' := (Update sample_io sample_store sample_policy_scope true (λ p, Ok p) ∅).1 in
  w' !! "demo" = Some (pf_decoded sample_policy) ∧ ∀ slug, slug ≠ "demo" → w' !! slug = None.
Proof.
  split; [computed|].
  destruct (update_effect sample_io (HL := sample_io_laws) sample_store sample_policy_scope true (λ p, Ok p) ∅) as [H _].
  intros slug Hs. rewrite <- (lookup_empty (A := policy_file) slug). apply (H slug). exact Hs.
Defined.
