(* ===== verification/GoTime.v ===== *)
(** * Instants and their JSON text

    [time.Time] values in UTC as nanoseconds since the Unix epoch, and the
    RFC 3339 text [json.Marshal] gives them; a year outside 0..9999 is an error. *)

From S2P Require Import Prelude GoStrings GoJson.
From stdpp Require Import pretty.

Open Scope Z_scope.

Definition Time : Type := Z.

(** The Gregorian date of a day number since 1970-01-01, by eras of 400 years that
    start in March. *)
Definition civil (days : Z) : Z * Z * Z :=
  let z := days + 719468 in
  let era := z `div` 146097 in
  let doe := z - era * 146097 in
  let yoe := (doe - doe `div` 1460 + doe `div` 36524 - doe `div` 146096) `div` 365 in
  let doy := doe - (365 * yoe + yoe `div` 4 - yoe `div` 100) in
  let mp := (5 * doy + 2) `div` 153 in
  let d := doy - (153 * mp + 2) `div` 5 + 1 in
  let m := if mp <? 10 then mp + 3 else mp - 9 in
  (yoe + era * 400 + (if m <=? 2 then 1 else 0), m, d).

Fixpoint pad (n : nat) (s : string) : string :=
  match n with
  | O => s
  | S n => if (n <? String.length s)%nat then s else "0" +:+ pad n s
  end.
Definition padded (n : nat) (z : Z) : string := pad n (pretty z).

(** Trailing zeros of the fraction are dropped. *)
Fixpoint fraction (fuel : nat) (digits : nat) (ns : Z) : string :=
  match fuel with
  | O => ""
  | S fuel => if ns `mod` 10 =? 0 then fraction fuel (pred digits) (ns `div` 10) else padded digits ns
  end.
Definition fraction_text (ns : Z) : string := if ns =? 0 then "" else "." +:+ fraction 9 9 ns.

Definition rfc3339 (t : Time) : string :=
  let s := t `div` 1000000000 in
  let '(y, m, d) := civil (s `div` 86400) in
  let r := s `mod` 86400 in
  padded 4 y +:+ "-" +:+ padded 2 m +:+ "-" +:+ padded 2 d +:+ "T" +:+
  padded 2 (r `div` 3600) +:+ ":" +:+ padded 2 ((r `mod` 3600) `div` 60) +:+ ":" +:+ padded 2 (r `mod` 60) +:+
  fraction_text (t `mod` 1000000000) +:+ "Z".

Definition json_time (t : Time) : json :=
  let year := (civil ((t `div` 1000000000) `div` 86400)).1.1 in
  if (0 <=? year) && (year <=? 9999) then json_string (rfc3339 t) else None.

(** [Time.IsZero]: the first instant of the year 1. *)
Definition zero_time : Time := -62135596800 * 1000000000.
Definition IsZero (t : Time) : bool := t =? zero_time.

Example rfc3339_samples :
  map rfc3339 [0; 1709210096 * 1000000000 + 120; zero_time; 951782400 * 1000000000 - 1]
  = ["1970-01-01T00:00:00Z"; "2024-02-29T12:34:56.00000012Z"; "0001-01-01T00:00:00Z";
     "2000-02-28T23:59:59.999999999Z"].
Proof. vm_compute. reflexivity. Qed.
