(* ===== verification/GoLibrary.v ===== *)
(** * More of Go's library

    [path/filepath], the indented form of [encoding/json], and times with a zone. *)

From S2P Require Import Prelude GoStrings GoJson GoTime.
From Stdlib Require Import Ascii.

Open Scope Z_scope.

(** ** Slash-separated paths

    [filepath.Clean] and [filepath.Join] on Unix. *)

Definition is_slash (c : ascii) : bool := code c =? 47.

(** The components between slashes. *)
Fixpoint components (s : string) : list string :=
  match s with
  | EmptyString => [""]
  | String c s =>
      if is_slash c then "" :: components s
      else match components s with w :: l => String c w :: l | [] => [String c ""] end
  end.

(** The components kept so far, newest first. *)
Fixpoint resolve (rooted : bool) (kept l : list string) : list string :=
  match l with
  | [] => rev kept
  | w :: l =>
      if (w == "") || (w == ".") then resolve rooted kept l
      else if w == ".." then
        match kept with
        | top :: rest => if top == ".." then resolve rooted (w :: kept) l else resolve rooted rest l
        | [] => if rooted then resolve rooted kept l else resolve rooted [w] l
        end
      else resolve rooted (w :: kept) l
  end.

Definition Clean (path : string) : string :=
  let rooted := IsAbs path in
  let text := (if rooted then "/" else "") +:+ join "/" (resolve rooted [] (components path)) in
  if text == "" then "." else text.

Definition Join (elements : list string) : string :=
  match List.filter (λ e, e != "") elements with [] => "" | l => Clean (join "/" l) end.

Example path_samples :
  map Clean ["/a//b/./c/.."; "a/../../b"; "/.."; ""; "a/"] = ["/a/b"; "../b"; "/"; "."; "a"]
  ∧ Join ["/w/"; ""; "work"; "slug"] = "/w/work/slug".
Proof. vm_compute. split; reflexivity. Qed.

(** ** Indented JSON text

    [json.MarshalIndent] with no prefix and two spaces. *)

(** [json.Indent] with two spaces, on compact text. *)
Definition new_line (depth : nat) : string := String "010"%char (String.concat "" (repeat "  " depth)).
Fixpoint indent (in_string escaped need : bool) (depth : nat) (s : string) : string :=
  match s with
  | EmptyString => ""
  | String c s =>
      if in_string then
        String c (if escaped then indent true false false depth s
                  else if code c =? 92 then indent true true false depth s
                  else indent (negb (code c =? 34)) false false depth s)
      else
        let closing := is_char c "}"%char || is_char c "]"%char in
        let opened := need && negb closing in
        let depth := if opened then S depth else depth in
        (if opened then new_line depth else "") +:+
        (if is_char c "{"%char || is_char c "["%char then String c (indent false false true depth s)
         else if is_char c ","%char then String c (new_line depth +:+ indent false false false depth s)
         else if is_char c ":"%char then String c (String " " (indent false false false depth s))
         else if closing then
           if need then String c (indent false false false depth s)
           else new_line (pred depth) +:+ String c (indent false false false (pred depth) s)
         else String c (indent (code c =? 34) false false depth s))
  end.

Definition json_indent (j : json) : json := s ← j; Some (indent false false false 0 s).

Example json_indent_example :
  json_indent (json_struct [field "a" (json_array [json_int 1; json_int 2]); field "b" (json_array [])])
  = Some ("{" +:+ new_line 1 +:+ json_string_text "a" +:+ ": [" +:+ new_line 2 +:+ "1," +:+ new_line 2 +:+ "2" +:+ new_line 1
          +:+ "]," +:+ new_line 1 +:+ json_string_text "b" +:+ ": []" +:+ new_line 0 +:+ "}").
Proof. vm_compute. reflexivity. Qed.

(** ** Instants with their time zone

    A [time.Time] as it is stored: the instant and the offset of its zone, in
    seconds, which [json.Marshal] writes in RFC 3339 with the fraction's trailing
    zeros dropped. *)

Record Stamp := mkStamp { at_ : Time; zone : Z }.
#[export] Instance Stamp_eq_dec : EqDecision Stamp.
Proof. solve_decision. Defined.

(** The zero [time.Time]. *)
Definition no_stamp : Stamp := mkStamp zero_time 0.

Definition zone_text (offset : Z) : string :=
  let minutes := Z.abs offset `div` 60 in
  if offset =? 0 then "Z"
  else (if offset <? 0 then "-" else "+") +:+ padded 2 (minutes `div` 60) +:+ ":" +:+ padded 2 (minutes `mod` 60).

Definition stamp_text (t : Stamp) : string :=
  let local := at_ t + zone t * 1000000000 in
  let s := local `div` 1000000000 in
  let '(y, m, d) := civil (s `div` 86400) in
  let r := s `mod` 86400 in
  padded 4 y +:+ "-" +:+ padded 2 m +:+ "-" +:+ padded 2 d +:+ "T" +:+
  padded 2 (r `div` 3600) +:+ ":" +:+ padded 2 ((r `mod` 3600) `div` 60) +:+ ":" +:+ padded 2 (r `mod` 60) +:+
  fraction_text (local `mod` 1000000000) +:+ zone_text (zone t).

(** [Time.MarshalJSON] refuses a year or an offset RFC 3339 cannot write. *)
Definition json_stamp (t : Stamp) : json :=
  let year := (civil (((at_ t + zone t * 1000000000) `div` 1000000000) `div` 86400)).1.1 in
  if (0 <=? year) && (year <=? 9999) && (Z.abs (zone t) <? 24 * 3600) then json_string (stamp_text t) else None.

(** [Time.Sub], which saturates. *)
Definition max_duration : Z := 2^63 - 1.
Definition Sub (t u : Stamp) : Z := Z.max (- 2^63) (Z.min max_duration (at_ t - at_ u)).

Example stamp_samples :
  map stamp_text [no_stamp; mkStamp (1709210096 * 1000000000 + 120) 3600; mkStamp 0 (-12600)]
  = ["0001-01-01T00:00:00Z"; "2024-02-29T13:34:56.00000012+01:00"; "1969-12-31T20:30:00-03:30"].
Proof. vm_compute. reflexivity. Qed.
