(* ===== verification/CommunicationOps.v ===== *)
(** * Session communication: operations

    [communication/store.go] and [service.go]: the locked registry, requests,
    expiry and delivery, for every transport, resolver and file system. *)

From S2P Require Import Prelude Effects GoStrings GoJson GoTime Codex RetrySys Communication.
From Stdlib Require Import Ascii.

Open Scope Z_scope.

Section Types.
Context {CW : CodexWeb}.

Inductive registry_file :=
  | reg_decoded (st : registry)
  | reg_damaged (e : error).

Inductive comm_event :=
  | cev_lock (slug : string)
  | cev_unlock (slug : string)
  | cev_save (st : registry) (outcome : write_outcome)
  | cev_reconcile (m : Message) (r : result (SendReceipt * bool))
  | cev_send (m : Message) (r : result SendReceipt).

Context {W : Type}.

(** The world, the registry file, the state of the open locked section, and the
    trace of effects, oldest first. *)
Record CommSys := mkCommSys {
  cs_world : W;
  cs_file : option registry_file;
  cs_st : registry;
  cs_trace : list comm_event }.
#[export] Instance eta_CommSys : Eta CommSys := λ σ,
  mkCommSys (cs_world σ) (cs_file σ) (cs_st σ) (cs_trace σ).

End Types.

Arguments CommSys {CW} W.

(** What the operating system and the rest of the portal answer: opening the lock
    file and taking its lock (with the context), opening the state file, replacing
    it, the clock, randomness, the session locks and the resolver of identities. *)
Record CommRuntime {CW : CodexWeb} (W : Type) := mkCommRuntime {
  cr_open_lock : bool → W → W * option error;
  cr_flock : bool → W → W * option error;
  cr_open : W → W * option error;
  cr_replace : registry → W → W * write_outcome;
  cr_now : W → W * Time;
  cr_rand16 : W → W * list Z;
  cr_Lock : string → W → W * option error;
  cr_Resolve : string → W → W * result Identity }.
Arguments cr_open_lock {CW W} _ _ _. Arguments cr_flock {CW W} _ _ _. Arguments cr_open {CW W} _ _.
Arguments cr_replace {CW W} _ _ _. Arguments cr_now {CW W} _ _. Arguments cr_rand16 {CW W} _ _.
Arguments cr_Lock {CW W} _ _ _. Arguments cr_Resolve {CW W} _ _ _.

(** [Transport] *)
Class Transport {CW : CodexWeb} (W : Type) := {
  tr_Ready : Identity → W → W * result string;
  tr_Prepare : Identity → W → W * result TurnOptions;
  tr_Send : Message → W → W * result SendReceipt;
  tr_Reconcile : Message → W → W * result (SendReceipt * bool) }.

Section Ops.
Context {CW : CodexWeb} {W : Type} `{TR : !Transport W}.
Context (rt : CommRuntime W) (workspace : string).

Abbreviation Comm := (SE (CommSys W)).

Definition cask {A} (f : W → W * A) : Comm A :=
  λ σ, let '(w, a) := f (cs_world σ) in (σ <| cs_world := w |>, Ok a).
Definition cemit (ev : comm_event) : Comm unit := modify (λ σ, σ <| cs_trace ::= λ tr, tr ++ [ev] |>).
Definition put (f : registry → registry) : Comm unit := modify (λ σ, σ <| cs_st ::= f |>).

(** ** [Store] *)

(** [Store.read] *)
Definition read_file (file : option registry_file) : result registry :=
  match file with
  | None => Ok (mkRegistry 1 workspace (Some []) (Some []))
  | Some (reg_damaged e) => Err e
  | Some (reg_decoded st) =>
      if (st_Schema st != 1) || (st_Workspace st != workspace)
      then Err (ErrorsNew "unsupported communication state")
      else match registry_validate st with Some e => Err e | None => Ok st end
  end.

Definition read : Comm registry :=
  e ← cask (cr_open rt);
  lift_error e;;
  file ← gets cs_file;
  lift_result (read_file file).

(** [Store.locked]; without a lock file a reader runs on an empty registry. *)
Definition locked {A} (write : bool) (run : Comm A) : Comm A :=
  e ← cask (cr_open_lock rt write);
  match e with
  | Some e =>
      if errors_Is e ErrNotExist && negb write
      then put (λ _, mkRegistry 1 workspace None None);; run
      else fail e
  | None =>
      e ← cask (cr_flock rt write);
      lift_error e;;
      st ← read;
      put (λ _, st);;
      run
  end.

(** [Store.save] *)
Definition save : Comm unit :=
  st ← gets cs_st;
  match registry_json st with
  | None => fail (ErrorsNew "json: error calling MarshalJSON")
  | Some data =>
      if maxStateBytes <? strlen data
      then fail (ErrorsNew "communication history is full; no message was submitted") else
      outcome ← cask (cr_replace rt st);
      cemit (cev_save st outcome);;
      match outcome with
      | write_failed e => fail e
      | write_unsynced e => modify (λ σ, σ <| cs_file := Some (reg_decoded st) |>);; fail e
      | write_ok => modify (λ σ, σ <| cs_file := Some (reg_decoded st) |>)
      end
  end.

(** [Store.admit] *)
Definition admit_full : error := ErrorsNew "communication history is full; capacity is reserved for delivery and revocation".
Definition store_admit : Comm unit :=
  st ← gets cs_st;
  match registry_json st with
  | None => fail (ErrorsNew "json: error calling MarshalJSON")
  | Some data => if maxStateBytes <? budget st data then fail admit_full else save
  end.

(** ** [Service] *)

(** [Service.lockSessions]: sorted, distinct slugs; on a failure the locks taken
    are released in reverse.  The result is the list to release at the end. *)
Definition unlock_all (held : list string) : Comm unit :=
  modify (λ σ, σ <| cs_trace ::= λ tr, tr ++ map cev_unlock (rev held) |>).

Fixpoint lock_each (held slugs : list string) : Comm (list string) :=
  match slugs with
  | [] => mret held
  | slug :: slugs =>
      if negb (ValidSlug slug) then unlock_all held;; fail (ErrorsNew "invalid session slug") else
      e ← cask (cr_Lock rt slug);
      match e with
      | Some e => unlock_all held;; fail e
      | None => cemit (cev_lock slug);; lock_each (held ++ [slug]) slugs
      end
  end.
Definition lockSessions (slugs : list string) : Comm (list string) :=
  lock_each [] (compact (sort_slugs slugs)).

(** [defer unlock()] around the rest of a function. *)
Definition with_sessions {A} (slugs : list string) (body : Comm A) : Comm A :=
  held ← lockSessions slugs;
  r ← attempt body;
  unlock_all held;;
  lift_result r.

(** [Service.Read] *)
Definition Read (caller : Identity) : Comm View :=
  locked false (
    st ← gets cs_st;
    mret (mkView
      (List.filter (λ g, (gr_A g == caller) || (gr_B g == caller)) (elems (st_Grants st)))
      (map (λ m, m <| msg_Options := None |> <| msg_Envelope := "" |>)
         (List.filter (λ m, (msg_From m == caller) || (msg_To m == caller)) (elems (st_Messages st)))))).

(** The current grant of a pair. *)
Definition grants_pair (caller peer : Identity) (g : Grant) : bool :=
  bool_decide (gr_RevokedAt g = None)
  && ((gr_A g == caller) && (gr_B g == peer) || (gr_B g == caller) && (gr_A g == peer)).
Definition current_grant (caller peer : Identity) (st : registry) : option (nat * Grant) :=
  find_index (grants_pair caller peer) (elems (st_Grants st)).

(** The callback of [Service.Run] under the registry lock. *)
Definition run_allow (caller peer : Identity) (req : Request) : Comm unit :=
  st ← gets cs_st;
  match current_grant caller peer st with
  | Some _ => mret tt
  | None =>
      b ← cask (cr_rand16 rt);
      now ← cask (cr_now rt);
      put (λ st, st <| st_Grants ::= λ l, go_append l
        (mkGrant (hex_encode b) caller peer (id_Slug caller) (TrimSpace (req_Approval req)) now None "") |>);;
      store_admit
  end.

Definition run_revoke (caller peer : Identity) : Comm unit :=
  st ← gets cs_st;
  match current_grant caller peer st with
  | Some (i, g) => now ← cask (cr_now rt); put (λ st, revoke st i g "Revoked by user" now)
  | None => mret tt
  end;;
  save.

Definition same_request (caller peer : Identity) (req : Request) (m : Message) : bool :=
  (msg_From m == caller) && (msg_To m == peer) && (msg_Text m == req_Message req) && (msg_ReplyTo m == req_ReplyTo req).

Definition run_send (caller peer : Identity) (req : Request) : Comm unit :=
  st ← gets cs_st;
  match find_index (λ m, msg_ID m == req_MessageID req) (elems (st_Messages st)) with
  | Some (_, m) =>
      if negb (same_request caller peer req m)
      then fail (ErrorsNew "message ID was already used with different content") else mret tt
  | None =>
      match current_grant caller peer st with
      | None => fail (ErrorsNew "user approval is required for this session pair")
      | Some (_, grant) =>
          if (req_ReplyTo req != "") &&
             negb (existsb (λ m, (msg_ID m == req_ReplyTo req) && (msg_GrantID m == gr_ID grant)) (elems (st_Messages st)))
          then fail (ErrorsNew "reply reference is outside this approved exchange") else
          now ← cask (cr_now rt);
          put (λ st, st <| st_Messages ::= λ l, go_append l
            (mkMessage (req_MessageID req) (gr_ID grant) caller peer (req_Message req) (req_ReplyTo req) now
               "pending" "" (envelope caller peer (req_MessageID req) (req_Message req)) None None) |>);;
          store_admit
      end
  end.

(** The checks of [Service.Run] before it takes any lock. *)
Definition is_action (req : Request) (l : list string) : bool := existsb (λ a, req_Action req == a) l.
Definition check_request (caller : Identity) (req : Request) : option error :=
  if negb (is_action req ["allow"; "revoke"; "send"; "reply"]) then Some (ErrorsNew "unknown communication operation")
  else if req_Peer req == id_Slug caller then Some (ErrorsNew "choose another session")
  else if is_action req ["allow"] &&
          ((TrimSpace (req_Approval req) == "") || (4096 <? strlen (req_Approval req)) || negb (utf8_valid (req_Approval req)))
  then Some (ErrorsNew "explicit user approval and its source are required")
  else if is_action req ["send"; "reply"] then
    if negb (messageIDPattern (req_MessageID req)) || (TrimSpace (req_Message req) == "")
       || (MaxMessageBytes <? strlen (req_Message req)) || negb (utf8_valid (req_Message req))
       || contains_char (λ c, code c =? 0) (req_Message req)
    then Some (ErrorsNew "provide a stable message ID and nonempty text within the message limit")
    else if is_action req ["reply"] && (req_ReplyTo req == "")
    then Some (ErrorsNew "reply requires a message reference") else None
  else None.

(** [Service.Run] *)
Definition Run (caller : Identity) (req : Request) : Comm View :=
  if is_action req ["list"; "history"] then Read caller else
  lift_error (check_request caller req);;
  with_sessions [id_Slug caller; req_Peer req] (
    current ← cask (cr_Resolve rt (id_Slug caller));
    match current with
    | Err _ => fail (ErrorsNew "calling session identity changed")
    | Ok current =>
        if current != caller then fail (ErrorsNew "calling session identity changed") else
        peer ← cask (cr_Resolve rt (req_Peer req));
        peer ← lift_result peer;
        locked true (
          if is_action req ["allow"] then run_allow caller peer req
          else if is_action req ["revoke"] then run_revoke caller peer
          else run_send caller peer req);;
        Read caller
    end).

(** [Service.Expire] *)
Definition expires (slug : string) (g : Grant) : bool :=
  bool_decide (gr_RevokedAt g = None) && ((id_Slug (gr_A g) == slug) || (id_Slug (gr_B g) == slug)).

Fixpoint expire_from (slug : string) (i n : nat) : Comm unit :=
  match n with
  | O => mret tt
  | S n =>
      st ← gets cs_st;
      (match elems (st_Grants st) !! i with
       | Some g => if expires slug g
                   then now ← cask (cr_now rt); put (λ st, revoke st i g "Session archived or deleted" now)
                   else mret tt
       | None => mret tt
       end : Comm unit);;
      expire_from slug (S i) n
  end.
Definition Expire (slug : string) : Comm unit :=
  locked true (st ← gets cs_st; expire_from slug 0 (length (elems (st_Grants st)));; save).

(** [Service.Pending] *)
Definition Pending_ : Comm (list Message) :=
  locked false (st ← gets cs_st;
    mret (List.filter (λ m, (msg_Status m == "pending") || (msg_Status m == "held") || (msg_Status m == "submitting"))
            (elems (st_Messages st)))).

(** ** [Service.Dispatch] *)

Definition message_at (id : string) (st : registry) : option (nat * Message) :=
  find_index (λ m, msg_ID m == id) (elems (st_Messages st)).

(** Assigning through the pointer to the message and saving. *)
Definition settle_message (i : nat) (m : Message) : Comm unit := put (λ st, set_message st i m);; save.

Definition hold (i : nat) (m : Message) (reason : string) : Comm unit :=
  settle_message i (m <| msg_Status := "held" |> <| msg_Detail := reason |>).

Definition unconfirmed : string := "Delivery is unconfirmed; reconciliation will retry".

Definition is_allowed (grant : option Grant) (m : Message) (from to : result Identity) : bool :=
  match grant, from, to with
  | Some g, Ok from, Ok to =>
      bool_decide (gr_RevokedAt g = None)
      && ((gr_A g == msg_From m) && (gr_B g == msg_To m) || (gr_B g == msg_From m) && (gr_A g == msg_To m))
      && (from == msg_From m) && (to == msg_To m)
  | _, _, _ => false
  end.

(** Submitting: the state is saved before the message is sent, and after. *)
Definition submit (i : nat) (m : Message) : Comm unit :=
  let m := m <| msg_Status := "submitting" |> <| msg_Detail := "" |> in
  settle_message i m;;
  r ← cask (tr_Send m);
  cemit (cev_send m r);;
  settle_message i (match r with
                    | Ok receipt => confirmDelivery m receipt
                    | Err _ => m <| msg_Detail := unconfirmed |>
                    end).

(** The options are prepared and saved once; [None] after a hold. *)
Definition prepare (i : nat) (m : Message) (grant : Grant) : Comm (option Message) :=
  match msg_Options m with
  | Some _ => mret (Some m)
  | None =>
      options ← cask (tr_Prepare (msg_To m));
      match (options ← options; withAuthorizationContext options grant m) with
      | Err _ => hold i m "Recipient settings are unavailable";; mret None
      | Ok options =>
          if match marshal_TurnOptions options with None => true | Some t => maxOptionsBytes <? strlen t end
          then hold i m "Recipient settings exceed the delivery limit";; mret None
          else mret (Some (m <| msg_Options := Some options |>))
      end
  end.

Definition deliver (i : nat) (m : Message) (grant : Grant) : Comm unit :=
  ready ← cask (tr_Ready (msg_To m));
  let reason := match ready with Ok reason => reason | Err _ => "Recipient status is unavailable" end in
  if reason != "" then hold i m reason else
  m ← prepare i m grant;
  match m with Some m => submit i m | None => mret tt end.

(** The message after the reconciliation of a possible submission: [None] when it
    is settled for now. *)
Definition reconcile_message (i : nat) (m : Message) : Comm bool :=
  if msg_Status m == "submitting" then
    r ← cask (tr_Reconcile m);
    cemit (cev_reconcile m r);;
    match r with
    | Ok (receipt, true) => settle_message i (confirmDelivery m receipt);; mret true
    | Ok (_, false) => mret false
    | Err _ => settle_message i (m <| msg_Detail := unconfirmed |>);; mret true
    end
  else mret false.

Definition dispatch_locked (id : string) : Comm unit :=
  st ← gets cs_st;
  match message_at id st with
  | None => fail (ErrorsNew "message disappeared")
  | Some (i, m) =>
      if negb (live m) then mret tt else
      let grant := snd <$> find_index (λ g, gr_ID g == msg_GrantID m) (elems (st_Grants st)) in
      from ← cask (cr_Resolve rt (id_Slug (msg_From m)));
      to ← cask (cr_Resolve rt (id_Slug (msg_To m)));
      settled ← reconcile_message i m;
      if (settled : bool) then mret tt else
      match grant with
      | Some g =>
          if is_allowed (Some g) m from to then deliver i m g
          else settle_message i (m <| msg_Status := "canceled" |>
                                   <| msg_Detail := "Approval or session identity is no longer valid" |>)
      | None => settle_message i (m <| msg_Status := "canceled" |>
                                    <| msg_Detail := "Approval or session identity is no longer valid" |>)
      end
  end.

Definition Dispatch (id : string) : Comm unit :=
  original ← locked false (st ← gets cs_st;
    match message_at id st with
    | Some (_, m) => mret m
    | None => fail (ErrorsNew "message does not exist")
    end);
  with_sessions [id_Slug (msg_From original); id_Slug (msg_To original)] (locked true (dispatch_locked id)).

End Ops.

Arguments is_allowed {CW} grant m from to : simpl never.
