(* ===== verification/CommunicationHistory.v ===== *)
(** * Session communication: the registry's history

    What any operation may do to the registry: records are never removed or
    rewritten, revocations and final deliveries are final, and a message's prepared
    options are fixed. *)

From S2P Require Import Prelude Effects GoStrings GoJson GoTime Codex RetrySys Communication CommunicationOps.

Open Scope Z_scope.

Section History.
Context {CW : CodexWeb} {W : Type} `{TR : !Transport W}.
Context (rt : CommRuntime W) (workspace : string).
Implicit Types σ : CommSys W.

(** ** Evolution *)

Record message_evolves (m m' : Message) : Prop := {
  me_identity : (msg_ID m', msg_GrantID m', msg_From m', msg_To m') = (msg_ID m, msg_GrantID m, msg_From m, msg_To m);
  me_content : (msg_Text m', msg_ReplyTo m', msg_CreatedAt m', msg_Envelope m')
             = (msg_Text m, msg_ReplyTo m, msg_CreatedAt m, msg_Envelope m);
  me_options : msg_Options m = None ∨ msg_Options m' = msg_Options m;
  me_final : live m = false → m' = m }.

Record grant_evolves (g g' : Grant) : Prop := {
  ge_identity : (gr_ID g', gr_A g', gr_B g') = (gr_ID g, gr_A g, gr_B g);
  ge_approval : (gr_ApprovedBy g', gr_Approval g', gr_CreatedAt g') = (gr_ApprovedBy g, gr_Approval g, gr_CreatedAt g);
  ge_final : gr_RevokedAt g ≠ None → g' = g }.

(** A list whose elements evolve in place, with new ones appended. *)
Definition extends {A} (R : A → A → Prop) (l l' : list A) : Prop :=
  ∃ l1 l2, l' = l1 ++ l2 ∧ Forall2 R l l1.

Record registry_evolves (st st' : registry) : Prop := {
  re_grants : extends grant_evolves (elems (st_Grants st)) (elems (st_Grants st'));
  re_messages : extends message_evolves (elems (st_Messages st)) (elems (st_Messages st')) }.

Lemma message_evolves_refl m : message_evolves m m.
Proof. split; auto. Qed.
Lemma message_evolves_trans m1 m2 m3 : message_evolves m1 m2 → message_evolves m2 m3 → message_evolves m1 m3.
Proof.
  intros [Hi1 Hc1 Ho1 Hf1] [Hi2 Hc2 Ho2 Hf2]. split; [congruence|congruence| |].
  - destruct Ho1 as [?|Ho1]; [by left|]. destruct Ho2 as [?|Ho2]; [left|right]; congruence.
  - intros Hl. pose proof (Hf1 Hl). subst. by apply Hf2.
Qed.
Lemma grant_evolves_refl g : grant_evolves g g.
Proof. split; auto. Qed.
Lemma grant_evolves_trans g1 g2 g3 : grant_evolves g1 g2 → grant_evolves g2 g3 → grant_evolves g1 g3.
Proof.
  intros [Hi1 Ha1 Hf1] [Hi2 Ha2 Hf2]. split; [congruence|congruence|].
  intros Hr. pose proof (Hf1 Hr). subst. by apply Hf2.
Qed.

Lemma extends_refl {A} (R : A → A → Prop) l : (∀ x, R x x) → extends R l l.
Proof. intros HR. exists l, []. rewrite app_nil_r. split; [done|]. induction l; auto. Qed.
Lemma extends_trans {A} (R : A → A → Prop) l1 l2 l3 :
  (∀ x y z, R x y → R y z → R x z) → extends R l1 l2 → extends R l2 l3 → extends R l1 l3.
Proof.
  intros HR (a & b & -> & H1) (c & d & -> & H2). apply Forall2_app_inv_l in H2 as (c1 & c2 & H2 & _ & ->).
  exists c1, (c2 ++ d). split; [by rewrite app_assoc|]. revert H2. clear -HR H1. revert c1.
  induction H1 as [|x y l l' Hxy _ IH]; intros c1 H2; inversion H2; subst; constructor; eauto.
Qed.
Lemma extends_app {A} (R : A → A → Prop) l k : (∀ x, R x x) → extends R l (l ++ k).
Proof. intros HR. exists l, k. split; [done|]. induction l; auto. Qed.
Lemma extends_map {A} (R : A → A → Prop) (f : A → A) l : (∀ x, R x (f x)) → extends R l (map f l).
Proof. intros HR. exists (map f l), []. rewrite app_nil_r. split; [done|]. induction l; simpl; auto. Qed.
Lemma extends_insert {A} (R : A → A → Prop) l i x y :
  (∀ x, R x x) → l !! i = Some x → R x y → extends R l (<[i := y]> l).
Proof.
  intros Hr Hi HR. exists (<[i := y]> l), []. rewrite app_nil_r. split; [done|].
  revert i Hi. induction l as [|z l IH]; intros [|i]; simpl; try done.
  - intros [= ->]. constructor; [done|]. clear -Hr. induction l; auto.
  - intros Hi. constructor; auto.
Qed.

Lemma registry_evolves_refl st : registry_evolves st st.
Proof. split; apply extends_refl; auto using message_evolves_refl, grant_evolves_refl. Qed.
Lemma registry_evolves_trans st1 st2 st3 :
  registry_evolves st1 st2 → registry_evolves st2 st3 → registry_evolves st1 st3.
Proof.
  intros [Hg1 Hm1] [Hg2 Hm2]. split; [eapply extends_trans; eauto using grant_evolves_trans
    |eapply extends_trans; eauto using message_evolves_trans].
Qed.

Lemma elems_fmap {A} (f : list A → list A) (s : slice A) : f [] = [] → elems (f <$> s) = f (elems s).
Proof. by destruct s. Qed.

Lemma revoke_evolves st i g reason now :
  elems (st_Grants st) !! i = Some g → gr_RevokedAt g = None → registry_evolves st (revoke st i g reason now).
Proof.
  intros Hi Hr. unfold revoke. split; simpl; rewrite elems_fmap by done.
  - eapply extends_insert; [apply grant_evolves_refl|exact Hi|]. by split.
  - apply extends_map. intros m. unfold cancel_message. case_match eqn:E; [|apply message_evolves_refl].
    split; auto. unfold live. intros Hl. apply negb_false_iff in Hl.
    apply andb_prop in E as [_ E]. apply orb_prop in E as [E|E], Hl as [Hl|Hl];
      apply bool_decide_eq_true in E, Hl; rewrite E in Hl; discriminate Hl.
Qed.

Lemma set_message_evolves st i m m' :
  elems (st_Messages st) !! i = Some m → message_evolves m m' → registry_evolves st (set_message st i m').
Proof.
  intros Hi Hm. unfold set_message. split; simpl; [apply extends_refl, grant_evolves_refl|].
  rewrite elems_fmap by done. eapply extends_insert; eauto using message_evolves_refl.
Qed.

Lemma append_grant_evolves st g : registry_evolves st (st <| st_Grants ::= λ l, go_append l g |>).
Proof. split; simpl; [apply extends_app, grant_evolves_refl|apply extends_refl, message_evolves_refl]. Qed.
Lemma append_message_evolves st m : registry_evolves st (st <| st_Messages ::= λ l, go_append l m |>).
Proof. split; simpl; [apply extends_refl, grant_evolves_refl|apply extends_app, message_evolves_refl]. Qed.

(** ** Locked sections *)

(** In a section the registry in memory evolves, and what is saved lies between. *)
Definition section σ σ' : Prop :=
  registry_evolves (cs_st σ) (cs_st σ') ∧
  (cs_file σ' = cs_file σ ∨ ∃ st, cs_file σ' = Some (reg_decoded st) ∧ registry_evolves (cs_st σ) st).

#[export] Instance section_preorder : PreOrder section.
Proof.
  split.
  - intros σ. split; [apply registry_evolves_refl|by left].
  - intros σ1 σ2 σ3 [H1 F1] [H2 F2]. split; [by eapply registry_evolves_trans|].
    destruct F2 as [->|(st & -> & H)]; [done|]. right. exists st. split; [done|by eapply registry_evolves_trans].
Qed.

Lemma section_cask {A} (f : W → W * A) : rel_steps section (cask f).
Proof. intros σ. unfold cask. destruct (f (cs_world σ)). split; [apply registry_evolves_refl|by left]. Qed.
Lemma section_cemit ev : rel_steps section (cemit ev : SE (CommSys W) unit).
Proof. intros σ. split; [apply registry_evolves_refl|by left]. Qed.
#[local] Hint Resolve section_cask section_cemit : proc.

Lemma section_save : rel_steps section (save rt).
Proof.
  intros σ. change (wp (save rt) (λ σ' _, section σ σ') σ). unfold save.
  assert (∀ w tr, section σ (σ <| cs_world := w |> <| cs_trace := tr |>)) as Hkeep
    by (split; [apply registry_evolves_refl|by left]).
  assert (∀ w tr, section σ (σ <| cs_world := w |> <| cs_trace := tr |> <| cs_file := Some (reg_decoded (cs_st σ)) |>)) as Hput
    by (split; [apply registry_evolves_refl|right; eauto using registry_evolves_refl]).
  apply wp_bind, wp_gets. case_match; [|apply wp_fail; reflexivity]. case_match; [apply wp_fail; reflexivity|].
  apply wp_bind. unfold wp at 1, cask. destruct (cr_replace rt (cs_st σ) (cs_world σ)) as [w o]. simpl.
  apply wp_bind, wp_modify. destruct o; [apply wp_fail, Hkeep|apply wp_bind, wp_modify, wp_fail, Hput|apply wp_modify, Hput].
Qed.
#[local] Hint Resolve section_save : proc.
Lemma section_admit : rel_steps section (store_admit rt).
Proof. unfold store_admit. procs. Qed.
#[local] Hint Resolve section_admit : proc.

(** An update of the registry in memory, then the rest of the section. *)
Lemma section_put {A} f (m : SE (CommSys W) A) σ :
  registry_evolves (cs_st σ) (f (cs_st σ)) → rel_steps section m →
  wp (put f;; m) (λ σ' _, section σ σ') σ.
Proof.
  intros Hf Hm. apply wp_bind, wp_modify. unfold wp. etrans; [|apply Hm]. split; [exact Hf|by left].
Qed.

(** The world changes, the registry does not. *)
Lemma wp_cask {A} (f : W → W * A) (Q : CommSys W → result A → Prop) σ :
  (∀ w a, Q (σ <| cs_world := w |>) (Ok a)) → wp (cask f) Q σ.
Proof. unfold wp, cask. intros H. destruct (f (cs_world σ)). apply H. Qed.

Lemma section_world σ w (Q : CommSys W → Prop) : section σ (σ <| cs_world := w |>).
Proof. split; [apply registry_evolves_refl|by left]. Qed.

Lemma section_allow caller peer req σ : wp (run_allow rt caller peer req) (λ σ' _, section σ σ') σ.
Proof.
  unfold run_allow. apply wp_bind, wp_gets. case_match; [apply wp_ret; reflexivity|].
  apply wp_bind, wp_cask. intros w b. apply wp_bind, wp_cask. intros w' now.
  eapply wp_mono; [apply section_put; [apply append_grant_evolves|procs]|]. intros σ' r [Hs F]. by split.
Qed.

Lemma grants_pair_current caller peer st i g :
  current_grant caller peer st = Some (i, g) → elems (st_Grants st) !! i = Some g ∧ gr_RevokedAt g = None.
Proof.
  intros [Hi Hg]%find_index_lookup. split; [done|]. apply andb_prop in Hg as [Hg _].
  by apply bool_decide_eq_true in Hg.
Qed.

Lemma section_revoke caller peer σ : wp (run_revoke rt caller peer) (λ σ' _, section σ σ') σ.
Proof.
  unfold run_revoke. apply wp_bind, wp_gets, wp_bind.
  destruct (current_grant caller peer (cs_st σ)) as [[i g]|] eqn:Hg.
  - apply grants_pair_current in Hg as [Hi Hr]. apply wp_bind, wp_cask. intros w now. apply wp_modify.
    unfold wp. etrans; [|apply section_save]. split; [by apply revoke_evolves|by left].
  - apply wp_ret. apply section_save.
Qed.

Lemma section_send caller peer req σ : wp (run_send rt caller peer req) (λ σ' _, section σ σ') σ.
Proof.
  unfold run_send. apply wp_bind, wp_gets. case_match; [case_match; case_match; [apply wp_fail|apply wp_ret]; reflexivity|].
  case_match; [|apply wp_fail; reflexivity]. case_match. case_match; [apply wp_fail; reflexivity|].
  apply wp_bind, wp_cask. intros w now.
  eapply wp_mono; [apply section_put; [apply append_message_evolves|procs]|]. intros σ' r [Hs F]. by split.
Qed.

Lemma section_expire slug n : ∀ i σ, wp (expire_from rt slug i n) (λ σ' _, section σ σ') σ.
Proof.
  induction n as [|n IH]; intros i σ; cbn [expire_from]; [apply wp_ret; reflexivity|].
  apply wp_bind, wp_gets, wp_bind.
  destruct (elems (st_Grants (cs_st σ)) !! i) as [g|] eqn:Hi; [|apply wp_ret, IH].
  case_match eqn:He; [|apply wp_ret, IH]. apply andb_prop in He as [He _]. apply bool_decide_eq_true in He.
  apply wp_bind, wp_cask. intros w now. apply wp_modify. eapply wp_mono; [apply IH|].
  intros σ' r Hs. etrans; [|exact Hs]. split; [by apply revoke_evolves|by left].
Qed.

(** ** Delivery *)

Definition silent (ev : comm_event) : Prop := match ev with cev_send _ _ => False | _ => True end.

(** The trace is only extended, with events in [P]. *)
Definition emits (P : comm_event → Prop) σ σ' : Prop := ∃ tr, cs_trace σ' = cs_trace σ ++ tr ∧ Forall P tr.

#[export] Instance emits_preorder P : PreOrder (emits P).
Proof.
  split.
  - intros σ. exists []. by rewrite app_nil_r.
  - intros σ1 σ2 σ3 (t1 & H1 & F1) (t2 & H2 & F2). exists (t1 ++ t2).
    rewrite H2, H1, app_assoc. split; [done|by apply Forall_app].
Qed.

Lemma emits_cask {A} P (f : W → W * A) : rel_steps (emits P) (cask f).
Proof. intros σ. unfold cask. destruct (f (cs_world σ)). exists []. by rewrite app_nil_r. Qed.
Lemma emits_put P f : rel_steps (emits P) (put f : SE (CommSys W) unit).
Proof. intros σ. exists []. by rewrite app_nil_r. Qed.
Lemma emits_cemit (P : comm_event → Prop) ev : P ev → rel_steps (emits P) (cemit ev : SE (CommSys W) unit).
Proof. intros H σ. exists [ev]. split; [done|by apply Forall_singleton]. Qed.
Lemma emits_file P f : rel_steps (emits P) (modify (λ σ, σ <| cs_file := f |>)).
Proof. intros σ. exists []. by rewrite app_nil_r. Qed.
Lemma emits_unlock l : rel_steps (emits silent) (unlock_all l : SE (CommSys W) unit).
Proof.
  intros σ. exists (map cev_unlock (rev l)). split; [done|]. apply Forall_forall.
  intros ev (x & <- & _)%list_elem_of_In%in_map_iff. exact I.
Qed.
#[local] Hint Resolve emits_cask emits_put emits_cemit emits_file emits_unlock : proc.
#[local] Hint Extern 1 (silent _) => exact I : proc.

Lemma emits_save : rel_steps (emits silent) (save rt).
Proof. unfold save. procs. Qed.
#[local] Hint Resolve emits_save : proc.
Lemma emits_settle i m : rel_steps (emits silent) (settle_message rt i m).
Proof. unfold settle_message. procs. Qed.
#[local] Hint Resolve emits_settle : proc.
Lemma emits_hold i m reason : rel_steps (emits silent) (hold rt i m reason).
Proof. unfold hold. procs. Qed.
#[local] Hint Resolve emits_hold : proc.
Lemma emits_prepare i m g : rel_steps (emits silent) (prepare rt i m g).
Proof. unfold prepare. procs. Qed.
Lemma emits_reconcile i m : rel_steps (emits silent) (reconcile_message rt i m).
Proof. unfold reconcile_message. procs. Qed.
#[local] Hint Resolve emits_prepare emits_reconcile : proc.
Lemma emits_locked {A} P write (m : SE (CommSys W) A) :
  rel_steps (emits P) m → rel_steps (emits P) (locked rt workspace write m).
Proof. intros Hm. unfold locked, read. procs. Qed.
Lemma emits_lock_each slugs : ∀ held, rel_steps (emits silent) (lock_each rt held slugs : SE (CommSys W) _).
Proof. induction slugs as [|s l IH]; intros held; cbn [lock_each]; procs. Qed.

(** The message at an index, while the section has only settled it. *)
Definition holds_at (i : nat) (m : Message) σ : Prop := elems (st_Messages (cs_st σ)) !! i = Some m.

Lemma holds_set i m m' σ : holds_at i m σ → elems (st_Messages (set_message (cs_st σ) i m')) !! i = Some m'.
Proof.
  unfold holds_at, set_message. intros H. simpl. rewrite elems_fmap by done.
  apply list_lookup_insert_eq. by eapply lookup_lt_Some.
Qed.

Lemma settle_section i m m' σ :
  holds_at i m σ → message_evolves m m' → wp (settle_message rt i m') (λ σ' _, section σ σ') σ.
Proof.
  intros Hi Hm. unfold settle_message. apply section_put; [by eapply set_message_evolves|apply section_save].
Qed.

Lemma settle_trace i m σ :
  wp (settle_message rt i m) (λ σ' r,
    let st := set_message (cs_st σ) i m in
    cs_st σ' = st ∧
    match r with
    | Ok _ => cs_trace σ' = cs_trace σ ++ [cev_save st write_ok]
    | Err _ => cs_trace σ' = cs_trace σ ∨ ∃ o, cs_trace σ' = cs_trace σ ++ [cev_save st o]
    end) σ.
Proof.
  unfold settle_message. apply wp_bind, wp_modify. unfold save. apply wp_bind, wp_gets. simpl.
  case_match; [|apply wp_fail; split; [done|by left]]. case_match; [apply wp_fail; split; [done|by left]|].
  apply wp_bind, wp_cask. intros w o. apply wp_bind, wp_modify.
  destruct o; [apply wp_fail|apply wp_bind, wp_modify, wp_fail|apply wp_modify]; split; try done; right; by eexists.
Qed.

Lemma live_evolves m m' : live m = true →
  (msg_ID m', msg_GrantID m', msg_From m', msg_To m') = (msg_ID m, msg_GrantID m, msg_From m, msg_To m) →
  (msg_Text m', msg_ReplyTo m', msg_CreatedAt m', msg_Envelope m')
    = (msg_Text m, msg_ReplyTo m, msg_CreatedAt m, msg_Envelope m) →
  msg_Options m = None ∨ msg_Options m' = msg_Options m → message_evolves m m'.
Proof. intros Hl H1 H2 H3. split; try done. congruence. Qed.

Lemma confirm_evolves m receipt : live m = true → message_evolves m (confirmDelivery m receipt).
Proof. intros Hl. unfold confirmDelivery. cbv zeta. apply live_evolves; [done|..]; case_match; simpl; auto. Qed.

Lemma confirm_delivered m receipt : msg_Status (confirmDelivery m receipt) = "delivered".
Proof. unfold confirmDelivery. cbv zeta. by case_match. Qed.

Definition releases (ev : comm_event) : Prop := match ev with cev_unlock _ => True | _ => False end.

(** A submission: what was saved before the message was sent, and what after. *)
Record sent (i : nat) (m0 : Message) (st0 : registry) (tr : list comm_event) : Prop := {
  sent_events : ∃ pre m r post tail,
    tr = pre ++ [cev_save (set_message st0 i m) write_ok; cev_send m r] ++ post ++ tail ∧
    Forall silent pre ∧ Forall releases tail ∧ message_evolves m0 m ∧ msg_Status m = "submitting" ∧ is_Some (msg_Options m) ∧
    (post = [] ∨ ∃ m' o, post = [cev_save (set_message (set_message st0 i m) i m') o] ∧
       ((∃ e, r = Err e ∧ msg_Status m' = "submitting") ∨ ∃ receipt, r = Ok receipt ∧ msg_Status m' = "delivered")) }.

(** The events a procedure adds: silent ones, or a submission. *)
Definition sends_once (i : nat) (m0 : Message) σ (σ' : CommSys W) : Prop :=
  ∃ tr, cs_trace σ' = cs_trace σ ++ tr ∧ (Forall silent tr ∨ sent i m0 (cs_st σ) tr).

Lemma submit_spec i m0 m σ :
  holds_at i m0 σ → message_evolves m0 m → live m = true → is_Some (msg_Options m) →
  wp (submit rt i m) (λ σ' _, section σ σ' ∧ sends_once i m0 σ σ') σ.
Proof.
  intros Hi Hm Hl Ho. unfold submit. cbv zeta. set (m1 := m <| msg_Status := _ |> <| msg_Detail := "" |>).
  assert (message_evolves m0 m1) as Hm1 by (eapply message_evolves_trans; [exact Hm|apply live_evolves; auto]).
  apply wp_bind. eapply wp_mono; [apply wp_and; [by eapply settle_section|apply settle_trace]|].
  intros σ1 [[]|e] [Hs1 [Hst1 Ht1]].
  2:{ split; [done|]. destruct Ht1 as [Ht1|[o Ht1]]; eexists; (split; [rewrite Ht1; try reflexivity|]).
      - symmetry; apply app_nil_r.
      - left. constructor.
      - left. by apply Forall_singleton. }
  assert (holds_at i m1 σ1) as Hi1 by (unfold holds_at; rewrite Hst1; by eapply holds_set).
  apply wp_bind, wp_cask. intros w r. apply wp_bind, wp_modify.
  set (m2 := match r with Ok receipt => confirmDelivery m1 receipt | Err _ => _ end).
  assert (message_evolves m1 m2) as Hm2.
  { subst m2. destruct r; [by apply confirm_evolves|]. apply live_evolves; auto. }
  eapply wp_mono; [apply wp_and; [apply (settle_section i m1); [exact Hi1|exact Hm2]|apply settle_trace]|].
  intros σ2 e [[Hs2 Hf2] [_ Ht2]]. simpl in Ht2, Hs2, Hf2. split; [etrans; [exact Hs1|by split]|].
  assert (cs_trace σ2 = cs_trace σ ++ [cev_save (set_message (cs_st σ) i m1) write_ok; cev_send m1 r] ∨
    ∃ o, cs_trace σ2 = cs_trace σ ++ [cev_save (set_message (cs_st σ) i m1) write_ok; cev_send m1 r;
                         cev_save (set_message (set_message (cs_st σ) i m1) i m2) o]) as Ht.
  { assert (∀ x, (cs_trace σ1 ++ [cev_send m1 r]) ++ x
      = cs_trace σ ++ [cev_save (set_message (cs_st σ) i m1) write_ok; cev_send m1 r] ++ x) as Hx
      by (intros x; rewrite Ht1, <- !app_assoc; reflexivity).
    destruct e as [u|e]; [right; eexists; rewrite Ht2, Hx, Hst1; reflexivity|].
    destruct Ht2 as [Ht2|[o Ht2]]; [left|right; exists o; rewrite Ht2, Hx, Hst1; reflexivity].
    specialize (Hx []). rewrite !app_nil_r in Hx. by rewrite Ht2, Hx. }
  assert ((∃ e, r = Err e ∧ msg_Status m2 = "submitting") ∨ ∃ receipt, r = Ok receipt ∧ msg_Status m2 = "delivered") as Hr.
  { subst m2. destruct r as [rc|e']; [right; exists rc; split; [done|apply confirm_delivered]|left; by exists e']. }
  destruct Ht as [Ht|[o Ht]]; eexists; (split; [exact Ht|]); right; split; exists [], m1, r; eexists; exists [];
    rewrite app_nil_r; (split; [reflexivity|]); split_and!; try done; [by left|right; by exists m2, o].
Qed.

Lemma hold_section i m reason σ :
  holds_at i m σ → live m = true → wp (hold rt i m reason) (λ σ' _, section σ σ') σ.
Proof. intros Hi Hl. apply (settle_section i m); [done|]. apply live_evolves; auto. Qed.

(** Delivery of the message [m] that is live at index [i]. *)
Lemma deliver_spec i m g σ :
  holds_at i m σ → live m = true →
  wp (deliver rt i m g) (λ σ' _, section σ σ' ∧ sends_once i m σ σ') σ.
Proof.
  intros Hi Hl.
  assert (∀ σ1 A (p : SE (CommSys W) A), section σ σ1 → emits silent σ σ1 →
    wp p (λ σ' _, section σ1 σ') σ1 → rel_steps (emits silent) p →
    wp p (λ σ' _, section σ σ' ∧ sends_once i m σ σ') σ1) as Hquiet.
  { intros σ1 A p Hs1 Ht1 Hp Hem. unfold wp in *. split; [by etrans|].
    assert (emits silent σ (p σ1).1) as (tr & Ht & Hq) by (etrans; [exact Ht1|apply Hem]).
    exists tr. split; [done|by left]. }
  unfold deliver. apply wp_bind, wp_cask. intros w ready. set (σ1 := σ <| cs_world := w |>).
  assert (section σ σ1 ∧ emits silent σ σ1 ∧ holds_at i m σ1 ∧ cs_st σ1 = cs_st σ ∧ cs_trace σ1 = cs_trace σ)
    as (Hs1 & He1 & Hi1 & Hst1 & Ht1).
  { split_and!; try done; [split; [apply registry_evolves_refl|by left]|exists []; by rewrite app_nil_r]. }
  clearbody σ1. cbv zeta. case_match.
  { apply Hquiet; [done|done|by apply hold_section|procs]. }
  apply wp_bind. unfold prepare. destruct (msg_Options m) as [o|] eqn:Ho.
  { apply wp_ret. eapply wp_mono; [apply (submit_spec i m); [done|apply message_evolves_refl|done|by rewrite Ho]|].
    intros σ2 r [Hs2 (tr & Htr & Hsent)]. split; [by etrans|]. exists tr. by rewrite <- Ht1, <- Hst1. }
  apply wp_bind, wp_cask. intros w2 opts. set (σ2 := σ1 <| cs_world := w2 |>).
  assert (section σ σ2 ∧ emits silent σ σ2 ∧ holds_at i m σ2 ∧ cs_st σ2 = cs_st σ ∧ cs_trace σ2 = cs_trace σ)
    as (Hs2 & He2 & Hi2 & Hst2 & Ht2) by done.
  clearbody σ2. clear Hs1 He1 Hi1 Hst1 Ht1.
  assert (∀ reason, wp (hold rt i m reason;; mret (None : option Message))
    (λ σ' r, match r with
             | Ok (Some m') => wp (submit rt i m') (λ σ' _, section σ σ' ∧ sends_once i m σ σ') σ'
             | Ok None => wp (mret tt) (λ σ' _, section σ σ' ∧ sends_once i m σ σ') σ'
             | Err e => section σ σ' ∧ sends_once i m σ σ' end) σ2) as Hhold.
  { intros reason. apply wp_bind. eapply wp_mono.
    - apply (Hquiet σ2 _ (hold rt i m reason)); [done|done|by apply hold_section|procs].
    - intros σ3 [[]|e] H3; [by apply wp_ret, wp_ret|done]. }
  destruct (options ← opts; withAuthorizationContext options g m) as [o|e].
  2:{ eapply wp_mono; [apply Hhold|]. intros σ3 [[m3|]|e3] H3; exact H3. }
  match goal with |- context [if ?b then _ else _] => destruct b end;
    [eapply wp_mono; [apply Hhold|]; intros σ3 [[m3|]|e3] H3; exact H3|].
  apply wp_ret. eapply wp_mono; [apply (submit_spec i m); [done|apply live_evolves; auto|done|done]|].
  intros σ3 r [Hs3 (tr & Htr & Hsent)]. split; [by etrans|]. exists tr. by rewrite <- Ht2, <- Hst2.
Qed.

(** The grant that allows a message to be delivered. *)
Definition granted (st : registry) (m : Message) (g : Grant) : Prop :=
  g ∈ elems (st_Grants st) ∧ gr_ID g = msg_GrantID m ∧ gr_RevokedAt g = None ∧
  (gr_A g = msg_From m ∧ gr_B g = msg_To m ∨ gr_B g = msg_From m ∧ gr_A g = msg_To m).

Lemma is_allowed_granted st m i g from to :
  find_index (λ g, gr_ID g == msg_GrantID m) (elems (st_Grants st)) = Some (i, g) →
  is_allowed (Some g) m from to = true → granted st m g ∧ from = Ok (msg_From m) ∧ to = Ok (msg_To m).
Proof.
  intros [Hi Hg]%find_index_lookup. apply bool_decide_eq_true in Hg. unfold is_allowed.
  destruct from as [from|]; [|done]. destruct to as [to|]; [|done].
  rewrite !andb_true_iff, !orb_true_iff, !andb_true_iff, !bool_decide_eq_true.
  intros [[[Hr Hp] ->] ->]. apply list_elem_of_lookup_2 in Hi. by split_and!.
Qed.

(** Why a message may be sent: it is still live, its grant is active for exactly
    its pair, and an earlier submission was positively not found. *)
Definition may_send (st0 : registry) (id : string) (i : nat) (m0 : Message) (tr : list comm_event) : Prop :=
  message_at id st0 = Some (i, m0) ∧ live m0 = true ∧ (∃ g, granted st0 m0 g) ∧
  (msg_Status m0 = "submitting" → ∃ receipt, cev_reconcile m0 (Ok (receipt, false)) ∈ tr).

Lemma sent_prepend i m st l tr : Forall silent l → sent i m st tr → sent i m st (l ++ tr).
Proof.
  intros Hl [(pre & m' & r & post & tail & -> & Hpre & H)]. split. exists (l ++ pre), m', r, post, tail.
  rewrite <- app_assoc. split; [done|]. split; [by apply Forall_app|done].
Qed.

Lemma sent_append i m st tr l : Forall releases l → sent i m st tr → sent i m st (tr ++ l).
Proof.
  intros Hl [(pre & m' & r & post & tail & -> & Hpre & Ht & H)]. split. exists pre, m', r, post, (tail ++ l).
  rewrite <- !app_assoc. split; [done|]. split; [done|]. split; [by apply Forall_app|done].
Qed.

Definition dispatched (id : string) σ σ' : Prop :=
  ∃ tr, cs_trace σ' = cs_trace σ ++ tr ∧
    (Forall silent tr ∨ ∃ i m0, may_send (cs_st σ) id i m0 tr ∧ sent i m0 (cs_st σ) tr).

Lemma dispatch_locked_spec id σ :
  wp (dispatch_locked rt id) (λ σ' _, section σ σ' ∧ dispatched id σ σ') σ.
Proof.
  assert (∀ tr σ1, cs_trace σ1 = cs_trace σ ++ tr → Forall silent tr → dispatched id σ σ1) as Hsilent
    by (intros tr σ1 H1 H2; exists tr; split; [done|by left]).
  assert (dispatched id σ σ) as Hrefl by (apply (Hsilent []); [by rewrite app_nil_r|done]).
  unfold dispatch_locked. apply wp_bind, wp_gets.
  destruct (message_at id (cs_st σ)) as [[i m]|] eqn:Hm; [|apply wp_fail; by split].
  destruct (live m) eqn:Hl; cbn [negb]; [|apply wp_ret; by split].
  pose proof (find_index_lookup _ _ _ _ Hm) as [Hi _].
  cbv zeta. apply wp_bind, wp_cask. intros w1 from. apply wp_bind, wp_cask. intros w2 to.
  set (σ1 := σ <| cs_world := w1 |> <| cs_world := w2 |>).
  assert (section σ σ1 ∧ holds_at i m σ1 ∧ cs_st σ1 = cs_st σ ∧ cs_trace σ1 = cs_trace σ) as (Hs1 & Hi1 & Hst1 & Ht1).
  { split_and!; try done. split; [apply registry_evolves_refl|by left]. }
  clearbody σ1.
  (* the end of the section, once the reconciliation is done *)
  assert (∀ σ2 l, section σ σ2 → holds_at i m σ2 → cs_st σ2 = cs_st σ → cs_trace σ2 = cs_trace σ ++ l →
    Forall silent l → (msg_Status m = "submitting" → ∃ receipt, cev_reconcile m (Ok (receipt, false)) ∈ l) →
    wp (match snd <$> find_index (λ g, gr_ID g == msg_GrantID m) (elems (st_Grants (cs_st σ))) with
      | Some g => if is_allowed (Some g) m from to then deliver rt i m g
          else settle_message rt i (m <| msg_Status := "canceled" |>
                                   <| msg_Detail := "Approval or session identity is no longer valid" |>)
      | None => settle_message rt i (m <| msg_Status := "canceled" |>
                                    <| msg_Detail := "Approval or session identity is no longer valid" |>)
      end) (λ σ' _, section σ σ' ∧ dispatched id σ σ') σ2) as Hend.
  { intros σ2 l Hs2 Hi2 Hst2 Ht2 Hq Hrec.
    assert (∀ m', message_evolves m m' → wp (settle_message rt i m') (λ σ' _, section σ σ' ∧ dispatched id σ σ') σ2) as Hsettle.
    { intros m' Hm'. eapply wp_mono; [apply wp_and; [by eapply settle_section|apply (rel_wp (emits silent)), emits_settle]|].
      intros σ3 r [Hs3 (tr & Htr & Hqt)]. split; [by etrans|]. apply (Hsilent (l ++ tr)).
      - by rewrite Htr, Ht2, app_assoc.
      - by apply Forall_app. }
    destruct (find_index _ _) as [[k g]|] eqn:Hg; simpl; [|apply Hsettle, live_evolves; auto].
    destruct (is_allowed (Some g) m from to) eqn:Ha; [|apply Hsettle, live_evolves; auto].
    destruct (is_allowed_granted _ _ _ _ _ _ Hg Ha) as (Hgr & _ & _).
    eapply wp_mono; [by apply deliver_spec|]. intros σ3 r [Hs3 (tr & Htr & Hsent)]. split; [by etrans|].
    exists (l ++ tr). rewrite Htr, Ht2, app_assoc. split; [done|].
    destruct Hsent as [Hqt|Hsent]; [left; by apply Forall_app|right; exists i, m].
    rewrite <- Hst2. split; [|by apply sent_prepend]. rewrite Hst2. split_and!; [done|done|by exists g|].
    intros Hsub. destruct (Hrec Hsub) as [rc Hrc]. exists rc. set_solver. }
  unfold reconcile_message. apply wp_bind. destruct (msg_Status m == "submitting") eqn:Hsub.
  2:{ apply wp_ret. apply (Hend σ1 []); try done; [by rewrite app_nil_r|].
      intros Heq. by apply bool_decide_eq_false in Hsub. }
  apply wp_bind, wp_cask. intros w3 r. apply wp_bind, wp_modify.
  set (σ3 := σ1 <| cs_world := w3 |> <| cs_trace ::= _ |>).
  assert (section σ σ3 ∧ holds_at i m σ3 ∧ cs_st σ3 = cs_st σ ∧ cs_trace σ3 = cs_trace σ ++ [cev_reconcile m r])
    as (Hs3 & Hi3 & Hst3 & Ht3) by (split_and!; try done; simpl; by rewrite Ht1).
  clearbody σ3.
  assert (∀ k m', message_evolves m m' → wp (settle_message rt i m';; mret true)
    (λ σ' r, match r with
             | Ok settled => wp (if (settled : bool) then mret tt else k) (λ σ' _, section σ σ' ∧ dispatched id σ σ') σ'
             | Err _ => section σ σ' ∧ dispatched id σ σ' end) σ3) as Hsettle.
  { intros k m' Hm'. apply wp_bind.
    eapply wp_mono; [apply wp_and; [by eapply settle_section|apply (rel_wp (emits silent)), emits_settle]|].
    intros σ4 e [Hs4 (tr & Htr & Hqt)].
    assert (section σ σ4 ∧ dispatched id σ σ4) as H4.
    { split; [by etrans|]. apply (Hsilent (cev_reconcile m r :: tr)); [by rewrite Htr, Ht3, <- app_assoc|by constructor]. }
    destruct e as [[]|e]; [by apply wp_ret, wp_ret|done]. }
  destruct r as [[receipt [|]]|e]; [apply Hsettle, confirm_evolves, Hl| |apply Hsettle, live_evolves; auto].
  apply wp_ret. apply (Hend σ3 [cev_reconcile m (Ok (receipt, false))]); try done; [by apply Forall_singleton|].
  intros _. exists receipt. set_solver.
Qed.

End History.
