(* ===== verification/CommunicationFacts.v ===== *)
(** * Session communication: theorems

    What a dispatch may send, what any operation may do to the stored registry, and
    the order in which sessions are locked. *)

From S2P Require Import Prelude Effects GoStrings GoJson Codex RetrySys GoTime Communication CommunicationOps CommunicationHistory.
From Stdlib Require Import Sorted.
From stdpp Require Import sorting.

Open Scope Z_scope.

Section Facts.
Context {CW : CodexWeb} {W : Type} `{TR : !Transport W}.
Context (rt : CommRuntime W) (workspace : string).
Implicit Types σ : CommSys W.

(** ** Locked sections over the file *)

Definition same_file σ σ' : Prop := cs_file σ' = cs_file σ.
#[local] Instance same_file_preorder : PreOrder same_file.
Proof. split; [done|]. intros σ1 σ2 σ3 H1 H2. unfold same_file in *. congruence. Qed.

Lemma same_file_cask {A} (f : W → W * A) : rel_steps same_file (cask f).
Proof. intros σ. unfold cask. by destruct (f (cs_world σ)). Qed.
Lemma same_file_put f : rel_steps same_file (put f : SE (CommSys W) unit).
Proof. done. Qed.
Lemma same_file_cemit ev : rel_steps same_file (cemit ev : SE (CommSys W) unit).
Proof. done. Qed.
Lemma same_file_unlock l : rel_steps same_file (unlock_all l : SE (CommSys W) unit).
Proof. done. Qed.
#[local] Hint Resolve same_file_cask same_file_put same_file_cemit same_file_unlock : proc.

Lemma same_file_lock slugs : ∀ held, rel_steps same_file (lock_each rt held slugs : SE (CommSys W) _).
Proof. induction slugs as [|s l IH]; intros held; cbn [lock_each]; procs. Qed.
Lemma same_file_read : rel_steps same_file (read rt workspace).
Proof. unfold read. procs. Qed.
#[local] Hint Resolve same_file_lock same_file_read : proc.

(** Reading the file into a section: where the section starts. *)
Definition opened σ (σ1 : CommSys W) : Prop :=
  cs_file σ1 = cs_file σ ∧ cs_trace σ1 = cs_trace σ ∧ read_file workspace (cs_file σ) = Ok (cs_st σ1).

Lemma locked_write {A} (m : SE (CommSys W) A) (Q : CommSys W → result A → Prop) σ :
  (∀ σ1 e, cs_file σ1 = cs_file σ → cs_trace σ1 = cs_trace σ → Q σ1 (Err e)) →
  (∀ σ1, opened σ σ1 → wp m Q σ1) → wp (locked rt workspace true m) Q σ.
Proof.
  intros He Hm. unfold locked. apply wp_bind, wp_cask. intros w [e|]; [rewrite andb_false_r; by apply wp_fail, He|].
  apply wp_bind, wp_cask. intros w1 e. apply wp_bind, wp_lift_error. destruct e as [e|]; [by apply He|].
  apply wp_bind. unfold read. apply wp_bind, wp_cask. intros w2 e. apply wp_bind, wp_lift_error.
  destruct e as [e|]; [by apply He|]. apply wp_bind, wp_gets, wp_lift_result. simpl.
  destruct (read_file workspace (cs_file σ)) as [st|e] eqn:Hr; [|by apply He].
  apply wp_bind, wp_modify, Hm. by split_and!.
Qed.

(** A read section that only looks. *)
Lemma locked_read {A} (m : SE (CommSys W) A) σ :
  (∀ σ1, cs_trace (m σ1).1 = cs_trace σ1 ∧ cs_file (m σ1).1 = cs_file σ1) →
  wp (locked rt workspace false m) (λ σ' r, cs_file σ' = cs_file σ ∧ cs_trace σ' = cs_trace σ) σ.
Proof.
  intros Hm. assert (∀ σ1, cs_file σ1 = cs_file σ → cs_trace σ1 = cs_trace σ →
    wp m (λ σ' _, cs_file σ' = cs_file σ ∧ cs_trace σ' = cs_trace σ) σ1) as Hw.
  { intros σ1 <- <-. destruct (Hm σ1). by split. }
  unfold locked. apply wp_bind, wp_cask. intros w [e|].
  { case_match; [by apply wp_bind, wp_modify, Hw|by apply wp_fail]. }
  apply wp_bind, wp_cask. intros w1 e. apply wp_bind, wp_lift_error. destruct e as [e|]; [done|].
  apply wp_bind. unfold read. apply wp_bind, wp_cask. intros w2 e. apply wp_bind, wp_lift_error.
  destruct e as [e|]; [done|]. apply wp_bind, wp_gets, wp_lift_result. simpl.
  destruct (read_file workspace (cs_file σ)); [|done]. by apply wp_bind, wp_modify, Hw.
Qed.

(** ** The history of the stored registry *)

Definition history σ σ' : Prop :=
  cs_file σ' = cs_file σ ∨
  ∃ st0 st1, read_file workspace (cs_file σ) = Ok st0 ∧ cs_file σ' = Some (reg_decoded st1) ∧ registry_evolves st0 st1.

#[local] Instance history_preorder : PreOrder history.
Proof.
  split; [by left|]. intros σ1 σ2 σ3 H1 H2. unfold history in *.
  destruct H2 as [->|(st & st' & Hr & Hf & Hev)]; [done|].
  destruct H1 as [H1|(st0 & st1 & Hr0 & Hf0 & Hev0)]; [rewrite H1 in Hr; right; eauto|].
  right. exists st0, st'. split_and!; [done|done|]. rewrite Hf0 in Hr. unfold read_file in Hr.
  repeat case_match; simplify_eq. by eapply registry_evolves_trans.
Qed.

Lemma history_same {A} (m : SE (CommSys W) A) : rel_steps same_file m → rel_steps history m.
Proof. intros Hm σ. left. apply Hm. Qed.

Lemma history_locked {A} (m : SE (CommSys W) A) :
  (∀ σ, wp m (λ σ' _, section σ σ') σ) → rel_steps history (locked rt workspace true m).
Proof.
  intros Hm σ. apply (locked_write m (λ σ' _, history σ σ')); [by left|]. intros σ1 (Hf & _ & Hr).
  eapply wp_mono; [apply Hm|]. intros σ' r [_ [H|(st & H & Hev)]].
  - left. congruence.
  - right. by exists (cs_st σ1), st.
Qed.

Lemma history_with {A} slugs (m : SE (CommSys W) A) :
  rel_steps history m → rel_steps history (with_sessions rt slugs m).
Proof.
  intros Hm. unfold with_sessions, lockSessions. apply rel_bind; [apply _|apply history_same; procs|]. intros held.
  apply rel_bind; [apply _|by apply rel_attempt|]. intros r.
  apply rel_bind; [apply _|apply history_same; procs|]. intros _. apply rel_lift_result, _.
Qed.

Lemma history_Read caller : rel_steps history (Read rt workspace caller : SE (CommSys W) _).
Proof. intros σ. left. apply (locked_read _ σ). done. Qed.

Lemma history_Run caller req : rel_steps history (Run rt workspace caller req : SE (CommSys W) _).
Proof.
  unfold Run. case_match; [apply history_Read|]. apply rel_bind; [apply _|apply history_same; procs|]. intros _.
  apply history_with. apply rel_bind; [apply _|apply history_same; procs|]. intros [current|e]; [|apply rel_fail, _].
  case_match; [apply rel_fail, _|]. apply rel_bind; [apply _|apply history_same; procs|]. intros peer.
  apply rel_bind; [apply _|apply history_same; procs|]. intros peer'.
  apply rel_bind; [apply _|apply history_locked|intros _; apply history_Read].
  intros σ. case_match; [apply section_allow|]. case_match; [apply section_revoke|apply section_send].
Qed.

Lemma history_Expire slug : rel_steps history (Expire rt workspace slug : SE (CommSys W) _).
Proof.
  apply history_locked. intros σ. apply wp_bind, wp_gets, wp_bind. eapply wp_mono; [apply section_expire|].
  intros σ1 [[]|e] H; [|done]. unfold wp. etrans; [exact H|apply section_save].
Qed.

Lemma history_Dispatch id : rel_steps history (Dispatch rt workspace id : SE (CommSys W) _).
Proof.
  unfold Dispatch. apply rel_bind; [apply _| |].
  - intros σ. left. apply (locked_read _ σ). intros σ1. unfold mbind, SE_bind. simpl. by case_match; repeat case_match.
  - intros m. apply history_with, history_locked. intros σ. eapply wp_mono; [apply dispatch_locked_spec|]. by intros ? ? [? _].
Qed.

(** One operation of the service. *)
Inductive service_op σ : CommSys W → Prop :=
  | op_run caller req : service_op σ (Run rt workspace caller req σ).1
  | op_expire slug : service_op σ (Expire rt workspace slug σ).1
  | op_dispatch id : service_op σ (Dispatch rt workspace id σ).1
  | op_read caller : service_op σ (Read rt workspace caller σ).1.

(** C3: through any sequence of requests, expiries and deliveries, whatever the
    transport and the file system do, records are never lost or rewritten: each
    stored grant keeps its pair and approval, each message its identity, text and
    envelope; a revoked grant, a delivered and a cancelled message never change
    again, and a message's delivery options are fixed once set. *)
Theorem registry_history σ σ' st st' :
  rtc service_op σ σ' → read_file workspace (cs_file σ) = Ok st → read_file workspace (cs_file σ') = Ok st' →
  registry_evolves st st'.
Proof.
  intros Hrtc Hr Hr'. assert (history σ σ') as [H|(st0 & st1 & Hr0 & Hf & Hev)].
  { clear Hr Hr'. induction Hrtc as [|σ1 σ2 σ3 Hop _ IH]; [reflexivity|]. etrans; [|exact IH].
    destruct Hop; [apply history_Run|apply history_Expire|apply history_Dispatch|apply history_Read]. }
  - rewrite H, Hr in Hr'. injection Hr' as <-. apply registry_evolves_refl.
  - rewrite Hf in Hr'. rewrite Hr0 in Hr. injection Hr as <-.
    unfold read_file in Hr'. repeat case_match; try done. by injection Hr' as <-.
Qed.

(** ** Sending *)

Lemma emits_with_locked id slugs σ :
  wp (with_sessions rt slugs (locked rt workspace true (dispatch_locked rt id)))
    (λ σ' _, ∃ tr, cs_trace σ' = cs_trace σ ++ tr ∧
       (Forall silent tr ∨ ∃ st0 i m0, read_file workspace (cs_file σ) = Ok st0 ∧
          may_send st0 id i m0 tr ∧ sent i m0 st0 tr)) σ.
Proof.
  unfold with_sessions, lockSessions. apply wp_bind.
  eapply wp_mono; [apply wp_and; [apply (rel_wp (emits silent)), emits_lock_each|apply (rel_wp same_file), same_file_lock]|].
  intros σ1 [held|e] [(l & Hl & Hq) Hf]; [|exists l; split; [done|by left]].
  apply wp_bind, wp_attempt. apply locked_write.
  - intros σ2 e Hf2 Ht2. apply wp_bind, wp_modify, wp_lift_result. simpl.
    exists (l ++ map cev_unlock (rev held)). rewrite Ht2, Hl, app_assoc. split; [done|left].
    apply Forall_app. split; [done|]. apply Forall_forall. by intros ev (x & <- & _)%list_elem_of_In%in_map_iff.
  - intros σ2 (Hf2 & Ht2 & Hr2). eapply wp_mono; [apply dispatch_locked_spec|].
    intros σ3 r [_ (tr & Htr & Hd)]. apply wp_bind, wp_modify, wp_lift_result. simpl.
    exists (l ++ tr ++ map cev_unlock (rev held)). rewrite Htr, Ht2, Hl, <- !app_assoc. split; [done|].
    assert (Forall releases (map cev_unlock (rev held))) as Hrel
      by (apply Forall_forall; by intros ev (x & <- & _)%list_elem_of_In%in_map_iff).
    destruct Hd as [Hd|(i & m0 & (Hm & Hlv & Hg & Hrec) & Hsent)]; [left|right].
    + apply Forall_app. split; [done|]. apply Forall_app. split; [done|].
      eapply Forall_impl; [exact Hrel|]. by intros [].
    + exists (cs_st σ2), i, m0. rewrite Hf in Hr2. split; [done|]. split.
      * split_and!; try done. intros Hsub. destruct (Hrec Hsub) as [rc Hrc]. exists rc. set_solver.
      * apply sent_prepend; [done|]. by apply sent_append.
Qed.

(** C2: a delivery sends at most one message, the one it names, and only while
    the stored registry holds it undelivered and uncancelled under an active grant
    for exactly its two sessions.  The message had just been durably saved as
    submitting, with its options; if an earlier delivery may have submitted it, the
    transport first positively found that it did not.  Afterwards the registry
    says submitting or, with a receipt, delivered. *)
Theorem dispatch_sends_safely id σ :
  cs_trace σ = [] →
  let tr := cs_trace (Dispatch rt workspace id σ).1 in
  Forall silent tr ∨ ∃ st0 i m0, read_file workspace (cs_file σ) = Ok st0 ∧ may_send st0 id i m0 tr ∧ sent i m0 st0 tr.
Proof.
  intros Ht. cbv zeta.
  pose (Q := λ (σ' : CommSys W) (_ : result unit), Forall silent (cs_trace σ') ∨ ∃ st0 i m0,
    read_file workspace (cs_file σ) = Ok st0 ∧ may_send st0 id i m0 (cs_trace σ') ∧ sent i m0 st0 (cs_trace σ')).
  change (wp (Dispatch rt workspace id) Q σ). unfold Dispatch. apply wp_bind. eapply wp_mono.
  - apply (locked_read _ σ). intros σ1. unfold mbind, SE_bind. simpl. by repeat case_match.
  - intros σ1 [original|e] [Hf Ht1]; unfold Q; [|left; by rewrite Ht1, Ht].
    eapply wp_mono; [apply emits_with_locked|]. intros σ2 r (tr & Htr & H).
    rewrite Ht1, Ht in Htr. simpl in Htr. rewrite Htr. by rewrite Hf in H.
Qed.

(** ** Session locks *)

Definition slug_le (a b : string) : Prop := (a <=? b)%string = true.
Definition slug_lt (a b : string) : Prop := slug_le a b ∧ a ≠ b.

Lemma insert_slug_sorted p l : Sorted slug_le l → Sorted slug_le (insert_slug p l).
Proof.
  unfold insert_slug. induction 1 as [|q l Hs IH Hd]; [by repeat constructor|].
  cbn. destruct (p <=? q)%string eqn:E; [by repeat constructor|].
  constructor; [exact IH|]. assert (slug_le q p) as Hqp.
  { unfold slug_le. destruct (String.leb_total p q) as [H|H]; [congruence|done]. }
  destruct l as [|r l]; [by constructor|]. cbn. inversion Hd; subst. case_match; by constructor.
Qed.

Lemma sort_slugs_sorted l : Sorted slug_le (sort_slugs l).
Proof. induction l; simpl; [constructor|by apply insert_slug_sorted]. Qed.

Lemma compact_cons x l : ∃ l', compact (x :: l) = x :: l'.
Proof.
  simpl. destruct (compact l) as [|y l'] eqn:E; [by exists []|]. case_bool_decide as H; [subst; by exists l'|by exists (y :: l')].
Qed.

Lemma compact_sorted l : Sorted slug_le l → Sorted slug_lt (compact l).
Proof.
  induction 1 as [|x l Hs IH Hd]; [constructor|]. simpl.
  destruct l as [|y l]; [by repeat constructor|]. destruct (compact_cons y l) as [l' E]. rewrite E in *.
  case_bool_decide as Hxy; [by subst|]. constructor; [done|]. constructor. inversion Hd; subst. by split.
Qed.

Lemma slugs_kept l x : x ∈ l ↔ x ∈ compact (sort_slugs l).
Proof.
  assert (∀ p l, x ∈ insert_slug p l ↔ x = p ∨ x ∈ l) as Hins.
  { intros p k. unfold insert_slug. induction k as [|q k IH]; cbn; [set_solver|]. case_match; set_solver. }
  assert (∀ l, x ∈ compact l ↔ x ∈ l) as Hc.
  { intros k. induction k as [|y k IH]; simpl; [done|]. destruct (compact k) as [|z k'] eqn:E; [set_solver|].
    case_bool_decide; set_solver. }
  rewrite Hc. clear Hc. induction l as [|p l IH]; simpl; [done|]. rewrite Hins. set_solver.
Qed.

(** The lock and unlock events of a trace. *)
Definition lock_event (ev : comm_event) : option (bool * string) :=
  match ev with cev_lock s => Some (true, s) | cev_unlock s => Some (false, s) | _ => None end.
Definition locking (tr : list comm_event) : list (bool * string) := omap lock_event tr.

Lemma locking_unlock l : locking (map cev_unlock l) = map (pair false) l.
Proof. induction l as [|x l IH]; [done|]. simpl. by rewrite <- IH. Qed.

Lemma lock_each_locking slugs : ∀ held σ,
  wp (lock_each rt held slugs) (λ σ' r, ∃ tr, cs_trace σ' = cs_trace σ ++ tr ∧
    match r with
    | Ok l => l = held ++ slugs ∧ Forall (λ s, ValidSlug s = true) slugs ∧ locking tr = map (pair true) slugs
    | Err _ => ∃ k, k `prefix_of` slugs ∧ Forall (λ s, ValidSlug s = true) k ∧
        locking tr = map (pair true) k ++ map (pair false) (rev (held ++ k))
    end) σ.
Proof.
  induction slugs as [|s slugs IH]; intros held σ; cbn [lock_each].
  { apply wp_ret. exists []. rewrite !app_nil_r. by split_and!. }
  assert (∀ e σ', cs_trace σ' = cs_trace σ → wp (unlock_all held;; fail e : SE (CommSys W) (list string))
    (λ σ' r, ∃ tr, cs_trace σ' = cs_trace σ ++ tr ∧ match r with
      | Ok l => l = held ++ s :: slugs ∧ Forall (λ s, ValidSlug s = true) (s :: slugs) ∧ locking tr = map (pair true) (s :: slugs)
      | Err _ => ∃ k, k `prefix_of` s :: slugs ∧ Forall (λ s, ValidSlug s = true) k ∧
          locking tr = map (pair true) k ++ map (pair false) (rev (held ++ k)) end) σ') as Hrel.
  { intros e σ' Ht. apply wp_bind, wp_modify, wp_fail. simpl. exists (map cev_unlock (rev held)). rewrite Ht.
    split; [done|]. exists []. split; [apply prefix_nil|]. rewrite app_nil_r, locking_unlock. by split. }
  destruct (ValidSlug s) eqn:Hv; cbn [negb]; [|by apply Hrel].
  apply wp_bind, wp_cask. intros w [e|]; [by apply Hrel|]. apply wp_bind, wp_modify.
  eapply wp_mono; [apply IH|]. intros σ' r (tr & Ht & H). simpl in Ht.
  exists (cev_lock s :: tr). rewrite Ht, <- app_assoc. split; [done|]. destruct r as [l|e].
  - destruct H as (-> & Hall & Hl). rewrite <- app_assoc. split_and!; [done|by constructor|]. simpl. by rewrite <- Hl.
  - destruct H as (k & Hk & Hall & Hl). exists (s :: k). split; [by apply prefix_cons|]. split; [by constructor|].
    simpl. rewrite <- app_assoc in Hl. simpl in Hl. by rewrite <- Hl.
Qed.

(** Sessions are locked one at a time in strictly increasing order of their
    valid slugs, each once, however the caller orders or repeats them; on a failure
    the locks taken are released in reverse and nothing stays locked. *)
Theorem sessions_locked_in_order slugs σ σ' r :
  cs_trace σ = [] → lockSessions rt slugs σ = (σ', r) →
  ∃ taken, Sorted slug_lt taken ∧ Forall (λ s, ValidSlug s = true) taken ∧ (∀ s, s ∈ taken → s ∈ slugs) ∧
  match r with
  | Ok held => held = taken ∧ (∀ s, s ∈ slugs → s ∈ taken) ∧ locking (cs_trace σ') = map (pair true) taken
  | Err _ => locking (cs_trace σ') = map (pair true) taken ++ map (pair false) (rev taken)
  end.
Proof.
  intros Ht Hl. pose proof (lock_each_locking (compact (sort_slugs slugs)) [] σ) as H. unfold wp in H.
  unfold lockSessions in Hl. rewrite Hl in H. simpl in H. destruct H as (tr & Htr & H). rewrite Ht in Htr. simpl in Htr. subst tr.
  pose proof (compact_sorted _ (sort_slugs_sorted slugs)) as Hs. destruct r as [held|e].
  - destruct H as (-> & Hv & Hlk). exists (compact (sort_slugs slugs)). split_and!; try done; intros s; by apply slugs_kept.
  - destruct H as (k & [k' Hk] & Hv & Hlk). exists k. rewrite Hk in Hs. split_and!; try done.
    + clear -Hs. induction k as [|x k IH]; [constructor|]. simpl in Hs. inversion Hs; subst. constructor; [by apply IH|].
      destruct k; simpl in *; [constructor|]. by inversion H2; constructor.
    + intros s Hin. apply slugs_kept. rewrite Hk. set_solver.
Qed.

End Facts.

(** ** Session communication: concrete runs

    A transport, a resolver and a file system that answer, an approved pair of
    sessions and a message between them, and the theorems applied there. *)

#[local] Existing Instance SampleCodex.

#[local] Instance sample_transport : Transport unit := {
  tr_Ready _ w := (w, Ok "");
  tr_Prepare _ w := (w, Ok (mkSample "model" "high" "policy" None));
  tr_Send _ w := (w, Ok "turn-1");
  tr_Reconcile _ w := (w, Ok ("", false)) }.

Definition sample_runtime : CommRuntime unit := {|
  cr_open_lock := λ _ w, (w, None); cr_flock := λ _ w, (w, None); cr_open := λ w, (w, None);
  cr_replace := λ _ w, (w, write_ok); cr_now := λ w, (w, 1000000000);
  cr_rand16 := λ w, (w, repeat 171 16); cr_Lock := λ _ w, (w, None);
  cr_Resolve := λ slug w, (w, Ok (mkIdentity slug "thread" "incarnation")) |}.

Definition empty_system : CommSys unit := mkCommSys tt None (mkRegistry 0 "" None None) [].
Definition alpha : Identity := mkIdentity "alpha" "thread" "incarnation".
Definition sample_message_id : string := String.concat "" (repeat "ab" 16).
Definition allow_request : Request := mkRequest "allow" "beta" "user said so" "" "" "".
Definition send_request : Request := mkRequest "send" "beta" "" "hello" sample_message_id "".

Definition allowed : CommSys unit := Eval vm_compute in (Run sample_runtime "/w" alpha allow_request empty_system).1.
Definition queued : CommSys unit := Eval vm_compute in
  (Run sample_runtime "/w" alpha send_request allowed).1 <| cs_trace := [] |>.
Definition delivered : CommSys unit := Eval vm_compute in (Dispatch sample_runtime "/w" sample_message_id queued).1.

Definition read_or_empty (σ : CommSys unit) : registry :=
  match read_file "/w" (cs_file σ) with Ok st => st | Err _ => mkRegistry 0 "" None None end.
Definition is_sending (ev : comm_event) : bool := match ev with cev_send _ _ => true | _ => false end.

(** The queued message is delivered. *)
Lemma registry_history_witness :
  map msg_Status (elems (st_Messages (read_or_empty queued))) = ["pending"] ∧
  map msg_Status (elems (st_Messages (read_or_empty delivered))) = ["delivered"] ∧
  registry_evolves (read_or_empty queued) (read_or_empty delivered).
Proof.
  split; [computed|]. split; [computed|].
  apply (registry_history sample_runtime "/w" queued delivered); [|computed|computed].
  apply rtc_once. change delivered with (id delivered).
  replace (id delivered) with (Dispatch sample_runtime "/w" sample_message_id queued).1 by computed. apply op_dispatch.
Defined.

Lemma dispatch_sends_safely_witness :
  let tr := cs_trace (Dispatch sample_runtime "/w" sample_message_id queued).1 in
  ∃ st0 i m0, read_file "/w" (cs_file queued) = Ok st0 ∧ may_send st0 sample_message_id i m0 tr ∧ sent i m0 st0 tr.
Proof.
  cbv zeta. destruct (dispatch_sends_safely sample_runtime "/w" sample_message_id queued) as [H|H]; [reflexivity| |exact H].
  exfalso. assert (existsb is_sending (cs_trace (Dispatch sample_runtime "/w" sample_message_id queued).1) = true) as Hs by computed.
  apply existsb_exists in Hs as (ev & Hin & Hev). apply list_elem_of_In in Hin.
  rewrite Forall_forall in H. specialize (H ev Hin). by destruct ev.
Defined.

Lemma sessions_locked_in_order_witness :
  ∃ taken, Sorted slug_lt taken ∧ taken = ["alpha"; "beta"].
Proof.
  destruct (sessions_locked_in_order sample_runtime ["beta"; "alpha"; "beta"] empty_system
    (lockSessions sample_runtime ["beta"; "alpha"; "beta"] empty_system).1 (Ok ["alpha"; "beta"])) as (taken & Hs & _ & _ & <- & _).
  - reflexivity.
  - computed.
  - by exists ["alpha"; "beta"].
Defined.
