(* ===== verification/ProgressObserver.v ===== *)
(** * Progress observer

    [progressobserver/state.go]: the advisory record an observer keeps of a
    session's development, the results it accepts, when a check is due and the
    record's file. *)

From S2P Require Import Prelude Effects GoStrings GoJson GoTime Sha256 RetrySys.
From Stdlib Require Import Ascii.

Open Scope Z_scope.

Definition minute : Z := 60 * 1000000000.
Definition Interval : Z := 15 * minute.
Definition Deadline : Z := 3 * minute.

Record Check := mkCheck {
  chk_ID : string; chk_Thread : string; chk_Address : string; chk_Model : string; chk_Effort : string;
  chk_Message : string; chk_StartedAt : Time; chk_Turn : string; chk_EvidenceComplete : bool }.
Record Concern := mkConcern {
  con_Key : string; con_Summary : string; con_Recommendation : string; con_Count : Z; con_Response : string }.
#[export] Instance eta_Concern : Eta Concern := λ c,
  mkConcern (con_Key c) (con_Summary c) (con_Recommendation c) (con_Count c) (con_Response c).
Record Notice := mkNotice { not_ID : string; not_Address : string; not_Message : string }.

(** [progressobserver.State]; [Check] is its [Pending]. *)
Record Progress := mkProgress {
  pr_Schema : Z; pr_Root : string; pr_Paused : bool; pr_IntervalMinutes : Z; pr_LastCheck : Time;
  pr_Pending : option Check; pr_Concern : option Concern; pr_Notice : option Notice;
  pr_Unavailable : string; pr_PreviousEvidence : string }.
#[export] Instance eta_Progress : Eta Progress := λ s,
  mkProgress (pr_Schema s) (pr_Root s) (pr_Paused s) (pr_IntervalMinutes s) (pr_LastCheck s) (pr_Pending s)
    (pr_Concern s) (pr_Notice s) (pr_Unavailable s) (pr_PreviousEvidence s).

Record Resolution := mkResolution { rsl_Key : string; rsl_Evidence : string }.
Record Result := mkResult {
  rst_Status : string; rst_Evidence : string; rst_Resolution : option Resolution;
  rst_Key : string; rst_Summary : string; rst_Recommendation : string }.

(** [^[a-z][a-z0-9_-]{0,63}$] *)
Definition is_lower (c : ascii) : bool := in_range 97 122 (code c).
Definition keyPattern (s : string) : bool :=
  match s with
  | String c s => is_lower c && all_chars (λ c, is_lower c || is_digit c || is_char c "_"%char || is_char c "-"%char) s
                  && (strlen s <=? 63)
  | EmptyString => false
  end.

Definition blank (s : string) : bool := TrimSpace s == "".

(** [ParseResult], on what the strict JSON decoding of the trimmed text gives: a
    result, with whether the text ends there, or a syntax error. *)
Inductive decoded_result :=
  | dr_error
  | dr_value (r : Result) (extra : bool).

Definition bad_resolution (r : Result) : bool :=
  (3000 <? strlen (rst_Evidence r))
  || match rst_Resolution r with
     | Some s => negb (keyPattern (rsl_Key s)) || blank (rsl_Evidence s) || (3000 <? strlen (rsl_Evidence s))
     | None => false
     end.

Definition is_unavailable (r : Result) : bool :=
  (rst_Status r == "unavailable") && negb (blank (rst_Summary r)) && (strlen (rst_Summary r) <=? 1000)
  && (rst_Key r == "") && (rst_Recommendation r == "") && bool_decide (rst_Resolution r = None).
Definition is_on_track (r : Result) : bool :=
  (rst_Status r == "on_track") && (rst_Key r == "") && (rst_Summary r == "") && (rst_Recommendation r == "").
Definition bad_concern (r : Result) : bool :=
  negb (bool_decide (rst_Resolution r = None)) || (rst_Status r != "concern") || negb (keyPattern (rst_Key r))
  || blank (rst_Summary r) || blank (rst_Recommendation r)
  || (150 <? FieldsLen (rst_Summary r +:+ " " +:+ rst_Recommendation r))
  || (3000 <? strlen (rst_Summary r) + strlen (rst_Recommendation r)).

Definition ParseResult (d : decoded_result) : result Result :=
  match d with
  | dr_error => Err (ErrorsNew "observer did not return a progress result")
  | dr_value r extra =>
      if extra then Err (ErrorsNew "observer returned extra output")
      else if bad_resolution r then Err (ErrorsNew "invalid resolution evidence")
      else if is_unavailable r then Ok r
      else if is_on_track r then Ok r
      else if bad_concern r then Err (ErrorsNew "observer returned an invalid or oversized concern")
      else Ok r
  end.

(** [State.CheckInterval] and [State.Due] *)
Definition CheckInterval (s : Progress) : Z :=
  if (pr_IntervalMinutes s <? 1) || (1440 <? pr_IntervalMinutes s) then Interval
  else pr_IntervalMinutes s * minute.

Definition Due (s : Progress) (now : Time) (active : bool) : bool :=
  negb (pr_Paused s) && bool_decide (pr_Pending s = None)
  && negb (now <? pr_LastCheck s + CheckInterval s) && active.

(** [State.Apply] *)
Definition Apply (s : Progress) (r : Result) : Progress * bool :=
  let s := s <| pr_Pending := None |> <| pr_Unavailable := "" |> in
  if rst_Status r == "unavailable" then (s <| pr_Unavailable := rst_Summary r |>, false) else
  if rst_Status r == "on_track" then
    if blank (rst_Evidence r)
    then (s <| pr_Unavailable := "Observer supplied no independent progress evidence." |>,
          negb (bool_decide (pr_Concern s = None)))
    else match pr_Concern s with
         | Some c =>
             if match rst_Resolution r with
                | None => true
                | Some v => (rsl_Key v != con_Key c) || blank (rsl_Evidence v)
                end
             then (s <| pr_Unavailable := "Open concern has no matching resolution evidence." |>, true)
             else (s <| pr_Concern := None |>, false)
         | None => (s <| pr_Concern := None |>, false)
         end
  else match pr_Concern s with
  | Some c =>
      if con_Key c == rst_Key r
      then (s <| pr_Concern := Some (c <| con_Count ::= λ n, i64 (n + 1) |>
                 <| con_Summary := rst_Summary r |> <| con_Recommendation := rst_Recommendation r |>) |>, true)
      else (s <| pr_Unavailable := "The existing concern must be resolved before changing its key." |>, true)
  | None => (s <| pr_Concern := Some (mkConcern (rst_Key r) (rst_Summary r) (rst_Recommendation r) 1 "") |>, true)
  end.

Definition Warning (s : Progress) : bool := negb (bool_decide (pr_Concern s = None)).

(** [ID]: the first sixteen bytes of the digest of the joined parts. *)
Definition nul : string := String "000"%char "".
Definition ID (parts : list string) : string := String.substring 0 32 (hash (join nul parts)).

(** ** The record's file *)

Definition Check_json (p : Check) : json :=
  json_struct [field "id" (json_string (chk_ID p)); field "thread" (json_string (chk_Thread p));
               field "address" (json_string (chk_Address p)); field "model" (json_string (chk_Model p));
               field "effort" (json_string (chk_Effort p)); field "message" (json_string (chk_Message p));
               field "startedAt" (json_time (chk_StartedAt p));
               omitempty (chk_Turn p == "") "turn" (json_string (chk_Turn p));
               omitempty (negb (chk_EvidenceComplete p)) "evidenceComplete" (json_bool (chk_EvidenceComplete p))].
Definition Concern_json (c : Concern) : json :=
  json_struct [field "key" (json_string (con_Key c)); field "summary" (json_string (con_Summary c));
               field "recommendation" (json_string (con_Recommendation c)); field "count" (json_int (con_Count c));
               omitempty (con_Response c == "") "response" (json_string (con_Response c))].
Definition Notice_json (n : Notice) : json :=
  json_struct [field "id" (json_string (not_ID n)); field "address" (json_string (not_Address n));
               field "message" (json_string (not_Message n))].
Definition Progress_json (s : Progress) : json :=
  json_struct [field "schema" (json_int (pr_Schema s)); field "root" (json_string (pr_Root s));
               field "paused" (json_bool (pr_Paused s));
               omitempty (pr_IntervalMinutes s =? 0) "intervalMinutes" (json_int (pr_IntervalMinutes s));
               field "lastCheck" (json_time (pr_LastCheck s));
               omitempty (bool_decide (pr_Pending s = None)) "pending" (json_ptr Check_json (pr_Pending s));
               omitempty (bool_decide (pr_Concern s = None)) "concern" (json_ptr Concern_json (pr_Concern s));
               omitempty (bool_decide (pr_Notice s = None)) "notice" (json_ptr Notice_json (pr_Notice s));
               omitempty (pr_Unavailable s == "") "unavailable" (json_string (pr_Unavailable s));
               omitempty (pr_PreviousEvidence s == "") "previousEvidence" (json_string (pr_PreviousEvidence s))].

Definition new_progress (root : string) : Progress :=
  mkProgress 1 root false 0 zero_time None None None "" "".

(** The directory by file name: the digest of the root. *)
Inductive progress_file :=
  | pf_state (s : Progress) (size : Z)
  | pf_unreadable (e : error).
Definition progress_path (root : string) : string := hash root +:+ ".json".

(** [Store.Load]; the state a failed load also returns is not used. *)
Definition Progress_Load (d : gmap string progress_file) (root : string) : result Progress :=
  match d !! progress_path root with
  | None => Ok (new_progress root)
  | Some (pf_unreadable e) => Err e
  | Some (pf_state s size) =>
      if 65536 <? size then Err (ErrorsNew "progress state exceeds limit")
      else if (pr_Schema s != 1) || (pr_Root s != root) then Err (ErrorsNew "progress state identity changed")
      else Ok s
  end.

(** [Store.Save], for an outcome of the file system; [mkdir] is the failure before it. *)
Definition Progress_Save (mkdir : option error) (outcome : write_outcome) (d : gmap string progress_file)
    (s : Progress) : gmap string progress_file * option error :=
  if (pr_Schema s != 1) || (pr_Root s == "") then (d, Some (ErrorsNew "invalid progress state")) else
  match Progress_json s with
  | None => (d, Some (ErrorsNew "json: error calling MarshalJSON"))
  | Some b =>
      if 65536 <? strlen b then (d, Some (ErrorsNew "progress state exceeds limit")) else
      match mkdir with
      | Some e => (d, Some e)
      | None =>
          let d' := <[progress_path (pr_Root s) := pf_state s (strlen b)]> d in
          match outcome with
          | write_failed e => (d, Some e)
          | write_unsynced e => (d', Some e)
          | write_ok => (d', None)
          end
      end
  end.

(** ** Theorems *)

Lemma append_cancel_r (x y z : string) : x +:+ z = y +:+ z → x = y.
Proof.
  assert (∀ a b : string, String.length (a +:+ b) = (String.length a + String.length b)%nat) as Hlen
    by (induction a as [|c a IH]; intros b; simpl; [done|by rewrite IH]).
  revert y. induction x as [|a x IH]; intros [|c y] Heq; [done| | |].
  - pose proof (f_equal String.length Heq) as H. rewrite !Hlen in H. simpl in H. lia.
  - pose proof (f_equal String.length Heq) as H. rewrite !Hlen in H. simpl in H. lia.
  - injection Heq as -> Heq. f_equal. by apply IH.
Qed.


Definition resolves (r : Result) (c : Concern) : Prop :=
  rst_Status r = "on_track" ∧ blank (rst_Evidence r) = false ∧
  ∃ v, rst_Resolution r = Some v ∧ rsl_Key v = con_Key c ∧ blank (rsl_Evidence v) = false.

(** Applying a result the parser accepts settles the pending check and keeps
    an open concern: it is closed only by an on-track result with nonblank progress
    evidence and nonblank resolution evidence for its own key, its key never
    changes, and its count grows exactly when the same concern is raised again.
    The active lead is challenged exactly when a concern is open afterwards, unless
    the observer was unavailable. *)
Theorem apply_keeps_concern d r s s' challenge :
  ParseResult d = Ok r → Apply s r = (s', challenge) →
  pr_Pending s' = None ∧ pr_LastCheck s' = pr_LastCheck s ∧ pr_Paused s' = pr_Paused s ∧
  (rst_Status r ≠ "unavailable" → challenge = Warning s') ∧
  match pr_Concern s with
  | Some c =>
      match pr_Concern s' with
      | Some c' => con_Key c' = con_Key c ∧ ¬ resolves r c ∧
          con_Count c' = (if (rst_Status r == "concern") && (rst_Key r == con_Key c) then i64 (con_Count c + 1) else con_Count c)
      | None => resolves r c
      end
  | None => ∀ c', pr_Concern s' = Some c' →
      rst_Status r = "concern" ∧ con_Key c' = rst_Key r ∧ con_Count c' = 1 ∧ keyPattern (con_Key c') = true
  end.
Proof.
  intros Hp Ha.
  assert (rst_Status r = "unavailable" ∨ rst_Status r = "on_track" ∨
    rst_Status r = "concern" ∧ keyPattern (rst_Key r) = true) as Hst.
  { unfold ParseResult in Hp. destruct d as [|r' extra]; [done|].
    destruct extra; [done|]. destruct (bad_resolution r'); [done|].
    destruct (is_unavailable r') eqn:Hu.
    { injection Hp as <-. unfold is_unavailable in Hu. rewrite !andb_true_iff in Hu. destruct_and! Hu.
      left. by eapply bool_decide_eq_true_1. }
    destruct (is_on_track r') eqn:Ho.
    { injection Hp as <-. unfold is_on_track in Ho. rewrite !andb_true_iff in Ho. destruct_and! Ho.
      right; left. by eapply bool_decide_eq_true_1. }
    destruct (bad_concern r') eqn:Hb; [done|]. injection Hp as <-. unfold bad_concern in Hb.
    rewrite !orb_false_iff, !negb_false_iff in Hb. destruct_and! Hb. right; right.
    split; [by eapply bool_decide_eq_true_1|done]. }
  unfold Apply in Ha. cbv zeta in Ha. simpl in Ha. unfold Warning, resolves.
  destruct Hst as [Hst|[Hst|[Hst Hk]]]; rewrite Hst in *; simpl in Ha.
  - injection Ha as <- <-. simpl. split_and!; try done. destruct (pr_Concern s); [|done].
    split_and!; try done. by intros [[=] _].
  - destruct (blank (rst_Evidence r)) eqn:He.
    { injection Ha as <- <-. simpl. split_and!; try done. destruct (pr_Concern s); [|done].
      split_and!; try done. by intros (_ & [=] & _). }
    destruct (pr_Concern s) as [c|] eqn:Hc; [|injection Ha as <- <-; simpl; by split_and!].
    destruct (rst_Resolution r) as [v|] eqn:Hv.
    + destruct ((rsl_Key v != con_Key c) || blank (rsl_Evidence v)) eqn:Hm; injection Ha as <- <-; simpl.
      * rewrite Hc. split_and!; try done. intros (_ & _ & v' & [= <-] & Hvk & Hve).
        rewrite Hvk, Hve, bool_decide_eq_true_2 in Hm by done. done.
      * split_and!; try done. exists v. apply orb_false_iff in Hm as [Hm1 Hm2].
        apply negb_false_iff, bool_decide_eq_true in Hm1. by split_and!.
    + injection Ha as <- <-. simpl. rewrite Hc. split_and!; try done. by intros (_ & _ & v' & [=] & _).
  - destruct (pr_Concern s) as [c|] eqn:Hc.
    + destruct (con_Key c == rst_Key r) eqn:Hkey; injection Ha as <- <-; simpl.
      * apply bool_decide_eq_true in Hkey. rewrite bool_decide_eq_true_2 by done.
        split_and!; try done. by intros [[=] _].
      * rewrite Hc. apply bool_decide_eq_false in Hkey. rewrite (bool_decide_eq_false_2 (rst_Key r = _)) by congruence.
        split_and!; try done. by intros [[=] _].
    + injection Ha as <- <-. simpl. split_and!; try done. by intros c' [= <-].
Qed.

Lemma apply_keeps_concern_witness :
  let r := mkResult "on_track" "tests pass" None "" "" "" in
  let s := new_progress "root" <| pr_Concern := Some (mkConcern "stuck" "No commits" "Commit" 2 "") |> in
  Warning (Apply s r).1 = true ∧ (Apply s r).2 = true.
Proof.
  cbv zeta. set (r := mkResult _ _ _ _ _ _). set (s := _ <| pr_Concern := _ |>).
  destruct (apply_keeps_concern (dr_value r false) r s (Apply s r).1 (Apply s r).2) as (_ & _ & _ & H & _).
  - vm_compute. reflexivity.
  - by destruct (Apply s r).
  - rewrite <- H by discriminate. split; vm_compute; reflexivity.
Defined.

(** A saved progress record is the one loaded for its root afterwards, also
    when only the directory sync failed; any other failure leaves every record as
    it was, and no other root's record is ever touched. *)
Theorem progress_save_load mkdir outcome d s d' e :
  Progress_Save mkdir outcome d s = (d', e) →
  (∀ root, hash root ≠ hash (pr_Root s) → Progress_Load d' root = Progress_Load d root) ∧
  match e with
  | None => Progress_Load d' (pr_Root s) = Ok s
  | Some _ => d' = d ∨ Progress_Load d' (pr_Root s) = Ok s
  end.
Proof.
  unfold Progress_Save. destruct ((pr_Schema s != 1) || (pr_Root s == "")) eqn:Hg; [intros [= <- <-]; by auto|].
  apply orb_false_iff in Hg as [Hs _]. apply negb_false_iff, bool_decide_eq_true in Hs.
  destruct (Progress_json s) as [b|]; [|intros [= <- <-]; by auto].
  destruct (65536 <? strlen b) eqn:Hb; [intros [= <- <-]; by auto|].
  destruct mkdir as [e0|]; [intros [= <- <-]; by auto|].
  assert (∀ root, hash root ≠ hash (pr_Root s) →
    Progress_Load (<[progress_path (pr_Root s) := pf_state s (strlen b)]> d) root = Progress_Load d root) as Hother.
  { intros root Hne. unfold Progress_Load. rewrite lookup_insert_ne; [done|]. unfold progress_path.
    intros Heq. by apply Hne, (append_cancel_r _ _ ".json"). }
  assert (Progress_Load (<[progress_path (pr_Root s) := pf_state s (strlen b)]> d) (pr_Root s) = Ok s) as Hown.
  { unfold Progress_Load. rewrite lookup_insert_eq, Hb, Hs, !bool_decide_eq_true_2 by done. done. }
  destruct outcome; intros [= <- <-]; auto.
Qed.

Lemma progress_save_load_witness :
  Progress_Load (Progress_Save None write_ok ∅ (new_progress "root")).1 "root" = Ok (new_progress "root").
Proof.
  destruct (progress_save_load None write_ok ∅ (new_progress "root") (Progress_Save None write_ok ∅ (new_progress "root")).1 None)
    as [_ H]; [vm_compute; reflexivity|exact H].
Defined.
