(* ===== verification/GoTimeParse.v ===== *)
(** * Parsing RFC 3339 instants

    [time.Parse(time.RFC3339Nano, ...)] as the standard library reads it: a
    one-digit hour, a comma before the fraction, digits after the ninth and zone
    offsets are accepted, the rest is checked.  A printed instant of the years 0 to
    9999 is parsed back to itself. *)

From S2P Require Import Prelude GoStrings GoJson GoDecimal GoTime.
From Stdlib Require Import Ascii.
From stdpp Require Import pretty.

Open Scope Z_scope.

(** ** Days *)

Definition is_leap (y : Z) : bool := (y `mod` 4 =? 0) && ((negb (y `mod` 100 =? 0)) || (y `mod` 400 =? 0)).
Definition days_in (y m : Z) : Z :=
  if m =? 2 then (if is_leap y then 29 else 28)
  else if (m =? 4) || (m =? 6) || (m =? 9) || (m =? 11) then 30 else 31.

(** The day number of a Gregorian date, by eras of 400 years that start in March. *)
Definition day_of_era (yoe m d : Z) : Z :=
  yoe * 365 + yoe `div` 4 - yoe `div` 100 + ((153 * (if 2 <? m then m - 3 else m + 9) + 2) `div` 5 + d - 1).
Definition day_number (y m d : Z) : Z :=
  let y := if m <=? 2 then y - 1 else y in
  let era := y `div` 400 in
  era * 146097 + day_of_era (y - era * 400) m d - 719468.

(** ** The parser *)

Definition scanner (A : Type) : Type := list ascii → option (A * list ascii).
Definition literal (c : ascii) (l : list ascii) : option (list ascii) :=
  match l with d :: l => if is_char c d then Some l else None | [] => None end.

(** [getnum]: two digits, or one where the layout allows it. *)
Definition getnum (fixed : bool) : scanner Z := λ l,
  match l with
  | a :: b :: r =>
      if negb (is_digit a) then None
      else if is_digit b then Some (10 * digit a + digit b, r)
      else if fixed then None else Some (digit a, b :: r)
  | [a] => if negb (is_digit a) || fixed then None else Some (digit a, [])
  | [] => None
  end.

Definition year : scanner Z := λ l,
  match l with
  | a :: b :: c :: d :: r => if forallb is_digit [a; b; c; d] then Some (digits_value 0 [a; b; c; d], r) else None
  | _ => None
  end.

(** The optional fraction; digits after the ninth are read and ignored. *)
Definition nanoseconds : scanner Z := λ l,
  match l with
  | c :: d :: _ =>
      if (is_char c "."%char || is_char c ","%char) && is_digit d
      then let '(ds, r) := take_digits (tail l) in
           let ds := firstn 9 ds in
           Some (digits_value 0 ds * 10 ^ Z.of_nat (9 - length ds), r)
      else Some (0, l)
  | _ => Some (0, l)
  end.

(** [Z07:00]: the offset in seconds. *)
Definition zone : scanner Z := λ l,
  match l with
  | "Z"%char :: r => Some (0, r)
  | sign :: a :: b :: ":"%char :: c :: d :: r =>
      '(hour, _) ← getnum true [a; b]; '(minute, _) ← getnum true [c; d];
      if (24 <? hour) || (60 <? minute) then None
      else if is_char sign "+"%char then Some (hour * 3600 + minute * 60, r)
      else if is_char sign "-"%char then Some (- (hour * 3600 + minute * 60), r)
      else None
  | _ => None
  end.

Definition parse_rfc3339 (s : string) : option Time :=
  '(y, l) ← year (chars s); l ← literal "-" l;
  '(mo, l) ← getnum true l; (if (1 <=? mo) && (mo <=? 12) then Some tt else None);; l ← literal "-" l;
  '(d, l) ← getnum true l; l ← literal "T" l;
  '(h, l) ← getnum false l; (if h <? 24 then Some tt else None);; l ← literal ":" l;
  '(mi, l) ← getnum true l; (if mi <? 60 then Some tt else None);; l ← literal ":" l;
  '(sec, l) ← getnum true l; (if sec <? 60 then Some tt else None);;
  '(ns, l) ← nanoseconds l;
  '(offset, l) ← zone l;
  if bool_decide (l = []) && (1 <=? d) && (d <=? days_in y mo)
  then Some ((day_number y mo d * 86400 + h * 3600 + mi * 60 + sec - offset) * 1000000000 + ns)
  else None.

Example parse_samples :
  map parse_rfc3339 ["2024-02-29T12:34:56.00000012Z"; "2023-02-29T00:00:00Z"; "1970-01-01T1:00:00,5+01:00"; "now"]
  = [Some (1709210096 * 1000000000 + 120); None; Some 500000000; None].
Proof. vm_compute. reflexivity. Qed.

(** ** A printed instant is read back *)

Definition year_of (t : Time) : Z := (civil (t `div` 1000000000 `div` 86400)).1.1.

(** The date of a day of an era, and whether it is that day's: checked for all the
    146097 days. *)
Definition era_date (doe : Z) : Z * Z * Z :=
  let yoe := (doe - doe `div` 1460 + doe `div` 36524 - doe `div` 146096) `div` 365 in
  let doy := doe - (365 * yoe + yoe `div` 4 - yoe `div` 100) in
  let mp := (5 * doy + 2) `div` 153 in
  (yoe, if mp <? 10 then mp + 3 else mp - 9, doy - (153 * mp + 2) `div` 5 + 1).
Definition carry (m : Z) : Z := if m <=? 2 then 1 else 0.
Definition era_day_ok (doe : Z) : bool :=
  let '(yoe, m, d) := era_date doe in
  (0 <=? yoe) && (yoe <? 400) && (1 <=? m) && (m <=? 12) && (1 <=? d) && (d <=? days_in (yoe + carry m) m)
  && (day_of_era yoe m d =? doe).
Fixpoint all_from (n : nat) (z : Z) (p : Z → bool) : bool :=
  match n with O => true | S n => p z && all_from n (z + 1) p end.
Lemma all_from_spec n z p x : all_from n z p = true → z <= x < z + Z.of_nat n → p x = true.
Proof.
  revert z. induction n as [|n IH]; intros z; [lia|]. cbn [all_from]. rewrite andb_true_iff. intros [Hp H] Hx.
  destruct (decide (x = z)) as [->|]; [done|]. apply (IH (z + 1)); [done|lia].
Qed.
Lemma era_days_ok : all_from (Z.to_nat 146097) 0 era_day_ok = true.
Proof. vm_cast_no_check (@eq_refl bool true). Qed.

Lemma is_leap_era y era : is_leap (y + era * 400) = is_leap y.
Proof.
  unfold is_leap. replace (y + era * 400) with (y + (era * 100) * 4) at 1 by lia.
  replace ((y + era * 400) `mod` 100) with ((y + (era * 4) * 100) `mod` 100) by (f_equal; lia).
  by rewrite !Z.mod_add.
Qed.

Lemma civil_day days : let '(y, m, d) := civil days in
  day_number y m d = days ∧ 1 <= m <= 12 ∧ 1 <= d <= days_in y m.
Proof.
  set (z := days + 719468). set (era := z `div` 146097). set (doe := z - era * 146097).
  assert (0 <= doe < 146097) as Hdoe by (unfold doe, era; pose proof (Z.mod_pos_bound z 146097); rewrite Z.mod_eq in *; lia).
  pose proof (all_from_spec _ 0 _ doe era_days_ok ltac:(lia)) as Hok. unfold era_day_ok in Hok.
  assert (civil days = let '(yoe, m, d) := era_date doe in (yoe + era * 400 + carry m, m, d)) as -> by reflexivity.
  destruct (era_date doe) as [[yoe m] d]. rewrite !andb_true_iff in Hok. destruct Hok as [[[[[[H1 H2] H3] H4] H5] H6] H7].
  split; [|split; [lia|]].
  - unfold day_number, carry in *. set (y' := if m <=? 2 then _ else _).
    assert (y' = yoe + era * 400) as -> by (unfold y'; destruct (m <=? 2); lia).
    rewrite Z.div_add, (Z.div_small yoe 400) by lia. replace (yoe + era * 400 - (0 + era) * 400) with yoe by lia.
    apply Z.eqb_eq in H7. rewrite H7. unfold doe, z. lia.
  - replace (yoe + era * 400 + carry m) with (yoe + carry m + era * 400) by lia.
    unfold days_in in *. rewrite is_leap_era. lia.
Qed.

(** *** Padded numbers *)

Record digits_of (k : nat) (z : Z) (l : list ascii) : Prop := {
  dg_length : length l = k; dg_digits : forallb is_digit l = true; dg_value : digits_value 0 l = z }.

Lemma pad_digits k s : forallb is_digit (chars s) = true →
  length (chars (pad k s)) = max k (length (chars s)) ∧ forallb is_digit (chars (pad k s)) = true ∧
  digits_value 0 (chars (pad k s)) = digits_value 0 (chars s).
Proof.
  intros Hs. induction k as [|k (IH1 & IH2 & IH3)]; [split_and!; done|]. cbn [pad].
  destruct (k <? String.length s)%nat eqn:E.
  - apply Nat.ltb_lt in E. rewrite chars_length. split_and!; try done. lia.
  - apply Nat.ltb_ge in E. rewrite chars_app.
    change (chars "0" ++ chars (pad k s)) with ("0"%char :: chars (pad k s)). rewrite <- chars_length in E.
    split_and!; [cbn [length]; rewrite IH1; lia|exact IH2|exact IH3].
Qed.

Lemma padded_digits k z : (0 < k)%nat → 0 <= z < 10 ^ Z.of_nat k → digits_of k z (chars (padded k z)).
Proof.
  intros Hk Hz. unfold padded.
  assert (forallb is_digit (chars (pretty z)) = true ∧ digits_value 0 (chars (pretty z)) = z ∧ (length (chars (pretty z)) <= k)%nat)
    as (H1 & H2 & H3).
  { destruct z as [|p|p]; [split_and!; [done|done|simpl; lia]| |lia]. change (pretty (Zpos p)) with (pretty_N_go (Npos p) "").
    destruct (pretty_go_digits (Npos p) "" eq_refl) as (H1 & H2 & _). split_and!; [done|exact H2|].
    rewrite chars_length. etrans; [apply (pretty_go_length k)|simpl; lia].
    apply N2Z.inj_lt. rewrite N2Z.inj_pow, nat_N_Z. simpl Z.of_N. lia. }
  destruct (pad_digits k _ H1) as (L & D & V). split; [rewrite L; lia|done|by rewrite V].
Qed.

Lemma two_digits z l : 0 <= z < 100 → getnum true (chars (padded 2 z) ++ l) = Some (z, l) ∧ getnum false (chars (padded 2 z) ++ l) = Some (z, l).
Proof.
  intros Hz. destruct (padded_digits 2 z) as [L D V]; [lia|lia|].
  destruct (chars (padded 2 z)) as [|a [|b [|]]]; try done. unfold digits_value in V. simpl in V, D.
  rewrite !andb_true_iff in D. destruct D as (Ha & Hb & _). unfold getnum. simpl. rewrite Ha, Hb. cbn [negb].
  split; repeat f_equal; lia.
Qed.

Lemma four_digits z l : 0 <= z <= 9999 → year (chars (padded 4 z) ++ l) = Some (z, l).
Proof.
  intros Hz. destruct (padded_digits 4 z) as [L D V]; [lia|lia|].
  destruct (chars (padded 4 z)) as [|a [|b [|c [|d [|]]]]]; try done. unfold year. cbn [app]. by rewrite D, V.
Qed.

(** *** The fraction *)

Lemma take_digits_app ds l : forallb is_digit ds = true → head l = Some "Z"%char → take_digits (ds ++ l) = (ds, l).
Proof.
  intros Hd Hl. induction ds as [|d ds IH]; simpl.
  - destruct l as [|c l]; [done|]. by injection Hl as ->.
  - simpl in Hd. apply andb_true_iff in Hd as [-> Hd]. by rewrite IH.
Qed.

(** The digits without trailing zeros, and how many were dropped. *)
Lemma fraction_digits fuel k ns : (0 < k <= fuel)%nat → 0 < ns < 10 ^ Z.of_nat k →
  ∃ j, (0 < j <= k)%nat ∧ digits_of j (ns `div` 10 ^ Z.of_nat (k - j)) (chars (fraction fuel k ns)) ∧
       ns = ns `div` 10 ^ Z.of_nat (k - j) * 10 ^ Z.of_nat (k - j).
Proof.
  revert k ns. induction fuel as [|fuel IH]; intros k ns Hk Hns; [lia|]. cbn [fraction].
  destruct (ns `mod` 10 =? 0) eqn:E.
  - apply Z.eqb_eq in E. pose proof (Z.div_mod ns 10 ltac:(lia)) as Hdm. rewrite E in Hdm.
    destruct k as [|[|k]]; [lia|simpl in Hns; lia|]. cbn [pred].
    assert (10 ^ Z.of_nat (S (S k)) = 10 * 10 ^ Z.of_nat (S k)) as Hp by (rewrite (Nat2Z.inj_succ (S k)), Z.pow_succ_r; lia).
    destruct (IH (S k) (ns `div` 10)) as (j & Hj & Hd & Heq); [lia|lia|].
    exists j. split; [lia|]. replace (S (S k) - j)%nat with (S (S k - j)) by lia.
    rewrite (Nat2Z.inj_succ (S k - j)), Z.pow_succ_r by lia. rewrite <- Z.div_div by lia. split; [done|]. lia.
  - exists k. rewrite Nat.sub_diag, Z.pow_0_r, Z.div_1_r. split; [lia|]. split; [apply padded_digits; lia|lia].
Qed.

Lemma nanoseconds_text ns : 0 <= ns < 1000000000 →
  nanoseconds (chars (fraction_text ns) ++ ["Z"%char]) = Some (ns, ["Z"%char]).
Proof.
  intros Hns. unfold fraction_text. destruct (ns =? 0) eqn:E; [apply Z.eqb_eq in E; by subst|].
  apply Z.eqb_neq in E. destruct (fraction_digits 9 9 ns) as (j & Hj & [L D V] & Heq); [lia|simpl; lia|].
  rewrite chars_app. change (chars ".") with ["."%char].
  destruct (chars (fraction 9 9 ns)) as [|d ds]; [simpl in L; lia|].
  pose proof D as D'. cbn [forallb] in D'. apply andb_true_iff in D' as [Hd _].
  unfold nanoseconds. cbn [app tail]. rewrite Hd. change (is_char "." ".") with true. cbn [orb andb].
  change (d :: ds ++ ["Z"%char]) with ((d :: ds) ++ ["Z"%char]). rewrite take_digits_app by done. cbv zeta iota beta.
  assert (firstn 9 (d :: ds) = d :: ds) as -> by (apply firstn_all2; lia). rewrite L, V. repeat f_equal. lia.
Qed.

Lemma rfc3339_parsed t : 0 <= year_of t <= 9999 → parse_rfc3339 (rfc3339 t) = Some t.
Proof.
  unfold year_of, rfc3339. set (s := t `div` 1000000000). set (r := s `mod` 86400).
  pose proof (civil_day (s `div` 86400)) as Hc. destruct (civil (s `div` 86400)) as [[y m] d]. simpl fst.
  destruct Hc as (Hday & Hm & Hd). intros Hy.
  assert (0 <= r < 86400) as Hr by (apply Z.mod_pos_bound; lia).
  assert (d <= 31) as Hd31 by (unfold days_in in Hd; repeat case_match; lia).
  assert (0 <= r `div` 3600 < 24) as H1 by (split; [apply Z.div_pos|apply Z.div_lt_upper_bound]; lia).
  assert (0 <= r `mod` 3600 < 3600) as H2 by (apply Z.mod_pos_bound; lia).
  assert (0 <= (r `mod` 3600) `div` 60 < 60) as H3 by (split; [apply Z.div_pos|apply Z.div_lt_upper_bound]; lia).
  assert (0 <= r `mod` 60 < 60) as H4 by (apply Z.mod_pos_bound; lia).
  assert (0 <= t `mod` 1000000000 < 1000000000) as H5 by (apply Z.mod_pos_bound; lia).
  assert (s `div` 86400 * 86400 + r `div` 3600 * 3600 + (r `mod` 3600) `div` 60 * 60 + r `mod` 60 = s) as Hs.
  { pose proof (Z.div_mod s 86400 ltac:(lia)). fold r in H. pose proof (Z.div_mod r 3600 ltac:(lia)).
    pose proof (Z.div_mod (r `mod` 3600) 60 ltac:(lia)).
    replace (r `mod` 60) with ((r `mod` 3600) `mod` 60); [lia|].
    change 3600 with (60 * 60). rewrite Z.rem_mul_r by lia.
    rewrite (Z.mul_comm 60 (_ `mod` _)), Z.mod_add, Z.mod_mod; lia. }
  unfold parse_rfc3339. rewrite !chars_app. cbn [mbind option_bind].
  rewrite four_digits by lia. cbn [mbind option_bind literal app chars]. change (is_char "-" "-") with true. cbv iota.
  cbn [mbind option_bind]. rewrite (proj1 (two_digits m _ ltac:(lia))). cbn [mbind option_bind].
  assert ((1 <=? m) && (m <=? 12) = true) as -> by lia. cbn [mbind option_bind literal app chars].
  change (is_char "-" "-") with true. cbv iota. cbn [mbind option_bind].
  rewrite (proj1 (two_digits d _ ltac:(lia))). cbn [mbind option_bind literal app chars].
  change (is_char "T" "T") with true. cbv iota. cbn [mbind option_bind].
  rewrite (proj2 (two_digits (r `div` 3600) _ ltac:(lia))). cbn [mbind option_bind].
  assert ((r `div` 3600 <? 24) = true) as -> by lia. cbn [mbind option_bind literal app chars].
  change (is_char ":" ":") with true. cbv iota. cbn [mbind option_bind].
  rewrite (proj1 (two_digits ((r `mod` 3600) `div` 60) _ ltac:(lia))). cbn [mbind option_bind].
  assert (((r `mod` 3600) `div` 60 <? 60) = true) as -> by lia. cbn [mbind option_bind literal app chars].
  change (is_char ":" ":") with true. cbv iota. cbn [mbind option_bind].
  rewrite (proj1 (two_digits (r `mod` 60) _ ltac:(lia))). cbn [mbind option_bind].
  assert ((r `mod` 60 <? 60) = true) as -> by lia. cbn [mbind option_bind].
  rewrite nanoseconds_text by done. cbn [mbind option_bind zone].
  rewrite bool_decide_eq_true_2 by done.
  assert ((1 <=? d) && (d <=? days_in y m) = true) as Hdd by lia. cbn [andb]. rewrite Hdd. f_equal.
  rewrite Hday. pose proof (Z.div_mod t 1000000000 ltac:(lia)). fold s in H. lia.
Qed.
