(* ===== verification/GoUtf8.v ===== *)
(** * Valid UTF-8

    Concatenation and cutting of valid text, [strings.ToValidUTF8], and that
    [strings.TrimSpace] keeps text valid. *)

From S2P Require Import Prelude GoStrings GoJson GoDecimal.
From Stdlib Require Import Ascii.

Open Scope Z_scope.

(** [strings.ToValidUTF8]: each run of invalid bytes becomes one replacement. *)
Definition replacement : string := string_of [239; 191; 189].
Fixpoint to_valid (bad : bool) (s : string) : string :=
  let invalid rest := (if bad then "" else replacement) +:+ to_valid true rest in
  match s with
  | EmptyString => ""
  | String a s1 =>
      if code a <? 128 then String a (to_valid false s1) else
      match s1 with
      | EmptyString => invalid s1
      | String b s2 =>
          if utf8_two (code a) (code b) then String a (String b (to_valid false s2)) else
          match s2 with
          | EmptyString => invalid s1
          | String c s3 =>
              if utf8_three (code a) (code b) (code c) then String a (String b (String c (to_valid false s3))) else
              match s3 with
              | EmptyString => invalid s1
              | String d s4 =>
                  if utf8_four (code a) (code b) (code c) (code d)
                  then String a (String b (String c (String d (to_valid false s4))))
                  else invalid s1
              end
          end
      end
  end.
Definition ToValidUTF8 (s : string) : string := to_valid false s.

(** ** Valid text, rune by rune *)

Inductive runes : string → Prop :=
  | runes_nil : runes ""
  | runes_1 a s : (code a <? 128) = true → runes s → runes (String a s)
  | runes_2 a b s : (code a <? 128) = false → utf8_two (code a) (code b) = true → runes s → runes (String a (String b s))
  | runes_3 a b c s : (code a <? 128) = false → utf8_two (code a) (code b) = false →
      utf8_three (code a) (code b) (code c) = true → runes s → runes (String a (String b (String c s)))
  | runes_4 a b c d s : (code a <? 128) = false → utf8_two (code a) (code b) = false →
      utf8_three (code a) (code b) (code c) = false → utf8_four (code a) (code b) (code c) (code d) = true →
      runes s → runes (String a (String b (String c (String d s)))).

Lemma string_length_ind (P : string → Prop) :
  (∀ s, (∀ s', (String.length s' < String.length s)%nat → P s') → P s) → ∀ s, P s.
Proof.
  intros H s. remember (String.length s) as n eqn:E. revert s E.
  induction (lt_wf n) as [n _ IH]. intros s ->. apply H. intros s' Hs'. by apply (IH (String.length s')).
Qed.

Lemma utf8_runes s : utf8_valid s = true ↔ runes s.
Proof.
  split.
  - induction s as [s IH] using string_length_ind. destruct s as [|a s1]; [constructor|]. cbn [utf8_valid].
    destruct (code a <? 128) eqn:E1; [intros H; constructor; [done|apply IH; [simpl; lia|done]]|].
    destruct s1 as [|b s2]; [done|]. destruct (utf8_two (code a) (code b)) eqn:E2.
    { intros H. apply runes_2; [done..|]. apply IH; [simpl; lia|done]. }
    destruct s2 as [|c s3]; [done|]. destruct (utf8_three _ _ _) eqn:E3.
    { intros H. apply runes_3; [done..|]. apply IH; [simpl; lia|done]. }
    destruct s3 as [|d s4]; [done|]. rewrite andb_true_iff. intros [E4 H]. apply runes_4; [done..|].
    apply IH; [simpl; lia|done].
  - induction 1; cbn [utf8_valid]; repeat match goal with H : ?b = _ |- context [?b] => rewrite H; cbv iota end; try done.
Qed.

Lemma runes_app a b : runes a → runes b → runes (a +:+ b).
Proof. intros Ha Hb. induction Ha; rewrite ?append_cons; try done; by constructor. Qed.

Lemma runes_cancel a b : runes a → runes (a +:+ b) → runes b.
Proof.
  intros Ha. induction Ha; rewrite ?append_cons; try done; intros Hx; inversion Hx; subst; try congruence; auto.
Qed.

(** Cutting before a byte that starts a rune. *)
Definition starts_rune (s : string) : Prop := match s with String c _ => cont (code c) = false | EmptyString => True end.
Lemma two_cont a b : utf8_two a b = true → cont b = true.
Proof. unfold utf8_two. by intros [_ ?]%andb_prop. Qed.
Lemma three_cont a b c : utf8_three a b c = true → cont b = true ∧ cont c = true.
Proof.
  unfold utf8_three, cont, in_range. intros [H Hc]%andb_prop. split; [|done].
  rewrite !orb_true_iff, !andb_true_iff in H. lia.
Qed.
Lemma four_cont a b c d : utf8_four a b c d = true → cont b = true ∧ cont c = true ∧ cont d = true.
Proof.
  unfold utf8_four, cont, in_range. intros [[H Hc]%andb_prop Hd]%andb_prop. split_and!; try done.
  rewrite !orb_true_iff, !andb_true_iff in H. lia.
Qed.

Lemma runes_cut a b : starts_rune b → runes (a +:+ b) → runes a.
Proof.
  intros Hb. induction a as [a IH] using string_length_ind.
  destruct a as [|x a]; [constructor|]. rewrite append_cons. intros H. inversion H as [|? ? H1 Hr E|? y s H1 H2 Hr E|? y z s H1 H2 H3 Hr E|? y z w s H1 H2 H3 H4 Hr E]; subst.
  - constructor; [done|]. apply IH; [simpl; lia|done].
  - destruct a as [|y' a]; [rewrite append_nil in *; destruct b; [done|]; simplify_eq; apply two_cont in H2; simpl in Hb; congruence|].
    rewrite append_cons in *. simplify_eq. apply runes_2; [done..|]. apply IH; [simpl; lia|done].
  - apply three_cont in H3 as Hc. destruct Hc as [Hc1 Hc2].
    destruct a as [|y' [|z' a]]; rewrite ?append_cons, ?append_nil in *; [destruct b; [done|]; simplify_eq; simpl in Hb; congruence..|].
    simplify_eq. apply runes_3; [done..|]. apply IH; [simpl; lia|done].
  - apply four_cont in H4 as Hc. destruct Hc as (Hc1 & Hc2 & Hc3).
    destruct a as [|y' [|z' [|w' a]]]; rewrite ?append_cons, ?append_nil in *; [destruct b; [done|]; simplify_eq; simpl in Hb; congruence..|].
    simplify_eq. apply runes_4; [done..|]. apply IH; [simpl; lia|done].
Qed.

Lemma to_valid_runes s : ∀ bad, runes (to_valid bad s).
Proof.
  induction s as [s IH] using string_length_ind. intros bad.
  assert (∀ s1, (String.length s1 < String.length s)%nat → runes ((if bad then "" else replacement) +:+ to_valid true s1)) as Hinv.
  { intros s1 Hs1. apply runes_app; [|by apply IH]. destruct bad; [constructor|]. by apply utf8_runes. }
  destruct s as [|a s1]; [constructor|]. cbn [to_valid].
  destruct (code a <? 128) eqn:E1; [constructor; [done|apply IH; simpl; lia]|].
  destruct s1 as [|b s2]; [apply Hinv; simpl; lia|]. destruct (utf8_two (code a) (code b)) eqn:E2.
  { apply runes_2; [done..|]. apply IH; simpl; lia. }
  destruct s2 as [|c s3]; [apply Hinv; simpl; lia|]. destruct (utf8_three _ _ _) eqn:E3.
  { apply runes_3; [done..|]. apply IH; simpl; lia. }
  destruct s3 as [|d s4]; [apply Hinv; simpl; lia|]. destruct (utf8_four _ _ _ _) eqn:E4.
  - apply runes_4; [done..|]. apply IH; simpl; lia.
  - apply Hinv; simpl; lia.
Qed.

(** Valid text is kept. *)
Lemma to_valid_id s : runes s → ∀ bad, to_valid bad s = s.
Proof.
  induction 1; intros bad; cbn [to_valid]; repeat match goal with H : ?b = _ |- context [?b] => rewrite H; cbv iota end;
    repeat f_equal; auto.
Qed.

(** ** [strings.TrimSpace] *)

Lemma byte_chr_code c : byte_chr (code c) = c.
Proof. apply code_inj. rewrite code_byte_chr; [done|]. apply code_range. Qed.
Lemma string_of_bytes s : string_of (bytes_of s) = s.
Proof. induction s as [|c s IH]; [done|]. simpl. by rewrite IH, byte_chr_code. Qed.
Lemma string_of_app l k : string_of (l ++ k) = string_of l +:+ string_of k.
Proof. induction l as [|z l IH]; [done|]. simpl. by rewrite append_cons, IH. Qed.
Lemma string_of_length l : String.length (string_of l) = length l.
Proof. induction l as [|z l IH]; simpl; congruence. Qed.
Lemma bytes_of_length s : length (bytes_of s) = String.length s.
Proof. induction s as [|z l IH]; simpl; congruence. Qed.

Lemma strip_prefix_app p l r : strip_prefix p l = Some r → l = p ++ r.
Proof.
  revert l. induction p as [|x p IH]; intros [|y l]; simpl; try congruence.
  destruct (x =? y) eqn:E; [|done]. apply Z.eqb_eq in E as ->. intros H%IH. congruence.
Qed.
Lemma strip_first_app ps l r : strip_first ps l = Some r → ∃ p, p ∈ ps ∧ l = p ++ r.
Proof.
  induction ps as [|p ps IH]; simpl; [done|]. destruct (strip_prefix p l) as [r'|] eqn:E.
  - intros [= ->]. exists p. split; [set_solver|by apply strip_prefix_app].
  - intros (q & Hq & ->)%IH. exists q. split; [set_solver|done].
Qed.
Lemma trim_left_app fuel ps l : ∃ qs, Forall (λ q, q ∈ ps) qs ∧ l = concat qs ++ trim_left fuel ps l.
Proof.
  revert l. induction fuel as [|fuel IH]; intros l; [by exists []|]. cbn [trim_left].
  destruct (strip_first ps l) as [r|] eqn:E; [|by exists []].
  apply strip_first_app in E as (p & Hp & ->). destruct (IH r) as (qs & Hqs & Hr).
  exists (p :: qs). split; [by constructor|]. simpl. rewrite <- app_assoc. by f_equal.
Qed.

Lemma trim_space_parts l : ∃ ps qs, Forall (λ q, q ∈ space_encodings) ps ∧ Forall (λ q, q ∈ space_encodings) qs ∧
  l = concat ps ++ trim_space_bytes l ++ concat qs.
Proof.
  unfold trim_space_bytes. destruct (trim_left_app (length l) space_encodings l) as (ps & Hps & Hl).
  set (m := trim_left (length l) space_encodings l) in *.
  destruct (trim_left_app (length m) (map (@rev Z) space_encodings) (rev m)) as (qs & Hqs & Hm).
  exists ps, (rev (map (@rev Z) qs)). split; [done|]. split.
  - apply Forall_rev, Forall_map. eapply Forall_impl; [exact Hqs|]. intros q Hq. simpl.
    apply list_elem_of_In, in_map_iff in Hq as (q' & <- & Hq). rewrite rev_involutive. by apply list_elem_of_In.
  - assert (∀ ls : list (list Z), concat (rev (map (@rev Z) ls)) = rev (concat ls)) as Hc.
    { induction ls as [|x ls IH]; [done|]. simpl. by rewrite concat_app, IH, rev_app_distr, app_nil_r || (rewrite concat_app, IH, rev_app_distr; simpl; by rewrite app_nil_r). }
    rewrite Hc, <- rev_app_distr, <- Hm, rev_involutive. exact Hl.
Qed.

Lemma space_runes q : q ∈ space_encodings → runes (string_of q) ∧ starts_rune (string_of q) ∧ q ≠ [].
Proof.
  intros Hq. assert (forallb (λ q, utf8_valid (string_of q) && (match q with z :: _ => negb (cont z) && in_range 0 255 z | [] => false end))
    space_encodings = true) as H by (vm_compute; reflexivity).
  rewrite forallb_forall in H. apply list_elem_of_In in Hq. apply H in Hq. apply andb_true_iff in Hq as [H1 H2].
  split; [by apply utf8_runes|]. destruct q as [|z q]; [done|]. split; [|done]. simpl.
  apply andb_true_iff in H2 as [H2 H3]. apply negb_true_iff in H2. unfold in_range in H3. rewrite code_byte_chr; [done|lia].
Qed.
Lemma spaces_runes qs : Forall (λ q, q ∈ space_encodings) qs → runes (string_of (concat qs)) ∧ starts_rune (string_of (concat qs)).
Proof.
  induction 1 as [|q qs Hq _ [IH _]]; [split; constructor|]. destruct (space_runes q Hq) as (H1 & H2 & H3). simpl.
  rewrite string_of_app. split; [by apply runes_app|]. by destruct q.
Qed.

Lemma trim_space_runes s : runes s → runes (TrimSpace s) ∧ (String.length (TrimSpace s) <= String.length s)%nat.
Proof.
  intros Hs. unfold TrimSpace. destruct (trim_space_parts (bytes_of s)) as (ps & qs & Hps & Hqs & Hl).
  set (m := trim_space_bytes (bytes_of s)) in *.
  assert (s = string_of (concat ps) +:+ (string_of m +:+ string_of (concat qs))) as E.
  { by rewrite <- !string_of_app, <- Hl, string_of_bytes. }
  split.
  - rewrite E in Hs. apply runes_cancel in Hs; [|by apply spaces_runes]. by eapply runes_cut, Hs; apply spaces_runes.
  - rewrite string_of_length, <- bytes_of_length, Hl, !length_app. lia.
Qed.
