(* ===== verification/LifecycleTypes.v ===== *)
(** * Lifecycle receipts: data

    Types of [web/server.go], [web/operation_state.go], [web/operation_store.go] and
    [web/lifecycle_target.go]: the durable receipt of an archive, delete or revive
    request, its validity, its JSON text, and what the command's journal says. *)

From S2P Require Import Prelude Effects GoStrings Sha256 GoJson GoDecimal Codex RetryValidate GoTime Communication GoTimeParse GoUtf8.
From Stdlib Require Import Ascii.

Open Scope Z_scope.

Definition lifecycleOperationSuccessRetention : Z := 15 * 60 * 1000000000.
Definition maxLifecycleOperationErrorBytes : Z := 4096.
Definition lifecycleTargetIdentityVersion : Z := 2.
Definition lifecycleOperationStoreSchema : Z := 2.
Definition maxLifecycleOperationStoreBytes : Z := 256 * 1024.
Definition maxLifecycleOperationRecords : Z := 512.

(** A Go pointer: its address, which [==] compares, and what it points to. *)
Record ref (A : Type) := mkRef { ref_address : Z; ref_value : A }.
Arguments mkRef {A}. Arguments ref_address {A}. Arguments ref_value {A}.

Record TrackingSyncStatus := mkTrackingSync { tsy_State : string; tsy_Error : string; tsy_UpdatedAt : string }.
Record ArchiveProgress := mkArchiveProgress {
  apr_Schema : Z; apr_Workspace : string; apr_Slug : string; apr_OperationID : string; apr_Stage : string;
  apr_Path : string; apr_UpdatedAt : string }.
Record lifecycleTargetSnapshot := mkTarget {
  lts_TargetID : string; lts_TargetIdentityVersion : Z; lts_Slug : string; lts_Location : string;
  lts_Lifecycle : string; lts_ThreadID : string; lts_Archived : bool }.

Record lifecycleOperationOptions := mkOptions {
  opt_Mode : string; opt_AllowAbandoned : bool; opt_Force : bool; opt_TargetID : string;
  opt_DeletedThreadID : string; opt_JournalID : string; opt_JournalExpected : bool;
  opt_TargetLocation : string; opt_JournalEvidence : string; opt_JournalTargetID : string;
  opt_JournalTargetLocation : string }.
#[export] Instance eta_Options : Eta lifecycleOperationOptions := λ o,
  mkOptions (opt_Mode o) (opt_AllowAbandoned o) (opt_Force o) (opt_TargetID o) (opt_DeletedThreadID o)
    (opt_JournalID o) (opt_JournalExpected o) (opt_TargetLocation o) (opt_JournalEvidence o)
    (opt_JournalTargetID o) (opt_JournalTargetLocation o).

Record lifecycleOperation := mkOperation {
  op_Slug : string; op_Kind : string; op_State : string; op_Phase : string; op_StartedAt : string;
  op_UpdatedAt : string; op_FinishedAt : string; op_TrackingSync : option (ref TrackingSyncStatus);
  op_Progress : option (ref ArchiveProgress); op_Error : string; op_Redirect : string; op_ReceiptID : string;
  op_TargetIdentityVersion : Z; op_Attempt : Z; op_CurrentTarget : option (ref lifecycleTargetSnapshot);
  op_ErrorCode : string; op_Options : lifecycleOperationOptions }.
#[export] Instance eta_Operation : Eta lifecycleOperation := λ o,
  mkOperation (op_Slug o) (op_Kind o) (op_State o) (op_Phase o) (op_StartedAt o) (op_UpdatedAt o) (op_FinishedAt o)
    (op_TrackingSync o) (op_Progress o) (op_Error o) (op_Redirect o) (op_ReceiptID o) (op_TargetIdentityVersion o)
    (op_Attempt o) (op_CurrentTarget o) (op_ErrorCode o) (op_Options o).

#[export] Instance ref_eq_dec {A} `{EqDecision A} : EqDecision (ref A).
Proof. solve_decision. Defined.
#[export] Instance TrackingSync_eq_dec : EqDecision TrackingSyncStatus.
Proof. solve_decision. Defined.
#[export] Instance ArchiveProgress_eq_dec : EqDecision ArchiveProgress.
Proof. solve_decision. Defined.
#[export] Instance Target_eq_dec : EqDecision lifecycleTargetSnapshot.
Proof. solve_decision. Defined.
#[export] Instance Options_eq_dec : EqDecision lifecycleOperationOptions.
Proof. solve_decision. Defined.
#[export] Instance Operation_eq_dec : EqDecision lifecycleOperation.
Proof. solve_decision. Defined.

(** The zero [lifecycleOperation]. *)
Definition no_options : lifecycleOperationOptions := mkOptions "" false false "" "" "" false "" "" "" "".
Definition no_operation : lifecycleOperation :=
  mkOperation "" "" "" "" "" "" "" None None "" "" "" 0 0 None "" no_options.

(** [session.LifecycleProgress]: what a command's journal says. *)
Record LifecycleProgress := mkProgress {
  lp_ServicePrelude : bool; lp_ServicePreludeEvidence : string; lp_Operation : string; lp_Phase : string;
  lp_Mode : string; lp_Force : bool; lp_JournalID : string; lp_Evidence : string;
  lp_RetainedThreadID : option string; lp_RootRecorded : bool; lp_UpdatedAt : Time }.
#[export] Instance eta_Progress : Eta LifecycleProgress := λ p,
  mkProgress (lp_ServicePrelude p) (lp_ServicePreludeEvidence p) (lp_Operation p) (lp_Phase p) (lp_Mode p)
    (lp_Force p) (lp_JournalID p) (lp_Evidence p) (lp_RetainedThreadID p) (lp_RootRecorded p) (lp_UpdatedAt p).

(** The fields of [session.Summary] the lifecycle code reads. *)
Record Summary := mkSummary {
  sum_Workspace : string; sum_Root : string; sum_Slug : string; sum_ThreadID : string; sum_Archived : bool;
  sum_Terminal : bool; sum_FinalizedAt : string; sum_Lifecycle : string }.

(** ** JSON *)

Definition str (name value : string) : jfield := omitempty (value == "") name (json_string value).
Definition flag (name : string) (value : bool) : jfield := omitempty (negb value) name (json_bool value).
Definition num (name : string) (value : Z) : jfield := omitempty (value =? 0) name (json_int value).
Definition pointer {A} (name : string) (f : A → json) (p : option (ref A)) : jfield :=
  match p with None => None | Some r => field name (f (ref_value r)) end.

Definition TrackingSync_json (t : TrackingSyncStatus) : json :=
  json_struct [field "state" (json_string (tsy_State t)); str "error" (tsy_Error t); str "updatedAt" (tsy_UpdatedAt t)].
Definition ArchiveProgress_json (p : ArchiveProgress) : json :=
  json_struct [field "schema" (json_int (apr_Schema p)); field "workspace" (json_string (apr_Workspace p));
               field "slug" (json_string (apr_Slug p)); field "operation_id" (json_string (apr_OperationID p));
               field "stage" (json_string (apr_Stage p)); str "path" (apr_Path p);
               field "updated_at" (json_string (apr_UpdatedAt p))].
Definition Target_json (t : lifecycleTargetSnapshot) : json :=
  json_struct [field "targetId" (json_string (lts_TargetID t));
               field "targetIdentityVersion" (json_int (lts_TargetIdentityVersion t));
               field "slug" (json_string (lts_Slug t)); field "location" (json_string (lts_Location t));
               field "lifecycle" (json_string (lts_Lifecycle t)); field "threadId" (json_string (lts_ThreadID t));
               field "archived" (json_bool (lts_Archived t))].
Definition Options_json (o : lifecycleOperationOptions) : json :=
  json_struct [str "mode" (opt_Mode o); flag "allowAbandoned" (opt_AllowAbandoned o); flag "force" (opt_Force o);
               str "targetId" (opt_TargetID o); str "deletedThreadId" (opt_DeletedThreadID o);
               str "journalId" (opt_JournalID o); flag "journalExpected" (opt_JournalExpected o);
               str "targetLocation" (opt_TargetLocation o); str "journalEvidence" (opt_JournalEvidence o);
               str "journalTargetId" (opt_JournalTargetID o); str "journalTargetLocation" (opt_JournalTargetLocation o)].
Definition Operation_json (o : lifecycleOperation) : json :=
  json_struct [str "slug" (op_Slug o); str "kind" (op_Kind o); field "state" (json_string (op_State o));
               str "phase" (op_Phase o); str "startedAt" (op_StartedAt o); str "updatedAt" (op_UpdatedAt o);
               str "finishedAt" (op_FinishedAt o); pointer "trackingSync" TrackingSync_json (op_TrackingSync o);
               pointer "progress" ArchiveProgress_json (op_Progress o); str "error" (op_Error o);
               str "redirect" (op_Redirect o); str "receiptId" (op_ReceiptID o);
               num "targetIdentityVersion" (op_TargetIdentityVersion o); num "attempt" (op_Attempt o);
               pointer "currentTarget" Target_json (op_CurrentTarget o); str "code" (op_ErrorCode o);
               field "options" (Options_json (op_Options o))].

(** ** Validity *)

Definition messageDigestPattern (s : string) : bool := match_classes (repeat is_lower_hex 64) s.
Definition queueClientMessageIDPattern (s : string) : bool := match_classes uuid_classes s.
Definition is_time (s : string) : bool := bool_decide (parse_rfc3339 s ≠ None).
Definition location_ok (s : string) : bool := one_of s ["work"; "archive"].
Definition optional (p : string → bool) (s : string) : bool := (s == "") || p s.

(** The first failing check.  When both times are invalid Go's map order picks
    which of them the message names. *)
Definition refuse (when_ : bool) (message : string) : option error := if when_ then Some (ErrorsNew message) else None.
Fixpoint first_refusal (l : list (option error)) : option error :=
  match l with [] => None | Some e :: _ => Some e | None :: l => first_refusal l end.
Lemma first_refusal_None (l : list (option error)) : first_refusal l = None → Forall (λ e, e = None) l.
Proof. induction l as [|[e|] l IH]; simpl; [constructor|done|]. intros H. constructor; auto. Qed.

Definition kind_refusal (o : lifecycleOperation) : option error :=
  let opts := op_Options o in
  if op_Kind o == "archive" then
    refuse (negb (one_of (opt_Mode opts) ["complete"; "abandoned"; "archived"]) || (opt_DeletedThreadID opts != ""))
      "invalid archive retry mode"
  else if op_Kind o == "delete" then
    first_refusal [
      refuse ((opt_Mode opts != "") || opt_AllowAbandoned opts) "invalid delete retry options";
      refuse ((1024 <? strlen (opt_DeletedThreadID opts)) || negb (utf8_valid (opt_DeletedThreadID opts))
              || contains_char (λ c, one_of (String c "") [String "000"%char ""; String "013"%char ""; String "010"%char ""])
                   (opt_DeletedThreadID opts))
        "invalid deleted thread identity"]
  else if op_Kind o == "revive" then
    refuse ((opt_Mode opts != "") || opt_Force opts || (opt_DeletedThreadID opts != "")) "invalid revive retry options"
  else None.

Definition validateLifecycleOperation (o : lifecycleOperation) : option error :=
  let opts := op_Options o in
  first_refusal [
    refuse (negb (ValidSlug (op_Slug o))) "invalid session slug";
    refuse (negb (one_of (op_Kind o) ["archive"; "delete"; "revive"])) "invalid operation kind";
    refuse (negb (one_of (op_State o) ["running"; "paused"; "failed"; "complete"])) "invalid operation state";
    refuse ((op_Phase o == "") || (64 <? strlen (op_Phase o)) || negb (utf8_valid (op_Phase o))) "invalid operation phase";
    refuse (negb (is_time (op_StartedAt o))) "invalid operation startedAt";
    refuse (negb (is_time (op_UpdatedAt o))) "invalid operation updatedAt";
    refuse (negb (optional is_time (op_FinishedAt o))) "invalid operation finishedAt";
    refuse ((maxLifecycleOperationErrorBytes <? strlen (op_Error o)) || negb (utf8_valid (op_Error o))) "invalid operation error";
    refuse (negb (one_of (op_ErrorCode o) [""; "target_changed"])) "invalid lifecycle error code";
    refuse (negb (optional messageDigestPattern (op_ReceiptID o))) "invalid operation receipt identity";
    refuse (negb (optional messageDigestPattern (opt_JournalID opts))) "invalid lifecycle journal identity";
    refuse (opt_JournalExpected opts && (opt_JournalID opts == "")) "expected lifecycle journal has no identity";
    refuse (op_Attempt o <? 0) "invalid lifecycle attempt";
    refuse (negb (op_TargetIdentityVersion o =? 0) && negb (op_TargetIdentityVersion o =? lifecycleTargetIdentityVersion))
      "unsupported lifecycle target identity version";
    refuse (negb (optional messageDigestPattern (opt_JournalEvidence opts))
            || negb (optional messageDigestPattern (opt_JournalTargetID opts))) "invalid lifecycle proof identity";
    refuse (negb (optional location_ok (opt_TargetLocation opts)) || negb (optional location_ok (opt_JournalTargetLocation opts)))
      "invalid lifecycle target location";
    refuse (negb (optional messageDigestPattern (opt_TargetID opts))) "invalid lifecycle target identity";
    refuse ((op_TargetIdentityVersion o =? lifecycleTargetIdentityVersion)
            && ((opt_TargetID opts == "") || (opt_TargetLocation opts == ""))) "versioned lifecycle receipt has no target binding";
    refuse ((op_Redirect o != "/") && (op_Redirect o != "/" +:+ op_Slug o +:+ "/")) "invalid operation redirect";
    kind_refusal o].

(** ** Lifecycle receipts: bounded errors

    [boundedLifecycleError] of [web/operation_state.go]: any message becomes one a
    receipt may store. *)

Definition ellipsis : string := string_of [226; 128; 166].

(** [message[:len(message)-1]] while the text is not valid; empty text is. *)
Definition but_last (s : string) : string := String.substring 0 (pred (String.length s)) s.
Fixpoint drop_invalid (fuel : nat) (s : string) : string :=
  match fuel with
  | O => s
  | S fuel => if utf8_valid s then s else drop_invalid fuel (but_last s)
  end.

Definition boundedLifecycleError (message : string) : string :=
  let message := TrimSpace (ToValidUTF8 message) in
  if strlen message <=? maxLifecycleOperationErrorBytes then message else
  let message := String.substring 0 (Z.to_nat (maxLifecycleOperationErrorBytes - strlen ellipsis)) message in
  TrimSpace (drop_invalid (String.length message) message) +:+ ellipsis.

(** [commandFailure] of [web/server.go]: what a failed command said, without the
    wrapper's own lines. *)
Fixpoint split_lines (line s : string) : list string :=
  match s with
  | EmptyString => [line]
  | String c s => if code c =? 10 then line :: split_lines "" s else split_lines (line +:+ String c "") s
  end.
Definition contains (needle s : string) : bool := bool_decide (String.index 0 needle s ≠ None).
Definition command_line (line : string) : option string :=
  let line := TrimSpace line in
  let line := match String.index 0 "error: command failed:" line with
              | Some marker => TrimSpace (String.substring 0 marker line)
              | None => line
              end in
  if (line == "") || String.prefix "command failed:" line
     || (String.prefix "error: command failed" line && contains "/nix/store/" line)
  then None else Some line.
Definition command_message (stdout stderr text : string) : string :=
  if TrimSpace stderr != "" then TrimSpace stderr else if TrimSpace stdout != "" then TrimSpace stdout else text.
Definition commandFailure (message : error → string) (action stdout stderr : string) (e : error) : error :=
  if errors_Is e ErrDeadlineExceeded || errors_Is e ErrCanceled
  then ErrWrap e (action +:+ ": " +:+ message e) else
  let concise := omap command_line (split_lines "" (ToValidUTF8 (command_message stdout stderr (message e)))) in
  let concise := match concise with [] => [message e] | l => l end in
  ErrorsNew (boundedLifecycleError (action +:+ ": " +:+ GoJson.join (String "010"%char "") concise)).

Lemma substring_length n s : (n <= String.length s)%nat → String.length (String.substring 0 n s) = n.
Proof. revert s. induction n as [|n IH]; intros [|c s] H; simpl in *; try lia. by rewrite IH by lia. Qed.
Lemma but_last_length s : s ≠ "" → String.length (but_last s) = pred (String.length s).
Proof. intros Hs. unfold but_last. apply substring_length. lia. Qed.

Lemma drop_invalid_valid fuel s :
  (String.length s <= fuel)%nat →
  utf8_valid (drop_invalid fuel s) = true ∧ (String.length (drop_invalid fuel s) <= String.length s)%nat.
Proof.
  revert s. induction fuel as [|fuel IH]; intros s Hs; cbn [drop_invalid].
  - destruct s; [by split|simpl in Hs; lia].
  - destruct (utf8_valid s) eqn:E; [done|].
    assert (s ≠ "") as Hne by (by intros ->). pose proof (but_last_length s Hne) as Hl.
    destruct (IH (but_last s)) as [H1 H2]; [lia|]. split; [done|lia].
Qed.

Lemma bounded_error_ok message :
  utf8_valid (boundedLifecycleError message) = true ∧
  strlen (boundedLifecycleError message) <= maxLifecycleOperationErrorBytes.
Proof.
  unfold boundedLifecycleError. set (m := TrimSpace (ToValidUTF8 message)).
  assert (utf8_valid m = true) as Hm by (apply utf8_runes, trim_space_runes, to_valid_runes).
  destruct (strlen m <=? maxLifecycleOperationErrorBytes) eqn:E; [split; [done|lia]|]. apply Z.leb_gt in E.
  set (k := Z.to_nat (maxLifecycleOperationErrorBytes - strlen ellipsis)). assert (k = 4093%nat) as Hk by reflexivity.
  set (t := String.substring 0 k m).
  assert (String.length t = k) as Ht by (apply substring_length; unfold strlen, maxLifecycleOperationErrorBytes in E; lia).
  destruct (drop_invalid_valid (String.length t) t) as [H1 H2]; [done|].
  apply utf8_runes in H1. destruct (trim_space_runes _ H1) as [H3 H4]. split.
  - apply utf8_runes, runes_app; [done|]. by apply utf8_runes.
  - unfold strlen. assert (∀ a b, String.length (a +:+ b) = (String.length a + String.length b)%nat) as ->.
    { intros a b. rewrite <- !chars_length, chars_app, length_app. done. }
    change (String.length ellipsis) with 3%nat. unfold maxLifecycleOperationErrorBytes. lia.
Qed.

(** Whatever a failing command prints, the error stored for it is valid UTF-8
    of at most 4096 bytes, so it never makes a receipt invalid; a valid message
    without outer white space that fits is stored as it is. *)
Theorem bounded_error_stored message :
  refuse ((maxLifecycleOperationErrorBytes <? strlen (boundedLifecycleError message))
          || negb (utf8_valid (boundedLifecycleError message))) "invalid operation error" = None ∧
  (utf8_valid message = true → TrimSpace message = message → strlen message <= maxLifecycleOperationErrorBytes →
   boundedLifecycleError message = message).
Proof.
  destruct (bounded_error_ok message) as [H1 H2]. split.
  - rewrite H1. assert ((maxLifecycleOperationErrorBytes <? strlen (boundedLifecycleError message)) = false) as -> by lia. done.
  - intros Hv Ht Hl. unfold boundedLifecycleError, ToValidUTF8. apply utf8_runes in Hv. rewrite to_valid_id, Ht by done.
    assert ((strlen message <=? maxLifecycleOperationErrorBytes) = true) as -> by lia. done.
Qed.

Lemma bounded_error_stored_witness :
  boundedLifecycleError "exit status 1" = "exit status 1".
Proof. apply (bounded_error_stored "exit status 1"); [reflexivity|computed|vm_compute; congruence]. Defined.

(** A failed command's message is bounded too; an ended context keeps its own error. *)
Lemma command_failure_bounded message action stdout stderr e :
  match commandFailure message action stdout stderr e with
  | ErrorsNew text => utf8_valid text = true ∧ strlen text <= maxLifecycleOperationErrorBytes
  | ErrWrap e' _ => e' = e ∧ (errors_Is e ErrDeadlineExceeded = true ∨ errors_Is e ErrCanceled = true)
  | _ => False
  end.
Proof.
  unfold commandFailure. destruct (errors_Is e ErrDeadlineExceeded || errors_Is e ErrCanceled) eqn:E; [|apply bounded_error_ok].
  split; [done|]. by apply orb_prop in E.
Qed.

(** ** Archive preparation: data

    The sidecar record of [web/archive_preparation.go] that lets the lead repair
    archive blockers before the lifecycle command runs, and the readiness report it
    works from. *)

Record archiveBlocker := mkBlocker { blk_Code : string; blk_Message : string; blk_Path : option string }.
Record archiveCheckResult := mkCheck {
  ck_Schema : Z; ck_Workspace : string; ck_Slug : string; ck_Ready : bool; ck_Passed : Z; ck_Total : Z;
  ck_Stage : Z; ck_Count : Z; ck_Blockers : slice archiveBlocker }.
Record archivePreparationRound := mkRound { rnd_Round : Z; rnd_Passed : Z; rnd_Blockers : Z }.

Definition Blocker_json (b : archiveBlocker) : json :=
  json_struct [field "code" (json_string (blk_Code b)); field "message" (json_string (blk_Message b));
               field "path" (json_ptr json_string (blk_Path b))].
Definition Check_json (c : archiveCheckResult) : json :=
  json_struct [field "schema" (json_int (ck_Schema c)); field "workspace" (json_string (ck_Workspace c));
               field "slug" (json_string (ck_Slug c)); field "ready" (json_bool (ck_Ready c));
               field "passedChecks" (json_int (ck_Passed c)); field "totalChecks" (json_int (ck_Total c));
               field "readyStage" (json_int (ck_Stage c)); field "blockerCount" (json_int (ck_Count c));
               field "blockers" (json_slice Blocker_json (ck_Blockers c))].
Definition Round_json (r : archivePreparationRound) : json :=
  json_struct [field "round" (json_int (rnd_Round r)); field "passedChecks" (json_int (rnd_Passed r));
               field "blockerCount" (json_int (rnd_Blockers r))].

Section Types.
Context {CW : CodexWeb}.

Record archivePreparation := mkPreparation {
  ap_Schema : Z; ap_Workspace : string; ap_Slug : string; ap_ReceiptID : string; ap_Attempt : Z;
  ap_JournalID : string; ap_TargetID : string; ap_Thread : string; ap_State : string; ap_Round : Z;
  ap_NoProgress : Z; ap_DeliveryFailures : Z; ap_BestStage : Z; ap_BestCount : Z;
  ap_Check : option archiveCheckResult; ap_MessageID : string; ap_Message : string;
  ap_Options : option TurnOptions; ap_Delivery : option SendReceipt; ap_Error : string;
  ap_History : list archivePreparationRound }.
#[export] Instance eta_Preparation : Eta archivePreparation := λ p,
  mkPreparation (ap_Schema p) (ap_Workspace p) (ap_Slug p) (ap_ReceiptID p) (ap_Attempt p) (ap_JournalID p)
    (ap_TargetID p) (ap_Thread p) (ap_State p) (ap_Round p) (ap_NoProgress p) (ap_DeliveryFailures p)
    (ap_BestStage p) (ap_BestCount p) (ap_Check p) (ap_MessageID p) (ap_Message p) (ap_Options p) (ap_Delivery p)
    (ap_Error p) (ap_History p).

Definition Preparation_json (p : archivePreparation) : json :=
  json_struct [field "schema" (json_int (ap_Schema p)); field "workspace" (json_string (ap_Workspace p));
               field "slug" (json_string (ap_Slug p)); field "receiptId" (json_string (ap_ReceiptID p));
               field "attempt" (json_int (ap_Attempt p)); field "journalId" (json_string (ap_JournalID p));
               field "targetId" (json_string (ap_TargetID p)); field "thread" (json_string (ap_Thread p));
               field "state" (json_string (ap_State p)); field "round" (json_int (ap_Round p));
               field "noProgress" (json_int (ap_NoProgress p)); num "deliveryFailures" (ap_DeliveryFailures p);
               field "bestStage" (json_int (ap_BestStage p)); field "bestCount" (json_int (ap_BestCount p));
               match ap_Check p with None => None | Some c => field "check" (Check_json c) end;
               str "messageId" (ap_MessageID p); str "message" (ap_Message p);
               match ap_Options p with None => None | Some o => field "options" (marshal_TurnOptions o) end;
               match ap_Delivery p with None => None | Some r => field "delivery" (marshal_SendReceipt r) end;
               str "error" (ap_Error p);
               omitempty (bool_decide (length (ap_History p) = 0%nat)) "history" (json_array (map Round_json (ap_History p)))].

(** [archivePreparation.active] and [matches] *)
Definition active (p : archivePreparation) : bool :=
  (ap_State p == "checking") || (ap_State p == "lead_fixing_blockers") || (ap_State p == "rechecking") || (ap_State p == "paused").

(** An archive receipt that prepares: not one whose journal already exists. *)
Definition prepares (o : lifecycleOperation) : bool :=
  (op_Kind o == "archive") && (opt_Mode (op_Options o) == "archived") && negb (opt_JournalExpected (op_Options o)).
Definition matches (p : archivePreparation) (o : lifecycleOperation) : bool :=
  prepares o && (ap_ReceiptID p == op_ReceiptID o) && (ap_Attempt p =? op_Attempt o)
  && (ap_JournalID p == opt_JournalID (op_Options o)) && (ap_TargetID p == opt_TargetID (op_Options o)).

End Types.
