(* ===== verification/LifecycleOps.v ===== *)
(** * Lifecycle receipts: the store and its atomic steps

    The receipts a portal holds in memory with their revisions and published
    snapshots, the file they are saved in, and the operations done under
    [operationMu]: [web/operation_store.go] and the second half of
    [web/operation_state.go]. *)

From S2P Require Import Prelude Effects GoStrings GoJson GoLibrary GoTime GoTimeParse RetryValidate RetrySys Codex.
From S2P Require Import LifecycleTypes.

Open Scope Z_scope.

(** [archiveWorkerStatus] *)
Record archiveWorkerStatus := mkWorker { aw_State : string; aw_Error : string; aw_FinishedAt : string }.

(** [unix.Stat_t] as far as it is read. *)
Record file_stat := mkStat { fs_directory : bool; fs_Dev : Z; fs_Ino : Z; fs_CtimSec : Z; fs_CtimNsec : Z }.

Record cachedLifecycleSnapshot := mkSnapshot { snp_operation : lifecycleOperation; snp_checkedAt : Time }.

(** The receipt file: a decoded payload with its size, what the strict reader also
    demands of it, or a failure before it is decoded. *)
Record lifecycleOperationStorePayload := mkPayload {
  pay_Schema : Z; pay_Workspace : string; pay_Operations : slice lifecycleOperation }.
Inductive store_file :=
  | sf_payload (size : Z) (p : lifecycleOperationStorePayload) (explicit_zero duplicate_keys : bool)
  | sf_damaged (e : error).

Section Types.
Context {CW : CodexWeb} {W : Type}.

(** What the operations tell the Codex server and start. *)
Inductive life_event :=
  | le_reconcile (thread message id action : string) (options : TurnOptions)
  | le_send (thread message id action : string) (options : TurnOptions)
  | le_start (o : lifecycleOperation) (args : list string).

(** A session's message lock ([messageLock]) is held by the goroutine of the session's
    preparation or by another one. *)
Inductive holder := by_preparation | by_another.

(** [lf_messages] holds the message locks that are taken; [lf_canceled] is the log of the granted
    cancellations, each record with what the server had been told by then. *)
Record LifeSys := mkLife {
  lf_world : W;
  lf_operations : gmap string lifecycleOperation;
  lf_revisions : gmap string Z;
  lf_snapshots : gmap string cachedLifecycleSnapshot;
  lf_preparations : gmap string archivePreparation;
  lf_file : option store_file;
  lf_closing : bool;
  lf_trace : list life_event;
  lf_messages : gmap string holder;
  lf_canceled : list (archivePreparation * list life_event) }.
#[export] Instance eta_Life : Eta LifeSys := λ σ,
  mkLife (lf_world σ) (lf_operations σ) (lf_revisions σ) (lf_snapshots σ) (lf_preparations σ) (lf_file σ) (lf_closing σ) (lf_trace σ)
         (lf_messages σ) (lf_canceled σ).
End Types.
Arguments LifeSys {CW} W. Arguments life_event {CW}.

(** What the rest of the portal and the operating system answer. *)
Record LifeRuntime {CW : CodexWeb} (W : Type) := mkLifeRuntime {
  lr_now : W → W * Time;
  lr_address : W → W * Z;
  lr_directory : bool → W → W * option error;
  lr_open : W → W * option error;
  lr_mkdir : W → W * option error;
  lr_replace : string → W → W * write_outcome;
  lr_remove_preparation : string → W → W * option error;
  lr_save_preparation : archivePreparation → W → W * write_outcome;
  lr_Find : string → W → W * result Summary;
  lr_Resolve : string → W → W * result string;
  lr_Lstat : string → W → W * result file_stat;
  lr_Progress : string → W → W * result (option LifecycleProgress);
  lr_Owner : string → W → W * result string;
  lr_CompletedRemoval : string → string → Time → W → W * result bool;
  lr_ReadArchiveProgress : string → string → W → W * option (ref ArchiveProgress);
  lr_archiveWorker : lifecycleOperation → W → W * result (option archiveWorkerStatus);
  lr_newID : W → W * result string;
  lr_context : W → W * option error;
  lr_transition : W → W * option error;
  lr_profile : W → W * option error }.
Arguments lr_now {CW W}. Arguments lr_address {CW W}. Arguments lr_directory {CW W}. Arguments lr_open {CW W}.
Arguments lr_mkdir {CW W}. Arguments lr_replace {CW W}. Arguments lr_remove_preparation {CW W}.
Arguments lr_save_preparation {CW W}. Arguments lr_Find {CW W}. Arguments lr_Resolve {CW W}. Arguments lr_Lstat {CW W}.
Arguments lr_Progress {CW W}. Arguments lr_Owner {CW W}. Arguments lr_CompletedRemoval {CW W}.
Arguments lr_ReadArchiveProgress {CW W}. Arguments lr_archiveWorker {CW W}. Arguments lr_newID {CW W}.
Arguments lr_context {CW W}. Arguments lr_transition {CW W}. Arguments lr_profile {CW W}.

Section Store.
Context {CW : CodexWeb} {W : Type} (rt : LifeRuntime W) (workspace : string).

Abbreviation Life := (SE (LifeSys W)).

Definition lask {A} (f : W → W * A) : Life A :=
  λ σ, let '(w, a) := f (lf_world σ) in (σ <| lf_world := w |>, Ok a).

(** ** The file *)

(** [lifecycleOperationStore.encode], with the records sorted by slug. *)
Definition insert_operation (o : lifecycleOperation) : list lifecycleOperation → list lifecycleOperation :=
  fix ins l := match l with
    | [] => [o]
    | p :: l' => if String.leb (op_Slug o) (op_Slug p) then o :: l else p :: ins l'
    end.
Definition sorted_operations (m : gmap string lifecycleOperation) : list lifecycleOperation :=
  foldr insert_operation [] (map snd (map_to_list m)).
Definition too_many : error := ErrorsNew "too many lifecycle operation records".
Definition Payload_json (p : lifecycleOperationStorePayload) : json :=
  json_struct [field "schema" (json_int (pay_Schema p)); field "workspace" (json_string (pay_Workspace p));
               field "operations" (json_slice Operation_json (pay_Operations p))].

Definition payload_of (m : gmap string lifecycleOperation) : lifecycleOperationStorePayload :=
  mkPayload lifecycleOperationStoreSchema workspace (Some (sorted_operations m)).
Definition encode (m : gmap string lifecycleOperation) : result string :=
  if maxLifecycleOperationRecords <? Z.of_nat (size m) then Err too_many else
  match first_refusal (map validateLifecycleOperation (map snd (map_to_list m))) with
  | Some e => Err e
  | None =>
      match json_indent (Payload_json (payload_of m)) with
      | None => Err (ErrorsNew "encode lifecycle operation state")
      | Some data =>
          let data := data +:+ new_line 0 in
          if maxLifecycleOperationStoreBytes <? strlen data
          then Err (ErrorsNew "lifecycle operation state exceeds 256 KiB") else Ok data
      end
  end.

(** [lifecycleOperationStore.save] of the receipts in memory *)
Definition store_save : Life unit :=
  m ← gets lf_operations;
  if maxLifecycleOperationRecords <? Z.of_nat (size m) then fail too_many else
  e ← lask (lr_mkdir rt); lift_error e;;
  e ← lask (lr_directory rt true); lift_error e;;
  data ← lift_result (encode m);
  outcome ← lask (lr_replace rt data);
  let saved := modify (λ σ, σ <| lf_file := Some (sf_payload (strlen data) (payload_of m) false false) |>) : Life unit in
  match outcome with
  | write_failed e => fail e
  | write_unsynced e => saved;; fail e
  | write_ok => saved
  end.

(** [lifecycleOperationStore.loadWithDirectoryRepair] *)
Definition paused_on_load (o : lifecycleOperation) : lifecycleOperation :=
  if op_State o == "running" then o <| op_State := "paused" |> else o.
Fixpoint collect_operations (l : list lifecycleOperation) (m : gmap string lifecycleOperation)
    : result (gmap string lifecycleOperation) :=
  match l with
  | [] => Ok m
  | o :: l =>
      match validateLifecycleOperation o with
      | Some e => Err e
      | None =>
          match m !! op_Slug o with
          | Some _ => Err (ErrorsNew "lifecycle operation state repeats session")
          | None => collect_operations l (<[op_Slug o := paused_on_load o]> m)
          end
      end
  end.

Definition decode_file (repair : bool) (file : option store_file) : result (gmap string lifecycleOperation) :=
  match file with
  | None => Ok ∅
  | Some (sf_damaged e) => Err e
  | Some (sf_payload n p explicit_zero duplicate_keys) =>
      if maxLifecycleOperationStoreBytes <? n then Err (ErrorsNew "lifecycle operation state exceeds 256 KiB") else
      if negb repair && duplicate_keys then Err (ErrorsNew "duplicate JSON object key") else
      if negb repair && bool_decide (pay_Operations p = None)
      then Err (ErrorsNew "lifecycle operation state has no records array") else
      if negb (pay_Schema p =? 1) && negb (pay_Schema p =? lifecycleOperationStoreSchema) || (pay_Workspace p != workspace)
      then Err (ErrorsNew "lifecycle operation state has the wrong workspace identity") else
      if explicit_zero then Err (ErrorsNew "invalid optional lifecycle field") else
      if maxLifecycleOperationRecords <? Z.of_nat (length (elems (pay_Operations p)))
      then Err (ErrorsNew "lifecycle operation state has too many records") else
      collect_operations (elems (pay_Operations p)) ∅
  end.

Definition store_load (repair : bool) : Life (gmap string lifecycleOperation) :=
  e ← lask (lr_directory rt repair);
  match e with
  | Some e => if errors_Is e ErrNotExist then mret ∅ else fail e
  | None =>
      e ← lask (lr_open rt);
      match e with
      | Some e => if errors_Is e ErrNotExist then mret ∅ else fail e
      | None => file ← gets lf_file; lift_result (decode_file repair file)
      end
  end.

(** [canPersistTerminalOutcomes] *)
Definition worst_error : string := String.concat "" (repeat "x" (Z.to_nat maxLifecycleOperationErrorBytes)).
Definition worst_outcome (o : lifecycleOperation) : lifecycleOperation :=
  if op_State o == "running" then o <| op_State := "failed" |> <| op_Error := worst_error |> else o.
Definition canPersistTerminalOutcomes (m : gmap string lifecycleOperation) (slug : string)
    (started : lifecycleOperation) (now : Time) : option error :=
  match encode (<[slug := started <| op_State := "failed" |> <| op_FinishedAt := rfc3339 now |>
                                  <| op_Error := worst_error |>]> (worst_outcome <$> m)) with
  | Ok _ => None
  | Err e => Some e
  end.

(** ** Snapshots and receipts *)

(** [publishLifecycleSnapshot]: only the same receipt keeps an observed target. *)
Definition publishLifecycleSnapshot (slug : string) (o : lifecycleOperation) (checkedAt : Time) : Life unit :=
  modify (λ σ,
    let o := match lf_snapshots σ !! slug with
             | Some previous =>
                 if (op_ReceiptID (snp_operation previous) == op_ReceiptID o) && bool_decide (op_CurrentTarget o = None)
                 then o <| op_CurrentTarget := op_CurrentTarget (snp_operation previous) |> else o
             | None => o
             end in
    σ <| lf_snapshots ::= <[slug := mkSnapshot o checkedAt]> |>).

Definition bump (slug : string) (revisions : gmap string Z) : gmap string Z :=
  <[slug := u64 (default 0 (revisions !! slug) + 1)]> revisions.

(** [replaceLifecycleOperationLocked]: rolled back unless it is saved. *)
Definition replaceLifecycleOperationLocked (slug : string) (o : lifecycleOperation) : Life unit :=
  previous ← gets (λ σ, lf_operations σ !! slug);
  modify (λ σ, σ <| lf_operations ::= <[slug := o]> |>);;
  r ← attempt store_save;
  match r with
  | Err e =>
      modify (λ σ, σ <| lf_operations ::= λ m, match previous with Some p => <[slug := p]> m | None => delete slug m end |>);;
      fail e
  | Ok _ =>
      modify (λ σ, σ <| lf_revisions ::= bump slug |>);;
      publishLifecycleSnapshot slug o zero_time
  end.

(** [removeLifecycleOperationLocked] *)
Definition drop_preparation (slug : string) (previous : lifecycleOperation) : Life unit :=
  if (op_Kind previous == "archive") && (op_State previous == "complete") then
    p ← gets (λ σ, lf_preparations σ !! slug);
    match p with
    | Some p =>
        if ap_ReceiptID p == op_ReceiptID previous then
          e ← lask (lr_remove_preparation rt slug);
          if match e with None => true | Some e => errors_Is e ErrNotExist end
          then modify (λ σ, σ <| lf_preparations ::= delete slug |>) else mret tt
        else mret tt
    | None => mret tt
    end
  else mret tt.

Definition removeLifecycleOperationLocked (slug : string) : Life unit :=
  previous ← gets (λ σ, lf_operations σ !! slug);
  match previous with
  | None => mret tt
  | Some previous =>
      modify (λ σ, σ <| lf_operations ::= delete slug |>);;
      r ← attempt store_save;
      match r with
      | Err e => modify (λ σ, σ <| lf_operations ::= <[slug := previous]> |>);; fail e
      | Ok _ =>
          modify (λ σ, σ <| lf_revisions ::= bump slug |> <| lf_snapshots ::= delete slug |>);;
          drop_preparation slug previous
      end
  end.

(** [captureLifecycleOperation] *)
Definition revision (slug : string) (σ : LifeSys W) : Z := default 0 (lf_revisions σ !! slug).
Definition captureLifecycleOperation (slug : string) : Life (option lifecycleOperation * Z) :=
  gets (λ σ, (lf_operations σ !! slug, revision slug σ)).

(** The comparison under the lock: the record is the captured one, or still absent
    at the captured revision. *)
Definition unchanged (slug : string) (original : option lifecycleOperation) (rev : Z) (σ : LifeSys W) : bool :=
  bool_decide (lf_operations σ !! slug = original)
  && (bool_decide (original ≠ None) || (revision slug σ =? rev)).

(** [acceptLifecycleReconciliation] *)
Definition acceptLifecycleReconciliation (slug : string) (original : option lifecycleOperation) (rev : Z)
    (proposed : option lifecycleOperation) (view : lifecycleOperation) : Life bool :=
  same ← gets (unchanged slug original rev);
  if negb same then mret false else
  match proposed with
  | Some o =>
      (if bool_decide (original = Some o) then mret tt else replaceLifecycleOperationLocked slug o);;
      now ← lask (lr_now rt);
      publishLifecycleSnapshot slug view now;;
      mret true
  | None =>
      (if bool_decide (original = None) then mret tt else removeLifecycleOperationLocked slug);;
      mret true
  end.

End Store.
