(* ===== verification/LifecycleStoreFacts.v ===== *)
(** * Lifecycle receipts: the store's theorems

    What is saved is what is loaded; a replacement or removal that cannot be saved
    leaves the receipts as they were; a reconciliation is a comparison and a swap. *)

From S2P Require Import Prelude Effects GoStrings GoJson GoLibrary GoTime GoTimeParse RetryValidate RetrySys Codex.
From S2P Require Import LifecycleTypes LifecycleOps.
From Stdlib Require Import Permutation.

Open Scope Z_scope.

(** The receipts are filed under their own slugs. *)
Definition keyed (m : gmap string lifecycleOperation) : Prop := map_Forall (λ slug o, op_Slug o = slug) m.

Lemma keyed_insert m slug o : keyed m → op_Slug o = slug → keyed (<[slug := o]> m).
Proof. intros Hm Ho. by apply map_Forall_insert_2. Qed.
Lemma keyed_delete m slug : keyed m → keyed (delete slug m).
Proof. apply map_Forall_delete. Qed.

(** ** Encoding and decoding *)

Lemma insert_operation_perm o l : insert_operation o l ≡ₚ o :: l.
Proof.
  induction l as [|p l IH]; simpl; [done|]. destruct (String.leb (op_Slug o) (op_Slug p)); [done|].
  change ((fix ins (l : list lifecycleOperation) := match l with
    | [] => [o] | p :: l' => if String.leb (op_Slug o) (op_Slug p) then o :: l else p :: ins l' end) l)
    with (insert_operation o l).
  rewrite IH. apply Permutation_swap.
Qed.
Lemma sorted_operations_perm m : sorted_operations m ≡ₚ map snd (map_to_list m).
Proof.
  unfold sorted_operations. induction (map snd (map_to_list m)) as [|o l IH]; simpl; [done|].
  by rewrite insert_operation_perm, IH.
Qed.

(** A list without repeated slugs is collected whole. *)
Lemma collect_operations_ok l m :
  Forall (λ o, validateLifecycleOperation o = None) l → NoDup (map op_Slug l) →
  (∀ o, o ∈ l → m !! op_Slug o = None) →
  collect_operations l m = Ok (list_to_map (map (λ o, (op_Slug o, paused_on_load o)) l) ∪ m).
Proof.
  revert m. induction l as [|o l IH]; intros m Hv Hd Hm; simpl.
  - by rewrite (left_id_L ∅ (∪)).
  - apply Forall_cons in Hv as [Ho Hv]. apply NoDup_cons in Hd as [Hn Hd].
    rewrite Ho, (Hm o) by set_solver. rewrite IH; [|done..|].
    + f_equal. rewrite <- insert_union_l, <- insert_union_r; [done|].
      apply not_elem_of_list_to_map_1. rewrite <- list_fmap_compose. intros Hin. apply Hn.
      apply list_elem_of_fmap in Hin as (x & E & Hin). simpl in E. rewrite E. by apply list_elem_of_fmap_2.
    + intros x Hx. rewrite lookup_insert_ne; [apply Hm; set_solver|].
      intros E. apply Hn. rewrite E. by apply list_elem_of_fmap_2.
Qed.

Lemma keyed_slugs m : keyed m → map op_Slug (map snd (map_to_list m)) = map fst (map_to_list m).
Proof.
  intros Hm. rewrite map_map. apply map_ext_in. intros [k o] Hin. simpl.
  apply list_elem_of_In, elem_of_map_to_list in Hin. by apply Hm.
Qed.
Lemma keyed_slugs_nodup m : keyed m → NoDup (map op_Slug (map snd (map_to_list m))).
Proof. intros Hm. rewrite keyed_slugs by done. apply NoDup_fst_map_to_list. Qed.

Lemma keyed_list m :
  keyed m → list_to_map (map (λ o, (op_Slug o, paused_on_load o)) (sorted_operations m)) = paused_on_load <$> m.
Proof.
  intros Hm. rewrite (list_to_map_proper _ (map (λ o, (op_Slug o, paused_on_load o)) (map snd (map_to_list m)))).
  - rewrite map_map. apply map_eq. intros k. rewrite lookup_fmap.
    destruct (m !! k) as [o|] eqn:E; simpl.
    + apply elem_of_list_to_map_1.
      * rewrite <- list_fmap_compose. replace (fmap _ _) with (map fst (map_to_list m)); [apply NoDup_fst_map_to_list|].
        apply map_ext_in. intros [k' o'] Hin. simpl. apply list_elem_of_In, elem_of_map_to_list in Hin. symmetry. by apply Hm.
      * apply list_elem_of_fmap. exists (k, o). split; [simpl; by rewrite (Hm k o)|by apply elem_of_map_to_list].
    + apply not_elem_of_list_to_map_1. rewrite <- list_fmap_compose. intros Hin.
      apply list_elem_of_fmap in Hin as ([k' o'] & Ek & Hin). apply elem_of_map_to_list in Hin. simpl in Ek.
      rewrite (Hm _ _ Hin) in Ek. congruence.
  - rewrite <- list_fmap_compose. replace (fmap _ _) with (map op_Slug (sorted_operations m)) by (apply map_ext; done).
    rewrite sorted_operations_perm. by apply keyed_slugs_nodup.
  - by rewrite sorted_operations_perm.
Qed.

Section Facts.
Context {CW : CodexWeb} {W : Type} (rt : LifeRuntime W) (workspace : string).

Lemma encode_ok m data :
  encode workspace m = Ok data →
  Z.of_nat (size m) <= maxLifecycleOperationRecords ∧ strlen data <= maxLifecycleOperationStoreBytes ∧
  Forall (λ o, validateLifecycleOperation o = None) (map snd (map_to_list m)).
Proof.
  unfold encode. destruct (maxLifecycleOperationRecords <? Z.of_nat (size m)) eqn:Es; [done|]. apply Z.ltb_ge in Es.
  destruct (first_refusal _) eqn:Ef; [done|]. destruct (json_indent _) as [t|]; [|done].
  destruct (maxLifecycleOperationStoreBytes <? _) eqn:Eb; [done|]. intros [= <-]. apply Z.ltb_ge in Eb.
  split; [done|]. split; [done|]. apply first_refusal_None in Ef. by apply Forall_map in Ef.
Qed.

(** A file written from receipts gives them back, the running ones paused. *)
Lemma decode_encoded m data repair :
  keyed m → encode workspace m = Ok data →
  decode_file workspace repair (Some (sf_payload (strlen data) (payload_of workspace m) false false)) = Ok (paused_on_load <$> m).
Proof.
  intros Hm He. apply encode_ok in He as (Hs & Hb & Hv). unfold decode_file, payload_of. cbn [pay_Schema pay_Workspace pay_Operations elems default].
  assert ((maxLifecycleOperationStoreBytes <? strlen data) = false) as -> by lia.
  rewrite andb_false_r, (bool_decide_eq_false_2 (Some _ = None)), andb_false_r, (bool_decide_eq_true_2 (workspace = _)) by done.
  unfold id. assert ((maxLifecycleOperationRecords <? Z.of_nat (length (sorted_operations m))) = false) as ->.
  { apply Z.ltb_ge. etrans; [|exact Hs]. rewrite sorted_operations_perm, length_map, length_map_to_list. lia. }
  cbn.
  rewrite collect_operations_ok.
  - by rewrite (right_id_L ∅ (∪)), keyed_list.
  - by rewrite sorted_operations_perm.
  - rewrite sorted_operations_perm. by apply keyed_slugs_nodup.
  - intros o _. apply lookup_empty.
Qed.

(** ** Steps under the lock *)

(** Everything but the world and the file. *)
Definition memory (σ : LifeSys W) :=
  (lf_operations σ, lf_revisions σ, lf_snapshots σ, lf_preparations σ, lf_closing σ, lf_trace σ).
(** The file holds the receipts in memory. *)
Definition saved (σ : LifeSys W) : Prop :=
  ∃ data, encode workspace (lf_operations σ) = Ok data ∧
    lf_file σ = Some (sf_payload (strlen data) (payload_of workspace (lf_operations σ)) false false).

Lemma saved_restart σ repair :
  keyed (lf_operations σ) → saved σ → decode_file workspace repair (lf_file σ) = Ok (paused_on_load <$> lf_operations σ).
Proof. intros Hk (data & He & ->). by apply decode_encoded. Qed.

Lemma wp_lask {A} (f : W → W * A) Q σ :
  (∀ w a, Q (σ <| lf_world := w |>) (Ok a)) → wp (lask f) Q σ.
Proof. intros H. unfold wp, lask. destruct (f (lf_world σ)) as [w a]. apply H. Qed.

Lemma wp_lask_is {A} (f : W → W * A) Q σ a :
  (f (lf_world σ)).2 = a → (∀ w, Q (σ <| lf_world := w |>) (Ok a)) → wp (lask f) Q σ.
Proof. intros Ha H. unfold wp, lask. destruct (f (lf_world σ)) as [w a']. cbn in Ha. subst a'. apply H. Qed.

Lemma store_save_spec σ :
  wp (store_save rt workspace) (λ σ' r,
    memory σ' = memory σ ∧ match r with Ok _ => saved σ' | Err _ => lf_file σ' = lf_file σ ∨ saved σ' end) σ.
Proof.
  unfold store_save. apply wp_bind, wp_gets. destruct (maxLifecycleOperationRecords <? _); [by split; [|left]|].
  apply wp_bind, wp_lask. intros w1 e1. apply wp_bind, wp_lift_error. destruct e1; [by split; [|left]|].
  apply wp_bind, wp_lask. intros w2 e2. apply wp_bind, wp_lift_error. destruct e2; [by split; [|left]|].
  apply wp_bind, wp_lift_result. destruct (encode workspace (lf_operations σ)) as [data|] eqn:He; [|by split; [|left]].
  apply wp_bind, wp_lask. intros w3 outcome. destruct outcome as [e|e|].
  - by split; [|left].
  - apply wp_bind, wp_modify, wp_fail. split; [done|]. right. by exists data.
  - apply wp_modify. split; [done|]. by exists data.
Qed.

Definition only_receipt (slug : string) (σ σ' : LifeSys W) : Prop :=
  lf_preparations σ' = lf_preparations σ ∧ lf_closing σ' = lf_closing σ ∧ lf_trace σ' = lf_trace σ ∧
  lf_revisions σ' = bump slug (lf_revisions σ).

Lemma publish_spec slug o at_ (σ : LifeSys W) :
  wp (publishLifecycleSnapshot slug o at_) (λ σ' r, r = Ok tt ∧
    lf_operations σ' = lf_operations σ ∧ lf_revisions σ' = lf_revisions σ ∧ lf_preparations σ' = lf_preparations σ ∧
    lf_closing σ' = lf_closing σ ∧ lf_trace σ' = lf_trace σ ∧ lf_file σ' = lf_file σ ∧
    ∃ s, lf_snapshots σ' = <[slug := mkSnapshot s at_]> (lf_snapshots σ) ∧
      (s = o ∨ op_CurrentTarget o = None ∧ ∃ previous, lf_snapshots σ !! slug = Some previous ∧
         op_ReceiptID (snp_operation previous) = op_ReceiptID o ∧
         s = o <| op_CurrentTarget := op_CurrentTarget (snp_operation previous) |>)) σ.
Proof.
  apply wp_modify. do 7 (split; [done|]). destruct (lf_snapshots σ !! slug) as [previous|] eqn:E; [|eauto].
  destruct (op_ReceiptID (snp_operation previous) == op_ReceiptID o) eqn:Er; [|eauto].
  destruct (bool_decide (op_CurrentTarget o = None)) eqn:Et; [|eauto]. cbv iota.
  eexists. split; [done|]. right. split; [by apply bool_decide_eq_true_1 in Et|].
  exists previous. split; [done|]. split; [by apply bool_decide_eq_true_1 in Er|done].
Qed.

Lemma receipt_replace_spec slug o σ :
  wp (replaceLifecycleOperationLocked rt workspace slug o) (λ σ' r,
    match r with
    | Ok _ => lf_operations σ' = <[slug := o]> (lf_operations σ) ∧ only_receipt slug σ σ' ∧ saved σ'
    | Err _ => memory σ' = memory σ
    end) σ.
Proof.
  unfold replaceLifecycleOperationLocked. apply wp_bind, wp_gets, wp_bind, wp_modify, wp_bind, wp_attempt.
  eapply wp_mono; [apply store_save_spec|]. intros σ1 r [Hm Hr]. unfold memory in *. cbn in Hm.
  injection Hm as Ho Hrev Hsn Hp Hc Ht. destruct r as [[]|e].
  - apply wp_bind, wp_modify. eapply wp_mono; [apply publish_spec|]. cbn.
    intros σ2 r (-> & Ho2 & Hr2 & Hp2 & Hc2 & Ht2 & Hf & _). split; [congruence|]. split.
    + split_and!; congruence.
    + destruct Hr as (data & He & Hfile). exists data. rewrite Hf, Hfile, Ho2. done.
  - apply wp_bind, wp_modify, wp_fail. cbn. rewrite Ho, Hrev, Hsn, Hp, Hc, Ht.
    destruct (lf_operations σ !! slug) eqn:E; repeat f_equal.
    + by rewrite insert_insert_eq, insert_id.
    + by rewrite delete_insert_id.
Qed.

Lemma drop_preparation_spec slug o σ :
  wp (drop_preparation rt slug o) (λ σ' r, r = Ok tt ∧
    lf_operations σ' = lf_operations σ ∧ lf_revisions σ' = lf_revisions σ ∧ lf_snapshots σ' = lf_snapshots σ ∧
    lf_closing σ' = lf_closing σ ∧ lf_trace σ' = lf_trace σ ∧ lf_file σ' = lf_file σ ∧
    (lf_preparations σ' = lf_preparations σ ∨
     lf_preparations σ' = delete slug (lf_preparations σ) ∧ op_Kind o = "archive" ∧ op_State o = "complete")) σ.
Proof.
  unfold drop_preparation. destruct ((op_Kind o == "archive") && (op_State o == "complete")) eqn:Ek; [|apply wp_ret; eauto 10].
  apply andb_prop in Ek as [Ek Es]. apply bool_decide_eq_true_1 in Ek, Es.
  apply wp_bind, wp_gets. destruct (lf_preparations σ !! slug) as [p|]; [|apply wp_ret; eauto 10].
  destruct (ap_ReceiptID p == op_ReceiptID o); [|apply wp_ret; eauto 10].
  apply wp_bind, wp_lask. intros w e. destruct (match e with None => true | Some e => errors_Is e ErrNotExist end).
  - apply wp_modify. cbn. eauto 12.
  - apply wp_ret. eauto 10.
Qed.

Lemma remove_spec slug σ :
  wp (removeLifecycleOperationLocked rt workspace slug) (λ σ' r,
    match r with
    | Ok _ => lf_operations σ' = delete slug (lf_operations σ) ∧ lf_closing σ' = lf_closing σ ∧ lf_trace σ' = lf_trace σ ∧
        (is_Some (lf_operations σ !! slug) →
           lf_snapshots σ' = delete slug (lf_snapshots σ) ∧ lf_revisions σ' = bump slug (lf_revisions σ) ∧ saved σ') ∧
        (lf_operations σ !! slug = None → σ' = σ)
    | Err _ => memory σ' = memory σ
    end) σ.
Proof.
  unfold removeLifecycleOperationLocked. apply wp_bind, wp_gets. destruct (lf_operations σ !! slug) as [o|] eqn:E.
  2: { apply wp_ret. rewrite delete_id by done. split_and!; try done. }
  apply wp_bind, wp_modify, wp_bind, wp_attempt. eapply wp_mono; [apply store_save_spec|].
  intros σ1 r [Hm Hr]. unfold memory in *. cbn in Hm. injection Hm as Ho Hrev Hsn Hp Hc Ht. destruct r as [[]|e].
  - apply wp_bind, wp_modify. eapply wp_mono; [apply drop_preparation_spec|]. cbn.
    intros σ2 r (-> & Ho2 & Hr2 & Hs2 & Hc2 & Ht2 & Hf & _). split_and!; try congruence.
    intros _. split_and!; [congruence..|]. destruct Hr as (data & He & Hfile). exists data. by rewrite Hf, Hfile, Ho2.
  - apply wp_bind, wp_modify, wp_fail. cbn. rewrite Ho, Hrev, Hsn, Hp, Hc, Ht. repeat f_equal. by rewrite insert_delete_eq, insert_id.
Qed.

(** C33: a receipt is replaced durably or not at all: after success exactly the given
    receipt has changed and a restarted portal reads the receipts in memory, with those
    that were running paused; after any failure of the file system or of encoding the receipts,
    their revisions and what is displayed are as before. *)
Theorem receipt_replaced_durably slug o σ :
  keyed (lf_operations σ) → op_Slug o = slug →
  let '(σ', r) := replaceLifecycleOperationLocked rt workspace slug o σ in
  match r with
  | Ok _ => lf_operations σ' = <[slug := o]> (lf_operations σ) ∧ lf_revisions σ' = bump slug (lf_revisions σ) ∧
      ∀ repair, decode_file workspace repair (lf_file σ') = Ok (paused_on_load <$> lf_operations σ')
  | Err _ => memory σ' = memory σ
  end.
Proof.
  intros Hk Ho. pose proof (receipt_replace_spec slug o σ) as H. unfold wp in H. destruct (replaceLifecycleOperationLocked _ _ _ _ σ) as [σ' [[]|e]]; [|exact H].
  destruct H as (Hm & (_ & _ & _ & Hr) & Hs). split_and!; [done..|]. intros repair. apply saved_restart; [|done].
  cbn in Hm. rewrite Hm. by apply keyed_insert.
Qed.

(** Nothing happened to the receipt since it was captured: the same one is there, or there is
    still none and none was saved and removed in the meantime. *)
Definition as_captured (slug : string) (original : option lifecycleOperation) (rev : Z) (σ : LifeSys W) : Prop :=
  lf_operations σ !! slug = original ∧ (original = None → default 0 (lf_revisions σ !! slug) = rev).
Lemma unchanged_spec slug original rev (σ : LifeSys W) : unchanged slug original rev σ = true ↔ as_captured slug original rev σ.
Proof.
  unfold unchanged, as_captured, revision. rewrite andb_true_iff, orb_true_iff, !bool_decide_eq_true, Z.eqb_eq. split.
  - intros [H1 [H2|H2]]; (split; [done|]); [by intros ->|done].
  - intros [H1 H2]. split; [done|]. destruct original; [by left|right; auto].
Qed.

(** C34: reconciliation is a comparison and a swap: it is refused, and changes nothing at all, exactly
    when the receipt is no longer the captured one, or there was none and one has come since, even if
    it has gone again, which the revision tells; otherwise, when it is accepted, the receipt is the
    proposed one, no other receipt has changed, and it is saved unless it was already current; and
    when it cannot be saved the receipts are as before. *)
Theorem reconciliation_compares slug original rev proposed view σ :
  let captured := lf_operations σ !! slug = original ∧ (original = None → default 0 (lf_revisions σ !! slug) = rev) in
  let '(σ', r) := acceptLifecycleReconciliation rt workspace slug original rev proposed view σ in
  match r with
  | Ok false => ¬ captured ∧ σ' = σ
  | Ok true => captured ∧ lf_operations σ' !! slug = proposed ∧
      (∀ other, other ≠ slug → lf_operations σ' !! other = lf_operations σ !! other) ∧
      (original ≠ proposed → saved σ')
  | Err _ => captured ∧ memory σ' = memory σ
  end.
Proof.
  cbv zeta.
  cut (wp (acceptLifecycleReconciliation rt workspace slug original rev proposed view) (λ σ' r,
    match r with
    | Ok false => unchanged slug original rev σ = false ∧ σ' = σ
    | Ok true => unchanged slug original rev σ = true ∧ lf_operations σ' !! slug = proposed ∧
        (∀ other, other ≠ slug → lf_operations σ' !! other = lf_operations σ !! other) ∧ (original ≠ proposed → saved σ')
    | Err _ => unchanged slug original rev σ = true ∧ memory σ' = memory σ
    end) σ).
  { unfold wp. destruct (acceptLifecycleReconciliation _ _ _ _ _ _ _ σ) as [σ' [[]|]]; intros [H H'].
    - apply unchanged_spec in H. by split.
    - split; [|done]. intros Hc. apply (unchanged_spec slug original rev) in Hc. congruence.
    - apply unchanged_spec in H. by split. }
  unfold acceptLifecycleReconciliation. apply wp_bind, wp_gets. destruct (unchanged slug original rev σ) eqn:Hu; [|by apply wp_ret].
  cbn. assert (lf_operations σ !! slug = original) as Ho.
  { unfold unchanged in Hu. apply andb_prop in Hu as [Hu _]. by apply bool_decide_eq_true_1 in Hu. }
  destruct proposed as [o|].
  - apply wp_bind. destruct (bool_decide (original = Some o)) eqn:E.
    + apply bool_decide_eq_true_1 in E. apply wp_ret, wp_bind, wp_lask. intros w now. apply wp_bind.
      eapply wp_mono; [apply publish_spec|]. intros σ2 r (-> & Ho2 & _). apply wp_ret. cbn in Ho2. rewrite Ho2.
      split_and!; [done|congruence|done|congruence].
    + eapply wp_mono; [apply receipt_replace_spec|]. intros σ1 [[]|e]; [|done]. intros (Ho1 & _ & Hs).
      apply wp_bind, wp_lask. intros w now. apply wp_bind. eapply wp_mono; [apply publish_spec|].
      intros σ2 r (-> & Ho2 & _ & _ & _ & _ & Hf & _). apply wp_ret. cbn in Ho2, Hf. rewrite Ho2, Ho1.
      split_and!; [done|apply lookup_insert_eq|intros other Hne; by apply lookup_insert_ne|].
      intros _. destruct Hs as (data & He & Hfile). exists data. by rewrite Ho2, Hf.
  - apply wp_bind. destruct (bool_decide (original = None)) eqn:E.
    + apply bool_decide_eq_true_1 in E. apply wp_ret, wp_ret. split_and!; [done|congruence|done|congruence].
    + apply bool_decide_eq_false_1 in E. eapply wp_mono; [apply remove_spec|]. intros σ1 [[]|e]; [|done].
      intros (Ho1 & _ & _ & Hs & _). apply wp_ret. rewrite Ho1. split_and!; [done|apply lookup_delete_eq| |].
      * intros other Hne. by apply lookup_delete_ne.
      * intros _. apply Hs. rewrite Ho. by destruct original.
Qed.


End Facts.

(** ** The reserve for terminal outcomes *)

(** The reserve stands for every error with 4096 plain bytes, but a stored error of the
    same length can take six times as many in the file. *)
Definition angles (n : nat) : string := String.concat "" (repeat "<" n).
Lemma terminal_reserve_too_small :
  ∃ text, boundedLifecycleError text = text ∧ strlen text = maxLifecycleOperationErrorBytes ∧
    strlen (json_string_text worst_error) = 4098 ∧ strlen (json_string_text text) = 24578.
Proof. exists (angles 4096). split_and!; vm_compute; reflexivity. Qed.
