(* ===== verification/LifecyclePropose.v ===== *)
(** * Lifecycle receipts: what a fresh look at the session says

    Target identities ([web/lifecycle_target.go]), journal evidence
    ([web/service_cleanup_handoff.go], [session/service_cleanup.go]) and the
    reconciliation of a receipt with them ([web/operation_state.go]). *)

From S2P Require Import Prelude Effects GoStrings GoJson GoLibrary GoTime GoTimeParse Sha256 RetryValidate RetryManaged Communication Codex.
From S2P Require Import LifecycleTypes LifecycleOps.
From stdpp Require Import pretty.

Open Scope Z_scope.

(** A check of a target: it holds, or the target changed to [current]. *)
Inductive checked (A : Type) :=
  | target_ok (a : A)
  | target_changed (current : option lifecycleTargetSnapshot).
Arguments target_ok {A}. Arguments target_changed {A}.

(** ** Journals *)

Definition servicePreludePhase (phase : string) : bool := (phase == "services_pending") || (phase == "services_stopped").

(** [combineServiceCleanup] *)
Definition combineServiceCleanup (progress prelude : option LifecycleProgress) : result (option LifecycleProgress) :=
  match prelude, progress with
  | None, _ => Ok progress
  | Some _, None => Ok prelude
  | Some prelude, Some progress =>
      let same_root := negb (lp_RootRecorded progress) || bool_decide (lp_RetainedThreadID progress = lp_RetainedThreadID prelude) in
      if (lp_Operation progress != lp_Operation prelude) || (lp_JournalID progress != lp_JournalID prelude)
         || (lp_Mode progress != lp_Mode prelude) || negb same_root
         || (lp_Operation progress == "delete") && lp_Force prelude && negb (lp_Force progress)
      then Err (ErrorsNew "conflicting service cleanup and lifecycle journals reserve session")
      else Ok (Some (progress <| lp_ServicePreludeEvidence := lp_Evidence prelude |>))
  end.

(** [operationRedirect], [applyProgressOptions] and [operationFromProgress] *)
Definition operationRedirect (slug kind : string) : string := if kind == "revive" then "/" +:+ slug +:+ "/" else "/".

Definition applyProgressOptions (o : lifecycleOperation) (p : LifecycleProgress) : lifecycleOperation :=
  o <| op_Options ::= λ opts,
    let opts := opts <| opt_JournalID := lp_JournalID p |> <| opt_JournalExpected := true |>
                     <| opt_JournalEvidence := lp_Evidence p |> in
    if lp_Operation p == "archive" then opts <| opt_Mode := lp_Mode p |>
    else if lp_Operation p == "delete" then opts <| opt_Force := lp_Force p |> else opts |>.

Definition operationFromProgress (slug : string) (p : LifecycleProgress) : lifecycleOperation :=
  let updated := rfc3339 (lp_UpdatedAt p) in
  let o := no_operation <| op_Slug := slug |> <| op_Kind := lp_Operation p |> <| op_State := "paused" |>
             <| op_Phase := lp_Phase p |> <| op_StartedAt := updated |> <| op_UpdatedAt := updated |>
             <| op_Redirect := operationRedirect slug (lp_Operation p) |>
             <| op_ReceiptID := hash (GoJson.join nul [slug; lp_Operation p; lp_JournalID p; updated]) |> in
  applyProgressOptions o p.

(** [observationRootMatches] *)
Definition observationRootMatches (root : string) (recorded : option string) : bool :=
  (root == "") && bool_decide (recorded = None) || bool_decide (recorded = Some root).

Section Propose.
Context {CW : CodexWeb} {W : Type} (rt : LifeRuntime W) (workspace : string) (supervised : bool) (message : error → string).
Abbreviation Life := (SE (LifeSys W)).

(** [fmt.Errorf("text: %w", err)] *)
Definition wrap {A} (text : string) (r : result A) : Life A :=
  lift_result (match r with Ok a => Ok a | Err e => Err (ErrWrap e (text +:+ ": " +:+ message e)) end).

Definition Find (slug : string) : Life Summary := r ← lask (lr_Find rt slug); lift_result r.

(** ** Targets *)

(** [lifecycleTargetIdentityAt]; [lr_Resolve] is [EvalSymlinks] and [Abs]. *)
Definition lifecycleTargetIdentityAt (s : Summary) (location : string) : Life string :=
  if negb (location_ok (sum_Root s)) || negb (location_ok location) || negb (ValidSlug (sum_Slug s))
  then fail (ErrorsNew "session tracking is missing") else
  r ← lask (lr_Resolve rt (sum_Workspace s));
  directory ← wrap "resolve session workspace" r;
  st ← lask (lr_Lstat rt (GoLibrary.Join [directory; sum_Root s; sum_Slug s]));
  st ← wrap "inspect session tracking" st;
  if negb (fs_directory st) then fail (ErrorsNew "session tracking is not a directory") else
  let root := if sum_ThreadID s != "" then GoJson.join nul ["present"; sum_ThreadID s] else "absent" in
  mret (hash (GoJson.join nul ["2"; directory; sum_Slug s; location; pretty (fs_Dev st); pretty (fs_Ino st); root])).
Definition lifecycleTargetIdentity (s : Summary) : Life string := lifecycleTargetIdentityAt s (sum_Root s).

(** [legacyLifecycleTargetIdentity] *)
Definition legacyLifecycleTargetIdentity (s : Summary) : Life string :=
  let tracking := GoLibrary.Join [sum_Workspace s; sum_Root s; sum_Slug s] in
  st ← lask (lr_Lstat rt tracking);
  st ← lift_result st;
  if negb (fs_directory st) then fail (ErrorsNew "session tracking is not a directory") else
  mret (hash (GoJson.join nul [Clean tracking; pretty (fs_Dev st); pretty (fs_Ino st); pretty (fs_CtimSec st);
                        pretty (fs_CtimNsec st); sum_ThreadID s])).

(** [currentLifecycleTarget] *)
Definition currentLifecycleTarget (s : Summary) : Life lifecycleTargetSnapshot :=
  identity ← lifecycleTargetIdentity s;
  mret (mkTarget identity lifecycleTargetIdentityVersion (sum_Slug s) (sum_Root s) (sum_Lifecycle s) (sum_ThreadID s) (sum_Archived s)).
Definition current_or_none (s : Summary) : Life (option lifecycleTargetSnapshot) :=
  r ← attempt (currentLifecycleTarget s);
  mret (match r with Ok t => Some t | Err _ => None end).

(** [validateLifecycleTarget] *)
Definition validateLifecycleTarget (s : Summary) (expected action : string) : Life (checked string) :=
  current ← attempt (currentLifecycleTarget s);
  current ← wrap ("verify " +:+ action +:+ " target") current;
  if (expected == "") || (expected != lts_TargetID current) then mret (target_changed (Some current))
  else mret (target_ok (lts_TargetID current)).

(** [validateLifecycleReceiptTarget]: a receipt of the first version is bracketed by
    two positive proofs of its old identity. *)
Definition legacy_matches (s : Summary) (o : lifecycleOperation) : Life bool :=
  r ← attempt (legacyLifecycleTargetIdentity s);
  mret (match r with Ok identity => identity == opt_TargetID (op_Options o) | Err _ => false end).
Definition validateLifecycleReceiptTarget (s : Summary) (o : lifecycleOperation) : Life (checked lifecycleTargetSnapshot) :=
  let legacy := op_TargetIdentityVersion o =? 0 in
  before ← (if legacy then legacy_matches s o else mret true);
  if negb before then current ← current_or_none s; mret (target_changed current) else
  current ← currentLifecycleTarget s;
  after ← (if legacy then legacy_matches s o else mret (lts_TargetID current == opt_TargetID (op_Options o)));
  if negb after then mret (target_changed (Some current)) else mret (target_ok current).

(** ** Journal evidence *)

(** [lifecycleJournalEvidenceMatches] *)
Definition handover_target (o : lifecycleOperation) : option (string * string) :=
  let opts := op_Options o in
  if opt_JournalTargetID opts != "" then Some (opt_JournalTargetID opts, opt_JournalTargetLocation opts)
  else if op_TargetIdentityVersion o =? lifecycleTargetIdentityVersion
  then Some (opt_TargetID opts, opt_TargetLocation opts) else None.

(** A service prelude's evidence may be replaced by its archive journal's. *)
Definition hands_over (o : lifecycleOperation) (p : LifecycleProgress) : bool :=
  let opts := op_Options o in
  negb ((opt_JournalEvidence opts == "") || lp_ServicePrelude p || servicePreludePhase (lp_Phase p)
        || (op_Kind o != "archive") || (lp_Operation p != "archive") || (opt_JournalID opts == "")
        || (opt_JournalID opts != lp_JournalID p) || (opt_Mode opts != lp_Mode p) || negb (lp_RootRecorded p))
  && negb ((lp_ServicePreludeEvidence p != "") && (lp_ServicePreludeEvidence p != opt_JournalEvidence opts)).

Definition lifecycleJournalEvidenceMatches (o : lifecycleOperation) (p : LifecycleProgress) : Life bool :=
  let expected := opt_JournalEvidence (op_Options o) in
  if lp_ServicePrelude p && negb (servicePreludePhase (op_Phase o)) && (opt_JournalExpected (op_Options o) || (expected != ""))
  then mret false
  else if expected == lp_Evidence p then mret true
  else if negb (servicePreludePhase (op_Phase o)) then mret (expected == "")
  else if negb (hands_over o p) then mret false
  else match handover_target o with
  | None => mret false
  | Some (target, location) =>
      if negb (messageDigestPattern target) || negb (location_ok location) then mret false else
      s ← attempt (Find (op_Slug o));
      match s with
      | Err _ => mret false
      | Ok s =>
          if negb (observationRootMatches (sum_ThreadID s) (lp_RetainedThreadID p)) then mret false else
          r ← attempt (lifecycleTargetIdentityAt s location);
          mret (match r with Ok identity => identity == target | Err _ => false end)
      end
  end.

(** [bindLifecycleJournalTarget] *)
Definition bindLifecycleJournalTarget (o : lifecycleOperation) (p : LifecycleProgress) : Life lifecycleOperation :=
  if opt_JournalTargetID (op_Options o) != "" then mret o else
  if (op_Kind o != "delete") && negb (lp_RootRecorded p) then mret o else
  s ← attempt (Find (op_Slug o));
  match s with
  | Err _ => mret o
  | Ok s =>
      if lp_RootRecorded p && (sum_ThreadID s != default "" (lp_RetainedThreadID p)) then mret o else
      r ← attempt (lifecycleTargetIdentity s);
      mret (match r with
            | Ok identity => o <| op_Options ::= λ opts, opts <| opt_JournalTargetID := identity |>
                                                              <| opt_JournalTargetLocation := sum_Root s |> |>
            | Err _ => o
            end)
  end.

(** [prepareLifecycleRetry] *)
Definition prepareLifecycleRetry (o : lifecycleOperation) (p : option LifecycleProgress) : Life (checked lifecycleOperation) :=
  match p with
  | Some p =>
      same ← (if (lp_Operation p != op_Kind o) || (lp_JournalID p != opt_JournalID (op_Options o)) then mret false
              else lifecycleJournalEvidenceMatches o p);
      if negb same then fail (ErrorsNew "The lifecycle operation changed. Review its current status before retrying.")
      else mret (target_ok (applyProgressOptions o p <| op_Phase := lp_Phase p |>))
  | None =>
      if opt_JournalExpected (op_Options o) then fail (ErrorsNew "The lifecycle recovery journal is no longer available.") else
      s ← Find (op_Slug o);
      current ← validateLifecycleReceiptTarget s o;
      match current with
      | target_changed t => mret (target_changed t)
      | target_ok current =>
          let o := if op_TargetIdentityVersion o =? 0
                   then o <| op_Options ::= λ opts, opts <| opt_TargetID := lts_TargetID current |>
                                                         <| opt_TargetLocation := lts_Location current |> |>
                          <| op_TargetIdentityVersion := lifecycleTargetIdentityVersion |>
                   else o in
          if (op_Kind o == "delete") && (opt_DeletedThreadID (op_Options o) != sum_ThreadID s)
          then fail (ErrorsNew "The accepted deletion root changed.")
          else mret (target_ok (o <| op_Options ::= λ opts, opts <| opt_TargetLocation := sum_Root s |> |>))
      end
  end.

(** ** Success *)

(** The identity a completed archive or revive must still have. *)
Definition completion_target (o : lifecycleOperation) : option (string * string) :=
  let opts := op_Options o in
  let '(target, location) :=
    if op_TargetIdentityVersion o =? lifecycleTargetIdentityVersion then (opt_TargetID opts, opt_TargetLocation opts)
    else if opt_JournalEvidence opts == "" then ("", "")
    else (opt_JournalTargetID opts, opt_JournalTargetLocation opts) in
  if (target == "") || (location == "") then None else Some (target, location).

Definition reached (o : lifecycleOperation) (s : Summary) : result bool :=
  if op_Kind o == "archive"
  then Ok (sum_Archived s && sum_Terminal s && (sum_FinalizedAt s != "") && (sum_Lifecycle s == opt_Mode (op_Options o)))
  else if op_Kind o == "revive"
  then Ok (negb (sum_Archived s) && (sum_Lifecycle s == "active") && (sum_FinalizedAt s == ""))
  else if op_Kind o == "delete" then Ok false
  else Err (ErrorsNew "invalid lifecycle operation").

Definition lifecycleOperationSucceeded (slug : string) (o : lifecycleOperation) : Life bool :=
  s ← attempt (Find slug);
  match s with
  | Err e =>
      if negb (errors_Is e ErrNotExist) then fail e
      else if op_Kind o != "delete" then mret false
      else match parse_rfc3339 (op_StartedAt o) with
           | None => fail (ErrorsNew "deletion operation has an invalid start time")
           | Some startedAt => r ← lask (lr_CompletedRemoval rt slug (opt_JournalID (op_Options o)) startedAt); lift_result r
           end
  | Ok s =>
      if op_Kind o != "delete" then
        match completion_target o with
        | None => mret false
        | Some (target, location) =>
            actual ← lifecycleTargetIdentityAt s location;
            if actual != target then mret false else lift_result (reached o s)
        end
      else lift_result (reached o s)
  end.

(** ** [proposeLifecycleOperation] *)

Definition preparing (slug : string) (o : lifecycleOperation) : Life (option archivePreparation) :=
  p ← gets (λ σ, lf_preparations σ !! slug);
  mret (match p with Some p => if matches p o && active p then Some p else None | None => None end).

(** The supervised worker's state. *)
Definition apply_worker (o : lifecycleOperation) (w : archiveWorkerStatus) (now : Time) : lifecycleOperation :=
  let o := o <| op_State := aw_State w |> <| op_Error := aw_Error w |> in
  if aw_State w == "running" then o <| op_FinishedAt := "" |>
  else o <| op_FinishedAt := if aw_FinishedAt w == "" then rfc3339 now else aw_FinishedAt w |>.
Definition observe_worker (o : lifecycleOperation) (now : Time) : Life lifecycleOperation :=
  if (op_Kind o == "archive") && (op_State o != "complete") && supervised then
    w ← lask (lr_archiveWorker rt o);
    w ← lift_result w;
    mret (match w with Some w => apply_worker o w now | None => o end)
  else mret o.

(** A receipt whose journal exists. *)
Definition with_journal (slug : string) (o : option lifecycleOperation) (p : LifecycleProgress)
    : Life (lifecycleOperation * option error) :=
  let adopt := (o ← bindLifecycleJournalTarget (operationFromProgress slug p) p; mret (o, None)) : Life _ in
  match o with
  | None => adopt
  | Some o =>
      if (op_Kind o != lp_Operation p) || (opt_JournalID (op_Options o) == "") || (lp_JournalID p == "")
         || (opt_JournalID (op_Options o) != lp_JournalID p)
      then adopt else
      same ← lifecycleJournalEvidenceMatches o p;
      if negb same then mret (o, Some (ErrorsNew "lifecycle journal immutable evidence changed")) else
      o ← bindLifecycleJournalTarget o p;
      let o := applyProgressOptions (o <| op_Phase := lp_Phase p |> <| op_UpdatedAt := rfc3339 (lp_UpdatedAt p) |>) p in
      mret (if op_State o == "complete" then o <| op_State := "paused" |> <| op_Error := "" |> else o, None)
  end.

(** A receipt without a journal. *)
Definition restarted : string := "The portal restarted before this operation completed. Retry it.".
Definition expired (o : lifecycleOperation) (now : Time) : bool :=
  (op_State o == "complete")
  && match parse_rfc3339 (op_UpdatedAt o) with
     | Some updatedAt => lifecycleOperationSuccessRetention <=? now - updatedAt
     | None => false
     end.
Definition without_journal (slug : string) (o : lifecycleOperation) (now : Time) : Life (option lifecycleOperation) :=
  o ← (if (op_State o == "paused") || (op_State o == "failed") then
         r ← attempt (lifecycleOperationSucceeded slug o);
         mret (if match r with Ok true => true | _ => false end
               then o <| op_State := "complete" |> <| op_Phase := "complete" |> <| op_Error := "" |> <| op_UpdatedAt := rfc3339 now |>
               else if op_State o == "paused"
               then o <| op_State := "failed" |> <| op_Error := restarted |> <| op_UpdatedAt := rfc3339 now |>
               else o)
       else mret o);
  mret (if expired o now then None else Some o).

(** The proposed receipt, [None] when there is none, and the error that goes with it. *)
Definition journal_unsafe (o : lifecycleOperation) (text : string) (now : Time) : lifecycleOperation :=
  o <| op_State := "failed" |> <| op_Error := boundedLifecycleError ("Session lifecycle state is unsafe: " +:+ text) |>
    <| op_UpdatedAt := rfc3339 now |>.

Definition proposeLifecycleOperation (slug : string) (o : option lifecycleOperation)
    (progress : result (option LifecycleProgress)) (now : Time)
    : Life (option lifecycleOperation * option error) :=
  p ← match o with Some o => preparing slug o | None => mret None end;
  match p, o with
  | Some p, Some o => mret (Some (o <| op_State := "running" |> <| op_Phase := ap_State p |>), None)
  | _, _ =>
      w ← match o with Some o => r ← attempt (observe_worker o now); mret (Some r) | None => mret None end;
      match w, o with
      | Some (Err e), _ => mret (o, Some e)
      | _, _ =>
          let o := match w with Some (Ok o) => Some o | _ => o end in
          match progress with
          | Err e => mret (match o with Some o => Some (journal_unsafe o (message e) now) | None => None end, Some e)
          | Ok (Some p) => '(o, e) ← with_journal slug o p; mret (Some o, e)
          | Ok None => match o with
                       | None => mret (None, None)
                       | Some o => o ← without_journal slug o now; mret (o, None)
                       end
          end
      end
  end.

(** ** Views and the reconciliation loop *)

(** [lifecycleSnapshot], in a new object. *)
Definition lifecycleSnapshot (slug : string) : Life (option (ref lifecycleTargetSnapshot)) :=
  s ← attempt (Find slug);
  match s with
  | Err _ => mret None
  | Ok s => t ← current_or_none s; a ← lask (lr_address rt); mret (mkRef a <$> t)
  end.

(** [lifecycleOperationView] *)
Definition first_blocker (p : archivePreparation) : option archiveBlocker := c ← ap_Check p; head (elems (ck_Blockers c)).
Definition lifecycleOperationView (slug : string) (o : lifecycleOperation) : Life lifecycleOperation :=
  p ← preparing slug o;
  let o := match p with
           | Some p => let o := o <| op_Phase := ap_State p |> in
                       match first_blocker p with Some b => o <| op_Error := blk_Message b |> | None => o end
           | None => o
           end in
  progress ← lask (lr_ReadArchiveProgress rt slug (opt_JournalID (op_Options o)));
  p ← preparing slug o;
  target ← lifecycleSnapshot slug;
  let o := o <| op_Progress := if bool_decide (p = None) then progress else None |> <| op_CurrentTarget := target |> in
  if (op_State o == "failed") && negb (opt_JournalExpected (op_Options o)) then
    s ← attempt (Find slug);
    match s with
    | Err _ => mret o
    | Ok s => r ← attempt (validateLifecycleReceiptTarget s o);
              mret (match r with Ok (target_changed _) => o <| op_ErrorCode := "target_changed" |> | _ => o end)
    end
  else mret o.

(** [reconcileLifecycleOperation]; [interfere] is what other goroutines do to the
    shared state while this one reads its evidence.  [fuel] bounds the comparisons
    lost; running out of it is [None]. *)
Definition interfere (others : LifeSys W → LifeSys W) : Life unit := modify others.
Fixpoint reconcileLifecycleOperation (fuel : nat) (others : LifeSys W → LifeSys W) (slug : string)
    (original : option lifecycleOperation) (rev : Z) : Life (option (option lifecycleOperation * option error)) :=
  match fuel with
  | O => mret None
  | S fuel =>
      e ← lask (lr_context rt);
      match e with
      | Some e => mret (Some (original, Some e))
      | None =>
          progress ← lask (lr_Progress rt slug);
          now ← lask (lr_now rt);
          '(o, e) ← proposeLifecycleOperation slug original progress now;
          view ← lifecycleOperationView slug (default no_operation o);
          interfere others;;
          ended ← lask (lr_context rt);
          match ended with
          | Some c => mret (Some (original, Some (match e with Some e => e | None => c end)))
          | None =>
              accepted ← attempt (acceptLifecycleReconciliation rt workspace slug original rev o view);
              match accepted with
              | Err s => mret (Some (original, Some (match e with Some e => e | None => s end)))
              | Ok true => mret (Some (o, e))
              | Ok false =>
                  interfere others;;
                  '(original, rev) ← captureLifecycleOperation slug;
                  reconcileLifecycleOperation fuel others slug original rev
              end
          end
      end
  end.

End Propose.
