(* ===== verification/LifecycleFacts.v ===== *)
(** * Lifecycle receipts: what a proposal proves *)

From S2P Require Import Prelude Effects GoStrings GoJson GoTime GoTimeParse RetryValidate RetrySys Codex.
From S2P Require Import LifecycleTypes LifecycleOps LifecycleStoreFacts LifecyclePropose.

Open Scope Z_scope.

(** ** Reading changes only the world *)

Section Reading.
Context {CW : CodexWeb} {W : Type} (rt : LifeRuntime W) (message : error → string).
Abbreviation Life := (SE (LifeSys W)).

Definition reads (σ σ' : LifeSys W) : Prop := σ' = σ <| lf_world := lf_world σ' |>.
#[export] Instance reads_preorder : PreOrder reads.
Proof.
  split; [by intros []|]. intros σ1 σ2 σ3 H1 H2. unfold reads in *. rewrite H2, H1 at 1. reflexivity.
Qed.

Lemma reads_memory σ σ' : reads σ σ' → memory σ' = memory σ ∧ lf_file σ' = lf_file σ.
Proof. intros ->. done. Qed.
Lemma reads_operations σ σ' : reads σ σ' → lf_operations σ' = lf_operations σ.
Proof. by intros ->. Qed.
Lemma reads_preparations σ σ' : reads σ σ' → lf_preparations σ' = lf_preparations σ.
Proof. by intros ->. Qed.

Lemma reads_lask {A} (f : W → W * A) : rel_steps reads (lask f).
Proof. intros σ. unfold lask, reads. by destruct (f (lf_world σ)). Qed.
End Reading.
#[export] Hint Resolve reads_lask : proc.

Section Reads.
Context {CW : CodexWeb} {W : Type} (rt : LifeRuntime W) (message : error → string).

Lemma reads_wrap {A} text (r : result A) : rel_steps (@reads _ W) (wrap message text r).
Proof. apply rel_lift_result. typeclasses eauto. Qed.
#[local] Hint Resolve reads_wrap : proc.
Lemma reads_Find slug : rel_steps reads (Find rt slug).
Proof. unfold Find. procs. Qed.
#[local] Hint Resolve reads_Find : proc.
Lemma reads_identity_at s location : rel_steps reads (lifecycleTargetIdentityAt rt message s location).
Proof. unfold lifecycleTargetIdentityAt. procs. Qed.
#[local] Hint Resolve reads_identity_at : proc.
Lemma reads_identity s : rel_steps reads (lifecycleTargetIdentity rt message s).
Proof. unfold lifecycleTargetIdentity. procs. Qed.
#[local] Hint Resolve reads_identity : proc.
Lemma reads_legacy s : rel_steps reads (legacyLifecycleTargetIdentity rt s).
Proof. unfold legacyLifecycleTargetIdentity. cbv zeta. procs. Qed.
#[local] Hint Resolve reads_legacy : proc.
Lemma reads_current s : rel_steps reads (currentLifecycleTarget rt message s).
Proof. unfold currentLifecycleTarget. procs. Qed.
#[local] Hint Resolve reads_current : proc.
Lemma reads_target s expected action : rel_steps reads (validateLifecycleTarget rt message s expected action).
Proof. unfold validateLifecycleTarget. procs. Qed.
Lemma reads_legacy_matches s o : rel_steps reads (legacy_matches rt s o).
Proof. unfold legacy_matches. procs. Qed.
#[local] Hint Resolve reads_legacy_matches : proc.
Lemma reads_current_or_none s : rel_steps reads (current_or_none rt message s).
Proof. unfold current_or_none. procs. Qed.
#[local] Hint Resolve reads_current_or_none : proc.
Lemma reads_receipt_target s o : rel_steps reads (validateLifecycleReceiptTarget rt message s o).
Proof. unfold validateLifecycleReceiptTarget. cbv zeta. procs. Qed.
#[local] Hint Resolve reads_receipt_target reads_target : proc.
Lemma reads_evidence o p : rel_steps reads (lifecycleJournalEvidenceMatches rt message o p).
Proof. unfold lifecycleJournalEvidenceMatches. cbv zeta. procs. Qed.
#[local] Hint Resolve reads_evidence : proc.
Lemma reads_bind o p : rel_steps reads (bindLifecycleJournalTarget rt message o p).
Proof. unfold bindLifecycleJournalTarget. procs. Qed.
#[local] Hint Resolve reads_bind : proc.
Lemma reads_retry o p : rel_steps reads (prepareLifecycleRetry rt message o p).
Proof. unfold prepareLifecycleRetry. cbv zeta. procs. Qed.
Lemma reads_succeeded slug o : rel_steps reads (lifecycleOperationSucceeded rt message slug o).
Proof. unfold lifecycleOperationSucceeded. procs. Qed.
Lemma reads_preparing slug o : rel_steps (@reads _ W) (preparing slug o).
Proof. unfold preparing. procs. Qed.
#[local] Hint Resolve reads_retry reads_succeeded reads_preparing : proc.
Lemma reads_with_journal slug o p : rel_steps reads (with_journal rt message slug o p).
Proof. unfold with_journal. cbv zeta. procs. Qed.
Lemma reads_without_journal slug o now : rel_steps reads (without_journal rt message slug o now).
Proof. unfold without_journal. procs. Qed.
Lemma reads_observe_worker supervised o now : rel_steps reads (observe_worker rt supervised o now).
Proof. unfold observe_worker. procs. Qed.
#[local] Hint Resolve reads_with_journal reads_without_journal reads_observe_worker : proc.
Lemma reads_propose supervised slug o progress now : rel_steps reads (proposeLifecycleOperation rt supervised message slug o progress now).
Proof. unfold proposeLifecycleOperation. procs. Qed.
Lemma reads_snapshot slug : rel_steps reads (lifecycleSnapshot rt message slug).
Proof. unfold lifecycleSnapshot. procs. Qed.
#[local] Hint Resolve reads_snapshot : proc.
Lemma reads_view slug o : rel_steps reads (lifecycleOperationView rt message slug o).
Proof. unfold lifecycleOperationView. cbv zeta. procs. Qed.
End Reads.
#[export] Hint Resolve reads_wrap reads_Find reads_identity_at reads_identity reads_legacy reads_current reads_target
  reads_receipt_target reads_evidence reads_bind reads_retry reads_succeeded reads_preparing reads_with_journal
  reads_without_journal reads_observe_worker reads_propose reads_snapshot reads_view : proc.

(** ** Proposals *)

Section Proposals.
Context {CW : CodexWeb} {W : Type} (rt : LifeRuntime W) (supervised : bool) (message : error → string).

(** What a receipt is about, which no proposal for the same journal changes. *)
Definition same_receipt (o o' : lifecycleOperation) : Prop :=
  op_Slug o' = op_Slug o ∧ op_Kind o' = op_Kind o ∧ op_ReceiptID o' = op_ReceiptID o ∧ op_Attempt o' = op_Attempt o ∧
  op_StartedAt o' = op_StartedAt o ∧ op_Redirect o' = op_Redirect o ∧
  op_TargetIdentityVersion o' = op_TargetIdentityVersion o ∧
  opt_TargetID (op_Options o') = opt_TargetID (op_Options o) ∧
  opt_TargetLocation (op_Options o') = opt_TargetLocation (op_Options o) ∧
  opt_DeletedThreadID (op_Options o') = opt_DeletedThreadID (op_Options o).

(** The journal a receipt records. *)
Definition records (o : lifecycleOperation) (p : LifecycleProgress) : Prop :=
  opt_JournalExpected (op_Options o) = true ∧ opt_JournalID (op_Options o) = lp_JournalID p ∧
  opt_JournalEvidence (op_Options o) = lp_Evidence p ∧ op_Phase o = lp_Phase p.

(** Binding sets at most the journal's target. *)
Lemma bind_spec o p σ :
  wp (bindLifecycleJournalTarget rt message o p) (λ _ r, ∃ id location, r = Ok o ∨
    r = Ok (o <| op_Options ::= λ opts, opts <| opt_JournalTargetID := id |> <| opt_JournalTargetLocation := location |> |>)) σ.
Proof.
  unfold bindLifecycleJournalTarget. destruct (opt_JournalTargetID (op_Options o) != ""); [by apply wp_ret; exists "", ""; left|].
  destruct ((op_Kind o != "delete") && negb (lp_RootRecorded p)); [by apply wp_ret; exists "", ""; left|].
  apply wp_bind, wp_attempt. apply (wp_mono _ (λ _ _, True)); [done|]. intros σ1 r1 _.
  destruct r1 as [s|e]; [|by apply wp_ret; exists "", ""; left].
  destruct (lp_RootRecorded p && (sum_ThreadID s != default "" (lp_RetainedThreadID p))); [by apply wp_ret; exists "", ""; left|].
  apply wp_bind, wp_attempt. apply (wp_mono _ (λ _ _, True)); [done|]. intros σ2 r2 _. apply wp_ret.
  destruct r2 as [id|e]; [exists id, (sum_Root s); by right|exists "", ""; by left].
Qed.

Lemma evidence_pinned o p σ :
  servicePreludePhase (op_Phase o) = false → opt_JournalEvidence (op_Options o) ≠ "" →
  wp (lifecycleJournalEvidenceMatches rt message o p) (λ _ r, r = Ok true → lp_Evidence p = opt_JournalEvidence (op_Options o)) σ.
Proof.
  intros Hp He. unfold lifecycleJournalEvidenceMatches. rewrite Hp. cbv zeta.
  destruct (lp_ServicePrelude p && negb false && _); [by apply wp_ret|].
  destruct (opt_JournalEvidence (op_Options o) == lp_Evidence p) eqn:E; [apply bool_decide_eq_true_1 in E; by apply wp_ret|].
  cbn. apply wp_ret. intros [= Hb]. by apply bool_decide_eq_true_1 in Hb.
Qed.

Lemma apply_records o p : records (applyProgressOptions (o <| op_Phase := lp_Phase p |>) p) p.
Proof. unfold applyProgressOptions, records. cbn. case_match; [done|]. by case_match. Qed.

Definition pinned (slug : string) (o : lifecycleOperation) (p : LifecycleProgress) (o' : lifecycleOperation) : Prop :=
  records o' p ∧ op_State o' ≠ "complete" ∧
  (op_Kind o = lp_Operation p → opt_JournalID (op_Options o) = lp_JournalID p → opt_JournalID (op_Options o) ≠ "" →
     same_receipt o o' ∧
     (servicePreludePhase (op_Phase o) = false → opt_JournalEvidence (op_Options o) ≠ "" →
        lp_Evidence p = opt_JournalEvidence (op_Options o))).

(** The same journal seen again. *)
Definition seen_again (o : lifecycleOperation) (p : LifecycleProgress) : lifecycleOperation :=
  let o := applyProgressOptions (o <| op_Phase := lp_Phase p |> <| op_UpdatedAt := rfc3339 (lp_UpdatedAt p) |>) p in
  if op_State o == "complete" then o <| op_State := "paused" |> <| op_Error := "" |> else o.
Definition bound (o o' : lifecycleOperation) : Prop := ∃ id location, o' = o ∨
  o' = o <| op_Options ::= λ opts, opts <| opt_JournalTargetID := id |> <| opt_JournalTargetLocation := location |> |>.

Lemma seen_again_pinned slug o o1 p :
  bound o o1 →
  (servicePreludePhase (op_Phase o) = false → opt_JournalEvidence (op_Options o) ≠ "" →
     lp_Evidence p = opt_JournalEvidence (op_Options o)) →
  pinned slug o p (seen_again o1 p).
Proof.
  intros (id & location & Ho) He. unfold seen_again. cbv zeta.
  destruct Ho as [-> | ->]; (case_match eqn:E; [|apply bool_decide_eq_false_1 in E]);
    (split; [unfold applyProgressOptions, records; cbn; repeat case_match; done|]);
    (split; [first [done | exact E]|]);
    intros _ _ _; (split; [unfold applyProgressOptions, same_receipt; cbn; repeat case_match; done|]); exact He.
Qed.

Lemma adopted_records slug p o' :
  bound (operationFromProgress slug p) o' → records o' p ∧ op_State o' = "paused".
Proof.
  intros (id & location & [-> | ->]); unfold operationFromProgress, applyProgressOptions, records; cbn;
    (destruct (lp_Operation p == "archive"); [done|]); by destruct (lp_Operation p == "delete").
Qed.

Lemma bind_bound o p σ :
  wp (bindLifecycleJournalTarget rt message o p) (λ _ r, ∃ o', r = Ok o' ∧ bound o o') σ.
Proof.
  eapply wp_mono; [apply bind_spec|]. intros σ' r (id & location & [-> | ->]); eexists; (split; [done|]); exists id, location; auto.
Qed.

Lemma with_journal_spec slug o p σ :
  wp (with_journal rt message slug (Some o) p) (λ _ r, match r with
    | Ok (o', None) => pinned slug o p o'
    | Ok (o', Some _) => o' = o
    | Err _ => True
    end) σ.
Proof.
  unfold with_journal. cbv zeta.
  destruct ((op_Kind o != lp_Operation p) || (opt_JournalID (op_Options o) == "") || (lp_JournalID p == "")
            || (opt_JournalID (op_Options o) != lp_JournalID p)) eqn:Er.
  - apply wp_bind. eapply wp_mono; [apply bind_bound|]. intros σ1 r (o' & -> & Hb).
    apply adopted_records in Hb as [Hrec Hs]. apply wp_ret. split; [done|]. split; [by rewrite Hs|].
    intros Hk Hj Hne. exfalso.
    rewrite (bool_decide_eq_true_2 _ Hk), (bool_decide_eq_false_2 (opt_JournalID (op_Options o) = "")),
      (bool_decide_eq_false_2 (lp_JournalID p = "")), (bool_decide_eq_true_2 _ Hj) in Er by congruence. done.
  - apply wp_bind.
    apply (wp_mono _ (λ _ r, r = Ok true → servicePreludePhase (op_Phase o) = false → opt_JournalEvidence (op_Options o) ≠ "" →
      lp_Evidence p = opt_JournalEvidence (op_Options o))).
    + destruct (servicePreludePhase (op_Phase o)) eqn:Ep; [unfold wp; congruence|].
      destruct (decide (opt_JournalEvidence (op_Options o) = "")) as [He|He]; [unfold wp; congruence|].
      eapply wp_mono; [by apply evidence_pinned|]. auto.
    + intros σ1 [[]|e] He; cbn [negb]; [|by apply wp_ret|done]. specialize (He eq_refl).
      apply wp_bind. eapply wp_mono; [apply bind_bound|]. intros σ2 r (o1 & -> & Hb). apply wp_ret.
      by apply (seen_again_pinned slug).
Qed.

(** The worker's state changes neither the receipt's identity nor its options. *)
Definition observed (o o1 : lifecycleOperation) : Prop :=
  same_receipt o o1 ∧ op_Options o1 = op_Options o ∧ op_Phase o1 = op_Phase o.
Lemma observe_worker_spec o now σ :
  wp (observe_worker rt supervised o now) (λ _ r, ∀ o1, r = Ok o1 → observed o o1) σ.
Proof.
  unfold observe_worker. destruct ((op_Kind o == "archive") && (op_State o != "complete") && supervised).
  2: { apply wp_ret. intros o1 [= <-]. done. }
  apply wp_bind, wp_lask. intros w s. apply wp_bind, wp_lift_result. destruct s as [s|e]; [|done].
  apply wp_ret. intros o1 [= <-]. destruct s as [s|]; [|done]. unfold apply_worker. cbv zeta. by case_match.
Qed.
Lemma observed_pinned slug o o1 p o' : observed o o1 → pinned slug o1 p o' → pinned slug o p o'.
Proof.
  intros (Hs & Ho & Hp) (Hr & Hst & Hk). unfold pinned, same_receipt in *. rewrite Ho, Hp in Hk.
  destruct Hs as (H1 & H2 & H3 & H4 & H5 & H6 & H7 & H8 & H9 & H10). rewrite H2 in Hk.
  split; [done|]. split; [done|]. intros K1 K2 K3. destruct (Hk K1 K2 K3) as [(G1 & G2 & G3 & G4 & G5 & G6 & G7 & G8 & G9 & G10) G].
  split; [|done]. rewrite Ho in *. split_and!; congruence.
Qed.

(** The receipt an active preparation owns. *)
Definition is_preparing (slug : string) (o : lifecycleOperation) (σ : LifeSys W) : option archivePreparation :=
  match lf_preparations σ !! slug with Some p => if matches p o && active p then Some p else None | None => None end.
Lemma preparing_spec slug o σ :
  wp (preparing slug o) (λ σ' r, r = Ok (is_preparing slug o σ) ∧ σ' = σ) σ.
Proof. unfold preparing. apply wp_bind, wp_gets, wp_ret. done. Qed.

(** While a journal exists, a proposal either shows the active preparation, or
    refuses and leaves the receipt as it is, or records exactly that journal and is
    not complete.  For the journal the receipt already owns, the receipt keeps its
    identity, attempt, start and confirmed target; and once ordinary evidence is
    recorded, it only ever accepts a journal with the same evidence. *)
Theorem journal_evidence_pinned slug o p now σ :
  match (proposeLifecycleOperation rt supervised message slug (Some o) (Ok (Some p)) now σ).2 with
  | Ok (Some o', None) =>
      (∃ q, is_preparing slug o σ = Some q ∧ o' = o <| op_State := "running" |> <| op_Phase := ap_State q |>)
      ∨ pinned slug o p o'
  | Ok (o', Some _) => ∃ o1, o' = Some o1 ∧ observed o o1
  | Ok (None, None) => False
  | Err _ => True
  end.
Proof.
  match goal with |- match (?m σ).2 with _ => _ end => change (wp m (λ _ r, match r with
    | Ok (Some o', None) => (∃ q, is_preparing slug o σ = Some q ∧ o' = o <| op_State := "running" |> <| op_Phase := ap_State q |>)
        ∨ pinned slug o p o'
    | Ok (o', Some _) => ∃ o1, o' = Some o1 ∧ observed o o1
    | Ok (None, None) => False | Err _ => True end) σ) end.
  unfold proposeLifecycleOperation. apply wp_bind. eapply wp_mono; [apply preparing_spec|]. intros σ1 r [-> ->].
  destruct (is_preparing slug o σ) as [q|] eqn:Eq; [apply wp_ret; eauto|].
  apply wp_bind, wp_bind, wp_attempt. eapply wp_mono; [apply observe_worker_spec|]. intros σ2 [o1|e] Ho; apply wp_ret.
  2: { apply wp_ret. by exists o. }
  specialize (Ho o1 eq_refl). apply wp_bind. eapply wp_mono; [apply with_journal_spec|].
  intros σ3 [[o' [e|]]|e] H; [|by apply wp_ret; right; apply (observed_pinned slug o o1)|done].
  apply wp_ret. subst. by exists o1.
Qed.

Lemma propose_no_journal slug o now (σ : LifeSys W) :
  is_preparing slug o σ = None → (supervised = false ∨ op_Kind o ≠ "archive" ∨ op_State o = "complete") →
  proposeLifecycleOperation rt supervised message slug (Some o) (Ok None) now σ =
  (let '(σ', r) := without_journal rt message slug o now σ in (σ', match r with Ok o => Ok (o, None) | Err e => Err e end)).
Proof.
  intros Hp Hs. unfold proposeLifecycleOperation, mbind, SE_bind. cbn.
  pose proof (preparing_spec slug o σ) as H. unfold wp in H. destruct (preparing slug o σ) as [σ1 r1]. cbn in H.
  destruct H as [-> ->]. rewrite Hp.
  unfold observe_worker. assert ((op_Kind o == "archive") && (op_State o != "complete") && supervised = false) as ->.
  { destruct Hs as [->|[Hk|Hc]]; [by rewrite andb_false_r|by rewrite bool_decide_eq_false_2|].
    rewrite (bool_decide_eq_true_2 _ Hc). by rewrite andb_false_r. }
  cbn. by destruct (without_journal rt message slug o now σ) as [σ' [o'|e]].
Qed.

(** A completed receipt is kept for fifteen minutes and then removed: without a
    journal, the next proposal drops it exactly when that long has passed since the
    time it records. *)
Theorem complete_receipt_retained slug o t now σ :
  op_State o = "complete" → op_UpdatedAt o = rfc3339 t → 0 <= year_of t <= 9999 → is_preparing slug o σ = None →
  (proposeLifecycleOperation rt supervised message slug (Some o) (Ok None) now σ).2 =
  Ok (if 15 * 60 * 1000000000 <=? now - t then None else Some o, None).
Proof.
  intros Hs Ht Hy Hp. rewrite propose_no_journal by auto. unfold without_journal.
  assert ((op_State o == "paused") || (op_State o == "failed") = false) as -> by (by rewrite Hs).
  assert (expired o now = (15 * 60 * 1000000000 <=? now - t)) as He.
  { unfold expired. rewrite Ht, rfc3339_parsed by done. by rewrite Hs. }
  change ((let '(σ', r) := (σ, Ok (if expired o now then None else Some o)) in
           (σ', match r with Ok o => Ok (o, None) | Err e => Err e end)).2 =
          Ok (if 15 * 60 * 1000000000 <=? now - t then None else Some o, @None error)).
  by rewrite He.
Qed.

(** Without a journal a paused receipt never stays paused: it is completed when
    the session proves that the command succeeded, and otherwise fails with the
    advice to retry; a failed receipt becomes complete on the same proof only. *)
Theorem paused_receipt_resolved slug o now σ :
  op_State o = "paused" ∨ op_State o = "failed" → is_preparing slug o σ = None →
  supervised = false ∨ op_Kind o ≠ "archive" → 0 <= year_of now <= 9999 →
  let succeeded := match (lifecycleOperationSucceeded rt message slug o σ).2 with Ok b => b | Err _ => false end in
  (proposeLifecycleOperation rt supervised message slug (Some o) (Ok None) now σ).2 =
  Ok (Some (if succeeded then o <| op_State := "complete" |> <| op_Phase := "complete" |> <| op_Error := "" |>
                                <| op_UpdatedAt := rfc3339 now |>
            else if op_State o == "paused" then o <| op_State := "failed" |> <| op_Error := restarted |> <| op_UpdatedAt := rfc3339 now |>
            else o), None).
Proof.
  intros Hs Hp Hw Hy. cbv zeta. rewrite propose_no_journal by tauto. unfold without_journal.
  assert ((op_State o == "paused") || (op_State o == "failed") = true) as -> by (destruct Hs as [-> | ->]; done).
  assert (∀ o', op_State o' ≠ "complete" → expired o' now = false) as Hex.
  { intros o' Hne. unfold expired. by rewrite bool_decide_eq_false_2. }
  assert (∀ o', op_UpdatedAt o' = rfc3339 now → expired o' now = false) as Hnow.
  { intros o' Hu. unfold expired. rewrite Hu, rfc3339_parsed, Z.sub_diag by done. apply andb_false_r. }
  unfold mbind, SE_bind, attempt. destruct (lifecycleOperationSucceeded rt message slug o σ) as [σ1 [[]|e]].
  all: cbv [mret SE_ret snd].
  - rewrite Hnow by done. done.
  - destruct Hs as [E|E]; [rewrite (bool_decide_eq_true_2 _ E)|rewrite (bool_decide_eq_false_2 (op_State o = "paused")) by congruence];
      rewrite Hex by first [done | congruence]; done.
  - destruct Hs as [E|E]; [rewrite (bool_decide_eq_true_2 _ E)|rewrite (bool_decide_eq_false_2 (op_State o = "paused")) by congruence];
      rewrite Hex by first [done | congruence]; done.
Qed.

End Proposals.
