(* ===== verification/ArchivePreparation.v ===== *)
(** * Archive preparation: the loop

    [web/archive_preparation.go]: before the archive command runs, the session's
    lead is asked to repair the blockers a readiness check reports; each message is
    recorded durably before it is sent, and the user can cancel at any time. *)

From S2P Require Import Prelude Effects GoStrings GoJson GoLibrary GoTime Sha256 RetryValidate RetrySys Communication Codex.
From S2P Require Import LifecycleTypes LifecycleOps LifecyclePropose.
From stdpp Require Import pretty.

Open Scope Z_scope.

(** The parts of the client's answers the loop reads. *)
Record TurnState := mkTurnState { ts_ThreadID : string; ts_LatestTurnID : string; ts_LatestTurnStatus : string; ts_Status : string }.
Record ThreadMetadata := mkMetadata { tm_ID : string; tm_Cwd : string; tm_Type : option string }.
Record ThreadSettings := mkSettings { tset_Model : string; tset_ReasoningEffort : string }.

(** What the readiness command printed, decoded, or how it failed. *)
Inductive check_output :=
  | check_failed (stdout stderr : string) (e : error)
  | check_printed (c : option archiveCheckResult).

(** [archiveRepairClient], the readiness command and the other things the loop asks
    for.  [ac_implements] is the type assertion of [s.config.Codex]; [ac_wait] is the
    [select] between the context and a timer. *)
Record ArchiveClient {CW : CodexWeb} (W : Type) := mkClient {
  ac_implements : bool;
  ac_make_options : string → string → ThreadPolicy → TurnOptions;
  ac_LeadThreadPolicy : string → string → string → ThreadPolicy;
  ac_ReadThreadSettings : string → W → W * result ThreadSettings;
  ac_ReadThreadMetadata : string → W → W * result ThreadMetadata;
  ac_Send : string → string → string → string → TurnOptions → W → W * result SendReceipt;
  ac_Reconcile : string → string → string → string → TurnOptions → W → W * result (SendReceipt * bool);
  ac_ReadTurnState : string → W → W * result TurnState;
  ac_Prompts : string → W → W * result (list bool);
  ac_check : string → W → W * check_output;
  ac_provider_admission : string → W → W * option error;
  ac_lock_runtime : string → W → W * option error;
  ac_lock_message : string → W → W * option error;
  ac_retained_ready : Summary → W → W * option error;
  ac_observation_receipts : Summary → string → W → W * option error;
  ac_recovery_held : string → string → W → W * bool;
  ac_load_roster : Summary → W → W * result (option string);
  ac_mkdir : W → W * option error;
  ac_read_preparation : string → W → W * option (result (Z * bool * archivePreparation));
  ac_wait : Z → W → W * option error }.
Arguments ac_implements {CW W}. Arguments ac_make_options {CW W}. Arguments ac_LeadThreadPolicy {CW W}.
Arguments ac_ReadThreadSettings {CW W}. Arguments ac_ReadThreadMetadata {CW W}. Arguments ac_Send {CW W}.
Arguments ac_Reconcile {CW W}. Arguments ac_ReadTurnState {CW W}. Arguments ac_Prompts {CW W}. Arguments ac_check {CW W}.
Arguments ac_provider_admission {CW W}. Arguments ac_lock_runtime {CW W}. Arguments ac_lock_message {CW W}.
Arguments ac_retained_ready {CW W}. Arguments ac_observation_receipts {CW W}. Arguments ac_recovery_held {CW W}.
Arguments ac_load_roster {CW W}. Arguments ac_mkdir {CW W}. Arguments ac_read_preparation {CW W}. Arguments ac_wait {CW W}.

Definition maxPreparationBytes : Z := 512 * 1024.
Definition max_int : Z := 2 ^ 63 - 1.

(** The answer to a request. *)
Inductive response :=
  | resp_none (status : Z)
  | resp_error (status : Z) (message : string)
  | resp_operation (status : Z) (o : lifecycleOperation)
  | resp_target_changed (current : option lifecycleTargetSnapshot) (receiptID : string).

(** ** Readiness reports *)

Definition check_inconsistent (workspace slug : string) (c : archiveCheckResult) : bool :=
  let blockers := Z.of_nat (length (elems (ck_Blockers c))) in
  negb (ck_Schema c =? 1) || (ck_Workspace c != workspace) || (ck_Slug c != slug) || (ck_Passed c <? 0)
  || (ck_Total c <=? 0) || (32 <? ck_Total c) || (ck_Total c <? ck_Passed c) || (ck_Stage c <? 0)
  || (ck_Passed c <? ck_Stage c) || (ck_Count c <? blockers) || (128 <? blockers)
  || negb (eqb (ck_Ready c) (ck_Count c =? 0))
  || (ck_Ready c && (negb (ck_Passed c =? ck_Total c) || negb (ck_Stage c =? ck_Total c)))
  || (negb (ck_Ready c) && (blockers =? 0)).

(** ** Repair messages *)

Definition cut_at (n : nat) (s : string) : string := if Z.of_nat n <? strlen s then String.substring 0 n s else s.
Definition repair_introduction : string :=
  "The user requested archival of this session. Prepare it for archive: pause normal development, repair only the session-owned local blockers below, and finish this turn. Keep the lead available. Do not run archive/delete/stop, change shared infrastructure, rewrite Git history, invent ownership, or edit lifecycle journals/receipts. Do not resume queued user work. If operator input is required, explain why and request it. The portal will independently recheck readiness and retry archival."
  +:+ new_line 0 +:+ new_line 0.
Definition blocker_line (b : archiveBlocker) : string :=
  "- [" +:+ blk_Code b +:+ "] " +:+ cut_at 512 (blk_Message b) +:+ new_line 0.
Definition repair_message (c : archiveCheckResult) : string :=
  foldl (λ message b, message +:+ blocker_line b) repair_introduction (take 12 (elems (ck_Blockers c))).

(** The identity of a round's message: half a digest in the form of a UUID. *)
Definition dashed (id : string) : string :=
  GoJson.join "-" [String.substring 0 8 id; String.substring 8 4 id; String.substring 12 4 id;
                   String.substring 16 4 id; String.substring 20 12 id].
Definition repair_id (journal : string) (round : Z) : string :=
  dashed (String.substring 0 32 (hash (journal +:+ ":" +:+ pretty (i64 (round + 1))))).
Definition repair_action {CW : CodexWeb} (p : archivePreparation) : string := "archive-preparation:" +:+ ap_JournalID p.

(** ** Changes of the record *)

Section Changes.
Context {CW : CodexWeb}.

Definition no_preparation : archivePreparation :=
  mkPreparation 0 "" "" "" 0 "" "" "" "" 0 0 0 0 0 None "" "" None None "" [].

Definition improves (c : archiveCheckResult) (p : archivePreparation) : bool :=
  (ap_BestStage p <? ck_Stage c) || ((ck_Stage c =? ap_BestStage p) && (ck_Count c <? ap_BestCount p)).
Definition record_check (c : archiveCheckResult) (p : archivePreparation) : archivePreparation :=
  let p := p <| ap_Check := Some c |>
             <| ap_History := let h := ap_History p ++ [mkRound (ap_Round p) (ck_Passed c) (ck_Count c)] in
                              drop (length h - 16) h |> in
  if improves c p then p <| ap_BestStage := ck_Stage c |> <| ap_BestCount := ck_Count c |> <| ap_NoProgress := 0 |>
  else p <| ap_NoProgress ::= λ n, i64 (n + 1) |>.

Definition delivered (receipt : SendReceipt) (p : archivePreparation) : archivePreparation :=
  p <| ap_Delivery := Some receipt |> <| ap_State := "lead_fixing_blockers" |>.
Definition count_failure (message : string) (p : archivePreparation) : archivePreparation :=
  p <| ap_DeliveryFailures ::= λ n, i64 (n + 1) |> <| ap_Error := boundedLifecycleError message |>.
Definition clear_failures (p : archivePreparation) : archivePreparation :=
  p <| ap_DeliveryFailures := 0 |> <| ap_Error := "" |>.
Definition turn_finished (p : archivePreparation) : archivePreparation :=
  p <| ap_MessageID := "" |> <| ap_Message := "" |> <| ap_Options := None |> <| ap_Delivery := None |>
    <| ap_State := "rechecking" |>.
Definition next_round (id message : string) (options : TurnOptions) (p : archivePreparation) : archivePreparation :=
  p <| ap_Round ::= λ n, i64 (n + 1) |> <| ap_MessageID := id |> <| ap_Message := message |>
    <| ap_Options := Some options |> <| ap_State := "lead_fixing_blockers" |>.
Definition mark_failed (message : string) (p : archivePreparation) : archivePreparation :=
  p <| ap_State := "failed" |> <| ap_Error := boundedLifecycleError message |>.
Definition set_state (state : string) (p : archivePreparation) : archivePreparation := p <| ap_State := state |>.

(** [beginArchivePreparation]'s record *)
Definition fresh_preparation (workspace : string) (o : lifecycleOperation) (thread : string) : archivePreparation :=
  no_preparation <| ap_Schema := 1 |> <| ap_Workspace := workspace |> <| ap_Slug := op_Slug o |>
    <| ap_ReceiptID := op_ReceiptID o |> <| ap_Attempt := op_Attempt o |> <| ap_JournalID := opt_JournalID (op_Options o) |>
    <| ap_TargetID := opt_TargetID (op_Options o) |> <| ap_Thread := thread |> <| ap_State := "checking" |>
    <| ap_BestStage := -1 |> <| ap_BestCount := max_int |>.
Definition keep_delivery (previous p : archivePreparation) : archivePreparation :=
  p <| ap_MessageID := ap_MessageID previous |> <| ap_Message := ap_Message previous |>
    <| ap_Options := ap_Options previous |> <| ap_Delivery := ap_Delivery previous |> <| ap_Round := ap_Round previous |>.
Definition same_request (previous p : archivePreparation) : bool :=
  (ap_ReceiptID previous == ap_ReceiptID p) && (ap_TargetID previous == ap_TargetID p) && (ap_Thread previous == ap_Thread p).

(** The same request and attempt, still active: what [updateArchivePreparation] demands. *)
Definition continues (current : option archivePreparation) (expected : archivePreparation) : bool :=
  match current with
  | Some c => (ap_ReceiptID c == ap_ReceiptID expected) && (ap_Attempt c =? ap_Attempt expected) && active c
  | None => false
  end.
End Changes.

Section Preparation.
Context {CW : CodexWeb} {W : Type} (rt : LifeRuntime W) (ac : ArchiveClient W) (workspace : string).
Context (message : error → string) (others : LifeSys W → LifeSys W).
Abbreviation Life := (SE (LifeSys W)).

Definition lemit (e : life_event) : Life unit := modify (λ σ, σ <| lf_trace ::= λ tr, tr ++ [e] |>).

(** [archivePreparationFor] *)
Definition archivePreparationFor (slug : string) : Life (option archivePreparation) :=
  gets (λ σ, lf_preparations σ !! slug).

(** [saveArchivePreparationLocked] *)
Definition saveArchivePreparationLocked (p : archivePreparation) : Life unit :=
  e ← lask (ac_mkdir ac); lift_error e;;
  match Preparation_json p with
  | None => fail (ErrorsNew "marshal archive preparation")
  | Some data =>
      if maxPreparationBytes <? strlen data then fail (ErrorsNew "archive preparation exceeds its storage limit") else
      outcome ← lask (lr_save_preparation rt p);
      match outcome with
      | write_failed e | write_unsynced e => fail e
      | write_ok => modify (λ σ, σ <| lf_preparations ::= <[ap_Slug p := p]> |>)
      end
  end.

Definition replaced : error := ErrorsNew "archive preparation was canceled or replaced".
(** [updateArchivePreparation]: the record it returns, also with an error. *)
Definition updateArchivePreparation (expected : archivePreparation) (change : archivePreparation → archivePreparation)
    : Life (archivePreparation * option error) :=
  current ← archivePreparationFor (ap_Slug expected);
  let record := default no_preparation current in
  if negb (continues current expected) then mret (record, Some replaced) else
  r ← attempt (saveArchivePreparationLocked (change record));
  mret (change record, match r with Ok _ => None | Err e => Some e end).

(** [beginArchivePreparation] *)
Definition beginArchivePreparation (o : lifecycleOperation) : Life unit :=
  if negb (prepares o) then mret tt else
  s ← Find rt (op_Slug o);
  let p := fresh_preparation workspace o (sum_ThreadID s) in
  previous ← archivePreparationFor (op_Slug o);
  saveArchivePreparationLocked
    (match previous with Some q => if same_request q p then keep_delivery q p else p | None => p end).

(** [requireArchivePreparationCurrent] *)
Definition is_current (o : lifecycleOperation) (p : archivePreparation) (σ : LifeSys W) : option error :=
  let request := match lf_operations σ !! ap_Slug p with
                 | Some current => negb (lf_closing σ) && matches p current && (op_State current == "running")
                 | None => false
                 end in
  let preparation := match lf_preparations σ !! ap_Slug p with
                     | Some present => matches present o && active present
                     | None => false
                     end in
  if negb request then Some (ErrorsNew "archive request changed")
  else if negb preparation then Some (ErrorsNew "archive preparation was canceled") else None.
Definition requireArchivePreparationCurrent (o : lifecycleOperation) (p : archivePreparation) : Life unit :=
  e ← gets (is_current o p); lift_error e.

(** ** The message lock

    [messageLock(slug).Lock(ctx)] is a lock of the client library, whose answer [e] is a
    parameter: what is relied on is that it is not granted while somebody has it.  Once the
    wait is over the lock is taken if it is free; while somebody has it, only the end of
    the context can have ended the wait. *)
Definition acquire (me : holder) (slug : string) (e : option error) : Life (option error) :=
  owner ← gets (λ σ, lf_messages σ !! slug);
  match e, owner with
  | Some e, _ => mret (Some e)
  | None, Some _ => mret (Some ErrDeadlineExceeded)
  | None, None => modify (λ σ, σ <| lf_messages ::= <[slug := me]> |>);; mret None
  end.
Definition unlock (slug : string) : Life unit := modify (λ σ, σ <| lf_messages ::= delete slug |>).

(** ** The goroutine's variable

    The closures assign the captured variable [p], also when they then fail. *)
Record local := mkLocal { loc_sys : LifeSys W; loc_p : archivePreparation }.
Abbreviation Run := (SE local).
Definition up {A} (m : Life A) : Run A := λ l, let '(σ, r) := m (loc_sys l) in (mkLocal σ (loc_p l), r).
Definition inside {A} (p : archivePreparation) (m : Run A) : Life A := λ σ,
  let '(l, r) := m (mkLocal σ p) in (loc_sys l, r).
Definition variable : Run archivePreparation := gets loc_p.
Definition assign (p : archivePreparation) : Run unit := modify (λ l, mkLocal (loc_sys l) p).
Definition update (change : archivePreparation → archivePreparation) : Run unit :=
  p ← variable;
  '(p, e) ← up (updateArchivePreparation p change);
  assign p;;
  lift_error e.

(** What other goroutines do while this one waits for an answer. *)
Definition elsewhere : Run unit := up (modify others).
Definition call {A} (f : W → W * A) : Run A := a ← up (lask f); elsewhere;; mret a.
Definition check_error (e : option error) : Run unit := lift_error e.

(** [withArchivePreparationAdmission] *)
Definition withArchivePreparationAdmission {A} (o : lifecycleOperation) (action : Run A) : Run A :=
  p ← variable;
  e ← call (lr_transition rt); check_error e;;
  e ← call (lr_profile rt); check_error e;;
  e ← call (ac_provider_admission ac (ap_Slug p)); check_error e;;
  e ← call (ac_lock_runtime ac (ap_Slug p)); check_error e;;
  up (requireArchivePreparationCurrent o p);;
  progress ← call (lr_Progress rt (ap_Slug p));
  progress ← lift_result progress;
  if bool_decide (progress ≠ None) then fail (ErrorsNew "session lifecycle changed during preparation") else
  s ← up (Find rt (ap_Slug p));
  if sum_Archived s || (sum_ThreadID s != ap_Thread p) then fail (ErrorsNew "archive lead identity changed") else
  (if ap_Thread p != "" then
     e ← call (ac_retained_ready ac s); check_error e;;
     e ← call (ac_observation_receipts ac s (ap_JournalID p)); check_error e
   else mret tt);;
  target ← up (validateLifecycleTarget rt message s (ap_TargetID p) "archive");
  match target with target_changed _ => fail ErrTargetChanged | target_ok _ => action end.

(** [archiveRepairComplete] *)
Definition loadedArchiveRepairStatus (status : string) : bool := one_of status ["idle"; "active"; "systemError"].
Definition archiveRepairComplete (thread accepted cwd : string) : Run bool :=
  state ← call (ac_ReadTurnState ac thread);
  state ← lift_result state;
  let latest := ts_LatestTurnStatus state in
  if (accepted == "") || (ts_ThreadID state != thread) || (ts_LatestTurnID state != accepted)
  then fail (ErrorsNew "The accepted repair turn cannot be verified.") else
  if negb (loadedArchiveRepairStatus (ts_Status state))
  then fail (ErrorsNew "The lead's repair activity could not be verified.") else
  if latest == "inProgress" then mret false else
  if negb (one_of latest ["completed"; "failed"; "interrupted"])
  then fail (ErrorsNew "The accepted repair turn cannot be verified.") else
  fresh ← call (ac_ReadThreadMetadata ac thread);
  fresh ← lift_result fresh;
  let after := default "" (tm_Type fresh) in
  if (tm_ID fresh != thread) || (tm_Cwd fresh != cwd) then fail (ErrorsNew "native archive lead identity changed") else
  if negb (loadedArchiveRepairStatus after) then fail (ErrorsNew "The lead's repair activity could not be verified.") else
  if (ts_Status state == "active") || (after == "active") then mret false else
  if latest == "completed" then
    if (ts_Status state == "idle") && (after == "idle") then mret true
    else fail (ErrorsNew "The lead's repair completion could not be verified.")
  else fail (ErrorsNew "The lead's repair turn did not complete successfully; review its conversation.").

(** ** The loop *)

Definition lead_directory (p : archivePreparation) : string := GoLibrary.Join [workspace; "work"; ap_Slug p].

(** The context is checked without waiting. *)
Definition context_error : Run (option error) := up (lask (lr_context rt)).

(** [fail]: the record is marked unless the portal is stopping. *)
Definition fail_with {A} (e : error) : Run A :=
  ended ← context_error;
  (if bool_decide (ended = None) then
     p ← variable;
     _ ← up (updateArchivePreparation p (mark_failed (message e)));
     mret tt
   else mret tt);;
  fail e.

(** The closure that sends or recovers the recorded message.  A message without
    options would be a nil dereference; [delivery_ok] rules it out. *)
Definition reconcile_or_send (p : archivePreparation) (options : TurnOptions) : Run SendReceipt :=
  let '(thread, text, id, action) := (ap_Thread p, ap_Message p, ap_MessageID p, repair_action p) in
  up (lemit (le_reconcile thread text id action options));;
  r ← call (ac_Reconcile ac thread text id action options);
  '(receipt, found) ← lift_result r;
  if found : bool then mret receipt else
  up (lemit (le_send thread text id action options));;
  r ← call (ac_Send ac thread text id action options);
  lift_result r.

Definition send_locked (o : lifecycleOperation) (p : archivePreparation) : Run bool :=
  up (requireArchivePreparationCurrent o p);;
  if negb (ac_implements ac) || (ap_Thread p == "")
  then fail (ErrorsNew "The retained lead is unavailable for archive cleanup.") else
  held ← up (lask (ac_recovery_held ac (ap_Slug p) (ap_Thread p)));
  if held : bool then fail (ErrorsNew "Activate the retained lead before retrying archive preparation.") else
  metadata ← call (ac_ReadThreadMetadata ac (ap_Thread p));
  metadata ← lift_result metadata;
  if (tm_ID metadata != ap_Thread p) || (tm_Cwd metadata != lead_directory p)
  then fail (ErrorsNew "native archive lead identity changed") else
  options ← match ap_Options p with Some options => mret options | None => fail ErrNilDereference end;
  receipt ← reconcile_or_send p options;
  update (delivered receipt);;
  if receipt_TurnID receipt == ""
  then fail (ErrorsNew "Repair delivery is queued; activate the retained lead and retry using this same delivery.") else
  p ← variable;
  complete ← archiveRepairComplete (ap_Thread p) (receipt_TurnID receipt) (lead_directory p);
  prompts ← call (ac_Prompts ac (ap_Thread p));
  prompts ← lift_result prompts;
  if existsb (λ b, b) prompts then fail (ErrorsNew "The lead needs your input before archive cleanup can continue.")
  else mret complete.
(** The other goroutines act while this one waits for the lock, and while it holds it. *)
Definition send_closure (o : lifecycleOperation) : Run bool :=
  p ← variable;
  e ← call (ac_lock_message ac (ap_Slug p));
  e ← up (acquire by_preparation (ap_Slug p) e); check_error e;;
  r ← attempt (send_locked o p);
  up (unlock (ap_Slug p));;
  lift_result r.

(** After a failed delivery: [true] to try again. *)
Definition uncertain (e : error) : bool := errors_Is e ErrUnknownSendOutcome || errors_Is e ErrTransport.
Definition second : Z := 1000000000.
Definition failed_delivery (e : error) : Run bool :=
  ended ← context_error;
  if bool_decide (ended = None) && uncertain e then
    update (count_failure (message e));;
    p ← variable;
    if ap_DeliveryFailures p <? 3 then
      w ← call (ac_wait ac (2 ^ ap_DeliveryFailures p * second)); check_error w;; mret true
    else fail_with e
  else fail_with e.

(** The first half of an iteration: [true] to start over. *)
Definition deliver_round (o : lifecycleOperation) : Run bool :=
  r ← attempt (withArchivePreparationAdmission o (send_closure o));
  match r with
  | Err e => failed_delivery e
  | Ok complete =>
      p ← variable;
      (if negb (ap_DeliveryFailures p =? 0) then update clear_failures else mret tt);;
      if negb complete then w ← call (ac_wait ac (2 * second)); check_error w;; mret true
      else update turn_finished;; mret false
  end.

Definition check_closure : Run archiveCheckResult :=
  p ← variable;
  output ← call (ac_check ac (ap_Slug p));
  match output with
  | check_failed stdout stderr e => fail (commandFailure message "check archive readiness" stdout stderr e)
  | check_printed None => fail (ErrorsNew "Archive readiness returned invalid output.")
  | check_printed (Some c) =>
      if check_inconsistent workspace (ap_Slug p) c
      then fail (ErrorsNew "Archive readiness returned inconsistent output.") else mret c
  end.

(** The closure that records the next message. *)
Definition lead_instructions (roster : result (option string)) : result string :=
  match roster with
  | Ok instructions => Ok (default "" instructions)
  | Err e => if errors_Is e ErrNotExist then Ok "" else Err e
  end.
Definition compose_closure (c : archiveCheckResult) : Run unit :=
  if negb (ac_implements ac) then fail (ErrorsNew "The retained lead is unavailable for archive cleanup.") else
  p ← variable;
  settings ← call (ac_ReadThreadSettings ac (ap_Thread p));
  settings ← lift_result settings;
  s ← up (Find rt (ap_Slug p));
  roster ← call (ac_load_roster ac s);
  instructions ← lift_result (lead_instructions roster);
  let options := ac_make_options ac (tset_Model settings) (tset_ReasoningEffort settings)
                   (ac_LeadThreadPolicy ac (ap_Slug p) workspace instructions) in
  update (next_round (repair_id (ap_JournalID p) (ap_Round p)) (repair_message c) options).

Definition no_progress : error :=
  ErrorsNew "Archive cleanup made no measurable progress in three repair cycles. Review the lead conversation and blockers before retrying.".
Definition no_lead : error :=
  ErrorsNew "Archive checks found blockers, but this session has no retained lead. Fix the listed paths and retry.".

(** The second half: [true] to go on with a new message. *)
Definition check_round (o : lifecycleOperation) : Run bool :=
  r ← attempt (withArchivePreparationAdmission o check_closure);
  match r with
  | Err e => fail_with e
  | Ok c =>
      update (record_check c);;
      if ck_Ready c then update (set_state "archiving");; mret false else
      p ← variable;
      if 3 <=? ap_NoProgress p then fail_with no_progress else
      if ap_Thread p == "" then fail_with no_lead else
      r ← attempt (withArchivePreparationAdmission o (compose_closure c));
      match r with Err e => fail_with e | Ok _ => mret true end
  end.

(** One iteration of [for]: [true] to go on. *)
Definition iteration (o : lifecycleOperation) : Run bool :=
  ended ← context_error; check_error ended;;
  p ← variable;
  again ← (if ap_MessageID p != "" then deliver_round o else mret false);
  if again : bool then mret true else check_round o.
Fixpoint run_loop (fuel : nat) (o : lifecycleOperation) : Run bool :=
  match fuel with
  | O => mret false
  | S fuel => again ← iteration o; if again : bool then run_loop fuel o else mret true
  end.

(** [runArchivePreparation]: [Ok false] when [fuel] iterations were not enough. *)
Definition runArchivePreparation (fuel : nat) (o : lifecycleOperation) : Life bool :=
  p ← archivePreparationFor (op_Slug o);
  match p with
  | Some p => if matches p o then inside p (run_loop fuel o) else mret true
  | None => mret true
  end.

(** ** Cancelling, parking and resuming *)

Definition canceled_message : string :=
  "Archive preparation canceled. An accepted cleanup turn may finish, but archival will not start.".

(** [cancelArchivePreparation], once it has the message lock; [operationMu] and
    [archivePrepMu] are held to the end.  A granted cancellation is logged. *)
Definition log_cancellation (p : archivePreparation) : Life unit :=
  modify (λ σ, σ <| lf_canceled ::= λ log, (p, lf_trace σ) :: log |>).
Definition cancel_locked (slug receiptID : string) : Life response :=
  o ← gets (λ σ, lf_operations σ !! slug);
  p ← archivePreparationFor slug;
  match o, p with
  | Some o, Some p =>
      if (receiptID != op_ReceiptID o) || negb (matches p o) || negb (active p)
      then mret (resp_error 409 "Archive preparation is no longer cancelable.") else
      let p := p <| ap_State := "canceled" |> <| ap_Error := canceled_message |> in
      r ← attempt (saveArchivePreparationLocked p);
      match r with
      | Err e => mret (resp_error 500 (message e))
      | Ok _ =>
          let o := o <| op_State := "failed" |> <| op_Phase := "checking" |> <| op_Error := ap_Error p |> in
          r ← attempt (replaceLifecycleOperationLocked rt workspace slug o);
          match r with
          | Err e => mret (resp_error 500 (message e))
          | Ok _ => log_cancellation p;; mret (resp_operation 200 o)
          end
      end
  | _, _ => mret (resp_error 409 "Archive preparation is no longer cancelable.")
  end.
Definition cancelArchivePreparation (slug receiptID : string) : Life response :=
  e ← lask (ac_lock_message ac slug);
  e ← acquire by_another slug e;
  match e with
  | Some e => mret (resp_error 409 (message e))
  | None => r ← attempt (cancel_locked slug receiptID); unlock slug;; lift_result r
  end.

(** [parkArchivePreparations], over the records in the order the map gives them. *)
Definition paused_message : string := "Archive preparation was paused for a portal restart. Retry to continue.".
Definition park (slug : string) : Life unit :=
  p ← archivePreparationFor slug;
  match p with
  | Some p =>
      if negb (active p) then mret tt else
      let p := set_state "paused" p in
      ignore (saveArchivePreparationLocked p);;
      o ← gets (λ σ, lf_operations σ !! slug);
      match o with
      | Some o =>
          if matches p o then
            ignore (replaceLifecycleOperationLocked rt workspace slug
                      (o <| op_State := "failed" |> <| op_Phase := "checking" |> <| op_Error := paused_message |>))
          else mret tt
      | None => mret tt
      end
  | None => mret tt
  end.
Fixpoint parkArchivePreparations (slugs : list string) : Life unit :=
  match slugs with [] => mret tt | slug :: slugs => park slug;; parkArchivePreparations slugs end.

(** [resumeArchivePreparations], over the candidates in the order the map gives them. *)
Definition bad_preparation : string :=
  "Archive preparation could not be read. Other sessions remain available; review this preparation before retrying.".
Definition invalid_sidecar (slug : string) (size : Z) (duplicate_keys : bool) (p : archivePreparation) : bool :=
  (maxPreparationBytes <? size) || duplicate_keys || negb (ap_Schema p =? 1) || (ap_Workspace p != workspace)
  || (ap_Slug p != slug) || (ap_Round p <? 0) || (ap_NoProgress p <? 0)
  || ((ap_MessageID p != "") && (bool_decide (ap_Options p = None) || (ap_Message p == "")
                                 || negb (queueClientMessageIDPattern (ap_MessageID p)))).
Definition archive_args (p : archivePreparation) : list string :=
  ["archive"; ap_Slug p; "--as-is"; "--portal-authorized"; "--portal-operation-id"; ap_JournalID p].
Definition candidate (o : lifecycleOperation) : bool := prepares o && (op_State o != "complete").

Definition refuse_sidecar (slug : string) (original : lifecycleOperation) : Life unit :=
  current ← gets (λ σ, lf_operations σ !! slug);
  match current with
  | Some c =>
      if (op_ReceiptID c == op_ReceiptID original) && (op_Attempt c =? op_Attempt original) then
        ignore (replaceLifecycleOperationLocked rt workspace slug
                  (c <| op_State := "failed" |> <| op_Error := bad_preparation |>))
      else mret tt
  | None => mret tt
  end.
Definition resume_job (slug : string) (p : archivePreparation) : Life unit :=
  progress ← lask (lr_Progress rt (ap_Slug p));
  match progress with
  | Ok None =>
      o ← gets (λ σ, lf_operations σ !! slug);
      match o with
      | Some o =>
          if negb (matches p o) then mret tt else
          let o := o <| op_State := "running" |> in
          replaceLifecycleOperationLocked rt workspace (ap_Slug p) o;;
          lemit (le_start o (archive_args p))
      | None => mret tt
      end
  | _ => mret tt
  end.
Definition resume_one (slug : string) (original : lifecycleOperation) : Life unit :=
  file ← lask (ac_read_preparation ac slug);
  match file with
  | None => mret tt
  | Some (Err _) => refuse_sidecar slug original
  | Some (Ok (size, duplicate_keys, p)) =>
      if invalid_sidecar slug size duplicate_keys p then refuse_sidecar slug original else
      if negb (matches p original) then mret tt else
      modify (λ σ, σ <| lf_preparations ::= <[ap_Slug p := p]> |>);;
      if negb (active p) then mret tt else resume_job slug p
  end.
Fixpoint resumeArchivePreparations (candidates : list (string * lifecycleOperation)) : Life unit :=
  match candidates with
  | [] => mret tt
  | (slug, o) :: candidates => resume_one slug o;; resumeArchivePreparations candidates
  end.

End Preparation.
