(* ===== verification/ArchivePreparationFacts.v ===== *)
(** * Archive preparation: theorems

    Repair cycles end, a cancelled preparation sends nothing, and what is sent is what
    was recorded. *)

From S2P Require Import Prelude Effects GoStrings GoDecimal GoUtf8 GoTime RetryValidate RetrySys Codex.
From S2P Require Import LifecycleTypes LifecycleOps LifecycleStoreFacts LifecyclePropose LifecycleFacts ArchivePreparation.
From Stdlib Require Import Wellfounded.

Open Scope Z_scope.

(** ** Repair cycles *)

Section Cycles.
Context {CW : CodexWeb}.

(** What measures progress. *)
Definition progress_of (p : archivePreparation) : Z * Z * Z := (ap_BestStage p, ap_BestCount p, ap_NoProgress p).
(** A consistent report that is not ready was recorded and the loop goes on. *)
Definition cycle (p p' : archivePreparation) : Prop :=
  ∃ workspace slug c, check_inconsistent workspace slug c = false ∧ ck_Ready c = false ∧
    progress_of p' = progress_of (record_check c p) ∧ - 2^63 <= ap_NoProgress p < max_int ∧ ap_NoProgress p' < 3.

Definition distance (p : archivePreparation) : nat * (nat * nat) :=
  (Z.to_nat (33 - ap_BestStage p), (Z.to_nat (ap_BestCount p), Z.to_nat (3 - ap_NoProgress p))).

Lemma consistent_report workspace slug c :
  check_inconsistent workspace slug c = false → 0 <= ck_Stage c <= 32 ∧ 0 <= ck_Count c.
Proof.
  unfold check_inconsistent. cbv zeta. intros H. repeat apply orb_false_elim in H as [H ?]. clear H H0 H1 H2.
  rewrite Z.ltb_ge in *. lia.
Qed.

Lemma record_check_progress c p :
  progress_of (record_check c p) =
  if improves c p then (ck_Stage c, ck_Count c, 0) else (ap_BestStage p, ap_BestCount p, i64 (ap_NoProgress p + 1)).
Proof. unfold record_check, improves. cbn. by case_match. Qed.

Definition lexicographic (a b : nat * (nat * nat)) : Prop :=
  (a.1 < b.1 ∨ a.1 = b.1 ∧ (a.2.1 < b.2.1 ∨ a.2.1 = b.2.1 ∧ a.2.2 < b.2.2))%nat.
Lemma lexicographic_wf : well_founded lexicographic.
Proof.
  intros [a [b c]]. revert b c. induction (lt_wf a) as [a _ IHa]. intros b. induction (lt_wf b) as [b _ IHb].
  intros c. induction (lt_wf c) as [c _ IHc]. constructor. intros [a' [b' c']] [H|[H1 [H|[H2 H]]]]; cbn in *; subst; auto.
Qed.

Lemma cycle_decreases p p' : cycle p p' → lexicographic (distance p') (distance p).
Proof.
  intros (workspace & slug & c & Hc & _ & Hp & Hm & Hn). apply consistent_report in Hc as [Hs Hk].
  rewrite record_check_progress in Hp. unfold progress_of, distance, lexicographic, improves, max_int in *. cbn [fst snd].
  destruct ((ap_BestStage p <? ck_Stage c) || ((ck_Stage c =? ap_BestStage p) && (ck_Count c <? ap_BestCount p))) eqn:E;
    injection Hp as H1 H2 H3.
  - lia.
  - rewrite i64_id in H3 by (unfold is_i64; lia). lia.
Qed.

End Cycles.

(** ** The loop's steps *)

Section Loop.
Context {CW : CodexWeb} {W : Type} (rt : LifeRuntime W) (ac : ArchiveClient W) (workspace : string)
        (message : error → string) (others : LifeSys W → LifeSys W).
Abbreviation Run := (SE (@local CW W)).

Definition stored (slug : string) (σ : LifeSys W) : option archivePreparation := lf_preparations σ !! slug.
(** Receipts, trace and everything else but the world and the sidecars. *)
Definition same_receipts (σ σ' : LifeSys W) : Prop :=
  lf_operations σ' = lf_operations σ ∧ lf_trace σ' = lf_trace σ ∧ lf_closing σ' = lf_closing σ ∧
  lf_messages σ' = lf_messages σ ∧ lf_canceled σ' = lf_canceled σ.

Lemma save_spec p (σ : LifeSys W) :
  wp (saveArchivePreparationLocked rt ac p) (λ σ' r, same_receipts σ σ' ∧
    lf_preparations σ' = match r with Ok _ => <[ap_Slug p := p]> (lf_preparations σ) | Err _ => lf_preparations σ end) σ.
Proof.
  unfold saveArchivePreparationLocked. apply wp_bind, wp_lask. intros w e. apply wp_bind, wp_lift_error.
  destruct e; [by split|]. destruct (Preparation_json p); [|by split].
  destruct (maxPreparationBytes <? _); [by split|]. apply wp_bind, wp_lask. intros w2 []; by split.
Qed.

(** [updateArchivePreparation] changes the stored record of the same attempt, or none. *)
Definition updated (expected : archivePreparation) (change : archivePreparation → archivePreparation)
    (σ σ' : LifeSys W) (p : archivePreparation) (e : option error) : Prop :=
  same_receipts σ σ' ∧
  match stored (ap_Slug expected) σ with
  | Some c => if continues (Some c) expected
              then p = change c ∧ lf_preparations σ' =
                   match e with None => <[ap_Slug (change c) := change c]> (lf_preparations σ) | Some _ => lf_preparations σ end
              else e = Some replaced ∧ p = c ∧ lf_preparations σ' = lf_preparations σ
  | None => e = Some replaced ∧ lf_preparations σ' = lf_preparations σ
  end.
Lemma update_spec expected change (σ : LifeSys W) :
  wp (updateArchivePreparation rt ac expected change) (λ σ' r, ∃ p e, r = Ok (p, e) ∧ updated expected change σ σ' p e) σ.
Proof.
  unfold updateArchivePreparation. apply wp_bind. unfold archivePreparationFor. apply wp_gets. unfold updated, stored.
  destruct (lf_preparations σ !! ap_Slug expected) as [c|] eqn:E; cbn [default from_option].
  - destruct (continues (Some c) expected) eqn:Ec; cbn [negb].
    + apply wp_bind, wp_attempt. eapply wp_mono; [apply save_spec|]. intros σ1 r [Hs Hp]. apply wp_ret.
      eexists _, _. split; [done|]. split; [done|]. unfold id. by destruct r.
    + apply wp_ret. eexists _, _. split; [done|]. by repeat split.
  - apply wp_ret. eexists _, _. split; [done|]. by repeat split.
Qed.

Lemma wp_up {A} (m : SE (LifeSys W) A) (Q : local → result A → Prop) l :
  wp m (λ σ r, Q (mkLocal σ (loc_p l)) r) (loc_sys l) → wp (up m) Q l.
Proof. unfold wp, up. by destruct (m (loc_sys l)). Qed.
Lemma wp_run_call {A} (f : W → W * A) (Q : local → result A → Prop) l :
  (∀ w a, Q (mkLocal (others (loc_sys l <| lf_world := w |>)) (loc_p l)) (Ok a)) → wp (call others f) Q l.
Proof.
  intros H. unfold call. apply wp_bind, wp_up, wp_lask. intros w a. apply wp_bind. unfold elsewhere.
  apply wp_up, wp_modify. apply wp_ret. apply H.
Qed.
Lemma wp_run_update change (Q : local → result unit → Prop) l :
  (∀ σ' p e, updated (loc_p l) change (loc_sys l) σ' p e →
     Q (mkLocal σ' p) (match e with Some e => Err e | None => Ok tt end)) →
  wp (update rt ac change) Q l.
Proof.
  intros H. unfold update, variable. apply wp_bind, wp_gets, wp_bind, wp_up. eapply wp_mono; [apply update_spec|].
  intros σ' r (p & e & -> & Hu). unfold assign. apply wp_bind, wp_modify, wp_lift_error. by apply H.
Qed.

End Loop.

(** ** Cancellation *)

(** Changes that keep what [matches] and [continues] compare. *)
Definition keeps_identity {CW : CodexWeb} (change : archivePreparation → archivePreparation) : Prop :=
  ∀ p, ap_Slug (change p) = ap_Slug p ∧ ap_ReceiptID (change p) = ap_ReceiptID p ∧ ap_Attempt (change p) = ap_Attempt p ∧
    ap_JournalID (change p) = ap_JournalID p ∧ ap_TargetID (change p) = ap_TargetID p ∧ ap_Thread (change p) = ap_Thread p.
Lemma record_check_identity {CW : CodexWeb} c : keeps_identity (record_check c).
Proof. intros p. unfold record_check. cbv zeta. by case_match. Qed.
Lemma next_round_identity {CW : CodexWeb} id text options : keeps_identity (next_round id text options).
Proof. done. Qed.

Section Canceled.
Context {CW : CodexWeb} {W : Type} (rt : LifeRuntime W) (ac : ArchiveClient W) (workspace : string)
        (message : error → string) (others : LifeSys W → LifeSys W).
Abbreviation Run := (SE (@local CW W)).
#[local] Arguments replaceLifecycleOperationLocked : simpl never.

Definition keyed_preparations (σ : LifeSys W) : Prop := map_Forall (λ slug p, ap_Slug p = slug) (lf_preparations σ).

(** *** What a cancellation does *)

(** What a granted cancellation leaves. *)
Definition canceled (slug receipt : string) (σ σ' : LifeSys W) (o' : lifecycleOperation) : Prop :=
  ∃ o p, lf_operations σ !! slug = Some o ∧ stored slug σ = Some p ∧ op_ReceiptID o = receipt ∧ matches p o = true ∧ active p = true ∧
    o' = o <| op_State := "failed" |> <| op_Phase := "checking" |> <| op_Error := canceled_message |> ∧
    lf_operations σ' = <[slug := o']> (lf_operations σ) ∧ lf_trace σ' = lf_trace σ ∧ saved workspace σ' ∧
    let q := p <| ap_State := "canceled" |> <| ap_Error := canceled_message |> in
    lf_preparations σ' = <[ap_Slug p := q]> (lf_preparations σ) ∧ lf_canceled σ' = (q, lf_trace σ) :: lf_canceled σ.
(** A cancellation that is not granted logs nothing; it may have marked the record. *)
Definition refused (slug : string) (σ σ' : LifeSys W) : Prop :=
  lf_operations σ' = lf_operations σ ∧ lf_trace σ' = lf_trace σ ∧ lf_canceled σ' = lf_canceled σ ∧
  (lf_preparations σ' = lf_preparations σ ∨ ∃ p, stored slug σ = Some p ∧
     lf_preparations σ' = <[ap_Slug p := p <| ap_State := "canceled" |> <| ap_Error := canceled_message |>]> (lf_preparations σ)).

Definition same_locks (σ σ' : LifeSys W) : Prop := lf_messages σ' = lf_messages σ ∧ lf_canceled σ' = lf_canceled σ.
#[local] Instance same_locks_preorder : PreOrder same_locks.
Proof. unfold same_locks. split; [done|]. intros ??? [??] [??]. split; congruence. Qed.
Lemma locks_modify f : (∀ σ, same_locks σ (f σ)) → rel_steps same_locks (modify f).
Proof. apply rel_modify. Qed.
Lemma locks_lask {A} (f : W → W * A) : rel_steps same_locks (lask f).
Proof. intros σ. unfold lask. by destruct (f (lf_world σ)). Qed.
#[local] Hint Resolve locks_lask : proc.
#[local] Hint Extern 2 (rel_steps same_locks (modify _)) => apply locks_modify; intros; split; reflexivity : proc.
Lemma replace_locks slug o : rel_steps same_locks (replaceLifecycleOperationLocked rt workspace slug o).
Proof. unfold replaceLifecycleOperationLocked, store_save, publishLifecycleSnapshot. procs. Qed.

Lemma cancel_locked_spec slug receipt σ :
  wp (cancel_locked rt ac workspace message slug receipt) (λ σ' r, lf_messages σ' = lf_messages σ ∧
    match r with
    | Ok (resp_operation _ o') => canceled slug receipt σ σ' o'
    | Ok (resp_error _ _) => refused slug σ σ'
    | _ => False
    end) σ.
Proof.
  unfold cancel_locked, archivePreparationFor. apply wp_bind, wp_gets, wp_bind, wp_gets.
  assert (refused slug σ σ) as Hno by (split_and!; auto).
  destruct (lf_operations σ !! slug) as [o|] eqn:Eo; [|by apply wp_ret].
  destruct (lf_preparations σ !! slug) as [p|] eqn:Ep; [|by apply wp_ret].
  destruct ((receipt != op_ReceiptID o) || negb (matches p o) || negb (active p)) eqn:E; [by apply wp_ret|].
  apply orb_false_elim in E as [E Ea]. apply orb_false_elim in E as [E Em].
  apply negb_false_iff, bool_decide_eq_true_1 in E. apply negb_false_iff in Ea, Em.
  apply wp_bind, wp_attempt. eapply wp_mono; [apply save_spec|]. intros σ1 r [(Ho1 & Ht1 & _ & Hm1 & Hl1) Hp1]. cbn in Ho1, Ht1, Hp1.
  destruct r as [[]|e]; [|apply wp_ret; split; [done|]; split_and!; auto].
  apply wp_bind, wp_attempt. eapply wp_mono; [apply wp_and; [apply receipt_replace_spec|apply rel_wp, replace_locks]|].
  intros σ2 [[]|e] [H2 [Hm2 Hl2]].
  - unfold log_cancellation. apply wp_bind, wp_modify, wp_ret. destruct H2 as (Ho2 & (Hp2 & _ & Ht2 & _) & Hs). cbn.
    split; [congruence|]. exists o, p. split_and!; [done..|etrans; [exact Ho2|by rewrite Ho1]|cbn; congruence|done|]. split; [etrans; [exact Hp2|exact Hp1]|by cbn; rewrite Hl2, Hl1, Ht2, Ht1].
  - apply wp_ret. split; [congruence|]. injection H2 as Ho2 _ _ Hp2 _ Ht2. split_and!; [congruence..|]. right. exists p. split; [done|]. cbn in Hp1. congruence.
Qed.
(** It waits for the message lock, and gives it back. *)
Lemma cancel_spec slug receipt σ :
  wp (cancelArchivePreparation rt ac workspace message slug receipt) (λ σ' r, lf_messages σ' = lf_messages σ ∧
    match r with
    | Ok (resp_operation _ o') => lf_messages σ !! slug = None ∧ canceled slug receipt σ σ' o'
    | Ok (resp_error _ _) => refused slug σ σ'
    | _ => False
    end) σ.
Proof.
  unfold cancelArchivePreparation. apply wp_bind, wp_lask. intros w e. unfold acquire. apply wp_bind, wp_bind, wp_gets. cbn.
  assert (∀ w, refused slug σ (σ <| lf_world := w |>)) as Hno by (intros; repeat split; by left).
  destruct e as [e|]; [by apply wp_ret, wp_ret|]. destruct (lf_messages σ !! slug) as [h|] eqn:El; [by apply wp_ret, wp_ret|].
  apply wp_bind, wp_modify, wp_ret, wp_bind, wp_attempt. eapply wp_mono; [apply cancel_locked_spec|].
  intros σ1 r [Hm H]. apply wp_bind, wp_modify, wp_lift_result. cbn in Hm |- *. split; [by rewrite Hm, delete_insert_id|].
  by destruct r as [[]|].
Qed.

(** *** The executor of one receipt, and the other goroutines *)

Context (o : lifecycleOperation).
Definition own (p : archivePreparation) : Prop := ap_Slug p = op_Slug o ∧ matches p o = true.
(** No active record of this attempt is left. *)
Definition stopped (σ : LifeSys W) : Prop :=
  ∀ p, stored (op_Slug o) σ = Some p → matches p o = true → active p = false.
(** The executor has the session's message lock. *)
Definition holds (σ : LifeSys W) : Prop := lf_messages σ !! op_Slug o = Some by_preparation.

(** What another goroutine does in one go: it runs a cancellation, of this session or another;
    or whatever does not take the executor's lock from it, does not speak for it and does not
    make an active record of this attempt once there is none. *)
Inductive neighbor : LifeSys W → LifeSys W → Prop :=
  | neighbor_cancels slug receipt σ : neighbor σ (cancelArchivePreparation rt ac workspace message slug receipt σ).1
  | neighbor_moves σ σ' : lf_trace σ' = lf_trace σ → lf_canceled σ' = lf_canceled σ → (holds σ → holds σ') →
      (keyed_preparations σ → keyed_preparations σ') → (stopped σ → stopped σ') → neighbor σ σ'.

(** Since the cancellation of this attempt was granted, if it was, nothing was told the server. *)
Definition quiet (σ : LifeSys W) : Prop :=
  keyed_preparations σ ∧ ∀ q told, (q, told) ∈ lf_canceled σ → own q → told = lf_trace σ ∧ stopped σ.
(** The executor may speak: it has the lock, and this attempt was not canceled. *)
Definition speaking (σ : LifeSys W) : Prop :=
  keyed_preparations σ ∧ holds σ ∧ ∀ q told, (q, told) ∈ lf_canceled σ → ¬ own q.
Lemma speaking_quiet σ : speaking σ → quiet σ.
Proof. intros (Hk & _ & H). split; [done|]. intros q told Hq Ho. by destruct (H q told Hq). Qed.

Lemma matches_identity change p : keeps_identity change → matches (change p) o = matches p o.
Proof. intros H. destruct (H p) as (_ & H1 & H2 & H3 & H4 & _). unfold matches. by rewrite H1, H2, H3, H4. Qed.

(** A record put where it belongs, as inactive as before. *)
Lemma keyed_insert_record p σ σ' :
  keyed_preparations σ → lf_preparations σ' = <[ap_Slug p := p]> (lf_preparations σ) → keyed_preparations σ'.
Proof. intros Hk Hp. unfold keyed_preparations. rewrite Hp. by apply map_Forall_insert_2. Qed.
Lemma stopped_insert p σ σ' :
  (own p → stopped σ → active p = false) → lf_preparations σ' = <[ap_Slug p := p]> (lf_preparations σ) → stopped σ → stopped σ'.
Proof.
  intros Hp H' Hs q. unfold stored. rewrite H'. intros Hq Hm. apply lookup_insert_Some in Hq as [[H1 <-]|[_ Hq]]; [|by apply Hs].
  by apply Hp.
Qed.

Lemma cancel_moves slug receipt σ :
  keyed_preparations σ → let σ' := (cancelArchivePreparation rt ac workspace message slug receipt σ).1 in
  lf_messages σ' = lf_messages σ ∧ lf_trace σ' = lf_trace σ ∧ keyed_preparations σ' ∧ (stopped σ → stopped σ') ∧
  (lf_canceled σ' = lf_canceled σ ∨
   ∃ q, lf_canceled σ' = (q, lf_trace σ) :: lf_canceled σ ∧ lf_messages σ !! ap_Slug q = None ∧ (own q → stopped σ')).
Proof.
  intros Hk. pose proof (cancel_spec slug receipt σ) as [Hm H]. cbv zeta.
  destruct (cancelArchivePreparation _ _ _ _ _ _ σ) as [σ' r]. cbn [fst snd] in *.
  assert (∀ p, let q := p <| ap_State := "canceled" |> <| ap_Error := canceled_message |> in
    lf_preparations σ' = <[ap_Slug p := q]> (lf_preparations σ) →
    keyed_preparations σ' ∧ (stopped σ → stopped σ') ∧ (own q → stopped σ')) as Hput.
  { intros p q Hp. split; [by eapply (keyed_insert_record q)|]. split; [by eapply (stopped_insert q)|].
    intros [Hs _] c. unfold stored. change (ap_Slug q) with (ap_Slug p) in Hs. rewrite Hp, Hs, lookup_insert_eq. by intros [= <-]. }
  assert (refused slug σ σ' → lf_messages σ' = lf_messages σ ∧ lf_trace σ' = lf_trace σ ∧ keyed_preparations σ' ∧
    (stopped σ → stopped σ') ∧ lf_canceled σ' = lf_canceled σ) as Hrefused.
  { intros (_ & Ht & Hc & [Hp|(p & _ & Hp)]).
    - unfold stopped, stored, keyed_preparations. by rewrite Hp.
    - destruct (Hput p Hp) as (? & ? & _). done. }
  destruct r as [[]|e]; try done; [naive_solver|]. destruct H as [Hfree (o1 & p & _ & Hp & _ & _ & _ & _ & _ & Ht & _ & Hput' & Hc)].
  destruct (Hput p Hput') as (H1 & H2 & H3). do 4 (split; [done|]). right. eexists. split; [exact Hc|]. split; [|done].
  change (lf_messages σ !! ap_Slug p = None). by rewrite (Hk _ _ Hp).
Qed.

Lemma neighbor_quiet σ σ' : neighbor σ σ' → quiet σ → quiet σ'.
Proof.
  intros H. destruct H as [slug receipt σ|σ σ' Ht Hc _ Hk Hs]; intros [K Q].
  - destruct (cancel_moves slug receipt σ K) as (_ & Ht & Hk & Hs & Hc). split; [done|]. intros q told Hq Ho. rewrite Ht.
    destruct Hc as [Hc|(q' & Hc & _ & Hn)]; rewrite Hc in Hq.
    + destruct (Q _ _ Hq Ho) as [-> ?]. auto.
    + apply elem_of_cons in Hq as [[= -> ->]|Hq]; [auto|]. destruct (Q _ _ Hq Ho) as [-> ?]. auto.
  - split; [auto|]. rewrite Hc, Ht. intros q told Hq Ho. destruct (Q _ _ Hq Ho). auto.
Qed.
Lemma neighbor_speaking σ σ' : neighbor σ σ' → speaking σ → speaking σ'.
Proof.
  intros H. destruct H as [slug receipt σ|σ σ' Ht Hc Hh Hk Hs]; intros (K & L & Q).
  - destruct (cancel_moves slug receipt σ K) as (Hm & _ & Hk & _ & Hc). split; [done|]. unfold holds in *. rewrite Hm. split; [done|].
    intros q told Hq Ho. destruct Hc as [Hc|(q' & Hc & Hfree & _)]; rewrite Hc in Hq; [by eapply Q|].
    apply elem_of_cons in Hq as [[= -> ->]|Hq]; [|by eapply Q]. destruct Ho as [Ho _]. by rewrite Ho, L in Hfree.
  - split_and!; [auto..|]. by rewrite Hc.
Qed.
Lemma neighbors (P : LifeSys W → Prop) :
  (∀ σ σ', neighbor σ σ' → P σ → P σ') → (∀ σ, rtc neighbor σ (others σ)) → ∀ σ, P σ → P (others σ).
Proof. intros HP Ho σ. specialize (Ho σ). induction Ho as [|σ σ1 σ2 H _ IH]; [done|]. intros Hx. by eapply IH, HP. Qed.

(** An update of a record keeps both. *)
Lemma updated_stopped expected change σ σ' p e :
  keeps_identity change → keyed_preparations σ → updated expected change σ σ' p e →
  keyed_preparations σ' ∧ (stopped σ → stopped σ') ∧ (ap_Slug p = ap_Slug expected ∨ e = Some replaced).
Proof.
  intros Hc Hk [_ Hu]. assert (lf_preparations σ' = lf_preparations σ → keyed_preparations σ' ∧ (stopped σ → stopped σ')) as Hsame.
  { intros H. unfold stopped, stored, keyed_preparations. by rewrite H. }
  unfold stored in Hu. destruct (lf_preparations σ !! ap_Slug expected) as [c|] eqn:E; [|destruct Hu as [-> Hu]; naive_solver].
  destruct (continues (Some c) expected) eqn:Ec; [|destruct Hu as (-> & -> & Hu); naive_solver].
  destruct Hu as [-> Hp]. pose proof (Hk _ _ E) as Ek. cbn in Ek. destruct (Hc c) as (Hslug & _).
  destruct e as [x|]; [destruct (Hsame Hp); split_and!; auto; left; congruence|].
  split_and!; [by eapply keyed_insert_record|eapply stopped_insert; [|exact Hp]|left; congruence].
  intros [Ho Hm] Hs. rewrite matches_identity in Hm by done. exfalso. unfold continues in Ec. apply andb_prop in Ec as [_ Ea].
  rewrite Hs in Ea; [done| |done]. unfold stored. rewrite <- Ho, Hslug, Ek. done.
Qed.
Lemma updated_quiet expected change σ σ' p e : keeps_identity change → quiet σ → updated expected change σ σ' p e → quiet σ'.
Proof.
  intros Hc [Hk Hq] Hu. destruct (updated_stopped _ _ _ _ _ _ Hc Hk Hu) as (H1 & H2 & _). destruct Hu as [(_ & Ht & _ & _ & Hl) _].
  split; [done|]. rewrite Hl, Ht. intros q told Hin Ho. destruct (Hq _ _ Hin Ho). auto.
Qed.
Lemma updated_speaking expected change σ σ' p e : keeps_identity change → speaking σ → updated expected change σ σ' p e → speaking σ'.
Proof.
  intros Hc (Hk & Hh & Hq) Hu. destruct (updated_stopped _ _ _ _ _ _ Hc Hk Hu) as (H1 & H2 & _). destruct Hu as [(_ & _ & _ & Hm & Hl) _].
  split; [done|]. unfold holds. by rewrite Hl, Hm.
Qed.

(** *** Steps of the executor that keep an invariant of the system

    and leave the variable a record of the session, unless the record was replaced. *)
Section Guarded.
Context (P : LifeSys W → Prop).
Context (P_world : ∀ σ w, P σ → P (σ <| lf_world := w |>)) (P_others : ∀ σ, P σ → P (others σ)) (P_keyed : ∀ σ, P σ → keyed_preparations σ).
Context (P_update : ∀ expected change σ σ' p e, keeps_identity change → P σ → updated expected change σ σ' p e → P σ').

Definition inside_session (l : local) : Prop := P (loc_sys l) ∧ ap_Slug (loc_p l) = op_Slug o.
Definition guarded {A} (m : Run A) : Prop := ∀ l, inside_session l →
  wp m (λ l' r, P (loc_sys l') ∧ (ap_Slug (loc_p l') = op_Slug o ∨ r = Err replaced)) l.

Lemma guarded_ret {A} (a : A) : guarded (mret a).
Proof. intros l [H Hs]. apply wp_ret. auto. Qed.
Lemma guarded_fail {A} e : guarded (fail e : Run A).
Proof. intros l [H Hs]. apply wp_fail. auto. Qed.
Lemma guarded_lift_result {A} (r : result A) : guarded (lift_result r).
Proof. intros l [H Hs]. apply wp_lift_result. auto. Qed.
Lemma guarded_check_error e : guarded (check_error e).
Proof. intros l [H Hs]. apply wp_lift_error. auto. Qed.
Lemma guarded_variable : guarded variable.
Proof. intros l [H Hs]. apply wp_gets. auto. Qed.
Lemma guarded_call {A} (f : W → W * A) : guarded (call others f).
Proof. intros l [H Hs]. apply wp_run_call. intros w a. split; [by apply P_others, P_world|by left]. Qed.
Lemma guarded_reads {A} (m : SE (LifeSys W) A) : rel_steps reads m → guarded (up m).
Proof. intros Hm l [H Hs]. apply wp_up. unfold wp. rewrite (Hm (loc_sys l)). split; [by apply P_world|by left]. Qed.
Lemma guarded_bind {A B} (m : Run A) (f : A → Run B) : guarded m → (∀ a, guarded (f a)) → guarded (mbind f m).
Proof.
  intros Hm Hf l H. apply wp_bind. eapply wp_mono; [by apply Hm|]. intros l' [a|e] [Hp Hs].
  - apply Hf. split; [done|]. by destruct Hs.
  - split; [done|]. destruct Hs as [?|[= ->]]; auto.
Qed.
Lemma guarded_update change : keeps_identity change → guarded (update rt ac change).
Proof.
  intros Hc l [H Hs]. apply wp_run_update. intros σ' p e Hu. split; [by eapply P_update|].
  destruct (updated_stopped _ _ _ _ _ _ Hc (P_keyed _ H) Hu) as (_ & _ & [E|E]); [left; cbn in *; congruence|right; by rewrite E].
Qed.
(** [if err := m; err != nil { ... }], when also the replacement of the record is handed on. *)
Lemma guarded_try {A B} (m : Run A) (k : result A → Run B) :
  guarded m → (∀ r, guarded (k r)) → (∀ l, P (loc_sys l) → wp (k (Err replaced)) (λ l' r, P (loc_sys l') ∧ r = Err replaced) l) →
  guarded (mbind k (attempt m)).
Proof.
  intros Hm Hk Hr l H. apply wp_bind, wp_attempt. eapply wp_mono; [by apply Hm|]. intros l' r [Hp [Hs| ->]]; [by apply Hk|].
  eapply wp_mono; [by apply Hr|]. intros l2 r2 [? ->]. auto.
Qed.
Lemma fail_with_guarded {A} e l :
  P (loc_sys l) → wp (fail_with rt ac message e : Run A) (λ l' r, P (loc_sys l') ∧ loc_p l' = loc_p l ∧ r = Err e) l.
Proof.
  intros H. unfold fail_with, context_error. apply wp_bind, wp_up, wp_lask. intros w ended. apply wp_bind.
  apply (wp_mono _ (λ l' r, P (loc_sys l') ∧ loc_p l' = loc_p l ∧ r = Ok tt)).
  - destruct (bool_decide _); [|by apply wp_ret; split; [apply P_world|]]. apply wp_bind, wp_gets, wp_bind, wp_up.
    eapply wp_mono; [apply update_spec|]. intros σ' r (p & x & -> & Hu). apply wp_ret. split; [|done].
    eapply P_update; [|by apply P_world|exact Hu]. done.
  - intros l' r (H1 & H2 & ->). by apply wp_fail.
Qed.
Lemma guarded_fail_with {A} e : guarded (fail_with rt ac message e : Run A).
Proof.
  intros l [H Hs]. eapply wp_mono; [by apply fail_with_guarded|]. intros l' r (H1 & H2 & ->). split; [done|]. left. congruence.
Qed.
Lemma fail_with_replaced {A} l : P (loc_sys l) → wp (fail_with rt ac message replaced : Run A) (λ l' r, P (loc_sys l') ∧ r = Err replaced) l.
Proof. intros H. eapply wp_mono; [by apply fail_with_guarded|]. naive_solver. Qed.
End Guarded.
#[local] Hint Resolve guarded_ret guarded_fail guarded_lift_result guarded_check_error guarded_variable guarded_call guarded_reads
  guarded_update guarded_fail_with record_check_identity next_round_identity : guard.
#[local] Hint Extern 1 (rel_steps reads _) => solve [procs] : guard.
#[local] Hint Extern 1 (keeps_identity _) => done : guard.
(** Goals [guarded P m], one lemma per construct. *)
Ltac guards :=
  intros;
  first [ solve [eauto with guard]
        | apply guarded_bind; [guards|guards]
        | case_match; guards
        | idtac ].

(** *** The loop *)

Section Run.
Context (Hothers : ∀ σ, rtc neighbor σ (others σ)).

Lemma executor_quiet_others σ : quiet σ → quiet (others σ).
Proof. by apply neighbors; [apply neighbor_quiet|]. Qed.
Lemma speaking_others σ : speaking σ → speaking (others σ).
Proof. by apply neighbors; [apply neighbor_speaking|]. Qed.
Lemma quiet_world σ w : quiet σ → quiet (σ <| lf_world := w |>).
Proof. done. Qed.
Lemma speaking_world σ w : speaking σ → speaking (σ <| lf_world := w |>).
Proof. done. Qed.
Lemma quiet_keyed σ : quiet σ → keyed_preparations σ.
Proof. by intros []. Qed.
Lemma speaking_keyed σ : speaking σ → keyed_preparations σ.
Proof. by intros []. Qed.
#[local] Hint Resolve executor_quiet_others speaking_others quiet_world speaking_world quiet_keyed speaking_keyed updated_quiet updated_speaking : guard.

Lemma repair_complete_guarded thread accepted cwd : guarded speaking (archiveRepairComplete ac others thread accepted cwd).
Proof. unfold archiveRepairComplete. cbv zeta. guards. Qed.
Lemma guarded_tell e : guarded speaking (up (lemit e)).
Proof. intros l [H Hs]. apply wp_up, wp_modify. split; [done|by left]. Qed.
#[local] Hint Resolve repair_complete_guarded guarded_tell : guard.
Lemma reconcile_or_send_guarded p options : guarded speaking (reconcile_or_send ac others p options).
Proof. unfold reconcile_or_send. cbv zeta. guards. Qed.
#[local] Hint Resolve reconcile_or_send_guarded : guard.

(** The record is current: nobody has canceled, and nobody can while the lock is held. *)
Lemma current_speaking p σ : quiet σ → holds σ → ap_Slug p = op_Slug o → is_current o p σ = None → speaking σ.
Proof.
  intros [Hk Hq] Hh Hs Hc. split_and!; [done..|]. intros q told Hin Ho. destruct (Hq _ _ Hin Ho) as [_ Hst].
  unfold is_current in Hc. rewrite Hs in Hc. unfold stopped, stored in Hst.
  destruct (negb (match lf_operations σ !! _ with _ => _ end)); [done|].
  destruct (lf_preparations σ !! op_Slug o) as [r|]; [|done].
  destruct (matches r o) eqn:E; [|done]. by rewrite (Hst r eq_refl E) in Hc.
Qed.

Lemma send_locked_quiet p l :
  quiet (loc_sys l) → holds (loc_sys l) → ap_Slug p = op_Slug o → ap_Slug (loc_p l) = op_Slug o →
  wp (send_locked rt ac workspace others o p) (λ l' r, quiet (loc_sys l') ∧ (ap_Slug (loc_p l') = op_Slug o ∨ r = Err replaced)) l.
Proof.
  intros Hq Hh Hp Hs. unfold send_locked. apply wp_bind, wp_up. unfold requireArchivePreparationCurrent. apply wp_bind, wp_gets, wp_lift_error.
  destruct (is_current o p (loc_sys l)) as [e|] eqn:E; [by auto|]. apply (current_speaking p) in E; [|done..].
  match goal with |- wp ?m _ _ => assert (guarded speaking m) as Hm end.
  { guards. }
  eapply wp_mono; [by apply Hm|]. intros l' r [H1 H2]. split; [by apply speaking_quiet|done].
Qed.
Lemma send_closure_quiet : guarded quiet (send_closure rt ac workspace others o).
Proof.
  intros l [Hq Hs]. unfold send_closure. apply wp_bind, wp_gets. apply wp_bind, wp_run_call. intros w e.
  set (σ := others _). assert (quiet σ) as Hq1 by (by apply executor_quiet_others). apply wp_bind, wp_up. unfold acquire.
  apply wp_bind, wp_gets. cbn [loc_sys].
  destruct e as [e|]; [apply wp_ret, wp_bind, wp_lift_error; cbn; by auto|].
  destruct (lf_messages σ !! ap_Slug (loc_p l)) as [h|]; [apply wp_ret, wp_bind, wp_lift_error; cbn; by auto|].
  apply wp_bind, wp_modify, wp_ret, wp_bind, wp_lift_error, wp_bind, wp_attempt. cbn.
  eapply wp_mono; [apply send_locked_quiet; [done| |done|done]|].
  { unfold holds. cbn. rewrite Hs. apply lookup_insert_eq. }
  intros l2 r [H1 H2]. apply wp_bind, wp_up, wp_modify, wp_lift_result. by split.
Qed.
#[local] Hint Resolve send_closure_quiet : guard.

Lemma admission_guarded {A} (action : Run A) :
  guarded quiet action → guarded quiet (withArchivePreparationAdmission rt ac message others o action).
Proof. intros Ha. unfold withArchivePreparationAdmission, requireArchivePreparationCurrent. guards. Qed.
#[local] Hint Resolve admission_guarded : guard.
Lemma check_closure_guarded : guarded quiet (check_closure ac workspace message others).
Proof. unfold check_closure. guards. Qed.
Lemma compose_closure_guarded c : guarded quiet (compose_closure rt ac workspace others c).
Proof. unfold compose_closure. cbv zeta. guards. Qed.
#[local] Hint Resolve check_closure_guarded compose_closure_guarded : guard.

Lemma quiet_replaced {A} l :
  quiet (loc_sys l) → wp (fail_with rt ac message replaced : Run A) (λ l' r, quiet (loc_sys l') ∧ r = Err replaced) l.
Proof. apply fail_with_replaced; [apply quiet_world|apply updated_quiet]. Qed.
Lemma failed_delivery_guarded e : guarded quiet (failed_delivery rt ac message others e).
Proof. unfold failed_delivery, context_error. guards. Qed.
Lemma failed_delivery_replaced l :
  quiet (loc_sys l) → wp (failed_delivery rt ac message others replaced) (λ l' r, quiet (loc_sys l') ∧ r = Err replaced) l.
Proof.
  intros H. unfold failed_delivery, context_error. apply wp_bind, wp_up, wp_lask. intros w ended.
  rewrite andb_false_r. by apply quiet_replaced.
Qed.
#[local] Hint Resolve failed_delivery_guarded : guard.
Lemma deliver_round_guarded : guarded quiet (deliver_round rt ac workspace message others o).
Proof.
  unfold deliver_round. apply guarded_try; [guards| |intros; by apply failed_delivery_replaced]. intros r. guards.
Qed.
Lemma check_round_guarded : guarded quiet (check_round rt ac workspace message others o).
Proof.
  unfold check_round. apply guarded_try; [guards| |intros; by apply quiet_replaced]. intros [c|e]; [|guards].
  apply guarded_bind; [guards|]. intros _. destruct (ck_Ready c); [guards|]. apply guarded_bind; [guards|]. intros p.
  destruct (3 <=? ap_NoProgress p); [guards|]. destruct (ap_Thread p == ""); [guards|].
  apply guarded_try; [guards| |intros; by apply quiet_replaced]. guards.
Qed.
#[local] Hint Resolve deliver_round_guarded check_round_guarded : guard.
Lemma run_loop_guarded fuel : guarded quiet (run_loop rt ac workspace message others fuel o).
Proof.
  induction fuel as [|fuel IH]; cbn [run_loop]; [guards|]. apply guarded_bind; [|guards].
  unfold iteration, context_error. guards.
Qed.

Lemma run_quiet fuel σ : quiet σ → quiet (runArchivePreparation rt ac workspace message others fuel o σ).1.
Proof.
  intros H. change (wp (runArchivePreparation rt ac workspace message others fuel o) (λ σ' _, quiet σ') σ).
  unfold runArchivePreparation, archivePreparationFor. apply wp_bind, wp_gets.
  destruct (lf_preparations σ !! op_Slug o) as [p|] eqn:E; [|by apply wp_ret].
  destruct (matches p o); [|by apply wp_ret]. unfold inside, wp.
  pose proof (run_loop_guarded fuel (mkLocal σ p)) as Hl. unfold wp in Hl.
  destruct (run_loop rt ac workspace message others fuel o (mkLocal σ p)) as [l r]. apply Hl. split; [done|]. by apply H in E.
Qed.
End Run.

(** C36: a granted cancellation silences the executor at once, wherever it is: waiting for the
    message lock, holding it, or between two messages. The cancellation is granted while
    nobody holds the session's message lock, leaves the lock free, and has then durably failed the receipt and
    marked its sidecar. In a run of the executor during which the other goroutines cancel this
    and other sessions whenever they like (and otherwise do anything but take its lock from it, speak for
    it or make an active record of the same attempt again), what the Codex server had been
    told when the cancellation was granted is all it is told, and no active record is left. *)
Theorem canceled_sends_nothing fuel σ :
  (∀ σ, rtc neighbor σ (others σ)) → keyed_preparations σ → (∀ q told, (q, told) ∈ lf_canceled σ → ¬ own q) →
  (∀ slug receipt status o' σ σ',
     cancelArchivePreparation rt ac workspace message slug receipt σ = (σ', Ok (resp_operation status o')) →
     lf_messages σ !! slug = None ∧ lf_messages σ' = lf_messages σ ∧ canceled slug receipt σ σ' o') ∧
  let σ' := (runArchivePreparation rt ac workspace message others fuel o σ).1 in
  ∀ q told, (q, told) ∈ lf_canceled σ' → own q → lf_trace σ' = told ∧ stopped σ'.
Proof.
  intros Ho Hk Hq. split.
  - intros slug receipt status o' τ τ' Hc. pose proof (cancel_spec slug receipt τ) as [Hm H]. rewrite Hc in Hm, H. cbn in Hm, H.
    by destruct H.
  - cbv zeta. intros q told Hin Hown. destruct (run_quiet Ho fuel σ) as [_ H]; [|by destruct (H _ _ Hin Hown)].
    split; [done|]. intros q' told' H' Hown'. by destruct (Hq _ _ H').
Qed.
End Canceled.

(** ** What the loop sends and how often it checks *)

Section Agrees.
Context {CW : CodexWeb} {W : Type} (rt : LifeRuntime W) (ac : ArchiveClient W) (workspace : string)
        (message : error → string) (others : LifeSys W → LifeSys W).

(** The parts of a record only its own loop changes. *)
Definition same_record (q p : archivePreparation) : Prop :=
  progress_of q = progress_of p ∧ ap_MessageID q = ap_MessageID p ∧ ap_Message q = ap_Message p ∧ ap_Options q = ap_Options p ∧
  ap_Thread q = ap_Thread p ∧ ap_JournalID q = ap_JournalID p ∧ ap_Slug q = ap_Slug p.
(** The variable is the stored record, as far as that is still this attempt's. *)
Definition agrees (l : @local CW W) : Prop :=
  keyed_preparations (loc_sys l) ∧
  ∀ q, stored (ap_Slug (loc_p l)) (loc_sys l) = Some q → continues (Some q) (loc_p l) = true → same_record q (loc_p l).

Context (Htrace : ∀ σ, lf_trace (others σ) = lf_trace σ).
Context (Hothers : ∀ σ p, agrees (mkLocal σ p) → agrees (mkLocal (others σ) p)).
(** Errors of the file system are not those of the Codex client. *)
Context (Hmkdir : ∀ w e, (ac_mkdir ac w).2 = Some e → uncertain e = false).
Context (Hsave : ∀ p w e, (lr_save_preparation rt p w).2 = write_failed e ∨ (lr_save_preparation rt p w).2 = write_unsynced e →
  uncertain e = false).

(** From [l] to [l'] only the system has changed, and nothing was sent. *)
Definition waits (l l' : @local CW W) : Prop := loc_p l' = loc_p l ∧ lf_trace (loc_sys l') = lf_trace (loc_sys l) ∧ (agrees l → agrees l').
#[local] Instance waits_preorder : PreOrder waits.
Proof. unfold waits. split; [done|]. intros ??? (? & ? & ?) (? & ? & ?). split_and!; [congruence..|auto]. Qed.

Lemma waits_world σ p w : waits (mkLocal σ p) (mkLocal (σ <| lf_world := w |>) p).
Proof. done. Qed.
Lemma waits_call {A} (f : W → W * A) : rel_steps waits (call others f).
Proof.
  intros l. change (wp (call others f) (λ l' _, waits l l') l). apply wp_run_call. intros w a. unfold waits. cbn. rewrite Htrace.
  split_and!; [done..|]. destruct l as [σ p]. intros H. by apply Hothers.
Qed.
Lemma waits_reads {A} (m : SE (LifeSys W) A) : rel_steps reads m → rel_steps waits (up m).
Proof.
  intros Hm [σ p]. unfold up. specialize (Hm σ). cbn. destruct (m σ) as [σ' r]. cbn in *. by rewrite Hm.
Qed.
Lemma waits_variable : rel_steps waits variable.
Proof. by intros l. Qed.
#[local] Hint Resolve waits_call waits_variable : proc.
#[local] Hint Extern 2 (rel_steps waits (up _)) => apply waits_reads : proc.
Lemma waits_check_error e : rel_steps waits (check_error e).
Proof. by intros l. Qed.
#[local] Hint Resolve waits_check_error : proc.
Lemma waits_require o p : rel_steps waits (up (requireArchivePreparationCurrent o p)).
Proof. apply waits_reads. unfold requireArchivePreparationCurrent. procs. Qed.
#[local] Hint Resolve waits_require : proc.

Lemma wp_waits {A} (m : SE local A) (Q : local → result A → Prop) l :
  rel_steps waits m → (∀ l' r, waits l l' → Q l' r) → wp m Q l.
Proof. intros Hm HQ. apply HQ, Hm. Qed.
(** After waiting since [l0], a waiting step, then [f]; an error ends it. *)
Lemma wait_bind {A B} l0 (m : SE local A) (f : A → SE local B) (Q : local → result B → Prop) l :
  waits l0 l → rel_steps waits m → (∀ l' e, waits l0 l' → Q l' (Err e)) → (∀ l' a, waits l0 l' → wp (f a) Q l') → wp (mbind f m) Q l.
Proof.
  intros H0 Hm He Ha. apply wp_bind. apply wp_waits; [done|].
  intros l' [a|e] H; [apply Ha|apply He]; (etrans; [exact H0|exact H]).
Qed.
Lemma wait_result {A B} l0 (r : result A) (f : A → SE local B) (Q : local → result B → Prop) l :
  waits l0 l → (∀ l' e, waits l0 l' → Q l' (Err e)) → (∀ a, wp (f a) Q l) → wp (mbind f (lift_result r)) Q l.
Proof. intros H0 He Ha. apply wp_bind, wp_lift_result. destruct r; auto. Qed.

Lemma wp_admission {A} o (action : SE local A) (Q : local → result A → Prop) l :
  (∀ l' e, waits l l' → Q l' (Err e)) → (∀ l', waits l l' → wp action Q l') →
  wp (withArchivePreparationAdmission rt ac message others o action) Q l.
Proof.
  intros He Ha. unfold withArchivePreparationAdmission. apply (wait_bind l); [done|auto with proc|done|]. intros l0 p H0.
  do 4 (eapply (wait_bind l); [eassumption|auto with proc|done|]; intros ? ? ?;
        eapply (wait_bind l); [eassumption|auto with proc|done|]; intros ? ? ?).
  eapply (wait_bind l); [eassumption|auto with proc|done|]. intros ? ? ?.
  eapply (wait_bind l); [eassumption|auto with proc|done|]. intros la progress Ha1.
  eapply (wait_result l); [eassumption|done|]. intros progress'. destruct (bool_decide _); [by apply wp_fail, He|].
  eapply (wait_bind l); [eassumption|auto with proc|done|]. intros lb s Ha2.
  destruct (sum_Archived s || _); [by apply wp_fail, He|].
  eapply (wait_bind l); [eassumption|destruct (ap_Thread p != ""); procs|done|]. intros lc u Ha3.
  eapply (wait_bind l); [eassumption|auto with proc|done|]. intros ld [id|current] Ha4; [by apply Ha|by apply wp_fail, He].
Qed.

(** A change made durable: the variable and the stored record move together. *)
Definition changed (change : archivePreparation → archivePreparation) (l l' : @local CW W) : Prop :=
  ∃ c, same_record c (loc_p l) ∧ loc_p l' = change c ∧ agrees l' ∧ lf_trace (loc_sys l') = lf_trace (loc_sys l).
Lemma save_certain p σ : wp (saveArchivePreparationLocked rt ac p) (λ _ r, ∀ e, r = Err e → uncertain e = false) σ.
Proof.
  unfold saveArchivePreparationLocked. apply wp_bind. unfold lask at 1, wp at 1. pose proof (Hmkdir (lf_world σ)) as Hm.
  destruct (ac_mkdir ac (lf_world σ)) as [w e]. cbn [fst snd] in *. apply wp_bind, wp_lift_error.
  destruct e as [e|]; [intros x [= <-]; by apply Hm|]. destruct (Preparation_json p); [|by intros x [= <-]].
  destruct (maxPreparationBytes <? _); [by intros x [= <-]|]. apply wp_bind. unfold lask, wp at 1.
  match goal with |- context [lr_save_preparation rt p ?w0] => pose proof (Hsave p w0) as Hs; destruct (lr_save_preparation rt p w0) as [w2 out] end.
  cbn [fst snd] in *. destruct out; [intros x [= <-]; eauto..|by apply wp_modify].
Qed.
Lemma update_certain change l : wp (update rt ac change) (λ _ r, ∀ e, r = Err e → uncertain e = false) l.
Proof.
  unfold update, variable. apply wp_bind, wp_gets, wp_bind, wp_up. unfold updateArchivePreparation, archivePreparationFor.
  apply wp_bind, wp_gets. cbv zeta. destruct (negb (continues _ _)).
  - apply wp_ret. unfold assign. apply wp_bind, wp_modify, wp_lift_error. by intros e [= <-].
  - apply wp_bind, wp_attempt. eapply wp_mono; [apply save_certain|]. intros σ1 r Hr. apply wp_ret.
    unfold assign. apply wp_bind, wp_modify, wp_lift_error. intros x. destruct r as [u|e]; [done|]. intros [= <-]. by apply Hr.
Qed.

Lemma wp_changed change (Q : local → result unit → Prop) l :
  keeps_identity change →
  (∀ l', lf_trace (loc_sys l') = lf_trace (loc_sys l) → (agrees l → changed change l l') → Q l' (Ok tt)) →
  (∀ l' e, uncertain e = false → lf_trace (loc_sys l') = lf_trace (loc_sys l) → Q l' (Err e)) → wp (update rt ac change) Q l.
Proof.
  intros Hc Hok Herr. assert (wp (update rt ac change) (λ l' r, ∀ e, r = Err e → uncertain e = false → Q l' r) l →
    wp (update rt ac change) (λ l' r, is_ok r = true → Q l' r) l → wp (update rt ac change) Q l) as Hboth.
  { pose proof (update_certain change l) as H. unfold wp in *. destruct (update rt ac change l) as [l' [a|e]]; intros G1 G2;
      [by apply G2|by apply (G1 e), H]. }
  apply Hboth; apply wp_run_update; intros σ' p e [(_ & Ht & _) Hu].
  { destruct e as [e|]; [|done]. intros x [= <-] Hx. by apply Herr. }
  destruct e as [e|]; [done|]. intros _.
  apply Hok; [done|]. intros [Hk Ha].
  unfold stored in *. destruct (lf_preparations (loc_sys l) !! ap_Slug (loc_p l)) as [c|] eqn:E; [|by destruct Hu].
  destruct (continues (Some c) (loc_p l)) eqn:Ec; [|by destruct Hu]. destruct Hu as [-> Hp].
  exists c. split; [by apply Ha|]. split; [done|]. split; [|done]. pose proof (Hk _ _ E) as Ek. cbn in Ek.
  destruct (Hc c) as (Hs & _). split; cbn.
  - unfold keyed_preparations. rewrite Hp. by apply map_Forall_insert_2.
  - intros q. unfold stored. rewrite Hp, lookup_insert_eq. by intros [= <-].
Qed.

(** What one iteration may tell the server: the recorded message, first to be looked
    up, then sent. *)
Definition sends_recorded (p : archivePreparation) (events : list life_event) : Prop :=
  events = [] ∨ ∃ options, ap_Options p = Some options ∧
    let lookup := le_reconcile (ap_Thread p) (ap_Message p) (ap_MessageID p) (repair_action p) options in
    events = [lookup] ∨ events = [lookup; le_send (ap_Thread p) (ap_Message p) (ap_MessageID p) (repair_action p) options].
Definition sent (l l' : @local CW W) : Prop :=
  ∃ events, lf_trace (loc_sys l') = lf_trace (loc_sys l) ++ events ∧ sends_recorded (loc_p l) events.
Lemma sent_nothing l l' : lf_trace (loc_sys l') = lf_trace (loc_sys l) → sent l l'.
Proof. intros H. exists []. split; [by rewrite app_nil_r|by left]. Qed.
Lemma sent_waits l l' : waits l l' → sent l l'.
Proof. intros (_ & H & _). by apply sent_nothing. Qed.
Lemma sent_trans l l1 l2 : sent l l1 → lf_trace (loc_sys l2) = lf_trace (loc_sys l1) → sent l l2.
Proof. intros (e & H1 & H2) H. exists e. by rewrite H. Qed.

(** The record of a round that goes on: as before for the measure. *)
Definition still (l l' : @local CW W) : Prop := agrees l' ∧ progress_of (loc_p l') = progress_of (loc_p l).

Lemma wp_fail_with {A} e (Q : local → result A → Prop) l :
  (∀ l' e, lf_trace (loc_sys l') = lf_trace (loc_sys l) → Q l' (Err e)) → wp (fail_with rt ac message e) Q l.
Proof.
  intros H. unfold fail_with, context_error. apply wp_bind, wp_up, wp_lask. intros w ended. apply wp_bind.
  apply (wp_mono _ (λ l' _, lf_trace (loc_sys l') = lf_trace (loc_sys l))).
  - destruct (bool_decide _); [|by apply wp_ret]. apply wp_bind, wp_gets, wp_bind, wp_up.
    eapply wp_mono; [apply update_spec|]. intros σ' r (p & x & -> & (_ & Ht & _) & _). apply wp_ret. exact Ht.
  - intros l' [u|x] Hl; [by apply wp_fail, H|by apply H].
Qed.

Lemma repair_complete_waits thread accepted cwd : rel_steps waits (archiveRepairComplete ac others thread accepted cwd).
Proof. unfold archiveRepairComplete. cbv zeta. procs. Qed.
#[local] Hint Resolve repair_complete_waits : proc.

Lemma wp_reconcile_or_send p options (Q : local → result SendReceipt → Prop) l :
  loc_p l = p → ap_Options p = Some options → agrees l →
  (∀ l' r, loc_p l' = p → sent l l' → agrees l' → Q l' r) → wp (reconcile_or_send ac others p options) Q l.
Proof.
  intros Hp Ho Ha HQ. unfold reconcile_or_send. cbv zeta.
  set (lookup := le_reconcile _ _ _ _ _). set (send := le_send _ _ _ _ _).
  assert (∀ l' tr, loc_p l' = p → lf_trace (loc_sys l') = lf_trace (loc_sys l) ++ tr → tr = [lookup] ∨ tr = [lookup; send] → sent l l') as Hs.
  { intros l' tr _ Ht H. exists tr. split; [done|]. right. exists options. rewrite Hp. by split. }
  apply wp_bind, wp_up, wp_modify. cbn.
  eapply (wait_bind (mkLocal (loc_sys l <| lf_trace ::= λ tr, tr ++ [lookup] |>) (loc_p l))); [reflexivity|auto with proc|..].
  { intros l' e (H1 & H2 & H3). apply HQ; [by rewrite H1|by eapply Hs; [rewrite H1|exact H2|left]|by apply H3]. }
  intros l1 r (H1 & H2 & H3). specialize (H3 Ha). cbn in H1, H2. assert (sent l l1) as Hl1 by (eapply Hs; [by rewrite H1|exact H2|by left]).
  apply wp_bind, wp_lift_result. destruct r as [[receipt found]|e]; [|apply HQ; [congruence|done|done]].
  destruct found; [apply wp_ret, HQ; [congruence|done|done]|].
  apply wp_bind, wp_up, wp_modify.
  eapply (wait_bind (mkLocal (loc_sys l1 <| lf_trace ::= λ tr, tr ++ [send] |>) (loc_p l1))); [reflexivity|auto with proc|..].
  { intros l' e (G1 & G2 & G3). cbn in G1, G2. apply HQ; [congruence| |by apply G3].
    eapply (Hs _ [lookup; send]); [congruence| |by right]. by rewrite G2, H2, <- app_assoc. }
  intros l2 r (G1 & G2 & G3). cbn in G1, G2. apply wp_lift_result. apply HQ; [congruence| |by apply G3].
  eapply (Hs _ [lookup; send]); [congruence| |by right]. by rewrite G2, H2, <- app_assoc.
Qed.

(** The postcondition of the steps between two checks. *)
Definition round {A} (l l' : @local CW W) (r : result A) : Prop :=
  sent l l' ∧ (match r with Ok _ => True | Err e => uncertain e = true end → still l l').
Lemma round_err {A} l l' e : uncertain e = false → sent l l' → round l l' (@Err A e).
Proof. intros H. split; [done|]. by rewrite H. Qed.
Lemma round_waits {A} l l1 l' (r : result A) : sent l l1 → still l l1 → waits l1 l' → round l l' r.
Proof.
  intros Hs [Ha Hp] (H1 & H2 & H3). split; [by eapply sent_trans|]. intros _. split; [by apply H3|by rewrite H1].
Qed.
Lemma still_refl l : agrees l → still l l.
Proof. by split. Qed.

Lemma changed_still change l0 l1 l2 :
  (∀ p, progress_of (change p) = progress_of p) → progress_of (loc_p l1) = progress_of (loc_p l0) → changed change l1 l2 → still l0 l2.
Proof.
  intros Hc Hp (c & Hs & H1 & H2 & _). split; [done|]. rewrite H1, Hc. destruct Hs as [Hs _]. by rewrite Hs.
Qed.

Lemma send_locked_spec o l :
  agrees l → wp (send_locked rt ac workspace others o (loc_p l)) (round l) l.
Proof.
  intros Ha. unfold send_locked.
  assert (∀ l' e, waits l l' → round l l' (@Err bool e)) as Hw.
  { intros l' e H. eapply round_waits; [by apply sent_nothing|by apply still_refl|exact H]. }
  eapply (wait_bind l); [reflexivity|auto with proc|done|]. intros lc u1 Hlc.
  destruct (negb (ac_implements ac) || _); [by apply wp_fail, Hw|].
  eapply (wait_bind l); [eassumption|auto with proc|done|]. intros ld held Hld. destruct held; [by apply wp_fail, Hw|].
  eapply (wait_bind l); [eassumption|auto with proc|done|]. intros le metadata Hle.
  eapply (wait_result l); [eassumption|done|]. intros metadata'. destruct ((tm_ID metadata' != _) || _); [by apply wp_fail, Hw|].
  apply wp_bind. destruct (ap_Options (loc_p l)) as [options|] eqn:Eo; [|by apply wp_fail, Hw]. apply wp_ret.
  destruct Hle as (Hp & Ht & Hag). apply wp_bind. apply wp_reconcile_or_send; [done|done|by apply Hag|].
  intros l1 r Hp1 Hs1 Ha1. assert (sent l l1) as Hl1.
  { destruct Hs1 as (ev & G1 & G2). exists ev. rewrite Hp in G2. by rewrite G1, Ht. }
  assert (still l l1) as Hst1 by (split; [done|by rewrite Hp1]).
  destruct r as [receipt|x]; [|by split]. apply wp_bind.
  apply wp_changed; [done| |intros; by apply round_err; [|eapply sent_trans]].
  intros l2 Ht2 Hc. specialize (Hc Ha1). assert (sent l l2) as Hl2 by (by eapply sent_trans).
  assert (still l l2) as Hst by (eapply changed_still; [|by rewrite Hp1|exact Hc]; done).
  destruct (receipt_TurnID receipt == ""); [by apply wp_fail, round_err|].
  eapply (wait_bind l2); [reflexivity|auto with proc|intros; by eapply round_waits|]. intros l3 p3 H3.
  eapply (wait_bind l2); [eassumption|auto with proc|intros; by eapply round_waits|]. intros l4 complete H4.
  eapply (wait_bind l2); [eassumption|auto with proc|intros; by eapply round_waits|]. intros l5 prompts H5.
  eapply (wait_result l2); [eassumption|intros; by eapply round_waits|]. intros prompts'.
  destruct (existsb _ prompts'); [apply wp_fail|apply wp_ret]; by eapply round_waits.
Qed.

Lemma round_after {A} l l1 l' (r : result A) : agrees l → waits l l1 → round l1 l' r → round l l' r.
Proof.
  intros Ha (H1 & H2 & H3) [(ev & Ht & Hev) Hst]. split; [exists ev; by rewrite Ht, H2, <- H1|].
  intros Hr. destruct (Hst Hr) as [G1 G2]. split; [done|congruence].
Qed.
Lemma round_then {A} l l1 l' (r : result A) : round l l1 r → waits l1 l' → round l l' r.
Proof.
  intros [Hs Hst] (H1 & H2 & H3). split; [by eapply sent_trans|]. intros Hr. destruct (Hst Hr) as [G1 G2]. split; [auto|congruence].
Qed.
(** Taking the message lock and giving it back. *)
Lemma waits_acquire me slug e : rel_steps waits (up (acquire me slug e)).
Proof.
  intros [σ p]. change (wp (up (acquire me slug e)) (λ l _, waits (mkLocal σ p) l) (mkLocal σ p)). unfold acquire.
  apply wp_up, wp_bind, wp_gets. cbn [loc_sys]. destruct e as [e|]; [by apply wp_ret|].
  destruct (lf_messages σ !! slug); [by apply wp_ret|]. by apply wp_bind, wp_modify, wp_ret.
Qed.
Lemma waits_unlock slug : rel_steps waits (up (unlock slug)).
Proof. by intros [σ p]. Qed.
#[local] Hint Resolve waits_acquire waits_unlock : proc.
Lemma send_closure_spec o l :
  agrees l → wp (send_closure rt ac workspace others o) (round l) l.
Proof.
  intros Ha. unfold send_closure. apply wp_bind, wp_gets.
  assert (∀ l' e, waits l l' → round l l' (@Err bool e)) as Hw.
  { intros l' e H. eapply round_waits; [by apply sent_nothing|by apply still_refl|exact H]. }
  do 3 (eapply (wait_bind l); [first [reflexivity|eassumption]|auto with proc|done|]; intros ? ? ?).
  match goal with H : waits l ?l1 |- _ => rename H into Hl1; destruct (Hl1) as (P1 & _ & A1); rewrite <- P1 end.
  apply wp_bind, wp_attempt. eapply wp_mono; [apply send_locked_spec, A1, Ha|]. intros l2 r H2.
  apply wp_bind, wp_up, wp_modify, wp_lift_result. eapply round_after; [done|done|]. by eapply round_then.
Qed.

Lemma failed_delivery_spec e l0 l :
  sent l0 l → (wp (failed_delivery rt ac message others e) (λ l' r, sent l0 l' ∧ (is_ok r = true → uncertain e = true ∧ (agrees l → still l l'))) l).
Proof.
  intros Hs. unfold failed_delivery, context_error. apply wp_bind, wp_up, wp_lask. intros w ended.
  assert (∀ l1, lf_trace (loc_sys l1) = lf_trace (loc_sys l) →
    wp (fail_with rt ac message e) (λ l' (r : result bool), sent l0 l' ∧ (is_ok r = true → uncertain e = true ∧ (agrees l → still l l'))) l1) as Hf.
  { intros l1 H1. apply wp_fail_with. intros l' x Ht. split; [|done]. eapply sent_trans; [exact Hs|]. by rewrite Ht. }
  destruct (bool_decide (ended = None) && uncertain e) eqn:Eu; [|by apply Hf]. apply andb_prop in Eu as [_ Eu].
  assert (∀ l' x, lf_trace (loc_sys l') = lf_trace (loc_sys l) →
    sent l0 l' ∧ (is_ok (@Err bool x) = true → uncertain e = true ∧ (agrees l → still l l'))) as Herr by (split; [by eapply sent_trans|done]).
  apply wp_bind, wp_changed; [done| |by intros; apply Herr]. intros l1 Ht1 Hc. apply wp_bind, wp_gets.
  change (lf_trace (loc_sys l1) = lf_trace (loc_sys l)) in Ht1.
  destruct (ap_DeliveryFailures _ <? 3); [|by apply Hf].
  eapply (wait_bind l1); [reflexivity|auto with proc|intros l' x (_ & H & _); apply Herr; congruence|]. intros l2 x H2.
  eapply (wait_bind l1); [done|auto with proc|intros l' y (_ & H & _); apply Herr; congruence|]. intros l3 u H3.
  apply wp_ret. split; [destruct H3 as (_ & H & _); eapply sent_trans; [exact Hs|congruence]|]. intros _. split; [done|]. intros Ha.
  specialize (Hc Ha). destruct (changed_still (count_failure (message e)) l l l1) as [K1 K2]; [done|done|done|].
  destruct H3 as (G1 & _ & G3). split; [by apply G3|by rewrite G1].
Qed.


Lemma still_trans l l1 l2 : still l l1 → still l1 l2 → still l l2.
Proof. intros [_ H1] [H2 H3]. split; [done|congruence]. Qed.

Lemma deliver_round_spec o l :
  agrees l → wp (deliver_round rt ac workspace message others o) (λ l' r, sent l l' ∧ (is_ok r = true → still l l')) l.
Proof.
  intros Ha. unfold deliver_round. apply wp_bind, wp_attempt. apply (wp_mono _ (round l)).
  { apply wp_admission.
    - intros l' e H. eapply round_waits; [by apply sent_nothing|by apply still_refl|exact H].
    - intros l1 H1. eapply wp_mono; [apply send_closure_spec, H1, Ha|]. intros l' r. by apply round_after. }
  intros l1 [complete|e] [Hs Hst].
  2: { eapply wp_mono; [by apply failed_delivery_spec|]. intros l' r [Hs' H]. split; [done|]. intros Hr.
       destruct (H Hr) as [Hu H']. specialize (Hst Hu). eapply still_trans; [exact Hst|apply H', Hst]. }
  specialize (Hst I). apply wp_bind, wp_gets, wp_bind.
  apply (wp_mono _ (λ l' r, sent l l' ∧ (is_ok r = true → still l l'))).
  { destruct (negb _); [|by apply wp_ret]. apply wp_changed; [done| |intros; split; [by eapply sent_trans|done]].
    intros l2 Ht Hc. split; [by eapply sent_trans|]. intros _. apply (changed_still clear_failures l l1 l2); [done|apply Hst|apply Hc, Hst]. }
  intros l2 [u|e] [Hs2 Hst2]; [|done]. specialize (Hst2 eq_refl). destruct (negb complete).
  - eapply (wait_bind l2); [reflexivity|auto with proc|intros l' e (_ & H & _); split; [by eapply sent_trans|done]|]. intros l3 x H3.
    eapply (wait_bind l2); [eassumption|auto with proc|intros l' e (_ & H & _); split; [by eapply sent_trans|done]|]. intros l4 y H4.
    apply wp_ret. destruct (round_waits l l2 l4 (Ok true) Hs2 Hst2 H4) as [G1 G2]. auto.
  - apply wp_bind, wp_changed; [done| |intros; split; [by eapply sent_trans|done]].
    intros l3 Ht Hc. apply wp_ret. split; [by eapply sent_trans|]. intros _. apply (changed_still turn_finished l l2 l3); [done|apply Hst2|apply Hc, Hst2].
Qed.

Lemma check_closure_spec l :
  wp (check_closure ac workspace message others) (λ l' r, waits l l' ∧ ∀ c, r = Ok c → ∃ slug, check_inconsistent workspace slug c = false) l.
Proof.
  unfold check_closure. apply wp_bind, wp_gets.
  eapply (wait_bind l); [reflexivity|auto with proc|by intros|]. intros l1 output H1.
  destruct output as [? ? ?|[c|]]; [by apply wp_fail| |by apply wp_fail].
  destruct (check_inconsistent workspace (ap_Slug (loc_p l)) c) eqn:E; [by apply wp_fail|].
  apply wp_ret. split; [done|]. intros c' [= <-]. eauto.
Qed.

(** The measure of a change depends on the measure only. *)
Lemma record_check_measure c p q : progress_of p = progress_of q → progress_of (record_check c p) = progress_of (record_check c q).
Proof. intros H. rewrite !record_check_progress. unfold improves, progress_of in *. injection H as -> -> ->. done. Qed.
Lemma cycle_measure p q p' : progress_of p = progress_of q → cycle q p' → cycle p p'.
Proof.
  intros H (ws & slug & c & H1 & H2 & H3 & H4 & H5). exists ws, slug, c. rewrite (record_check_measure c p q H).
  unfold progress_of in H. split_and!; try done; injection H; lia.
Qed.

Definition counted (p : archivePreparation) : Prop := 0 <= ap_NoProgress p < max_int.

Definition cycled (l l' : @local CW W) : Prop := agrees l' ∧ cycle (loc_p l) (loc_p l').
Lemma check_round_spec o l :
  agrees l →
  wp (check_round rt ac workspace message others o) (λ l' r,
    lf_trace (loc_sys l') = lf_trace (loc_sys l) ∧ (r = Ok true → counted (loc_p l) → cycled l l')) l.
Proof.
  intros Ha. unfold check_round. apply wp_bind, wp_attempt.
  apply (wp_mono _ (λ l' r, waits l l' ∧ ∀ c, r = Ok c → ∃ slug, check_inconsistent workspace slug c = false)).
  { apply wp_admission; [by intros|]. intros l1 H1. eapply wp_mono; [apply check_closure_spec|].
    intros l' r [H2 H3]. split; [by etrans|done]. }
  intros l1 r [(P1 & T1 & A1) Hc].
  assert (∀ e l2, lf_trace (loc_sys l2) = lf_trace (loc_sys l) → wp (fail_with rt ac message e) (λ l' (r : result bool),
    lf_trace (loc_sys l') = lf_trace (loc_sys l) ∧ (r = Ok true → counted (loc_p l) → cycled l l')) l2) as Hf.
  { intros e l2 H2. apply wp_fail_with. intros l' x Ht. split; [congruence|done]. }
  destruct r as [c|e]; [|by apply Hf]. destruct (Hc c eq_refl) as (slug & Hcons). clear Hc.
  apply wp_bind, wp_changed; [apply record_check_identity| |intros l' e _ Ht; split; [congruence|done]].
  intros l2 T2 Hch. destruct (Hch (A1 Ha)) as (q & Hq & P2 & A2 & _). destruct (ck_Ready c) eqn:Er.
  { apply wp_bind, wp_changed; [done| |intros l' e _ Ht; split; [congruence|done]]. intros l3 T3 _. apply wp_ret. split; [congruence|done]. }
  apply wp_bind, wp_gets. destruct (3 <=? ap_NoProgress (loc_p l2)) eqn:En; [by apply Hf; congruence|]. apply Z.leb_gt in En.
  destruct (ap_Thread (loc_p l2) == ""); [by apply Hf; congruence|].
  assert (counted (loc_p l) → cycled l l2) as Hcyc.
  { intros Hn. split; [done|]. exists workspace, slug, c. split_and!; try done; [|unfold counted in Hn; lia..].
    rewrite P2. apply record_check_measure. destruct Hq as [Hq _]. by rewrite Hq, P1. }
  apply wp_bind, wp_attempt. apply (wp_mono _ (λ l' r, lf_trace (loc_sys l') = lf_trace (loc_sys l) ∧ (is_ok r = true → counted (loc_p l) → cycled l l'))).
  - assert (∀ l' (e : error), waits l2 l' → lf_trace (loc_sys l') = lf_trace (loc_sys l)) as Hw by (intros l' e (_ & H & _); congruence).
    apply wp_admission; [by intros l' e H; split; [eapply (Hw l' e); exact H|]|]. intros l3 H3. unfold compose_closure.
    destruct (negb (ac_implements ac)); [apply wp_fail; split; [by eapply (Hw l3 ErrNotExist)|done]|].
    eapply (wait_bind l2); [eassumption|auto with proc|by intros l' e H; split; [eapply (Hw l' e); exact H|]|]. intros l4 p4 H4.
    eapply (wait_bind l2); [eassumption|auto with proc|by intros l' e H; split; [eapply (Hw l' e); exact H|]|]. intros l5 settings H5.
    eapply (wait_result l2); [eassumption|by intros l' e H; split; [eapply (Hw l' e); exact H|]|]. intros settings'.
    eapply (wait_bind l2); [eassumption|auto with proc|by intros l' e H; split; [eapply (Hw l' e); exact H|]|]. intros l6 s H6.
    eapply (wait_bind l2); [eassumption|auto with proc|by intros l' e H; split; [eapply (Hw l' e); exact H|]|]. intros l7 roster H7.
    eapply (wait_result l2); [eassumption|by intros l' e H; split; [eapply (Hw l' e); exact H|]|]. intros instructions. cbv zeta.
    destruct H7 as (P7 & T7 & A7). apply wp_changed; [apply next_round_identity| |intros l' e _ Ht; split; [congruence|done]].
    intros l8 T8 Hch8. split; [congruence|]. intros _ Hn. destruct (Hch8 (A7 A2)) as (q8 & Hq8 & P8 & A8 & _).
    destruct (Hcyc Hn) as [_ (ws & sl & c' & K1 & K2 & K3 & K4 & K5)]. split; [done|]. exists ws, sl, c'.
    assert (progress_of (loc_p l8) = progress_of (loc_p l2)) as Hm by (rewrite P8; destruct Hq8 as [Hq8 _]; rewrite <- P7; exact Hq8).
    do 2 (split; [done|]). split; [congruence|]. split; [done|]. unfold progress_of in Hm. injection Hm. lia.
  - intros l3 [u|e] [T3 C3]; [apply wp_ret; auto|by apply Hf].
Qed.

Lemma iteration_spec o l :
  agrees l →
  wp (iteration rt ac workspace message others o) (λ l' r,
    sent l l' ∧ (r = Ok true → counted (loc_p l) → ap_MessageID (loc_p l) ≠ "" ∧ still l l' ∨ cycled l l')) l.
Proof.
  intros Ha. unfold iteration, context_error. apply (wait_bind l); [reflexivity|auto with proc|by intros l' e H; split; [by apply sent_waits|]|].
  intros l1 ended H1. apply (wait_bind l); [done|auto with proc|by intros l' e H; split; [by apply sent_waits|]|]. intros l2 u H2.
  apply wp_bind, wp_gets, wp_bind. destruct H2 as (P2 & T2 & A2). specialize (A2 Ha).
  apply (wp_mono _ (λ l' r, sent l l' ∧ (is_ok r = true → still l l' ∧ (r = Ok true → ap_MessageID (loc_p l) ≠ "")))).
  - destruct (ap_MessageID (loc_p l2) != "") eqn:Em.
    + apply negb_true_iff, bool_decide_eq_false_1 in Em. rewrite P2 in Em. eapply wp_mono; [by apply deliver_round_spec|].
      intros l' r [(ev & G1 & G2) Hst]. split; [exists ev; by rewrite G1, T2, <- P2|]. intros Hr. destruct (Hst Hr) as [K1 K2].
      split; [split; [done|congruence]|done].
    + apply wp_ret. split; [by apply sent_nothing|]. intros _. split; [split; [done|by rewrite P2]|done].
  - intros l3 [again|e] [Hs Hst]; [|by split]. destruct (Hst eq_refl) as [Hst3 Hm]. destruct again.
    + apply wp_ret. split; [done|]. intros _ _. left. auto.
    + eapply wp_mono; [apply check_round_spec, Hst3|]. intros l' r [T4 Hc]. split; [by eapply sent_trans|]. intros Hr Hn. right.
      destruct Hst3 as [A3 P3]. destruct (Hc Hr) as [A4 C4].
      { unfold counted, progress_of in *. injection P3. lia. }
      split; [done|]. by eapply cycle_measure.
Qed.

(** C38: an iteration of the loop tells the Codex server nothing but the message its
    durable record holds, under that record's thread, identity and journal: it asks
    whether that message was sent, and sends it at most once and only after asking.
    The variable it sends from agrees with the record as long as other goroutines leave this attempt's
    record to it. *)
Theorem repair_sends_recorded o l : agrees l → sent l (iteration rt ac workspace message others o l).1.
Proof. intros Ha. apply (iteration_spec o l Ha). Qed.

(** C37: repairing ends: an iteration that goes on either waits for a message's turn or
    has recorded a report with progress, a higher stage or fewer blockers at the same stage, or
    one of two without; and there is no infinite sequence of those. *)
Theorem repair_cycles_end :
  well_founded (λ p' p : archivePreparation, cycle p p') ∧
  ∀ o l l', agrees l → counted (loc_p l) → iteration rt ac workspace message others o l = (l', Ok true) →
    ap_MessageID (loc_p l) ≠ "" ∧ still l l' ∨ cycled l l'.
Proof.
  split.
  - eapply wf_incl; [|apply (wf_inverse_image _ _ lexicographic distance lexicographic_wf)].
    intros p' p. apply cycle_decreases.
  - intros o l l' Ha Hn Hi. pose proof (iteration_spec o l Ha) as [_ H]. rewrite Hi in H. by apply H.
Qed.
End Agrees.

(** ** A replaced attempt *)

Section Replaced.
Context {CW : CodexWeb} {W : Type} (rt : LifeRuntime W) (ac : ArchiveClient W) (message : error → string).

(** C39: when the record was replaced by a newer attempt while a closure of the old
    loop waited, the refused update still hands the newer record to the loop's variable, so
    that the loop's failure marks the newer attempt as failed. *)
Theorem replaced_attempt_is_failed change (l : local) q :
  (∀ w, (lr_context rt w).2 = None) → (∀ w, (ac_mkdir ac w).2 = None) → (∀ p w, (lr_save_preparation rt p w).2 = write_ok) →
  stored (ap_Slug (loc_p l)) (loc_sys l) = Some q → ap_Slug q = ap_Slug (loc_p l) → ap_ReceiptID q = ap_ReceiptID (loc_p l) →
  active q = true → ap_Attempt q ≠ ap_Attempt (loc_p l) →
  match Preparation_json (mark_failed (message replaced) q) with Some data => strlen data <= maxPreparationBytes | None => False end →
  let '(l', r) := (r ← attempt (update rt ac change);
                   match r with Err e => fail_with rt ac message e | Ok _ => mret true end) l in
  is_ok r = false ∧ ∃ failed, stored (ap_Slug (loc_p l)) (loc_sys l') = Some failed ∧
    ap_State failed = "failed" ∧ ap_Attempt failed = ap_Attempt q.
Proof.
  intros Hctx Hmk Hsv Hq Hs Hr Ha Hne Hj. destruct l as [σ p]. cbn in *.
  set (m := mbind _ _). cut (wp m (λ l' r, is_ok r = false ∧ ∃ failed, stored (ap_Slug p) (loc_sys l') = Some failed ∧
    ap_State failed = "failed" ∧ ap_Attempt failed = ap_Attempt q) (mkLocal σ p)); [unfold wp; by destruct (m _)|].
  unfold m. clear m. apply wp_bind, wp_attempt, wp_run_update. intros σ1 p1 e [_ Hu].
  change (loc_p (mkLocal σ p)) with p in Hu. change (loc_sys (mkLocal σ p)) with σ in Hu. rewrite Hq in Hu.
  assert (continues (Some q) p = false) as Hc.
  { unfold continues. rewrite Hr, bool_decide_eq_true_2 by done. cbn.
    assert ((ap_Attempt q =? ap_Attempt p) = false) as -> by lia. done. }
  rewrite Hc in Hu. destruct Hu as (-> & -> & Hp1).
  unfold fail_with, context_error. apply wp_bind, wp_up, (wp_lask_is _ _ _ None); [apply Hctx|]. intros w1.
  apply wp_bind, wp_bind, wp_gets, wp_bind, wp_up. unfold updateArchivePreparation, archivePreparationFor.
  apply wp_bind, wp_gets. cbn [loc_sys loc_p]. change (lf_preparations (σ1 <| lf_world := w1 |>)) with (lf_preparations σ1).
  rewrite Hp1, Hs. unfold stored in Hq. rewrite Hq. cbn [default from_option]. unfold id.
  assert (continues (Some q) q = true) as -> by (unfold continues; by rewrite bool_decide_eq_true_2, Z.eqb_refl, Ha).
  cbn [negb]. apply wp_bind, wp_attempt. unfold saveArchivePreparationLocked.
  apply wp_bind, (wp_lask_is _ _ _ None); [apply Hmk|]. intros w2. apply wp_bind, wp_lift_error.
  destruct (Preparation_json (mark_failed (message replaced) q)) as [data|]; [|done].
  assert ((maxPreparationBytes <? strlen data) = false) as -> by lia.
  apply wp_bind, (wp_lask_is _ _ _ write_ok); [apply Hsv|]. intros w3.
  apply wp_modify, wp_ret, wp_ret, wp_fail. split; [done|]. exists (mark_failed (message replaced) q).
  split; [|done]. unfold stored. cbn. rewrite Hs. apply lookup_insert_eq.
Qed.
End Replaced.

(** Cutting a blocker's text at 512 bytes can split a character: the message sent is then
    not valid UTF-8, and the record on disk, in JSON, does not hold the same text. *)
Definition accented : string := String.concat "" (repeat "x" 511) +:+ string_of [195; 169].
Lemma cut_message_invalid :
  let b := mkBlocker "dirty" accented None in
  utf8_valid (blk_Message b) = true ∧ utf8_valid (blocker_line b) = false ∧
  contains (String GoJson.bslash "ufffd") (GoJson.json_escape (blocker_line b)) = true.
Proof. split_and!; vm_compute; reflexivity. Qed.
