(* ===== verification/LifecycleCommands.v ===== *)
(** * Lifecycle commands

    The requests of [web/server.go] that start, run, finish and dismiss an archive,
    delete or revive: [startArchive], [startRevive], [deleteSession],
    [retryLifecycleOperation], [startLifecycleOperation], [runLifecycleJob],
    [runLifecycleOperation], [executeLifecycleOperation],
    [dismissLifecycleOperation]; [writeLifecycleError] of [web/lifecycle_target.go]. *)

From S2P Require Import Prelude Effects GoStrings GoTime RetryValidate Codex.
From S2P Require Import LifecycleTypes LifecycleOps LifecyclePropose ArchivePreparation.

Open Scope Z_scope.

(** How a [dev-session] or [systemd-run] command ended. *)
Inductive command_outcome :=
  | command_done
  | command_failed (stdout stderr : string) (e : error).

(** The commands the executor runs; [ce_tick] is the [select] between the context and
    a ticker. *)
Record CommandRuntime (W : Type) := mkCommands {
  ce_run : list string → W → W * command_outcome;
  ce_systemd_run : lifecycleOperation → list string → W → W * command_outcome;
  ce_tick : W → W * option error }.
Arguments ce_run {W}. Arguments ce_systemd_run {W}. Arguments ce_tick {W}.

(** ** Checks of a request *)

Section Checks.
Context {CW : CodexWeb} {W : Type}.

(** A retry names the stored receipt, and asks for what it recorded. *)
Definition retry_refused (kind : string) (options : lifecycleOperationOptions) (expected : string)
    (o : option lifecycleOperation) : bool :=
  (expected != "") &&
  match o with
  | None => true
  | Some o =>
      (op_ReceiptID o != expected) || (op_Kind o != kind)
      || (opt_JournalID (op_Options o) != opt_JournalID options) || (opt_Mode (op_Options o) != opt_Mode options)
      || negb (eqb (opt_AllowAbandoned (op_Options o)) (opt_AllowAbandoned options))
      || ((op_State o != "failed") && (op_State o != "paused"))
  end.
(** A new request may name the failed one it replaces. *)
Definition supersede_refused (expected supersede : string) (o : option lifecycleOperation) : bool :=
  (expected == "") && (supersede != "") &&
  match o with
  | None => true
  | Some o => (op_ReceiptID o != supersede) || (op_State o != "failed") || opt_JournalExpected (op_Options o)
  end.
Definition differs (kind : string) (options : lifecycleOperationOptions) (o : lifecycleOperation) : bool :=
  (op_Kind o != kind) || (opt_TargetID (op_Options o) != opt_TargetID options)
  || (opt_Mode (op_Options o) != opt_Mode options) || negb (eqb (opt_Force (op_Options o)) (opt_Force options))
  || negb (eqb (opt_AllowAbandoned (op_Options o)) (opt_AllowAbandoned options)).

Definition closing_response : response := resp_error 503 "portal is shutting down".

(** The first section under [operationMu]: an answer, or the captured receipt. *)
Definition start_entry (slug kind : string) (options : lifecycleOperationOptions) (expected supersede : string)
    (σ : LifeSys W) : response + (option lifecycleOperation * Z) :=
  let o := lf_operations σ !! slug in
  if lf_closing σ then inl closing_response
  else if retry_refused kind options expected o
  then inl (resp_error 409 "The lifecycle operation changed. Reload the page before retrying it.")
  else if supersede_refused expected supersede o
  then inl (resp_error 409 "The lifecycle receipt changed. Review the current operation before confirming again.")
  else match o with
       | Some running =>
           if op_State running == "running" then
             inl (if differs kind options running
                  then resp_error 409 "another session operation is already running"
                  else resp_operation 202 running)
           else inr (o, revision slug σ)
       | None => inr (o, revision slug σ)
       end.

(** What forbids a new request: its journal, or a receipt that was not named. *)
Definition new_refusal (o : option lifecycleOperation) (progress : option LifecycleProgress) (supersede : string)
    : option error :=
  let journal := match o with
                 | Some o => (op_State o != "complete") && opt_JournalExpected (op_Options o)
                 | None => false
                 end in
  if bool_decide (progress ≠ None) || journal
  then Some (ErrorsNew "An accepted lifecycle journal cannot be replaced. Retry that operation.")
  else if supersede != "" then
    match o with
    | Some o => if (op_ReceiptID o != supersede) || (op_State o != "failed")
                then Some (ErrorsNew "The lifecycle receipt changed. Review the current operation before confirming again.")
                else None
    | None => Some (ErrorsNew "The lifecycle receipt changed. Review the current operation before confirming again.")
    end
  else match o with
       | Some o => if op_State o != "complete"
                   then Some (ErrorsNew "Retry the existing operation or explicitly confirm replacing its failed request.")
                   else None
       | None => None
       end.

(** A retry's command: [--force] is added once force is asked for. *)
Definition retry_args (kind : string) (force : bool) (args : list string) : list string :=
  if (kind == "delete") && force && negb (existsb (λ a, a == "--force") args) then args ++ ["--force"] else args.

(** The accepted receipt. *)
Definition accepted_operation (slug kind redirect : string) (options : lifecycleOperationOptions)
    (previous : option lifecycleOperation) (receiptID now : string) (progress : option LifecycleProgress) : lifecycleOperation :=
  no_operation <| op_Slug := slug |> <| op_Kind := kind |> <| op_State := "running" |>
    <| op_Phase := match progress with
                   | Some p => if lp_ServicePrelude p then lp_Phase p else "starting"
                   | None => "starting"
                   end |>
    <| op_Redirect := redirect |> <| op_UpdatedAt := now |>
    <| op_StartedAt := match previous with Some o => op_StartedAt o | None => now end |>
    <| op_ReceiptID := receiptID |> <| op_Options := options |>
    <| op_TargetIdentityVersion := match previous with Some o => op_TargetIdentityVersion o | None => lifecycleTargetIdentityVersion end |>
    <| op_Attempt := match previous with Some o => i64 (op_Attempt o + 1) | None => 1 end |>.
End Checks.

Section Commands.
Context {CW : CodexWeb} {W : Type} (rt : LifeRuntime W) (ac : ArchiveClient W) (ce : CommandRuntime W) (workspace : string)
        (supervised : bool) (message : error → string) (others : LifeSys W → LifeSys W).
Abbreviation Life := (SE (LifeSys W)).

Definition answer_error (e : error) : response := resp_error 409 (message e).

(** [writeLifecycleError] of a changed target: the snapshot of the same receipt shows
    it, unless its journal owns the receipt. *)
Definition write_changed (current : option lifecycleTargetSnapshot) (receiptID : string) : Life response :=
  (match current with
   | Some target =>
       if receiptID != "" then
         snapshot ← gets (λ σ, lf_snapshots σ !! lts_Slug target);
         match snapshot with
         | Some s =>
             let o := snp_operation s in
             if (op_ReceiptID o == receiptID) && negb (opt_JournalExpected (op_Options o)) then
               a ← lask (lr_address rt);
               now ← lask (lr_now rt);
               modify (λ σ, σ <| lf_snapshots ::= <[lts_Slug target :=
                 mkSnapshot (o <| op_CurrentTarget := Some (mkRef a target) |> <| op_ErrorCode := "target_changed" |>) now]> |>)
             else mret tt
         | None => mret tt
         end
       else mret tt
   | None => mret tt
   end);;
  mret (resp_target_changed current receiptID).

(** ** [startLifecycleOperation] *)

(** What the proof of a request gives: its options, command and previous receipt. *)
Inductive proof :=
  | proved (options : lifecycleOperationOptions) (args : list string) (previous : option lifecycleOperation)
  | proof_changed (current : option lifecycleTargetSnapshot)
  | proof_failed (e : error).

Definition prove_retry (kind : string) (args : list string) (force : bool) (o : lifecycleOperation)
    (progress : option LifecycleProgress) : Life proof :=
  r ← attempt (prepareLifecycleRetry rt message o progress);
  mret (match r with
        | Err e => proof_failed e
        | Ok (target_changed current) => proof_changed current
        | Ok (target_ok o) =>
            let options := op_Options o <| opt_Force ::= λ stored, stored || force |> in
            proved options (retry_args kind (opt_Force options) args) (Some o)
        end).
Definition prove_new (slug kind : string) (args : list string) (options : lifecycleOperationOptions)
    (o : option lifecycleOperation) (supersede : string) (progress : option LifecycleProgress) : Life proof :=
  match new_refusal o progress supersede with
  | Some e => mret (proof_failed e)
  | None =>
      r ← attempt (s ← Find rt slug; target ← validateLifecycleTarget rt message s (opt_TargetID options) kind; mret (s, target));
      mret (match r with
            | Err e => proof_failed e
            | Ok (_, target_changed current) => proof_changed current
            | Ok (s, target_ok _) => proved (options <| opt_TargetLocation := sum_Root s |>) args None
            end)
  end.
Definition prove_start (slug kind : string) (args : list string) (options : lifecycleOperationOptions) (expected supersede : string)
    (o : option lifecycleOperation) (progress : result (option LifecycleProgress)) : Life proof :=
  match progress with
  | Err e => mret (proof_failed e)
  | Ok progress =>
      if expected != "" then
        match o with
        | Some o => prove_retry kind args (opt_Force options) o progress
        | None => mret (proof_failed ErrNilDereference)
        end
      else prove_new slug kind args options o supersede progress
  end.

(** The receipt a changed target is reported for. *)
Definition reported_receipt (o : option lifecycleOperation) : string :=
  match o with
  | Some o => if (op_State o == "failed") && negb (opt_JournalExpected (op_Options o)) then op_ReceiptID o else ""
  | None => ""
  end.

(** The last section under [operationMu]. *)
Definition commit_start (slug : string) (captured : option lifecycleOperation * Z) (o : lifecycleOperation)
    (args : list string) : Life response :=
  closing ← gets lf_closing;
  if closing : bool then mret closing_response else
  same ← gets (unchanged slug captured.1 captured.2);
  if negb same
  then mret (resp_error 409 "The lifecycle operation changed. Review its current status before retrying.") else
  now ← lask (lr_now rt);
  m ← gets lf_operations;
  match canPersistTerminalOutcomes workspace m slug o now with
  | Some _ => mret (resp_error 507 "lifecycle operation history is full; dismiss finished operations and retry")
  | None =>
      r ← attempt (beginArchivePreparation rt ac workspace o);
      match r with
      | Err e => mret (resp_error 500 (message e))
      | Ok _ =>
          r ← attempt (replaceLifecycleOperationLocked rt workspace slug o);
          match r with
          | Err _ => mret (resp_error 500 "unable to persist the lifecycle operation")
          | Ok _ => lemit (le_start o args);; mret (resp_operation 202 o)
          end
      end
  end.

Definition start_proved (slug kind redirect : string) (expected : string) (captured : option lifecycleOperation * Z)
    (progress : option LifecycleProgress) (options : lifecycleOperationOptions) (args : list string)
    (previous : option lifecycleOperation) : Life response :=
  now ← lask (lr_now rt);
  id ← (match previous with Some o => mret (Ok (op_ReceiptID o)) | None => lask (lr_newID rt) end);
  match id with
  | Err _ => mret (resp_error 500 "unable to create the lifecycle operation")
  | Ok id =>
      interfere others;;
      commit_start slug captured (accepted_operation slug kind redirect options previous id (rfc3339 now) progress) args
  end.

Definition startLifecycleOperation (slug kind redirect : string) (args : list string) (options : lifecycleOperationOptions)
    (expected supersede : string) : Life response :=
  closing ← gets lf_closing;
  if closing : bool then mret closing_response else
  e ← lask (lr_transition rt);
  match e with Some e => mret (answer_error e) | None =>
  e ← lask (lr_profile rt);
  match e with Some e => mret (answer_error e) | None =>
  owner ← lask (lr_Owner rt slug);
  match owner with Err e => mret (answer_error e) | Ok owner =>
  if (owner != "") && (owner != kind)
  then mret (resp_error 409 ("session " +:+ owner +:+ " is unfinished; retry that operation first")) else
  interfere others;;
  entry ← gets (start_entry slug kind options expected supersede);
  match entry with
  | inl r => mret r
  | inr captured =>
      progress ← lask (lr_Progress rt slug);
      p ← prove_start slug kind args options expected supersede captured.1 progress;
      match p with
      | proof_failed e => mret (answer_error e)
      | proof_changed current => write_changed current (reported_receipt captured.1)
      | proved options args previous =>
          start_proved slug kind redirect expected captured
            (match progress with Ok p => p | Err _ => None end) options args previous
      end
  end end end end.

End Commands.
