(* ===== verification/LifecycleJobs.v ===== *)
(** * Lifecycle jobs

    What runs after a request is accepted: [executeLifecycleOperation],
    [runLifecycleOperation] and [runLifecycleJob] of [web/server.go], and
    [runSupervisedArchive] of [web/archive_worker.go]. *)

From S2P Require Import Prelude Effects GoStrings GoTime RetryValidate Codex.
From S2P Require Import LifecycleTypes LifecycleOps LifecyclePropose ArchivePreparation LifecycleCommands.

Open Scope Z_scope.

Section Jobs.
Context {CW : CodexWeb} {W : Type} (rt : LifeRuntime W) (ac : ArchiveClient W) (ce : CommandRuntime W) (workspace : string)
        (supervised : bool) (message : error → string) (others : LifeSys W → LifeSys W).
Abbreviation Life := (SE (LifeSys W)).

(** ** Targets of a command *)

(** [revalidateLifecycleTarget] and [resolveDeletionTarget] *)
Definition revalidateLifecycleTarget (slug kind expected : string) : Life (checked string) :=
  s ← lask (lr_Find rt slug);
  match s with
  | Err e =>
      if errors_Is e ErrNotExist
      then fail (ErrorsNew "The session no longer exists. Reload the workspace before retrying it.")
      else fail (ErrWrap e ("verify " +:+ kind +:+ " target: " +:+ message e))
  | Ok s => validateLifecycleTarget rt message s expected kind
  end.

Definition resolveDeletionTarget (slug : string) (journalOwned : bool) (expected retained : string)
    : Life (checked (string * string)) :=
  if journalOwned then mret (target_ok (expected, retained)) else
  s ← lask (lr_Find rt slug);
  match s with
  | Err e =>
      if errors_Is e ErrNotExist
      then fail (ErrorsNew "The session no longer exists. Reload the workspace before deleting it.")
      else fail (ErrWrap e ("verify deletion target: " +:+ message e))
  | Ok s =>
      t ← validateLifecycleTarget rt message s expected "delete";
      mret (match t with
            | target_ok current => target_ok (current, sum_ThreadID s)
            | target_changed current => target_changed current
            end)
  end.
Definition require_target {A} (m : Life (checked A)) : Life unit :=
  t ← m; match t with target_ok _ => mret tt | target_changed _ => fail ErrTargetChanged end.

(** ** Running the command *)

(** The worker is watched until it ends; [Ok false] when [fuel] looks were not enough. *)
Fixpoint watch_worker (fuel : nat) (o : lifecycleOperation) : Life bool :=
  match fuel with
  | O => mret false
  | S fuel =>
      status ← lask (lr_archiveWorker rt o);
      status ← lift_result status;
      let state := match status with Some s => aw_State s | None => "" end in
      if state == "complete" then mret true
      else if state == "failed" then fail (ErrorsNew (match status with Some s => aw_Error s | None => "" end))
      else e ← lask (ce_tick ce); lift_error e;; interfere others;; watch_worker fuel o
  end.
Definition runSupervisedArchive (fuel : nat) (slug : string) (args : list string) : Life bool :=
  o ← gets (λ σ, lf_operations σ !! slug);
  match o with
  | Some o =>
      if (op_Kind o != "archive") || (op_ReceiptID o == "")
      then fail (ErrorsNew "archive has no durable operation receipt") else
      outcome ← lask (ce_systemd_run ce o args);
      match outcome with
      | command_failed _ output e => fail (commandFailure message "start archive worker" "" output e)
      | command_done => watch_worker fuel o
      end
  | None => fail (ErrorsNew "archive has no durable operation receipt")
  end.

(** The journal a command may continue: exactly the one its receipt expects. *)
Definition require_journal (kind : string) (options : lifecycleOperationOptions) (captured : lifecycleOperation)
    (progress : option LifecycleProgress) : Life unit :=
  if opt_JournalExpected options then
    same ← match progress with
           | None => mret false
           | Some p =>
               if (lp_Operation p != kind) || (lp_JournalID p == "") || (lp_JournalID p != opt_JournalID options)
               then mret false else lifecycleJournalEvidenceMatches rt message captured p
           end;
    if negb same then fail (ErrorsNew "The lifecycle operation changed. Reload the page before retrying it.") else mret tt
  else if bool_decide (progress ≠ None)
  then fail (ErrorsNew "Another lifecycle operation started. Reload the page before retrying it.") else mret tt.

Definition require_command_target (slug kind : string) (options : lifecycleOperationOptions) (owned : bool) : Life unit :=
  if kind == "delete"
  then require_target (resolveDeletionTarget slug owned (opt_TargetID options) (opt_DeletedThreadID options))
  else if negb owned then require_target (revalidateLifecycleTarget slug kind (opt_TargetID options))
  else mret tt.

(** [executeLifecycleOperation], without the caches it clears on success. *)
Definition executeLifecycleOperation (fuel : nat) (slug kind : string) (args : list string)
    (options : lifecycleOperationOptions) (captured : lifecycleOperation) : Life bool :=
  e ← lask (lr_transition rt);
  lift_error (match e with
              | Some e => Some (ErrWrap e ("lock workspace runtime for " +:+ kind +:+ ": " +:+ message e))
              | None => None
              end);;
  e ← lask (lr_profile rt); lift_error e;;
  progress ← lask (lr_Progress rt slug);
  progress ← wrap message ("verify " +:+ kind +:+ " operation identity") progress;
  require_journal kind options captured progress;;
  require_command_target slug kind options (bool_decide (progress ≠ None));;
  if (kind == "archive") && supervised then runSupervisedArchive fuel slug args else
  outcome ← lask (ce_run ce args);
  match outcome with
  | command_failed stdout stderr e => fail (commandFailure message (kind +:+ " session") stdout stderr e)
  | command_done => mret true
  end.

(** [runLifecycleOperation] *)
Definition runLifecycleOperation (fuel : nat) (slug kind : string) (args : list string)
    (options : lifecycleOperationOptions) (captured : lifecycleOperation) : Life bool :=
  prepared ← (if (kind == "archive") && (opt_Mode options == "archived") && negb (opt_JournalExpected options) then
                o ← gets (λ σ, lf_operations σ !! slug);
                runArchivePreparation rt ac workspace message others fuel (default no_operation o)
              else mret true);
  if negb prepared then mret false else executeLifecycleOperation fuel slug kind args options captured.

(** ** [runLifecycleJob] *)

(** The receipt of an ended command. *)
Definition ended_phase (started : lifecycleOperation) (p : option archivePreparation) : string :=
  match p with
  | Some p => if matches p started && (ap_State p == "failed")
              then if 0 <? ap_Round p then "lead_fixing_blockers" else "checking"
              else op_Phase started
  | None => op_Phase started
  end.
Definition ended_operation (started : lifecycleOperation) (e : option error) (p : option archivePreparation)
    (finished : string) : lifecycleOperation :=
  let o := started <| op_UpdatedAt := finished |> <| op_FinishedAt := finished |> in
  match e with
  | None => o <| op_State := "complete" |> <| op_Phase := "complete" |>
  | Some e =>
      let o := o <| op_State := "failed" |> <| op_Error := boundedLifecycleError (message e) |> <| op_Phase := ended_phase started p |> in
      if errors_Is e ErrTargetChanged then o <| op_ErrorCode := "target_changed" |> else o
  end.

(** A failed command may have left a journal: its evidence is adopted once. *)
Definition adopt_journal (slug kind : string) (started o : lifecycleOperation) : Life lifecycleOperation :=
  progress ← lask (lr_Progress rt slug);
  match progress with
  | Ok (Some p) =>
      if (lp_Operation p != kind) || (opt_JournalID (op_Options o) == "") || (opt_JournalID (op_Options o) != lp_JournalID p)
      then mret o else
      same ← lifecycleJournalEvidenceMatches rt message (o <| op_Phase := op_Phase started |>) p;
      if negb same then mret o
      else bindLifecycleJournalTarget rt message (applyProgressOptions (o <| op_Phase := lp_Phase p |>) p) p
  | _ => mret o
  end.

(** The section under [operationMu]: only this attempt's receipt is replaced. *)
Definition abandoned (o : lifecycleOperation) (p : option archivePreparation) (closing : bool) : bool :=
  match p with
  | Some p => matches p o && ((ap_State p == "canceled") || (closing && (ap_State p == "paused")))
  | None => false
  end.
Definition owns (o : lifecycleOperation) (current : option lifecycleOperation) : bool :=
  match current with
  | Some c => (op_ReceiptID c == op_ReceiptID o) && (op_Attempt c =? op_Attempt o)
  | None => false
  end.
Definition evidence_promoted (started o current : lifecycleOperation) : bool :=
  opt_JournalExpected (op_Options current) && (opt_JournalID (op_Options current) == opt_JournalID (op_Options o))
  && let expected := opt_JournalEvidence (op_Options current) in
     (expected != "") && (expected != opt_JournalEvidence (op_Options o))
     && (negb (servicePreludePhase (op_Phase current)) || (expected != opt_JournalEvidence (op_Options started))).
Definition commit_end (slug : string) (started o : lifecycleOperation) (e : option error) (view : lifecycleOperation) : Life unit :=
  p ← archivePreparationFor slug;
  closing ← gets lf_closing;
  if abandoned o p closing then mret tt else
  current ← gets (λ σ, lf_operations σ !! slug);
  match current with
  | None => mret tt
  | Some c =>
      if negb (owns o current) then mret tt else
      if bool_decide (e ≠ None) && evidence_promoted started o c
      then fail (ErrorsNew "lifecycle journal immutable evidence changed") else
      replaceLifecycleOperationLocked rt workspace slug o;;
      now ← lask (lr_now rt);
      publishLifecycleSnapshot slug view now
  end.

(** A final status that could not be saved is kept in memory. *)
Definition unsaved_message : string :=
  "The command ended, but the portal could not save its final status. Check the session state and retry.".
Definition commit_unsaved (slug : string) (o : lifecycleOperation) (finished : string) : Life unit :=
  current ← gets (λ σ, lf_operations σ !! slug);
  match current with
  | None => mret tt
  | Some c =>
      if negb (owns o current) then mret tt else
      let o := c <| op_State := "failed" |> <| op_UpdatedAt := finished |> <| op_FinishedAt := finished |>
                 <| op_Error := unsaved_message |> in
      modify (λ σ, σ <| lf_operations ::= <[slug := o]> |> <| lf_revisions ::= bump slug |>);;
      publishLifecycleSnapshot slug o zero_time
  end.

Definition finish_job (started : lifecycleOperation) (e : option error) : Life unit :=
  let slug := op_Slug started in
  now ← lask (lr_now rt);
  p ← archivePreparationFor slug;
  let finished := rfc3339 now in
  let o := ended_operation started e p finished in
  r ← attempt (
    x ← lask (lr_transition rt); lift_error x;;
    x ← lask (lr_profile rt); lift_error x;;
    o ← (if bool_decide (e ≠ None) then adopt_journal slug (op_Kind started) started o else mret o);
    view ← lifecycleOperationView rt message slug o;
    interfere others;;
    commit_end slug started o e view);
  match r with
  | Ok _ => mret tt
  | Err _ => interfere others;; commit_unsaved slug o finished
  end.

(** [runLifecycleJob]: [Ok false] when the fuel ended before the command. *)
Definition runLifecycleJob (fuel : nat) (started : lifecycleOperation) (args : list string) : Life bool :=
  r ← attempt (runLifecycleOperation fuel (op_Slug started) (op_Kind started) args (op_Options started) started);
  match r with
  | Ok false => mret false
  | Ok true => finish_job started None;; mret true
  | Err e => finish_job started (Some e);; mret true
  end.

End Jobs.
