(* ===== verification/LifecycleRequests.v ===== *)
(** * Lifecycle requests

    The HTTP handlers of [web/server.go] that end in a lifecycle command, with their
    decoded bodies, and the receipt each mutation proves first. *)

From S2P Require Import Prelude Effects GoStrings GoTime RetryValidate Codex.
From S2P Require Import LifecycleTypes LifecycleOps LifecyclePropose ArchivePreparation LifecycleCommands LifecycleJobs.

Open Scope Z_scope.

(** The decoded bodies; [rt_Force] is a pointer in the source. *)
Record retry_body := mkRetry { rt_JournalID : string; rt_ReceiptID : string; rt_Force : option bool }.
Record delete_body := mkDelete { del_Force : bool; del_TargetID : string; del_ReceiptID : string }.
Record archive_body := mkArchive { arc_Mode : string; arc_TargetID : string; arc_ReceiptID : string }.
Record revive_body := mkRevive { rev_AllowAbandoned : bool; rev_TargetID : string; rev_ReceiptID : string }.

(** The command lines. *)
Definition command (kind slug : string) : list string := [kind; slug; "--as-is"; "--portal-authorized"].
Definition mode_args (mode : string) : list string :=
  if mode == "abandoned" then ["--abandoned"] else if mode == "complete" then ["--require-merged"] else [].
Definition operation_id (journalID : string) : list string := ["--portal-operation-id"; journalID].
Definition archive_mode (mode : string) : bool := one_of mode ["complete"; "abandoned"; "archived"].

Section Requests.
Context {CW : CodexWeb} {W : Type} (rt : LifeRuntime W) (ac : ArchiveClient W) (workspace : string)
        (supervised : bool) (message : error → string) (others : LifeSys W → LifeSys W).
Abbreviation Life := (SE (LifeSys W)).

Definition conflict (text : string) : response := resp_error 409 text.
Definition start := startLifecycleOperation rt ac workspace message others.
Definition changed_text : string := "The lifecycle operation changed. Reload the page before retrying it.".

(** A request begins only when no journal exists. *)
Definition unowned (slug : string) (k : string → string) (m : Life response) : Life response :=
  owner ← lask (lr_Owner rt slug);
  match owner with
  | Err e => mret (conflict (message e))
  | Ok owner => if owner != "" then mret (conflict (k owner)) else m
  end.
Definition in_progress (owner : string) : string := "Session " +:+ owner +:+ " is already in progress. Use the retry action.".

(** [validateLifecycleTarget] in a handler. *)
Definition with_target {A} (m : Life (checked A)) (k : A → Life response) : Life response :=
  t ← attempt m;
  match t with
  | Err e => mret (answer_error message e)
  | Ok (target_changed current) => write_changed rt current ""
  | Ok (target_ok a) => k a
  end.
Definition with_new_id (failure : string) (k : string → Life response) : Life response :=
  id ← lask (lr_newID rt);
  match id with Err _ => mret (resp_error 500 failure) | Ok id => k id end.

(** [startArchive] *)
Definition startArchive (s : Summary) (body : archive_body) : Life response :=
  unowned (sum_Slug s) in_progress (
    if negb (archive_mode (arc_Mode body)) then mret (resp_error 400 "invalid archival policy") else
    with_target (validateLifecycleTarget rt message s (arc_TargetID body) "archive") (λ target,
      if sum_Archived s then mret (conflict "session is already archived") else
      with_new_id "Unable to create an archive operation identity." (λ id,
        start (sum_Slug s) "archive" "/" (command "archive" (sum_Slug s) ++ mode_args (arc_Mode body) ++ operation_id id)
          (no_options <| opt_Mode := arc_Mode body |> <| opt_TargetID := target |> <| opt_JournalID := id |>)
          "" (arc_ReceiptID body)))).

(** [startRevive] *)
Definition startRevive (s : Summary) (body : revive_body) : Life response :=
  unowned (sum_Slug s) in_progress (
    with_target (validateLifecycleTarget rt message s (rev_TargetID body) "revive") (λ target,
      let abandoned := sum_Lifecycle s == "abandoned" in
      if negb (sum_Archived s) then mret (conflict "session is already active") else
      if abandoned && negb (rev_AllowAbandoned body)
      then mret (resp_error 400 "confirm that the abandoned session should be revived") else
      with_new_id "Unable to create a revive operation identity." (λ id,
        start (sum_Slug s) "revive" ("/" +:+ sum_Slug s +:+ "/")
          (command "revive" (sum_Slug s) ++ (if abandoned then ["--allow-abandoned"] else []) ++ operation_id id)
          (no_options <| opt_AllowAbandoned := rev_AllowAbandoned body || abandoned |>
                      <| opt_TargetID := target |> <| opt_JournalID := id |>)
          "" (rev_ReceiptID body)))).

(** [deleteSession] *)
Definition delete_owner (owner : string) : string :=
  if owner != "delete" then "session " +:+ owner +:+ " is unfinished; retry that operation first"
  else "Deletion is already in progress. Use the retry action.".
Definition deleteSession (slug : string) (body : delete_body) : Life response :=
  unowned slug delete_owner (
    with_target (resolveDeletionTarget rt message slug false (del_TargetID body) "") (λ target,
      with_new_id "Unable to create a deletion operation identity." (λ id,
        start slug "delete" "/"
          (command "delete" slug ++ (if del_Force body then ["--force"] else []) ++ operation_id id)
          (no_options <| opt_Force := del_Force body |> <| opt_TargetID := target.1 |>
                      <| opt_DeletedThreadID := target.2 |> <| opt_JournalID := id |>)
          "" (del_ReceiptID body)))).

(** [lifecycleOperationForSlug]: fresh proof before a mutation; [None] when [fuel]
    comparisons were lost. *)
Definition lifecycleOperationForSlug (fuel : nat) (slug : string) : Life (option (option lifecycleOperation * option error)) :=
  '(original, rev) ← captureLifecycleOperation slug;
  e ← lask (lr_transition rt);
  match e with Some e => mret (Some (original, Some e)) | None =>
  e ← lask (lr_profile rt);
  match e with
  | Some e => mret (Some (original, Some e))
  | None => reconcileLifecycleOperation rt workspace supervised message fuel others slug original rev
  end end.

(** [retryLifecycleOperation] *)
Definition retry_command (o : lifecycleOperation) : option (list string) :=
  let opts := op_Options o in
  if op_Kind o == "archive" then if archive_mode (opt_Mode opts) then Some (mode_args (opt_Mode opts)) else None
  else if op_Kind o == "delete" then Some (if opt_Force opts then ["--force"] else [])
  else if op_Kind o == "revive" then Some (if opt_AllowAbandoned opts then ["--allow-abandoned"] else [])
  else None.
Definition retry_mismatch (o : lifecycleOperation) (body : retry_body) (progress : option LifecycleProgress) : option response :=
  if (rt_JournalID body == "") || (rt_JournalID body != opt_JournalID (op_Options o)) then Some (conflict changed_text)
  else if bool_decide (rt_Force body ≠ None) && (op_Kind o != "delete")
  then Some (resp_error 400 "Force is available only when retrying deletion.")
  else match progress with
       | Some p => if (lp_Operation p != op_Kind o) || (rt_JournalID body != lp_JournalID p) then Some (conflict changed_text) else None
       | None => if opt_JournalExpected (op_Options o)
                 then Some (conflict "The lifecycle recovery journal is no longer available. Reload the workspace before retrying.")
                 else None
       end.
Definition invalid_retry (o : lifecycleOperation) : response :=
  conflict (if op_Kind o == "archive" then "archive retry mode is unavailable" else "lifecycle operation is invalid").
Definition retry_start (slug : string) (o : lifecycleOperation) (body : retry_body) : Life response :=
  let o := if (op_Kind o == "delete") && default false (rt_Force body)
           then o <| op_Options ::= λ opts, opts <| opt_Force := true |> |> else o in
  match retry_command o with
  | None => mret (invalid_retry o)
  | Some args =>
      start slug (op_Kind o) (op_Redirect o) (command (op_Kind o) slug ++ args ++ operation_id (opt_JournalID (op_Options o)))
        (op_Options o) (op_ReceiptID o) ""
  end.
Definition retry_owned (slug : string) (o : lifecycleOperation) (body : retry_body) : Life response :=
  owner ← lask (lr_Owner rt slug);
  match owner with
  | Err e => mret (conflict (message e))
  | Ok owner =>
      if (owner != "") && (owner != op_Kind o)
      then mret (conflict ("session " +:+ owner +:+ " is unfinished; retry that operation first")) else
      progress ← lask (lr_Progress rt slug);
      match progress with
      | Err e => mret (conflict (message e))
      | Ok progress =>
          match retry_mismatch o body progress with
          | Some r => mret r
          | None => retry_start slug o body
          end
      end
  end.
Definition retryLifecycleOperation (fuel : nat) (slug : string) (body : retry_body) : Life (option response) :=
  proof ← lifecycleOperationForSlug fuel slug;
  match proof with
  | None => mret None
  | Some (_, Some e) => mret (Some (conflict (message e)))
  | Some (None, None) => mret (Some (resp_error 404 "lifecycle operation is not available"))
  | Some (Some o, None) =>
      if (op_State o != "failed") && (op_State o != "paused")
      then mret (Some (conflict "lifecycle operation is not retryable")) else
      if (rt_ReceiptID body == "") || (op_ReceiptID o == "") || (rt_ReceiptID body != op_ReceiptID o)
      then mret (Some (conflict changed_text)) else
      interfere others;;
      r ← retry_owned slug o body;
      mret (Some r)
  end.

(** [dismissLifecycleOperation] *)
Definition not_dismissable : response := conflict "running or paused lifecycle operations cannot be dismissed".
Definition finished (o : lifecycleOperation) : bool := (op_State o == "failed") || (op_State o == "complete").
Definition dismiss_locked (slug receiptID : string) : Life response :=
  current ← gets (λ σ, lf_operations σ !! slug);
  match current with
  | None => mret (conflict "The lifecycle operation changed. Reload the page before dismissing it.")
  | Some c =>
      if (receiptID == "") || (op_ReceiptID c == "") || (receiptID != op_ReceiptID c)
      then mret (conflict "The lifecycle operation changed. Reload the page before dismissing it.") else
      if negb (finished c) then mret not_dismissable else
      r ← attempt (removeLifecycleOperationLocked rt workspace slug);
      mret (match r with Err _ => resp_error 500 "unable to dismiss the lifecycle operation" | Ok _ => resp_none 204 end)
  end.
Definition dismissLifecycleOperation (fuel : nat) (slug receiptID : string) : Life (option response) :=
  proof ← lifecycleOperationForSlug fuel slug;
  match proof with
  | None => mret None
  | Some (None, Some e) => mret (Some (conflict (message e)))
  | Some (None, None) => mret (Some (resp_none 204))
  | Some (Some o, _) =>
      if negb (finished o) then mret (Some not_dismissable) else
      interfere others;;
      r ← dismiss_locked slug receiptID;
      mret (Some r)
  end.

(** ** Refreshing what is shown *)

(** The running-only pass of [refreshDisplaySnapshots] over its captured receipts, in
    the order the map gives them. *)
Definition refresh_one (slug : string) (original : lifecycleOperation) (rev : Z) : Life unit :=
  e ← lask (lr_context rt); lift_error e;;
  progress ← lask (lr_Progress rt slug);
  now ← lask (lr_now rt);
  '(o, e) ← proposeLifecycleOperation rt supervised message slug (Some original) progress now;
  lift_error e;;
  interfere others;;
  acceptLifecycleReconciliation rt workspace slug (Some original) rev o (default no_operation o);;
  mret tt.
Fixpoint refresh_all (captured : list (string * (lifecycleOperation * Z))) : Life unit :=
  match captured with
  | [] => mret tt
  | (slug, (o, rev)) :: captured => refresh_one slug o rev;; refresh_all captured
  end.

Definition running_receipts (σ : LifeSys W) : list (string * (lifecycleOperation * Z)) :=
  map (λ kv, (kv.1, (kv.2, revision kv.1 σ))) (List.filter (λ kv, op_State kv.2 == "running") (map_to_list (lf_operations σ))).
Definition refreshRunning : Life unit :=
  captured ← gets running_receipts;
  e ← lask (lr_transition rt); lift_error e;;
  e ← lask (lr_profile rt); lift_error e;;
  interfere others;;
  refresh_all captured.

(** [lifecycleOperations]: newest first, then by slug. *)
Definition newer (a b : lifecycleOperation) : bool :=
  if op_UpdatedAt a != op_UpdatedAt b then String.ltb (op_UpdatedAt b) (op_UpdatedAt a) else String.leb (op_Slug a) (op_Slug b).
Definition insert_newest (o : lifecycleOperation) : list lifecycleOperation → list lifecycleOperation :=
  fix ins l := match l with [] => [o] | p :: l' => if newer o p then o :: l else p :: ins l' end.
Definition lifecycleOperations (σ : LifeSys W) : list lifecycleOperation :=
  foldr insert_newest [] (map (λ kv, snp_operation kv.2) (map_to_list (lf_snapshots σ))).

End Requests.
