(* ===== verification/LifecycleCommandFacts.v ===== *)
(** * Lifecycle commands: theorems *)

From S2P Require Import Prelude Effects GoStrings GoTime GoTimeParse RetryValidate RetrySys Codex.
From S2P Require Import LifecycleTypes LifecycleOps LifecycleStoreFacts LifecyclePropose LifecycleFacts ArchivePreparation LifecycleCommands LifecycleJobs LifecycleRequests.

Open Scope Z_scope.

Section Facts.
Context {CW : CodexWeb} {W : Type} (rt : LifeRuntime W) (ac : ArchiveClient W) (ce : CommandRuntime W) (workspace : string)
        (supervised : bool) (message : error → string) (others : LifeSys W → LifeSys W).

(** A step that only reads keeps whatever does not depend on the world. *)
Lemma wp_reads {A} (m : SE (LifeSys W) A) (P : LifeSys W → Prop) σ :
  rel_steps reads m → (∀ σ w, P σ → P (σ <| lf_world := w |>)) → P σ → wp m (λ σ' _, P σ') σ.
Proof. intros Hm Hw HP. unfold wp. rewrite (Hm σ). by apply Hw. Qed.

(** ** Success *)

(** A command is only taken to have succeeded on positive proof: for an archive
    or a revive the session is found with the identity its receipt confirmed (or the
    identity bound with its journal, for receipts of the first version) in the state the
    command leaves; for a deletion the session is gone and its removal completed for this journal
    since the receipt's start. *)
Theorem success_is_proved slug o σ :
  (lifecycleOperationSucceeded rt message slug o σ).2 = Ok true →
  (op_Kind o = "delete" ∧ (∃ e, (lr_Find rt slug (lf_world σ)).2 = Err e ∧ errors_Is e ErrNotExist = true) ∧
     ∃ startedAt w, parse_rfc3339 (op_StartedAt o) = Some startedAt ∧
       (lr_CompletedRemoval rt slug (opt_JournalID (op_Options o)) startedAt w).2 = Ok true) ∨
  (op_Kind o = "archive" ∨ op_Kind o = "revive") ∧
  ∃ s target location σ1, (lr_Find rt slug (lf_world σ)).2 = Ok s ∧ completion_target o = Some (target, location) ∧
     (lifecycleTargetIdentityAt rt message s location σ1).2 = Ok target ∧ reached o s = Ok true.
Proof.
  unfold lifecycleOperationSucceeded, Find, lask, mbind, SE_bind, attempt, lift_result.
  destruct (lr_Find rt slug (lf_world σ)) as [w r]. cbn [snd fst]. destruct r as [s|e].
  - destruct (op_Kind o != "delete") eqn:Ek.
    2: { intros Hr. exfalso. revert Hr. unfold reached. apply negb_false_iff, bool_decide_eq_true_1 in Ek. by rewrite Ek. }
    apply negb_true_iff, bool_decide_eq_false_1 in Ek.
    destruct (completion_target o) as [[target location]|] eqn:Et; [|done].
    destruct (lifecycleTargetIdentityAt rt message s location (σ <| lf_world := w |>)) as [σ1 [actual|e]] eqn:Ei; [|done].
    destruct (actual != target) eqn:Ea; [done|]. apply negb_false_iff, bool_decide_eq_true_1 in Ea. subst actual. cbn. intros Hr.
    right. split.
    + revert Hr. unfold reached. destruct (op_Kind o == "archive") eqn:E1; [left; by apply bool_decide_eq_true_1 in E1|].
      destruct (op_Kind o == "revive") eqn:E2; [right; by apply bool_decide_eq_true_1 in E2|].
      by rewrite (bool_decide_eq_false_2 (op_Kind o = "delete")).
    + exists s, target, location, (σ <| lf_world := w |>). by rewrite Ei.
  - destruct (errors_Is e ErrNotExist) eqn:Ee; [|done]. cbn. destruct (op_Kind o != "delete") eqn:Ek; [done|].
    apply negb_false_iff, bool_decide_eq_true_1 in Ek. destruct (parse_rfc3339 (op_StartedAt o)) as [startedAt|]; [|done].
    destruct (lr_CompletedRemoval rt slug (opt_JournalID (op_Options o)) startedAt w) as [w' r] eqn:Ec. intros Hr.
    change (lf_world (σ <| lf_world := w |>)) with w in Hr. rewrite Ec in Hr. cbn in Hr. subst r. left. split; [done|]. split; [eauto|]. exists startedAt, w. by rewrite Ec.
Qed.

(** ** A stale executor *)

Definition same_attempt (o o' : lifecycleOperation) : Prop :=
  op_ReceiptID o' = op_ReceiptID o ∧ op_Attempt o' = op_Attempt o.
Lemma same_attempt_owns o o' c : same_attempt o o' → owns o' c = owns o c.
Proof. intros [H1 H2]. unfold owns. destruct c; [|done]. by rewrite H1, H2. Qed.

Lemma ended_attempt started e p finished : same_attempt started (ended_operation message started e p finished).
Proof. unfold ended_operation. destruct e as [e|]; [|done]. cbv zeta. by case_match. Qed.
Lemma apply_attempt o p : same_attempt o (applyProgressOptions o p).
Proof. done. Qed.
Lemma adopt_attempt slug kind started o σ :
  wp (adopt_journal rt message slug kind started o) (λ _ r, ∀ o', r = Ok o' → same_attempt o o') σ.
Proof.
  unfold adopt_journal. apply wp_bind, wp_lask. intros w progress.
  destruct progress as [[p|]|e]; try (apply wp_ret; by intros o' [= <-]).
  match goal with |- context [if ?b then _ else _] => destruct b end; [apply wp_ret; by intros o' [= <-]|].
  apply wp_bind. apply (wp_mono _ (λ _ _, True)); [done|]. intros σ1 [[]|e] _; cbn [negb]; [|apply wp_ret; by intros o' [= <-]|done].
  eapply wp_mono; [apply bind_bound|]. intros σ2 r (o1 & -> & id & location & [-> | ->]) o' [= <-]; done.
Qed.
Lemma reads_adopt slug kind started o : rel_steps reads (adopt_journal rt message slug kind started o).
Proof. unfold adopt_journal. procs. Qed.

Lemma wp_both {A} (m : SE (LifeSys W) A) (P : LifeSys W → Prop) (Q : result A → Prop) σ :
  wp m (λ σ' _, P σ') σ → wp m (λ _ r, Q r) σ → wp m (λ σ' r, P σ' ∧ Q r) σ.
Proof. by split. Qed.

Lemma other_attempt started c :
  op_ReceiptID c ≠ op_ReceiptID started ∨ op_Attempt c ≠ op_Attempt started → owns started (Some c) = false.
Proof.
  unfold owns. intros [H|H]; [by rewrite (bool_decide_eq_false_2 _ H)|]. apply andb_false_iff. right. by apply Z.eqb_neq.
Qed.
(** C35: an executor that ends late, after its receipt was dismissed and replaced - another receipt
    has its slug - or retried - the same receipt has another attempt -, leaves the newer receipt
    exactly as it is, whatever the command's outcome and whether or not anything can be saved. *)
Theorem stale_executor_harmless started e c σ :
  op_ReceiptID c ≠ op_ReceiptID started ∨ op_Attempt c ≠ op_Attempt started →
  (∀ σ, lf_operations σ !! op_Slug started = Some c → lf_operations (others σ) !! op_Slug started = Some c) →
  lf_operations σ !! op_Slug started = Some c →
  lf_operations (finish_job rt workspace message others started e σ).1 !! op_Slug started = Some c.
Proof.
  intros Hown%other_attempt Hothers Hc. set (P := λ σ : LifeSys W, lf_operations σ !! op_Slug started = Some c).
  assert (∀ σ w, P σ → P (σ <| lf_world := w |>)) as HP by done.
  change (wp (finish_job rt workspace message others started e) (λ σ' _, P σ') σ). unfold finish_job.
  apply wp_bind, wp_lask. intros w0 now. apply wp_bind, wp_gets. cbv zeta. set (o := ended_operation _ _ _ _ _).
  assert (same_attempt started o) as Ho by apply ended_attempt.
  apply wp_bind, wp_attempt. apply (wp_mono _ (λ σ' _, P σ')).
  - apply wp_bind, wp_lask. intros w1 x. apply wp_bind, wp_lift_error. destruct x; [done|].
    apply wp_bind, wp_lask. intros w2 x. apply wp_bind, wp_lift_error. destruct x; [done|].
    apply wp_bind. apply (wp_mono _ (λ σ' r, P σ' ∧ ∀ o', r = Ok o' → same_attempt o o')).
    { destruct (bool_decide (e ≠ None)); [|apply wp_ret; split; [done|by intros o' [= <-]]].
      apply wp_both; [apply wp_reads; [apply reads_adopt|done|done]|apply adopt_attempt]. }
    intros σ1 [o1|x] [H1 Ha]; [|done]. specialize (Ha o1 eq_refl).
    apply wp_bind. eapply wp_mono; [apply (wp_reads _ P); [apply reads_view|done|done]|]. intros σ2 [view|x] H2; [|done].
    apply wp_bind, wp_modify. unfold commit_end. apply wp_bind, wp_gets, wp_bind, wp_gets.
    destruct (abandoned _ _ _); [apply wp_ret; by apply Hothers|]. apply wp_bind, wp_gets. rewrite Hothers by done.
    rewrite (same_attempt_owns o o1), (same_attempt_owns started o), Hown by done. apply wp_ret. by apply Hothers.
  - intros σ1 [[]|x] H1; [by apply wp_ret|]. apply wp_bind, wp_modify. unfold commit_unsaved. apply wp_bind, wp_gets.
    rewrite Hothers by done. rewrite (same_attempt_owns started o), Hown by done. apply wp_ret. by apply Hothers.
Qed.

(** ** Starting *)

(** The options a retry keeps.  Without a journal it keeps all of them but the place of the
    session, and the target of a receipt of the first version; a journal, which must be the receipt's own,
    has the mode of an archive and the force of a deletion, and becomes expected. *)
Definition kept_options (kind : string) (version : Z) (progress : option LifecycleProgress) (before after : lifecycleOperationOptions) : Prop :=
  opt_AllowAbandoned after = opt_AllowAbandoned before ∧ opt_DeletedThreadID after = opt_DeletedThreadID before ∧
  opt_JournalID after = opt_JournalID before ∧ opt_JournalTargetID after = opt_JournalTargetID before ∧
  opt_JournalTargetLocation after = opt_JournalTargetLocation before ∧
  match progress with
  | None => opt_Mode after = opt_Mode before ∧ opt_Force after = opt_Force before ∧ opt_JournalExpected before = false ∧
      opt_JournalExpected after = false ∧ opt_JournalEvidence after = opt_JournalEvidence before ∧
      (version ≠ 0 → opt_TargetID after = opt_TargetID before)
  | Some p => lp_Operation p = kind ∧ lp_JournalID p = opt_JournalID before ∧
      opt_Mode after = (if kind == "archive" then lp_Mode p else opt_Mode before) ∧
      opt_Force after = (if kind == "delete" then lp_Force p else opt_Force before) ∧
      opt_JournalExpected after = true ∧ opt_JournalEvidence after = lp_Evidence p ∧
      opt_TargetID after = opt_TargetID before ∧ opt_TargetLocation after = opt_TargetLocation before
  end.
(** Asking for force again adds it. *)
Definition with_force (force : bool) (o : lifecycleOperationOptions) : lifecycleOperationOptions := o <| opt_Force ::= λ stored, stored || force |>.

(** What a retry may prepare is the receipt it was asked for. *)
Definition retried (progress : option LifecycleProgress) (o o1 : lifecycleOperation) : Prop :=
  op_ReceiptID o1 = op_ReceiptID o ∧ op_Attempt o1 = op_Attempt o ∧ op_StartedAt o1 = op_StartedAt o ∧
  op_Kind o1 = op_Kind o ∧ kept_options (op_Kind o) (op_TargetIdentityVersion o) progress (op_Options o) (op_Options o1).
Lemma prepare_retry_spec o progress σ :
  wp (prepareLifecycleRetry rt message o progress) (λ _ r, ∀ o1, r = Ok (target_ok o1) → retried progress o o1) σ.
Proof.
  unfold prepareLifecycleRetry. destruct progress as [p|].
  - apply wp_bind. destruct ((lp_Operation p != op_Kind o) || (lp_JournalID p != opt_JournalID (op_Options o))) eqn:E; [done|].
    apply orb_false_elim in E as [E1 E2]. apply negb_false_iff, bool_decide_eq_true_1 in E1, E2.
    apply (wp_mono _ (λ _ _, True)); [done|]. intros σ1 [[]|e] _; [|done|done]. apply wp_ret. intros o1 [= <-].
    unfold retried, kept_options, applyProgressOptions. cbn. rewrite <- E1. destruct (lp_Operation p == "archive") eqn:Ea.
    + apply bool_decide_eq_true_1 in Ea. rewrite Ea. cbn. split_and!; done.
    + destruct (lp_Operation p == "delete"); cbn; split_and!; done.
  - destruct (opt_JournalExpected (op_Options o)) eqn:Ee; [done|]. apply wp_bind. apply (wp_mono _ (λ _ _, True)); [done|].
    intros σ1 [s|e] _; [|done]. apply wp_bind. apply (wp_mono _ (λ _ _, True)); [done|].
    intros σ2 [[current|t]|e] _; [|by apply wp_ret|done]. cbv zeta.
    destruct (op_TargetIdentityVersion o =? 0) eqn:Ev; (case_match; [done|]); apply wp_ret; intros o1 [= <-];
      unfold retried, kept_options; cbn; split_and!; try done; by intros Hne%Z.eqb_neq; rewrite Hne in Ev.
Qed.

(** The receipt a new one replaces, for a retry of [expected] and for a new request. *)
Definition retries (slug kind expected : string) (options : lifecycleOperationOptions) (p o : lifecycleOperation) : Prop :=
  op_ReceiptID p = expected ∧ op_Kind p = kind ∧ (op_State p = "failed" ∨ op_State p = "paused") ∧
  opt_JournalID (op_Options p) = opt_JournalID options ∧ opt_Mode (op_Options p) = opt_Mode options ∧
  op_ReceiptID o = expected ∧ op_StartedAt o = op_StartedAt p ∧ op_Attempt o = i64 (op_Attempt p + 1) ∧
  ∃ w progress kept, (lr_Progress rt slug w).2 = Ok progress ∧ op_Options o = with_force (opt_Force options) kept ∧
    kept_options kind (op_TargetIdentityVersion p) progress (op_Options p) kept.
Definition supersedes (options : lifecycleOperationOptions) (supersede : string) (previous : option lifecycleOperation) (o : lifecycleOperation) : Prop :=
  op_Attempt o = 1 ∧ (∃ root, op_Options o = options <| opt_TargetLocation := root |>) ∧
  match previous with
  | None => supersede = ""
  | Some p => (supersede = "" ∧ op_State p = "complete") ∨
              (supersede ≠ "" ∧ op_ReceiptID p = supersede ∧ op_State p = "failed" ∧ opt_JournalExpected (op_Options p) = false)
  end.
Definition replaces (slug kind : string) (options : lifecycleOperationOptions) (expected supersede : string)
    (previous : option lifecycleOperation) (o : lifecycleOperation) : Prop :=
  op_Slug o = slug ∧ op_Kind o = kind ∧ op_State o = "running" ∧
  if expected == "" then supersedes options supersede previous o
  else ∃ p, previous = Some p ∧ retries slug kind expected options p o.

(** What [start_entry] lets through. *)
Lemma start_entry_captured slug kind options expected supersede (σ : LifeSys W) captured :
  start_entry slug kind options expected supersede σ = inr captured →
  captured = (lf_operations σ !! slug, revision slug σ) ∧
  retry_refused kind options expected captured.1 = false ∧ supersede_refused expected supersede captured.1 = false.
Proof.
  unfold start_entry. destruct (lf_closing σ); [done|].
  destruct (retry_refused kind options expected (lf_operations σ !! slug)) eqn:E1; [done|].
  destruct (supersede_refused expected supersede (lf_operations σ !! slug)) eqn:E2; [done|].
  destruct (lf_operations σ !! slug) as [o|] eqn:E; [destruct (op_State o == "running"); [done|]|]; intros [= <-]; auto.
Qed.

Lemma retry_allowed kind options expected p :
  expected ≠ "" → retry_refused kind options expected (Some p) = false →
  op_ReceiptID p = expected ∧ op_Kind p = kind ∧ (op_State p = "failed" ∨ op_State p = "paused") ∧
  opt_JournalID (op_Options p) = opt_JournalID options ∧ opt_Mode (op_Options p) = opt_Mode options.
Proof.
  intros Hne. unfold retry_refused. rewrite (bool_decide_eq_false_2 _ Hne). cbn [negb andb].
  intros H. repeat apply orb_false_elim in H as [H ?].
  repeat match goal with E : negb (bool_decide _) = false |- _ => apply negb_false_iff, bool_decide_eq_true_1 in E end.
  split_and!; try done. destruct (decide (op_State p = "failed")); [by left|]. right.
  destruct (decide (op_State p = "paused")); [done|]. exfalso.
  by repeat match goal with E : _ && _ = false |- _ => rewrite !bool_decide_eq_false_2 in E by done; cbn in E end.
Qed.
Lemma new_allowed previous progress supersede :
  supersede_refused "" supersede previous = false → new_refusal previous progress supersede = None →
  match previous with
  | None => supersede = ""
  | Some p => (supersede = "" ∧ op_State p = "complete") ∨
              (supersede ≠ "" ∧ op_ReceiptID p = supersede ∧ op_State p = "failed" ∧ opt_JournalExpected (op_Options p) = false)
  end ∧ progress = None.
Proof.
  unfold supersede_refused, new_refusal. cbn [bool_decide andb].
  destruct (bool_decide (progress ≠ None)) eqn:Ep; [done|]. apply bool_decide_eq_false_1, dec_stable in Ep. cbn [orb].
  intros H1 H2. split; [|done]. destruct previous as [p|].
  - match type of H2 with (if ?b then _ else _) = _ => destruct b eqn:Ej; [done|] end.
    destruct (supersede != "") eqn:Es; cbn in H1.
    + right. apply negb_true_iff, bool_decide_eq_false_1 in Es. split; [done|].
      apply orb_false_elim in H1 as [H1 H3]. apply orb_false_elim in H1 as [H1 H4].
      by apply negb_false_iff, bool_decide_eq_true_1 in H1, H4.
    + left. apply negb_false_iff, bool_decide_eq_true_1 in Es. split; [done|].
      destruct (op_State p != "complete") eqn:Ec; [done|]. by apply negb_false_iff, bool_decide_eq_true_1 in Ec.
  - destruct (supersede != "") eqn:Es; [done|]. by apply negb_false_iff, bool_decide_eq_true_1 in Es.
Qed.

(** A proof that succeeds fixes what the new receipt replaces. *)
Definition proved_start (slug kind : string) (options : lifecycleOperationOptions) (expected supersede : string)
    (captured : option lifecycleOperation) (options' : lifecycleOperationOptions) (previous : option lifecycleOperation) : Prop :=
  if expected == "" then
    previous = None ∧ (∃ w, (lr_Progress rt slug w).2 = Ok None) ∧ (∃ root, options' = options <| opt_TargetLocation := root |>) ∧
    match captured with
    | None => supersede = ""
    | Some p => (supersede = "" ∧ op_State p = "complete") ∨
                (supersede ≠ "" ∧ op_ReceiptID p = supersede ∧ op_State p = "failed" ∧ opt_JournalExpected (op_Options p) = false)
    end
  else ∃ p o1 w progress, captured = Some p ∧ previous = Some o1 ∧ (lr_Progress rt slug w).2 = Ok progress ∧ retried progress p o1 ∧
    options' = with_force (opt_Force options) (op_Options o1) ∧ op_ReceiptID p = expected ∧ op_Kind p = kind ∧ (op_State p = "failed" ∨ op_State p = "paused") ∧
    opt_JournalID (op_Options p) = opt_JournalID options ∧ opt_Mode (op_Options p) = opt_Mode options.

Lemma prove_start_spec slug kind args options expected supersede captured w σ :
  retry_refused kind options expected captured = false → supersede_refused expected supersede captured = false →
  wp (prove_start rt message slug kind args options expected supersede captured (lr_Progress rt slug w).2) (λ _ r,
    ∀ options' args' previous, r = Ok (proved options' args' previous) →
      proved_start slug kind options expected supersede captured options' previous) σ.
Proof.
  intros H1 H2. unfold prove_start. destruct ((lr_Progress rt slug w).2) as [progress|e] eqn:Ew; [|by apply wp_ret].
  unfold proved_start. destruct (expected != "") eqn:Ee.
  - apply negb_true_iff, bool_decide_eq_false_1 in Ee. rewrite (bool_decide_eq_false_2 _ Ee).
    destruct captured as [p|]; [|by apply wp_ret]. unfold prove_retry. apply wp_bind, wp_attempt.
    eapply wp_mono; [apply prepare_retry_spec|]. intros σ1 r Hr. apply wp_ret. intros options' args' previous.
    destruct r as [[o1|t]|e]; [|done|done]. specialize (Hr o1 eq_refl). intros [= <- <- <-].
    exists p, o1, w, progress. apply retry_allowed in H1; [|done]. split_and!; try tauto; done.
  - apply negb_false_iff, bool_decide_eq_true_1 in Ee. subst expected. rewrite bool_decide_eq_true_2 by done.
    unfold prove_new. destruct (new_refusal captured progress supersede) eqn:En; [by apply wp_ret|].
    apply new_allowed in En as [Hn ->]; [|done]. apply wp_bind. apply (wp_mono _ (λ _ _, True)); [done|].
    intros σ1 [r|e] _; [|done]. apply wp_ret. intros options' args' previous.
    destruct r as [[s [id|t]]|e]; [|done|done]. intros [= <- <- <-]. split_and!; eauto.
Qed.

Lemma accepted_replaces slug kind redirect options expected supersede captured options' previous id now progress :
  proved_start slug kind options expected supersede captured options' previous →
  (∀ p, previous = Some p → id = op_ReceiptID p) →
  replaces slug kind options expected supersede captured (accepted_operation slug kind redirect options' previous id now progress).
Proof.
  intros Hp Hid. unfold replaces, accepted_operation, proved_start in *. cbn.
  destruct (expected == ""); (split; [done|split; [done|split; [done|]]]).
  - destruct Hp as (-> & _ & Hroot & Hc). by split_and!.
  - destruct Hp as (p & o1 & w & journal & -> & -> & Hw & (R1 & R2 & R3 & R4 & R5) & -> & G1 & G2 & G3 & G4 & G5).
    exists p. split; [done|]. unfold retries. cbn. rewrite (Hid o1) by done. rewrite R1, R2, R3. rewrite G2 in R5.
    split_and!; try done. by exists w, journal, (op_Options o1).
Qed.

(** Writing the sidecar neither starts anything nor touches the receipts. *)
Definition keeps (σ σ' : LifeSys W) : Prop := lf_operations σ' = lf_operations σ ∧ lf_trace σ' = lf_trace σ.
#[local] Instance keeps_preorder : PreOrder keeps.
Proof. unfold keeps. split; [done|]. intros ? ? ? [] []. split; congruence. Qed.
Lemma reads_keeps {A} (m : SE (LifeSys W) A) : rel_steps reads m → rel_steps keeps m.
Proof. intros H σ. unfold keeps. by rewrite (H σ). Qed.
Lemma keeps_save p : rel_steps keeps (saveArchivePreparationLocked rt ac p).
Proof.
  unfold saveArchivePreparationLocked. apply rel_bind; [apply _|apply reads_keeps; auto with proc|]. intros e.
  apply rel_bind; [apply _|auto with proc|]. intros _. destruct (Preparation_json p); [|auto with proc].
  destruct (maxPreparationBytes <? _); [auto with proc|]. apply rel_bind; [apply _|apply reads_keeps; auto with proc|].
  intros []; [auto with proc..|]. by apply rel_modify.
Qed.
Lemma keeps_begin o : rel_steps keeps (beginArchivePreparation rt ac workspace o).
Proof.
  unfold beginArchivePreparation. destruct (negb (prepares o)); [auto with proc|].
  apply rel_bind; [apply _|apply reads_keeps; auto with proc|]. intros s. cbv zeta.
  apply rel_bind; [apply _|apply reads_keeps; unfold archivePreparationFor; auto with proc|]. intros previous. apply keeps_save.
Qed.
Lemma keeps_write_changed current id : rel_steps keeps (write_changed rt current id).
Proof.
  unfold write_changed. apply rel_bind; [apply _| |auto with proc].
  destruct current as [target|]; [|auto with proc]. destruct (id != ""); [|auto with proc].
  apply rel_bind; [apply _|auto with proc|]. intros [s|]; [|auto with proc]. cbv zeta. case_match; [|auto with proc].
  apply rel_bind; [apply _|apply reads_keeps; auto with proc|]. intros a.
  apply rel_bind; [apply _|apply reads_keeps; auto with proc|]. intros now. by apply rel_modify.
Qed.

(** What an accepted request leaves. *)
Definition accepted (slug kind : string) (options : lifecycleOperationOptions) (expected supersede : string)
    (trace : list life_event) (σ' : LifeSys W) (r : result response) : Prop :=
  ∃ o args m, r = Ok (resp_operation 202 o) ∧ lf_trace σ' = trace ++ [le_start o args] ∧
    lf_operations σ' = <[slug := o]> m ∧ replaces slug kind options expected supersede (m !! slug) o ∧ saved workspace σ' ∧
    (expected = "" → ∃ w, (lr_Progress rt slug w).2 = Ok None).

Lemma commit_start_spec slug kind options expected supersede captured o args σ :
  replaces slug kind options expected supersede captured.1 o → (expected = "" → ∃ w, (lr_Progress rt slug w).2 = Ok None) →
  wp (commit_start rt ac workspace message slug captured o args) (λ σ' r,
    lf_trace σ' = lf_trace σ ∨ accepted slug kind options expected supersede (lf_trace σ) σ' r) σ.
Proof.
  intros Hr Hj. unfold commit_start. apply wp_bind, wp_gets. destruct (lf_closing σ); [by apply wp_ret; left|].
  apply wp_bind, wp_gets. destruct (unchanged slug captured.1 captured.2 σ) eqn:Hu; cbn [negb]; [|by apply wp_ret; left].
  unfold unchanged in Hu. apply andb_prop in Hu as [Hu _]. apply bool_decide_eq_true_1 in Hu.
  apply wp_bind, wp_lask. intros w now. apply wp_bind, wp_gets. destruct (canPersistTerminalOutcomes _ _ _ _ _); [by apply wp_ret; left|].
  apply wp_bind, wp_attempt. eapply wp_mono; [apply (rel_wp keeps), keeps_begin|]. intros σ1 r1 [Hm1 Ht1]. cbn in Hm1, Ht1.
  destruct r1 as [[]|e]; [|by apply wp_ret; left].
  apply wp_bind, wp_attempt. eapply wp_mono; [apply receipt_replace_spec|]. intros σ2 [[]|e] H2.
  - destruct H2 as (Hm2 & (_ & _ & Ht2 & _) & Hs). apply wp_bind, wp_modify, wp_ret. right.
    exists o, args, (lf_operations σ1). cbn. split; [done|]. split; [by rewrite Ht2, Ht1|]. split; [done|].
    split; [by rewrite Hm1, Hu|by split].
  - apply wp_ret. left. unfold memory in H2. congruence.
Qed.

(** C32: a request starts a job only for a receipt that is durably saved in place of
    the one it may replace.  A new request replaces nothing, a completed receipt, or
    the failed receipt without journal it names, and only while no journal exists; it is
    the first attempt, with the options asked for.  A retry replaces the failed or paused receipt it names,
    keeps its identity, kind and start, is the next attempt, and keeps its options: all of them but the
    session's place (and the target of a receipt of the first version) while there is no journal, and
    the mode of an archive or the force of a deletion that its own journal records once there is one; force
    that is asked for is added.  In every other case nothing starts. *)
Theorem start_replaces_durably slug kind redirect args options expected supersede σ :
  (∀ σ, lf_trace (others σ) = lf_trace σ) →
  let '(σ', r) := startLifecycleOperation rt ac workspace message others slug kind redirect args options expected supersede σ in
  lf_trace σ' = lf_trace σ ∨ accepted slug kind options expected supersede (lf_trace σ) σ' r.
Proof.
  intros Hothers. cut (wp (startLifecycleOperation rt ac workspace message others slug kind redirect args options expected supersede)
    (λ σ' r, lf_trace σ' = lf_trace σ ∨ accepted slug kind options expected supersede (lf_trace σ) σ' r) σ).
  { unfold wp. by destruct (startLifecycleOperation _ _ _ _ _ _ _ _ _ _ _ _ σ). }
  unfold startLifecycleOperation. apply wp_bind, wp_gets. destruct (lf_closing σ); [by apply wp_ret; left|].
  apply wp_bind, wp_lask. intros w1 [e|]; [by apply wp_ret; left|]. apply wp_bind, wp_lask. intros w2 [e|]; [by apply wp_ret; left|].
  apply wp_bind, wp_lask. intros w3 [owner|e]; [|by apply wp_ret; left].
  destruct ((owner != "") && (owner != kind)); [by apply wp_ret; left|].
  apply wp_bind, wp_modify, wp_bind, wp_gets. destruct (start_entry _ _ _ _ _ _) as [r|captured] eqn:Ee.
  { apply wp_ret. left. by rewrite Hothers. }
  apply start_entry_captured in Ee as (_ & H1 & H2). apply wp_bind. unfold lask at 1, wp at 1.
  set (w := lf_world _). destruct (lr_Progress rt slug w) as [w4 progress] eqn:Ep. cbn [fst snd].
  assert (progress = (lr_Progress rt slug w).2) as Hw by (by rewrite Ep).
  match goal with |- wp _ _ ?s => set (σ2 := s); assert (lf_trace σ2 = lf_trace σ) as Ht by (cbn; by rewrite Hothers) end.
  clearbody σ2. apply wp_bind. apply (wp_mono _ (λ σ' r, reads σ2 σ' ∧ ∀ options' args' previous,
    r = Ok (proved options' args' previous) → proved_start slug kind options expected supersede captured.1 options' previous)).
  { apply wp_both; [|rewrite Hw; by apply prove_start_spec]. apply rel_wp. unfold prove_start, prove_retry, prove_new. procs. }
  intros σ3 r [Hr3 Hp]. assert (lf_trace σ3 = lf_trace σ) as Ht3 by (by rewrite Hr3).
  destruct r as [[options' args' previous|current|e]|e]; [|..|left; congruence].
  - specialize (Hp _ _ _ eq_refl). unfold start_proved. apply wp_bind, wp_lask. intros w5 now. apply wp_bind.
    apply (wp_mono _ (λ σ' r, lf_trace σ' = lf_trace σ ∧ ∀ id p, r = Ok (Ok id) → previous = Some p → id = op_ReceiptID p)).
    { destruct previous as [p|]; [apply wp_ret; split; [done|by intros ? ? [= <-] [= <-]]|]. by apply wp_lask. }
    intros σ4 [[id|e]|e] [Ht4 Hid]; [|by apply wp_ret; left|by left].
    apply wp_bind, wp_modify. rewrite <- Ht4, <- (Hothers σ4). apply commit_start_spec.
    + eapply accepted_replaces; [done|]. intros p. by apply Hid.
    + intros ->. by destruct Hp as (_ & Hj & _).
  - eapply wp_mono; [apply (rel_wp keeps), keeps_write_changed|]. intros σ4 r [_ Ht4]. left. congruence.
  - apply wp_ret. by left.
Qed.

(** ** Dismissing *)

(** Only a failed or complete receipt is dismissed, and only by naming it; its
    removal is durable, and a refused or failed dismissal changes nothing. *)
Theorem dismissed_only_finished slug receipt σ :
  let '(σ', r) := dismiss_locked rt workspace slug receipt σ in
  match r with
  | Ok (resp_none _) => ∃ o, lf_operations σ !! slug = Some o ∧ op_ReceiptID o = receipt ∧ receipt ≠ "" ∧
      (op_State o = "failed" ∨ op_State o = "complete") ∧ lf_operations σ' = delete slug (lf_operations σ) ∧
      lf_snapshots σ' = delete slug (lf_snapshots σ) ∧ saved workspace σ'
  | _ => memory σ' = memory σ
  end.
Proof.
  cut (wp (dismiss_locked rt workspace slug receipt) (λ σ' r, match r with
    | Ok (resp_none _) => ∃ o, lf_operations σ !! slug = Some o ∧ op_ReceiptID o = receipt ∧ receipt ≠ "" ∧
        (op_State o = "failed" ∨ op_State o = "complete") ∧ lf_operations σ' = delete slug (lf_operations σ) ∧
        lf_snapshots σ' = delete slug (lf_snapshots σ) ∧ saved workspace σ'
    | _ => memory σ' = memory σ end) σ).
  { unfold wp. by destruct (dismiss_locked rt workspace slug receipt σ). }
  unfold dismiss_locked. apply wp_bind, wp_gets. destruct (lf_operations σ !! slug) as [o|] eqn:Eo; [|by apply wp_ret].
  destruct ((receipt == "") || (op_ReceiptID o == "") || (receipt != op_ReceiptID o)) eqn:E; [by apply wp_ret|].
  apply orb_false_elim in E as [E E3]. apply orb_false_elim in E as [E1 E2].
  apply bool_decide_eq_false_1 in E1, E2. apply negb_false_iff, bool_decide_eq_true_1 in E3.
  destruct (finished o) eqn:Ef; [|by apply wp_ret]. cbn [negb]. apply wp_bind, wp_attempt.
  eapply wp_mono; [apply remove_spec|]. intros σ1 [[]|e] H; apply wp_ret; [|done].
  destruct H as (H1 & _ & _ & H2 & _). destruct H2 as (H3 & _ & H4); [by eexists|]. exists o. split_and!; try done.
  unfold finished in Ef. apply orb_prop in Ef as [Ef|Ef]; apply bool_decide_eq_true_1 in Ef; auto.
Qed.

End Facts.
