(* ===== verification/LifecycleSample.v ===== *)
(** * Lifecycle receipts: concrete runs

    A portal with one session: its archive is requested, the lead repairs one round of
    blockers, the command runs and the receipt completes; the theorems are applied
    along the way. *)

From S2P Require Import Prelude Effects GoStrings GoJson GoTime GoTimeParse RetryValidate RetrySys Codex.
From S2P Require Import LifecycleTypes LifecycleOps LifecycleStoreFacts LifecyclePropose LifecycleFacts ArchivePreparation ArchivePreparationFacts LifecycleCommands LifecycleJobs LifecycleRequests LifecycleCommandFacts.

Open Scope Z_scope.

#[local] Existing Instance SampleCodex.

(** The world counts the readiness checks: the second one finds the session ready. *)
Definition demo : Summary := mkSummary "/w" "work" "demo" "thread" false false "" "active".
Definition digest (c : string) : string := String.concat "" (repeat c 64).
Definition sample_now : Time := 1700000000 * 1000000000.

Definition sample_runtime : LifeRuntime nat := {|
  lr_now := λ w, (w, sample_now); lr_address := λ w, (w, 1); lr_directory := λ _ w, (w, None); lr_open := λ w, (w, None);
  lr_mkdir := λ w, (w, None); lr_replace := λ _ w, (w, write_ok); lr_remove_preparation := λ _ w, (w, None);
  lr_save_preparation := λ _ w, (w, write_ok);
  lr_Find := λ slug w, (w, if slug == "demo" then Ok demo else Err ErrNotExist);
  lr_Resolve := λ path w, (w, Ok path); lr_Lstat := λ _ w, (w, Ok (mkStat true 1 2 3 4));
  lr_Progress := λ _ w, (w, Ok None); lr_Owner := λ _ w, (w, Ok "");
  lr_CompletedRemoval := λ _ _ _ w, (w, Ok false); lr_ReadArchiveProgress := λ _ _ w, (w, None);
  lr_archiveWorker := λ _ w, (w, Ok None); lr_newID := λ w, (w, Ok (digest "a")); lr_context := λ w, (w, None);
  lr_transition := λ w, (w, None); lr_profile := λ w, (w, None) |}.

Definition blocked : archiveCheckResult := mkCheck 1 "/w" "demo" false 1 2 1 1 (Some [mkBlocker "dirty" "commit the change" None]).
Definition ready : archiveCheckResult := mkCheck 1 "/w" "demo" true 2 2 2 0 (Some []).

Definition sample_client : ArchiveClient nat := {|
  ac_implements := true; ac_make_options := λ model effort policy, mkSample model effort policy None;
  ac_LeadThreadPolicy := λ _ _ instructions, instructions;
  ac_ReadThreadSettings := λ _ w, (w, Ok (mkSettings "model" "high"));
  ac_ReadThreadMetadata := λ _ w, (w, Ok (mkMetadata "thread" "/w/work/demo" (Some "idle")));
  ac_Send := λ _ _ _ _ _ w, (w, Ok "turn-1"); ac_Reconcile := λ _ _ _ _ _ w, (w, Ok ("", false));
  ac_ReadTurnState := λ _ w, (w, Ok (mkTurnState "thread" "turn-1" "completed" "idle"));
  ac_Prompts := λ _ w, (w, Ok []);
  ac_check := λ _ w, (S w, check_printed (Some (if (w =? 0)%nat then blocked else ready)));
  ac_provider_admission := λ _ w, (w, None); ac_lock_runtime := λ _ w, (w, None); ac_lock_message := λ _ w, (w, None);
  ac_retained_ready := λ _ w, (w, None); ac_observation_receipts := λ _ _ w, (w, None); ac_recovery_held := λ _ _ w, (w, false);
  ac_load_roster := λ _ w, (w, Ok None); ac_mkdir := λ w, (w, None); ac_read_preparation := λ _ w, (w, None);
  ac_wait := λ _ w, (w, None) |}.
Definition sample_commands : CommandRuntime nat := {|
  ce_run := λ _ w, (w, command_done); ce_systemd_run := λ _ _ w, (w, command_done); ce_tick := λ w, (w, None) |}.

Definition text_of_error (e : error) : string := match e with ErrorsNew m => m | ErrWrap _ m => m | _ => "error" end.
Definition alone (σ : LifeSys nat) : LifeSys nat := σ.
Definition fresh : LifeSys nat := mkLife 0%nat ∅ ∅ ∅ ∅ None false [] ∅ [].

Definition demo_target : string := Eval vm_compute in
  match (lifecycleTargetIdentity sample_runtime text_of_error demo fresh).2 with Ok id => id | Err _ => "" end.
Definition request : archive_body := mkArchive "archived" demo_target "".
Definition requested : LifeSys nat := Eval vm_compute in
  (startArchive sample_runtime sample_client "/w" text_of_error alone demo request fresh).1.
Definition accepted_receipt : lifecycleOperation := Eval vm_compute in default no_operation (lf_operations requested !! "demo").
Definition archived : LifeSys nat := Eval vm_compute in
  (runLifecycleJob sample_runtime sample_client sample_commands "/w" false text_of_error alone 5 accepted_receipt [] requested).1.

Example archive_run :
  op_State accepted_receipt = "running" ∧ length (lf_trace requested) = 1%nat ∧ length (lf_trace archived) = 3%nat ∧
  op_State <$> lf_operations archived !! "demo" = Some "complete" ∧
  ap_State <$> lf_preparations archived !! "demo" = Some "archiving".
Proof. by vm_compute. Qed.

(** ** Witnesses *)

Lemma receipt_replaced_durably_witness :
  let '(σ', r) := replaceLifecycleOperationLocked sample_runtime "/w" "demo" accepted_receipt fresh in
  r = Ok tt ∧ decode_file "/w" true (lf_file σ') = Ok (paused_on_load <$> lf_operations σ').
Proof.
  pose proof (receipt_replaced_durably sample_runtime "/w" "demo" accepted_receipt fresh) as H.
  specialize (H (map_Forall_empty _) eq_refl). revert H.
  destruct (replaceLifecycleOperationLocked sample_runtime "/w" "demo" accepted_receipt fresh) as [σ' r] eqn:E. intros H.
  assert (r = Ok tt) as -> by (change r with (σ', r).2; rewrite <- E; computed). split; [done|]. apply H.
Defined.

Definition finished_receipt : lifecycleOperation := Eval vm_compute in default no_operation (lf_operations archived !! "demo").
Lemma complete_receipt_retained_witness :
  (proposeLifecycleOperation sample_runtime false text_of_error "demo" (Some finished_receipt) (Ok None) (sample_now + 15 * 60 * 1000000000) archived).2
  = Ok (None, None).
Proof.
  rewrite (complete_receipt_retained sample_runtime false text_of_error "demo" finished_receipt sample_now);
    [computed|computed|computed|split; vm_compute; congruence|computed].
Defined.

Definition paused_receipt : lifecycleOperation := Eval vm_compute in accepted_receipt <| op_State := "paused" |>.
Lemma paused_receipt_resolved_witness :
  (proposeLifecycleOperation sample_runtime false text_of_error "demo" (Some paused_receipt) (Ok None) sample_now fresh).2
  = Ok (Some (paused_receipt <| op_State := "failed" |> <| op_Error := restarted |> <| op_UpdatedAt := rfc3339 sample_now |>), None).
Proof.
  rewrite (paused_receipt_resolved sample_runtime false text_of_error "demo" paused_receipt sample_now);
    [computed|by left|computed|by left|split; vm_compute; congruence].
Defined.

(** The session once its directory has moved to the archive. *)
Definition moved : Summary := mkSummary "/w" "archive" "demo" "thread" true true "2023-11-14T22:13:20Z" "archived".
Definition moved_runtime : LifeRuntime nat := {|
  lr_now := lr_now sample_runtime; lr_address := lr_address sample_runtime; lr_directory := lr_directory sample_runtime;
  lr_open := lr_open sample_runtime; lr_mkdir := lr_mkdir sample_runtime; lr_replace := lr_replace sample_runtime;
  lr_remove_preparation := lr_remove_preparation sample_runtime; lr_save_preparation := lr_save_preparation sample_runtime;
  lr_Find := λ _ w, (w, Ok moved); lr_Resolve := lr_Resolve sample_runtime; lr_Lstat := lr_Lstat sample_runtime;
  lr_Progress := lr_Progress sample_runtime; lr_Owner := lr_Owner sample_runtime;
  lr_CompletedRemoval := lr_CompletedRemoval sample_runtime; lr_ReadArchiveProgress := lr_ReadArchiveProgress sample_runtime;
  lr_archiveWorker := lr_archiveWorker sample_runtime; lr_newID := lr_newID sample_runtime; lr_context := lr_context sample_runtime;
  lr_transition := lr_transition sample_runtime; lr_profile := lr_profile sample_runtime |}.
Lemma success_is_proved_witness :
  ∃ s target location σ1, (lr_Find moved_runtime "demo" 0%nat).2 = Ok s ∧ completion_target paused_receipt = Some (target, location) ∧
    (lifecycleTargetIdentityAt moved_runtime text_of_error s location σ1).2 = Ok target ∧ reached paused_receipt s = Ok true.
Proof.
  destruct (success_is_proved moved_runtime text_of_error "demo" paused_receipt fresh) as [(H & _)|[_ H]];
    [computed|exfalso; revert H; vm_compute; congruence|exact H].
Defined.

(** The receipt was retried while the first executor was still running. *)
Definition second_attempt : lifecycleOperation := Eval vm_compute in accepted_receipt <| op_Attempt := 2 |>.
Definition retried_system : LifeSys nat := Eval vm_compute in requested <| lf_operations := <["demo" := second_attempt]> ∅ |>.
Lemma stale_executor_harmless_witness :
  lf_operations (finish_job sample_runtime "/w" text_of_error alone accepted_receipt (Some ErrTransport) retried_system).1 !! "demo"
  = Some second_attempt.
Proof.
  apply (stale_executor_harmless sample_runtime "/w" text_of_error alone accepted_receipt (Some ErrTransport) second_attempt retried_system);
    [right; by vm_compute|auto|computed].
Defined.

(** No receipt was there when the reconciliation looked, at revision 0; one came and was dismissed again. *)
Definition come_and_gone : LifeSys nat := Eval vm_compute in (removeLifecycleOperationLocked sample_runtime "/w" "demo" requested).1.
Lemma reconciliation_compares_witness :
  lf_operations come_and_gone !! "demo" = None ∧
  (acceptLifecycleReconciliation sample_runtime "/w" "demo" None 0 (Some paused_receipt) paused_receipt come_and_gone).1 = come_and_gone.
Proof.
  split; [computed|].
  pose proof (reconciliation_compares sample_runtime "/w" "demo" None 0 (Some paused_receipt) paused_receipt come_and_gone) as H. cbv zeta in H.
  assert ((acceptLifecycleReconciliation sample_runtime "/w" "demo" None 0 (Some paused_receipt) paused_receipt come_and_gone).2 = Ok false) as E by computed.
  destruct (acceptLifecycleReconciliation _ _ _ _ _ _ _ come_and_gone) as [σ' r]. cbn in E. subst r. apply H.
Defined.

Definition demo_options : lifecycleOperationOptions :=
  no_options <| opt_Mode := "archived" |> <| opt_TargetID := demo_target |> <| opt_JournalID := digest "a" |>.
Lemma start_replaces_durably_witness :
  let '(σ', r) := startLifecycleOperation sample_runtime sample_client "/w" text_of_error alone "demo" "archive" "/" [] demo_options "" "" fresh in
  lf_trace σ' ≠ lf_trace fresh ∧ accepted sample_runtime "/w" "demo" "archive" demo_options "" "" [] σ' r.
Proof.
  pose proof (start_replaces_durably sample_runtime sample_client "/w" text_of_error alone "demo" "archive" "/" [] demo_options "" "" fresh) as H.
  specialize (H (λ _, eq_refl)). revert H.
  destruct (startLifecycleOperation sample_runtime sample_client "/w" text_of_error alone "demo" "archive" "/" [] demo_options "" "" fresh)
    as [σ' r] eqn:E. intros H.
  assert (length (lf_trace σ') = 1%nat) as Hl by (change σ' with (σ', r).1; rewrite <- E; computed).
  destruct H as [H|H]; [rewrite H in Hl; discriminate|]. split; [|exact H]. intros H'. rewrite H' in Hl. discriminate.
Defined.

Definition first_record : archivePreparation := Eval vm_compute in default no_preparation (lf_preparations requested !! "demo").
(** The user asks for the cancellation from the moment the first message is out; it is granted once the
    executor has given the lock back. *)
Definition impatient (σ : LifeSys nat) : LifeSys nat :=
  if (3 <=? length (lf_trace σ))%nat
  then (cancelArchivePreparation sample_runtime sample_client "/w" text_of_error "demo" (digest "a") σ).1 else σ.
Definition canceled_run : LifeSys nat := Eval vm_compute in
  (runArchivePreparation sample_runtime sample_client "/w" text_of_error impatient 5 accepted_receipt requested).1.
Definition canceled_record : archivePreparation := Eval vm_compute in default no_preparation (lf_preparations canceled_run !! "demo").
Lemma canceled_sends_nothing_witness :
  ap_State canceled_record = "canceled" ∧ length (lf_trace canceled_run) = 3%nat ∧ stopped accepted_receipt canceled_run.
Proof.
  split; [computed|]. split; [computed|].
  assert (canceled_run = (runArchivePreparation sample_runtime sample_client "/w" text_of_error impatient 5 accepted_receipt requested).1)
    as E by computed.
  pose proof (canceled_sends_nothing sample_runtime sample_client "/w" text_of_error impatient accepted_receipt 5 requested) as H.
  rewrite E. refine (proj2 (proj2 (H _ _ _) canceled_record (lf_trace canceled_run) _ _)).
  - intros σ. unfold impatient. destruct (3 <=? length (lf_trace σ))%nat; [|apply rtc_refl]. apply rtc_once, neighbor_cancels.
  - change (keyed_preparations (mkLife 0%nat ∅ ∅ ∅ {["demo" := first_record]} None false [] ∅ [])).
    apply map_Forall_singleton. computed.
  - intros q told Hq. change (lf_canceled requested) with (@nil (archivePreparation * list life_event)) in Hq. destruct (proj1 (elem_of_nil _) Hq).
  - rewrite <- E. change (lf_canceled canceled_run) with [(canceled_record, lf_trace canceled_run)]; apply list_elem_of_singleton; reflexivity.
  - split; computed.
Defined.

(** The loop as it starts, and after its first iteration. *)
Definition loop_start : @local SampleCodex nat := mkLocal requested first_record.
Definition after_check : @local SampleCodex nat := Eval vm_compute in
  (iteration sample_runtime sample_client "/w" text_of_error alone accepted_receipt loop_start).1.
Lemma sample_agrees l :
  lf_preparations (loc_sys l) = <["demo" := loc_p l]> ∅ → ap_Slug (loc_p l) = "demo" → @agrees SampleCodex nat l.
Proof.
  intros H Hs. unfold agrees, keyed_preparations, stored. rewrite H, Hs. split.
  - by apply map_Forall_insert_2; [|apply map_Forall_empty].
  - intros q. rewrite lookup_insert_eq. by intros [= <-].
Qed.
Lemma repair_sends_recorded_witness :
  length (lf_trace (loc_sys after_check)) = 1%nat ∧
  length (lf_trace (loc_sys (iteration sample_runtime sample_client "/w" text_of_error alone accepted_receipt after_check).1)) = 3%nat ∧
  sent after_check (iteration sample_runtime sample_client "/w" text_of_error alone accepted_receipt after_check).1.
Proof.
  split; [computed|]. split; [computed|].
  apply (repair_sends_recorded sample_runtime sample_client "/w" text_of_error alone);
    [done|done|intros; discriminate|intros p w e [H|H]; discriminate H|apply sample_agrees; [computed|computed]].
Defined.
Lemma repair_cycles_end_witness :
  ap_NoProgress (loc_p after_check) = 0 ∧
  (ap_MessageID (loc_p loop_start) ≠ "" ∧ still loop_start after_check ∨ cycled loop_start after_check).
Proof.
  split; [computed|].
  refine (proj2 (repair_cycles_end sample_runtime sample_client "/w" text_of_error alone _ _ _ _) accepted_receipt loop_start after_check _ _ _).
  - done.
  - done.
  - intros; discriminate.
  - intros p w e [H|H]; discriminate H.
  - apply sample_agrees; [computed|computed].
  - split; vm_compute; congruence.
  - computed.
Defined.

(** A newer attempt's record is in the file; the old loop's variable still holds the first. *)
Definition newer_record : archivePreparation := Eval vm_compute in first_record <| ap_Attempt := 2 |>.
Definition overtaken : @local SampleCodex nat := mkLocal (requested <| lf_preparations := <["demo" := newer_record]> ∅ |>) first_record.
Lemma replaced_attempt_is_failed_witness :
  let '(l', r) := (r ← attempt (update sample_runtime sample_client (set_state "archiving"));
                   match r with Err e => fail_with sample_runtime sample_client text_of_error e | Ok _ => mret true end) overtaken in
  is_ok r = false ∧ ∃ failed, stored "demo" (loc_sys l') = Some failed ∧ ap_State failed = "failed" ∧ ap_Attempt failed = 2.
Proof.
  apply (replaced_attempt_is_failed sample_runtime sample_client text_of_error (set_state "archiving") overtaken newer_record);
    solve [done | computed | vm_compute; congruence].
Defined.
