(* ===== verification/GoDecode.v ===== *)
(** * Text that was written and is read back

    What [json.Unmarshal] makes of a string [json.Marshal] wrote, and [strconv.Atoi]. *)

From S2P Require Import Prelude GoStrings GoJson GoDecimal GoUtf8.
From Stdlib Require Import Ascii.

Open Scope Z_scope.

(** Every byte that is not part of a rune comes back as U+FFFD. *)
Fixpoint json_coerce (s : string) : string :=
  match s with
  | EmptyString => EmptyString
  | String a s1 =>
      if code a <? 128 then String a (json_coerce s1) else
      match s1 with
      | EmptyString => replacement
      | String b s2 =>
          if utf8_two (code a) (code b) then String a (String b (json_coerce s2)) else
          match s2 with
          | EmptyString => replacement +:+ json_coerce s1
          | String c s3 =>
              if utf8_three (code a) (code b) (code c) then String a (String b (String c (json_coerce s3))) else
              match s3 with
              | EmptyString => replacement +:+ json_coerce s1
              | String d s4 =>
                  if utf8_four (code a) (code b) (code c) (code d)
                  then String a (String b (String c (String d (json_coerce s4))))
                  else replacement +:+ json_coerce s1
              end
          end
      end
  end.

Lemma coerce_valid s : utf8_valid s = true → json_coerce s = s.
Proof.
  intros H%utf8_runes. induction H; cbn [json_coerce]; [done|..];
    repeat match goal with H : ?b = _ |- context [?b] => rewrite H; cbv iota end; by f_equal; repeat f_equal.
Qed.

(** The members of an object are read in the order they were written: a later one of the same key wins. *)
Definition coerce_map {A} (f : A → A) (m : gmap string A) : gmap string A :=
  foldl (λ r kv, <[json_coerce kv.1 := f kv.2]> r) ∅ (sort_keys (map_to_list m)).

(** [strconv.Atoi] *)
Definition digits_of (l : list ascii) : option Z :=
  if bool_decide (l = []) || negb (forallb is_digit l) then None
  else Some (foldl (λ n c, n * 10 + (code c - 48)) 0 l).
Definition Atoi (s : string) : option Z :=
  let '(sign, l) :=
    match chars s with
    | c :: l => if is_char c "-"%char then (-1, l) else if is_char c "+"%char then (1, l) else (1, c :: l)
    | [] => (1, [])
    end in
  n ← digits_of l;
  if (- 2^63 <=? sign * n) && (sign * n <? 2^63) then Some (sign * n) else None.

Example atoi_samples : map Atoi ["120"; "-7"; "+3"; ""; "-"; "1.5"; "9223372036854775808"] = [Some 120; Some (-7); Some 3; None; None; None; None].
Proof. reflexivity. Qed.

(** [base64.RawURLEncoding.DecodeString]: line breaks are passed over, the last bits of an
    incomplete group are not looked at, and a single character left over is an error. *)
Definition base64_value (c : ascii) : option Z :=
  let n := code c in
  if in_range 65 90 n then Some (n - 65) else if in_range 97 122 n then Some (n - 71)
  else if in_range 48 57 n then Some (n + 4) else if n =? 45 then Some 62 else if n =? 95 then Some 63 else None.
Fixpoint base64_groups (l : list Z) : option (list Z) :=
  match l with
  | [] => Some []
  | [_] => None
  | [a; b] => Some [a * 4 + b / 16]
  | [a; b; c] => Some [a * 4 + b / 16; b mod 16 * 16 + c / 4]
  | a :: b :: c :: d :: l => rest ← base64_groups l; Some (a * 4 + b / 16 :: b mod 16 * 16 + c / 4 :: c mod 4 * 64 + d :: rest)
  end.
Definition base64_raw_url (s : string) : option (list Z) :=
  l ← mapM base64_value (List.filter (λ c, negb ((code c =? 10) || (code c =? 13))) (chars s));
  base64_groups l.

Example base64_samples :
  map base64_raw_url ["AQID"; "_w"; "__8"; "A"; "A="; "AQ" +:+ String "010"%char "ID"] =
    [Some [1; 2; 3]; Some [255]; Some [255; 255]; None; None; Some [1; 2; 3]].
Proof. reflexivity. Qed.
