(* ===== verification/Attention.v ===== *)
(** * Attention

    [web/attention.go]: what a session asks of its user (an answer, an approval, a
    look at finished work) as events over successive observations of its threads. *)

From S2P Require Import Prelude GoStrings GoJson GoTime Sha256.

Open Scope Z_scope.

(** [Time.UnixMilli] *)
Definition UnixMilli (t : Time) : Z := i64 (t `div` 1000000).
(** [Time.Sub], which saturates. *)
Definition sub_time (t u : Time) : Z := Z.max (- 2^63) (Z.min (2^63 - 1) (t - u)).
Definition Minute : Z := 60 * 1000000000.

Record attentionEvent := mkEvent {
  ev_Version : Z; ev_ID : string; ev_Identity : string; ev_Revision : Z; ev_Slug : string; ev_Member : string;
  ev_Kind : string; ev_Route : string; ev_ExpiresAt : Z }.
Record attentionRequest := mkRequest { rq_Key : string; rq_Member : string; rq_Kind : string }.

(** [codex.ActivitySnapshot] and [codex.BlockingRequest] as far as they are read. *)
Record BlockingRequest := mkBlocking { br_TurnID : string; br_ItemID : string; br_Method : string; br_Kind : string }.
Record ActivitySnapshot := mkActivity {
  as_ThreadID : string; as_CurrentTurnID : string; as_CurrentState : string; as_WaitReason : string;
  as_LatestTurnStatus : string; as_ObservedAtMS : Z; as_Stale : bool; as_BlockingRequests : list BlockingRequest }.
Definition no_activity : ActivitySnapshot := mkActivity "" "" "" "" "" 0 false [].

Record attentionObservation := mkObservation {
  ao_Identity : string; ao_Slug : string; ao_RootThread : string; ao_Lead : ActivitySnapshot;
  ao_Members : list ActivitySnapshot; ao_Requests : list attentionRequest; ao_Fresh : bool; ao_Eligible : bool }.
#[export] Instance eta_Observation : Eta attentionObservation := λ o,
  mkObservation (ao_Identity o) (ao_Slug o) (ao_RootThread o) (ao_Lead o) (ao_Members o) (ao_Requests o) (ao_Fresh o) (ao_Eligible o).

Record attentionBaseline := mkBaseline {
  ab_Identity : string; ab_RootThread : string; ab_LeadTurn : string; ab_ArmedTurn : string; ab_CompletedTurn : string;
  ab_Requests : slice string; ab_Revision : Z; ab_ObservedAt : Z; ab_Eligible : bool; ab_Fresh : bool;
  ab_Event : option attentionEvent }.
#[export] Instance eta_Baseline : Eta attentionBaseline := λ b,
  mkBaseline (ab_Identity b) (ab_RootThread b) (ab_LeadTurn b) (ab_ArmedTurn b) (ab_CompletedTurn b) (ab_Requests b)
    (ab_Revision b) (ab_ObservedAt b) (ab_Eligible b) (ab_Fresh b) (ab_Event b).
Definition no_baseline : attentionBaseline := mkBaseline "" "" "" "" "" None 0 0 false false None.

#[export] Instance attentionEvent_eq_dec : EqDecision attentionEvent.
Proof. solve_decision. Defined.
#[export] Instance attentionRequest_eq_dec : EqDecision attentionRequest.
Proof. solve_decision. Defined.
#[export] Instance attentionBaseline_eq_dec : EqDecision attentionBaseline.
Proof. solve_decision. Defined.

Definition event_fields (e : attentionEvent) : list jfield :=
  [field "version" (json_int (ev_Version e)); field "id" (json_string (ev_ID e)); field "identity" (json_string (ev_Identity e));
   field "revision" (json_int (ev_Revision e)); field "slug" (json_string (ev_Slug e));
   omitempty (ev_Member e == "") "member" (json_string (ev_Member e)); field "kind" (json_string (ev_Kind e));
   field "route" (json_string (ev_Route e)); field "expiresAt" (json_int (ev_ExpiresAt e))].
Definition attentionEvent_json (e : attentionEvent) : json := json_struct (event_fields e).
Definition attentionBaseline_json (b : attentionBaseline) : json :=
  json_struct
    [field "identity" (json_string (ab_Identity b)); field "rootThread" (json_string (ab_RootThread b));
     field "leadTurn" (json_string (ab_LeadTurn b)); omitempty (ab_ArmedTurn b == "") "armedTurn" (json_string (ab_ArmedTurn b));
     omitempty (ab_CompletedTurn b == "") "completedTurn" (json_string (ab_CompletedTurn b));
     field "requests" (json_slice json_string (ab_Requests b)); field "revision" (json_int (ab_Revision b));
     field "observedAt" (json_int (ab_ObservedAt b)); field "eligible" (json_bool (ab_Eligible b));
     field "fresh" (json_bool (ab_Fresh b));
     omitempty (bool_decide (ab_Event b = None)) "event" (json_ptr attentionEvent_json (ab_Event b))].

(** [attentionDigest] *)
Definition attentionDigest (parts : list string) : string :=
  hex_encode (Sum256 (bytes_of (default "" (json_array (map json_string parts))))).

Definition attentionRoute (slug member : string) : string :=
  if (member != "") && (member != "lead") then "/" +:+ slug +:+ "/?member=" +:+ member +:+ "#codex" else "/" +:+ slug +:+ "/#codex".

Definition attentionRelevant (event : attentionEvent) (o : attentionObservation) : bool :=
  if ev_Kind event != "done" then existsb (λ r, attentionDigest [ao_Identity o; rq_Key r] == ev_ID event) (ao_Requests o)
  else if negb (bool_decide (ao_Requests o = [])) || (as_CurrentState (ao_Lead o) != "idle")
          || (as_LatestTurnStatus (ao_Lead o) != "completed")
          || (attentionDigest [ao_Identity o; "done"; as_CurrentTurnID (ao_Lead o)] != ev_ID event) then false
  else forallb (λ m, as_CurrentState m == "idle") (ao_Members o).

(** ** One observation

    [sort.Slice] leaves the order of equal keys open: the sort is an argument. *)

Section Reduce.
Context (sorted : list attentionRequest → list attentionRequest).

Definition gap (previous : attentionBaseline) (o : attentionObservation) (now : Time) : bool :=
  (ab_Identity previous != ao_Identity o) || (ab_RootThread previous != ao_RootThread o) || negb (ab_Eligible previous)
  || (ab_ObservedAt previous =? 0) || (90000 <? i64 (UnixMilli now - ab_ObservedAt previous)).

(** The baseline after a gap: nothing completes in it, but a known event stays. *)
Definition rebase (previous b : attentionBaseline) (o : attentionObservation) : attentionBaseline :=
  let turn := as_CurrentTurnID (ao_Lead o) in
  let known := (ab_Identity previous == ao_Identity o) && (ab_RootThread previous == ao_RootThread o)
               && match ab_Event previous with Some e => attentionRelevant e o | None => false end in
  let b := b <| ab_ArmedTurn := "" |> <| ab_CompletedTurn := "" |>
             <| ab_Event := if known then ab_Event previous else None |> in
  if as_LatestTurnStatus (ao_Lead o) == "completed" then b <| ab_CompletedTurn := turn |>
  else when (as_LatestTurnStatus (ao_Lead o) == "inProgress") (λ b, b <| ab_ArmedTurn := turn |>) b.

Definition follow (fresh : bool) (previous b : attentionBaseline) (o : attentionObservation) : attentionBaseline :=
  let turn := as_CurrentTurnID (ao_Lead o) in
  let b := if fresh then rebase previous b o
           else when (turn != ab_LeadTurn b) (λ b, b <| ab_ArmedTurn := turn |> <| ab_Event := None |>) b in
  let b := when (negb fresh && (turn != "") && (as_LatestTurnStatus (ao_Lead o) == "inProgress"))
             (λ b, b <| ab_ArmedTurn := turn |>) b in
  b <| ab_LeadTurn := turn |>.

Definition all_idle (o : attentionObservation) : bool :=
  (as_CurrentState (ao_Lead o) == "idle") && forallb (λ m, as_CurrentState m == "idle") (ao_Members o).

(** An event stays while what it announced does. *)
Definition still_valid (o : attentionObservation) (requests : list attentionRequest) (e : attentionEvent) : bool :=
  ((ev_Kind e == "done") && bool_decide (requests = []) && all_idle o && (as_LatestTurnStatus (ao_Lead o) == "completed"))
  || existsb (λ r, ev_ID e == attentionDigest [ao_Identity o; rq_Key r]) requests.
Definition drop_stale (o : attentionObservation) (requests : list attentionRequest) (b : attentionBaseline) : attentionBaseline :=
  match ab_Event b with
  | Some e => when (negb (still_valid o requests e)) (λ b, b <| ab_Event := None |>) b
  | None => b
  end.

Definition request_event (o : attentionObservation) (now : Time) (revision : Z) (r : attentionRequest) : attentionEvent :=
  mkEvent 1 (attentionDigest [ao_Identity o; rq_Key r]) (ao_Identity o) revision (ao_Slug o) (rq_Member r) (rq_Kind r)
    (attentionRoute (ao_Slug o) (rq_Member r)) (UnixMilli (now + 15 * Minute)).
Definition done_event (o : attentionObservation) (now : Time) (revision : Z) : attentionEvent :=
  mkEvent 1 (attentionDigest [ao_Identity o; "done"; as_CurrentTurnID (ao_Lead o)]) (ao_Identity o) revision (ao_Slug o) "" "done"
    (attentionRoute (ao_Slug o) "") (UnixMilli (now + 5 * Minute)).

Definition raise_request (fresh : bool) (b : attentionBaseline) (o : attentionObservation) (now : Time)
    (newRequest : option attentionRequest) (first : attentionRequest) : attentionBaseline * bool :=
  if bool_decide (newRequest = None) && match ab_Event b with Some e => ev_Kind e != "done" | None => false end then (b, false) else
  let selected := default first newRequest in
  let id := attentionDigest [ao_Identity o; rq_Key selected] in
  if match ab_Event b with None => true | Some e => ev_ID e != id end then
    let revision := u64 (ab_Revision b + 1) in
    (b <| ab_Revision := revision |> <| ab_Event := Some (request_event o now revision selected) |>,
     negb fresh && bool_decide (newRequest ≠ None))
  else (b, false).

Definition raise_done (b : attentionBaseline) (o : attentionObservation) (now : Time) : attentionBaseline * bool :=
  let turn := as_CurrentTurnID (ao_Lead o) in
  if all_idle o && (turn != "") && (as_LatestTurnStatus (ao_Lead o) == "completed") && (ab_ArmedTurn b == turn)
     && (ab_CompletedTurn b != turn) then
    let revision := u64 (ab_Revision b + 1) in
    (b <| ab_CompletedTurn := turn |> <| ab_Revision := revision |> <| ab_Event := Some (done_event o now revision) |>, true)
  else (b, false).

Definition reduceAttention (previous : attentionBaseline) (o : attentionObservation) (now : Time) : attentionBaseline * bool :=
  let fresh := gap previous o now in
  let b := previous <| ab_Identity := ao_Identity o |> <| ab_RootThread := ao_RootThread o |>
             <| ab_Eligible := ao_Eligible o |> <| ab_Fresh := ao_Fresh o |> in
  if negb (ao_Eligible o) then (b <| ab_Event := None |> <| ab_ArmedTurn := "" |> <| ab_Eligible := false |>, false) else
  if negb (ao_Fresh o) then (b, false) else
  let at_ms := as_ObservedAtMS (ao_Lead o) in
  let b := b <| ab_ObservedAt := if at_ms =? 0 then UnixMilli now else at_ms |> in
  let b := follow fresh previous b o in
  let requests := sorted (ao_Requests o) in
  let newRequest := List.find (λ r, negb (bool_decide (rq_Key r ∈ elems (ab_Requests previous)))) requests in
  let b := b <| ab_Requests := Some (map rq_Key requests) |> in
  let b := drop_stale o requests b in
  match requests with
  | first :: _ => raise_request fresh b o now newRequest first
  | [] => raise_done b o now
  end.
End Reduce.
