(* ===== verification/Notifications.v ===== *)
(** * Browser notifications: state and storage

    [web/notifications_store.go] and the pure part of [web/notifications.go]: the
    registrations, preferences, baselines and outbox, their JSON text, the store whose
    first failed write stops all delivery, and the reconciliation of one observation. *)

From S2P Require Import Prelude Effects GoStrings GoJson GoDecimal GoTime GoDecode Attention LifecycleTypes.
From Stdlib Require Import Ascii.

Open Scope Z_scope.

Definition maxNotificationStateBytes : Z := 4 * 1024 * 1024.

(** [webpush.Subscription] *)
Record Subscription := mkSubscription { sub_Endpoint : string; sub_Auth : string; sub_P256dh : string }.
Record browserRegistration := mkBrowser {
  bw_ID : string; bw_Origin : string; bw_Subscription : Subscription; bw_ExpiresAt : Z; bw_Disabled : bool; bw_Result : string }.
#[export] Instance eta_Browser : Eta browserRegistration := λ b,
  mkBrowser (bw_ID b) (bw_Origin b) (bw_Subscription b) (bw_ExpiresAt b) (bw_Disabled b) (bw_Result b).
Record notificationPreference := mkPreference { np_Identity : string; np_Enabled : bool }.
Record notificationDelivery := mkDelivery { nd_Browser : string; nd_Event : attentionEvent; nd_Attempt : Z; nd_NextAt : Z }.
#[export] Instance eta_Delivery : Eta notificationDelivery := λ d,
  mkDelivery (nd_Browser d) (nd_Event d) (nd_Attempt d) (nd_NextAt d).
Record notificationState := mkNotify {
  ns_Schema : Z; ns_Workspace : string; ns_PrivateKey : string; ns_PublicKey : string;
  ns_Browsers : gmap string browserRegistration; ns_Preferences : gmap string notificationPreference;
  ns_Sessions : gmap string attentionBaseline; ns_Outbox : gmap string notificationDelivery }.
#[export] Instance eta_Notify : Eta notificationState := λ s,
  mkNotify (ns_Schema s) (ns_Workspace s) (ns_PrivateKey s) (ns_PublicKey s) (ns_Browsers s) (ns_Preferences s)
    (ns_Sessions s) (ns_Outbox s).
Record notificationPresence := mkPresence { pr_Identity : string; pr_EventID : string; pr_Until : Time }.

(** The zero values a Go map gives for a missing key. *)
Definition no_event : attentionEvent := mkEvent 0 "" "" 0 "" "" "" "" 0.
Definition no_browser : browserRegistration := mkBrowser "" "" (mkSubscription "" "" "") 0 false "".
Definition no_delivery : notificationDelivery := mkDelivery "" no_event 0 0.
Definition no_presence : notificationPresence := mkPresence "" "" zero_time.

Definition notificationEnabled (s : notificationState) (slug identity : string) : bool :=
  match ns_Preferences s !! slug with
  | None => true
  | Some p => (np_Identity p != identity) || np_Enabled p
  end.
Definition notificationDeliveryKey (browser slug : string) : string := browser +:+ ":" +:+ slug.

(** ** The state's JSON text, and what reading it back gives *)

Section Json.
Context (marshal_Subscription : Subscription → json).

Definition Browser_json (b : browserRegistration) : json :=
  json_struct [field "id" (json_string (bw_ID b)); field "origin" (json_string (bw_Origin b));
               field "subscription" (marshal_Subscription (bw_Subscription b)); num "expiresAt" (bw_ExpiresAt b);
               flag "disabled" (bw_Disabled b); str "result" (bw_Result b)].
Definition Preference_json (p : notificationPreference) : json :=
  json_struct [field "identity" (json_string (np_Identity p)); field "enabled" (json_bool (np_Enabled p))].
Definition Delivery_json (d : notificationDelivery) : json :=
  json_struct [field "browser" (json_string (nd_Browser d)); field "event" (attentionEvent_json (nd_Event d));
               field "attempt" (json_int (nd_Attempt d)); field "nextAt" (json_int (nd_NextAt d))].
Definition State_json (s : notificationState) : json :=
  json_struct [field "schema" (json_int (ns_Schema s)); field "workspace" (json_string (ns_Workspace s));
               field "privateKey" (json_string (ns_PrivateKey s)); field "publicKey" (json_string (ns_PublicKey s));
               field "browsers" (json_map Browser_json (ns_Browsers s));
               field "preferences" (json_map Preference_json (ns_Preferences s));
               field "sessions" (json_map attentionBaseline_json (ns_Sessions s));
               field "outbox" (json_map Delivery_json (ns_Outbox s))].
End Json.

Definition copy_event (e : attentionEvent) : attentionEvent :=
  mkEvent (ev_Version e) (json_coerce (ev_ID e)) (json_coerce (ev_Identity e)) (ev_Revision e) (json_coerce (ev_Slug e))
    (json_coerce (ev_Member e)) (json_coerce (ev_Kind e)) (json_coerce (ev_Route e)) (ev_ExpiresAt e).
Definition copy_baseline (b : attentionBaseline) : attentionBaseline :=
  mkBaseline (json_coerce (ab_Identity b)) (json_coerce (ab_RootThread b)) (json_coerce (ab_LeadTurn b))
    (json_coerce (ab_ArmedTurn b)) (json_coerce (ab_CompletedTurn b)) (map json_coerce <$> ab_Requests b) (ab_Revision b)
    (ab_ObservedAt b) (ab_Eligible b) (ab_Fresh b) (copy_event <$> ab_Event b).
Definition copy_subscription (s : Subscription) : Subscription :=
  mkSubscription (json_coerce (sub_Endpoint s)) (json_coerce (sub_Auth s)) (json_coerce (sub_P256dh s)).
Definition copy_browser (b : browserRegistration) : browserRegistration :=
  mkBrowser (json_coerce (bw_ID b)) (json_coerce (bw_Origin b)) (copy_subscription (bw_Subscription b)) (bw_ExpiresAt b)
    (bw_Disabled b) (json_coerce (bw_Result b)).
Definition copy_preference (p : notificationPreference) : notificationPreference :=
  mkPreference (json_coerce (np_Identity p)) (np_Enabled p).
Definition copy_delivery (d : notificationDelivery) : notificationDelivery :=
  mkDelivery (json_coerce (nd_Browser d)) (copy_event (nd_Event d)) (nd_Attempt d) (nd_NextAt d).
Definition copy_state (s : notificationState) : notificationState :=
  mkNotify (ns_Schema s) (json_coerce (ns_Workspace s)) (json_coerce (ns_PrivateKey s)) (json_coerce (ns_PublicKey s))
    (coerce_map copy_browser (ns_Browsers s)) (coerce_map copy_preference (ns_Preferences s))
    (coerce_map copy_baseline (ns_Sessions s)) (coerce_map copy_delivery (ns_Outbox s)).

(** ** The system *)

(** What a transport attempt is given; its answer is an error, the status and the [Retry-After] header. *)
Record push := mkPush {
  pu_Payload : json; pu_Subscription : Subscription; pu_PrivateKey : string; pu_PublicKey : string; pu_TTL : Z; pu_Topic : string }.
Record push_answer := mkAnswer { pa_Err : option error; pa_Code : Z; pa_RetryAfter : string }.

(** [ns_sent] is the trace of transport attempts; [ns_file] the state file in place. *)
Record NotifySys (W : Type) := mkNotifySys {
  ny_world : W; ny_state : notificationState; ny_failed : bool; ny_presence : gmap string notificationPresence;
  ny_file : option notificationState; ny_sent : list push }.
Arguments mkNotifySys {W}. Arguments ny_world {W}. Arguments ny_state {W}. Arguments ny_failed {W}.
Arguments ny_presence {W}. Arguments ny_file {W}. Arguments ny_sent {W}.
#[export] Instance eta_NotifySys {W} : Eta (NotifySys W) := λ σ,
  mkNotifySys (ny_world σ) (ny_state σ) (ny_failed σ) (ny_presence σ) (ny_file σ) (ny_sent σ).

(** A ready member of the session's team, as [observeAttention] reads it. *)
Record TeamMember := mkMember { tm_Address : string; tm_Thread : string; tm_State : string; tm_RetireIntent : string }.

(** [url.URL] with its [Port] and [Hostname]. *)
Record URL := mkURL { u_Scheme : string; u_Host : string; u_User : bool; u_Fragment : string; u_Port : string; u_Hostname : string; u_Path : string }.

(** The rest of the system: the clock, randomness, the order of a Go map, other parts of
    the server, the operating system, the push service; and what other goroutines do while
    the store's mutex is free.  The last fields are pure: sorting, [url.Parse], whether
    bytes are a point of P-256, the subscription's JSON text, [http.ParseTime] and [Time.String]. *)
Record NotifyRuntime (W : Type) := mkNotifyRuntime {
  nr_now : W → W * Time;
  nr_range : list string → W → W * list string;
  nr_random : W → W * result (list Z);
  nr_profile : W → W * option error;
  nr_List : W → W * result (list Summary);
  nr_Find : string → W → W * result Summary;
  nr_Identity : Summary → W → W * (string * option error);
  nr_owns : Summary → W → W * bool;
  nr_recoveryHeld : string → string → W → W * bool;
  nr_creation : string → W → W * option (string * Z);
  nr_roster : Summary → W → W * result (option (list TeamMember));
  nr_snapshot : string → W → W * option (ActivitySnapshot * Time);
  nr_stat_disabled : W → W * option error;
  nr_call : string → W → W * option error;
  nr_push : push → W → W * push_answer;
  nr_others : NotifySys W → NotifySys W;
  nr_sorted : list attentionRequest → list attentionRequest;
  nr_Parse : string → option URL;
  nr_point : list Z → bool;
  nr_marshal : Subscription → json;
  nr_ParseTime : string → option Time;
  nr_String : Time → string }.
Arguments nr_now {W}. Arguments nr_range {W}. Arguments nr_random {W}. Arguments nr_profile {W}. Arguments nr_List {W}.
Arguments nr_Find {W}. Arguments nr_Identity {W}. Arguments nr_owns {W}. Arguments nr_recoveryHeld {W}.
Arguments nr_creation {W}. Arguments nr_roster {W}. Arguments nr_snapshot {W}. Arguments nr_stat_disabled {W}.
Arguments nr_call {W}. Arguments nr_push {W}. Arguments nr_others {W}. Arguments nr_sorted {W}. Arguments nr_Parse {W}. Arguments nr_point {W}.
Arguments nr_marshal {W}. Arguments nr_ParseTime {W}. Arguments nr_String {W}.

Abbreviation Ny W := (SE (NotifySys W)).

Section Store.
Context {W : Type} (rt : NotifyRuntime W).

Definition ask {A} (f : W → W * A) : Ny W A :=
  λ σ, let '(w, a) := f (ny_world σ) in (σ <| ny_world := w |>, Ok a).
Definition ncall (name : string) : Ny W unit := e ← ask (nr_call rt name); lift_error e.
(** [for key, value := range m] *)
Definition ranged {A} (m : gmap string A) : Ny W (list (string * A)) :=
  ks ← ask (nr_range rt (map fst (map_to_list m)));
  mret (omap (λ k, a ← m !! k; Some (k, a)) ks).
Fixpoint each {A D} (body : A → D → Ny W D) (l : list A) (d : D) : Ny W D :=
  match l with [] => mret d | a :: l => d ← body a d; each body l d end.

Definition pushProviderHosts : list string := ["updates.push.services.mozilla.com"; "fcm.googleapis.com"; "jmt17.google.com"].
Definition unsafe_char (c : ascii) : bool := (code c =? 0) || (code c =? 13) || (code c =? 10).
Definition validatePushEndpoint (endpoint : string) : option error :=
  let refused := Some (ErrorsNew "unsupported push provider endpoint") in
  match nr_Parse rt endpoint with
  | None => refused
  | Some u =>
      if (2048 <? strlen endpoint) || (u_Scheme u != "https") || (u_Host u == "") || u_User u || (u_Fragment u != "")
         || ((u_Port u != "") && (u_Port u != "443")) || negb (bool_decide (u_Hostname u ∈ pushProviderHosts)) || (u_Path u == "")
         || existsb unsafe_char (chars endpoint)
      then refused else None
  end.
Definition validatePushSubscription (sub : Subscription) (expires : Z) (now : Time) : option error :=
  match validatePushEndpoint (sub_Endpoint sub) with
  | Some e => Some e
  | None =>
      let bad_key := Some (ErrorsNew "invalid push public key") in
      match base64_raw_url (sub_P256dh sub) with
      | None => bad_key
      | Some key =>
          if negb (Z.of_nat (length key) =? 65) || negb (nr_point rt key) then bad_key else
          match base64_raw_url (sub_Auth sub) with
          | None => Some (ErrorsNew "invalid push authentication key")
          | Some auth =>
              if negb (Z.of_nat (length auth) =? 16) then Some (ErrorsNew "invalid push authentication key")
              else if (expires <? 0) || (negb (expires =? 0) && (expires <=? UnixMilli now))
              then Some (ErrorsNew "push subscription has expired") else None
          end
      end
  end.

(** ** The store *)

Definition over_limits (s : notificationState) : bool :=
  (128 <? Z.of_nat (size (ns_Browsers s))) || (4096 <? Z.of_nat (size (ns_Preferences s)))
  || (4096 <? Z.of_nat (size (ns_Sessions s))) || (512 <? Z.of_nat (size (ns_Outbox s))).
Definition save_state (s : notificationState) : Ny W unit :=
  if over_limits s then fail (ErrorsNew "notification record limit reached") else
  match State_json (nr_marshal rt) s with
  | None => fail (ErrorsNew "notification state exceeds its size limit")
  | Some data =>
      if maxNotificationStateBytes <? strlen data then fail (ErrorsNew "notification state exceeds its size limit") else
      ncall "write temporary file";;
      ncall "rename";;
      modify (λ σ, σ <| ny_file := Some s |>);;
      ncall "sync directory"
  end.

Definition storage_unavailable : error := ErrorsNew "notification storage is unavailable".
Definition fence {A} : Ny W A := modify (λ σ, σ <| ny_failed := true |>);; fail storage_unavailable.

(** [update] changes a copy of the state. *)
Definition change {A} (update : notificationState → Ny W (notificationState * A)) : Ny W A :=
  failed ← gets ny_failed;
  if (failed : bool) then fail storage_unavailable else
  state ← gets ny_state;
  match State_json (nr_marshal rt) state with
  | None => fence
  | Some data =>
      '(next, a) ← update (copy_state state);
      match State_json (nr_marshal rt) next with
      | None => fence
      | Some nextData =>
          if data == nextData then mret a else
          saved ← attempt (save_state next);
          match saved with
          | Err _ => fence
          | Ok _ => modify (λ σ, σ <| ny_state := next |>);; mret a
          end
      end
  end.

(** [notificationService.disabled] *)
Definition disabled : Ny W bool :=
  e ← ask (nr_stat_disabled rt);
  mret (match e with None => true | Some e => negb (errors_Is e ErrNotExist) end).
End Store.
