(* ===== verification/NotificationOps.v ===== *)
(** * Browser notifications: observation, delivery and requests

    The rest of [web/attention.go] and [web/notifications.go]: observing a session,
    reconciling the state with the observations, sending one delivery, and the requests
    of browsers.  Other goroutines act while the store's mutex is free. *)

From S2P Require Import Prelude Effects GoStrings GoJson GoTime GoDecode Attention LifecycleTypes Notifications.

Open Scope Z_scope.

Section Ops.
Context {W : Type} (rt : NotifyRuntime W).

(** ** Observing a session *)

Definition request_kind (r : BlockingRequest) : string := if br_Kind r == "userInput" then "input" else "approval".
Definition request_known (s : ActivitySnapshot) (r : BlockingRequest) : bool :=
  negb ((br_TurnID r == "") || (br_ItemID r == "") || (br_Method r == "") || (br_TurnID r != as_CurrentTurnID s)
        || ((br_Kind r != "userInput") && (br_Kind r != "approval")))
  && negb ((as_CurrentState s != "waiting") || ((as_WaitReason s != "userInput") && (as_WaitReason s != "approval"))).
Definition add_request (member thread : string) (s : ActivitySnapshot) (o : attentionObservation) (r : BlockingRequest)
    : attentionObservation :=
  if request_known s r
  then o <| ao_Requests ::= λ l, l ++ [mkRequest (attentionDigest [thread; br_TurnID r; br_ItemID r; br_Method r]) member (request_kind r)] |>
  else o <| ao_Fresh := false |>.
Definition snapshot_usable (thread : string) (now at_ : Time) (s : ActivitySnapshot) : bool :=
  negb (as_Stale s || (as_ThreadID s != thread) || (40 * 1000000000 <? sub_time now at_) || (as_ObservedAtMS s <=? 0)
        || (40000 <? i64 (UnixMilli now - as_ObservedAtMS s))
        || ((as_CurrentState s != "idle") && (as_CurrentState s != "working") && (as_CurrentState s != "waiting"))).
Definition observe_thread (now : Time) (kv : string * string) (o : attentionObservation) : Ny W attentionObservation :=
  let '(member, thread) := kv in
  cached ← ask (nr_snapshot rt thread);
  match cached with
  | Some (s, at_) =>
      if negb (snapshot_usable thread now at_ s) then mret (o <| ao_Fresh := false |>) else
      let o := if member == "lead" then o <| ao_Lead := s |> else o <| ao_Members ::= λ l, l ++ [s] |> in
      mret (foldl (add_request member thread s) o (as_BlockingRequests s))
  | None => mret (o <| ao_Fresh := false |>)
  end.

(** The threads of the ready members; [None] when one of them cannot be observed. *)
Fixpoint member_threads (slug : string) (l : list TeamMember) (threads : gmap string string) : Ny W (option (gmap string string)) :=
  match l with
  | [] => mret (Some threads)
  | m :: l =>
      if (tm_State m == "ready") && (tm_RetireIntent m == "") then
        if tm_Thread m == "" then mret None else
        held ← ask (nr_recoveryHeld rt slug (tm_Thread m));
        if (held : bool) then mret None else member_threads slug l (<[tm_Address m := tm_Thread m]> threads)
      else member_threads slug l threads
  end.

Definition observeAttention (summary : Summary) (now : Time) : Ny W attentionObservation :=
  identity ← ask (nr_Identity rt summary);
  let o := mkObservation identity.1 (sum_Slug summary) (sum_ThreadID summary) no_activity [] [] false false in
  if bool_decide (identity.2 ≠ None) then mret o else
  owns ← ask (nr_owns rt summary);
  if negb owns then mret o else
  held ← ask (nr_recoveryHeld rt (sum_Slug summary) (sum_ThreadID summary));
  if (held : bool) then mret o else
  receipt ← ask (nr_creation rt (sum_Slug summary));
  if match receipt with Some (state, _) => state != "ready" | None => false end then mret o else
  let o := o <| ao_Eligible := true |> <| ao_Fresh := true |> in
  roster ← ask (nr_roster rt summary);
  let managed := match receipt with Some (_, schema) => schema =? 3 | None => false end in
  if match roster with Err e => (e != ErrNotExist) || managed | Ok _ => false end then mret (o <| ao_Fresh := false |>) else
  let members := match roster with Ok (Some l) => l | _ => [] end in
  threads ← member_threads (sum_Slug summary) members {[ "lead" := sum_ThreadID summary ]};
  match threads with
  | None => mret (o <| ao_Fresh := false |>)
  | Some threads => l ← ranged rt threads; each (observe_thread now) l o
  end.

(** ** Reconciling *)

Definition expire_browser (now : Time) (kv : string * browserRegistration) (s : notificationState) : Ny W notificationState :=
  let '(id, b) := kv in
  mret (if negb (bw_ExpiresAt b =? 0) && (bw_ExpiresAt b <=? UnixMilli now)
        then s <| ns_Browsers ::= <[id := b <| bw_Disabled := true |> <| bw_Result := "expired" |>]> |> else s).
Definition forget_session (observations : gmap string attentionObservation) (kv : string * attentionBaseline)
    (s : notificationState) : Ny W notificationState :=
  let '(slug, b) := kv in
  mret (if bool_decide (observations !! slug = None)
        then s <| ns_Sessions ::= <[slug := b <| ab_Eligible := false |> <| ab_Event := None |>]> |> else s).
Definition observe_session (off : bool) (now : Time) (kv : string * attentionObservation)
    (d : notificationState * gmap string attentionEvent) : Ny W (notificationState * gmap string attentionEvent) :=
  let '(slug, o) := kv in
  let '(s, emitted) := d in
  if ao_Identity o == "" then mret d else
  let '(b, emit) := reduceAttention (nr_sorted rt) (default no_baseline (ns_Sessions s !! slug)) o now in
  let s := s <| ns_Sessions ::= <[slug := b]> |> in
  if emit && negb off && notificationEnabled s slug (ao_Identity o)
  then match ab_Event b with Some e => mret (s, <[slug := e]> emitted) | None => fail ErrNilDereference end
  else mret (s, emitted).

(** A delivery that is still worth sending. *)
Definition wanted (s : notificationState) (off : bool) (now : Time) (d : notificationDelivery) : bool :=
  let e := nd_Event d in
  let baseline := default no_baseline (ns_Sessions s !! ev_Slug e) in
  negb (off || match ns_Browsers s !! nd_Browser d with None => true | Some b => bw_Disabled b end
        || (ev_ExpiresAt e <=? UnixMilli now)
        || ((ev_Kind e != "test")
            && (negb (ab_Eligible baseline) || match ab_Event baseline with None => true | Some x => ev_ID x != ev_ID e end
                || (ab_Identity baseline != ev_Identity e) || negb (notificationEnabled s (ev_Slug e) (ev_Identity e))))).
Definition prune_delivery (off : bool) (now : Time) (kv : string * notificationDelivery) (s : notificationState)
    : Ny W notificationState :=
  mret (if wanted s off now kv.2 then s else s <| ns_Outbox ::= delete kv.1 |>).
Definition queue_delivery (now : Time) (slug : string) (e : attentionEvent) (kv : string * browserRegistration)
    (s : notificationState) : Ny W notificationState :=
  let '(id, b) := kv in
  if bw_Disabled b then mret s else
  let key := notificationDeliveryKey id slug in
  if bool_decide (ns_Outbox s !! key = None) && (512 <=? Z.of_nat (size (ns_Outbox s))) then mret s
  else mret (s <| ns_Outbox ::= <[key := mkDelivery id e 0 (UnixMilli now)]> |>).
Definition queue_event (now : Time) (kv : string * attentionEvent) (s : notificationState) : Ny W notificationState :=
  browsers ← ranged rt (ns_Browsers s);
  each (queue_delivery now kv.1 kv.2) browsers s.

Definition reconcileNotificationState (s : notificationState) (observations : gmap string attentionObservation) (off : bool) (now : Time)
    : Ny W notificationState :=
  browsers ← ranged rt (ns_Browsers s);
  s ← each (expire_browser now) browsers s;
  sessions ← ranged rt (ns_Sessions s);
  s ← each (forget_session observations) sessions s;
  observed ← ranged rt observations;
  '(s, emitted) ← each (observe_session off now) observed (s, ∅);
  outbox ← ranged rt (ns_Outbox s);
  s ← each (prune_delivery off now) outbox s;
  events ← ranged rt emitted;
  each (queue_event now) events s.

Definition observe_summary (now : Time) (summary : Summary) (m : gmap string attentionObservation)
    : Ny W (gmap string attentionObservation) :=
  o ← observeAttention summary now; mret (<[sum_Slug summary := o]> m).
Definition expire_presence (now : Time) (m : gmap string notificationPresence) : gmap string notificationPresence :=
  filter (λ kv, now < pr_Until kv.2) m.
(** Whether the pass may go on to send. *)
Definition reconcile (now : Time) : Ny W bool :=
  profile ← ask (nr_profile rt);
  if bool_decide (profile ≠ None) then mret false else
  listed ← ask (nr_List rt);
  match listed with
  | Err _ => mret false
  | Ok summaries =>
      observations ← each (observe_summary now) summaries ∅;
      modify (nr_others rt);;
      failed ← gets ny_failed;
      if (failed : bool) then mret false else
      modify (λ σ, σ <| ny_presence ::= expire_presence now |>);;
      off ← disabled rt;
      changed ← attempt (change rt (λ s, s ← reconcileNotificationState s observations off now; mret (s, tt)));
      mret (is_ok changed && negb off)
  end.

(** ** Sending *)

(** [notificationRetryDelay] *)
Definition notificationRetryDelay (attempt : Z) (retryAfter : string) (now : Time) : Z :=
  let delay := i64 (i64 (Z.shiftl 1 (Z.min attempt 6)) * 5 * 1000000000) in
  let asked :=
    match Atoi retryAfter with
    | Some seconds => if 0 <? seconds then Some (Z.min seconds 300 * 1000000000) else None
    | None => None
    end in
  let delay :=
    match asked with
    | Some d => Z.max delay d
    | None => match nr_ParseTime rt retryAfter with Some at_ => Z.max delay (sub_time at_ now) | None => delay end
    end in
  Z.min delay (5 * Minute).

(** [notificationPayload] *)
Definition notificationPayload (d : notificationDelivery) : json :=
  json_struct (event_fields (nd_Event d) ++ [field "registrationId" (json_string (nd_Browser d))]).

(** The first delivery that is due and not being looked at; one whose event is being looked at is dropped. *)
Record job := mkJob { jb_Key : string; jb_Delivery : notificationDelivery; jb_Browser : browserRegistration }.
Definition no_job : job := mkJob "" no_delivery no_browser.
Fixpoint select (now : Time) (l : list (string * notificationDelivery)) : Ny W job :=
  match l with
  | [] => mret no_job
  | (k, d) :: l =>
      if UnixMilli now <? nd_NextAt d then select now l else
      presence ← gets ny_presence;
      let p := default no_presence (presence !! notificationDeliveryKey (nd_Browser d) (ev_Slug (nd_Event d))) in
      if (pr_Identity p == ev_Identity (nd_Event d)) && (now <? pr_Until p) then
        (if pr_EventID p == ev_ID (nd_Event d)
         then ignore (change rt (λ s, mret (s <| ns_Outbox ::= delete k |>, tt))) else mret tt);;
        select now l
      else
        state ← gets ny_state;
        mret (mkJob k d (default no_browser (ns_Browsers state !! nd_Browser d)))
  end.

(** The event is re-read from the session before the transport is used. *)
Definition still_relevant (d : notificationDelivery) (now : Time) : Ny W bool :=
  if ev_Kind (nd_Event d) == "test" then mret true else
  found ← ask (nr_Find rt (ev_Slug (nd_Event d)));
  match found with
  | Err _ => mret false
  | Ok summary =>
      o ← observeAttention summary now;
      mret (ao_Eligible o && ao_Fresh o && (ao_Identity o == ev_Identity (nd_Event d)) && attentionRelevant (nd_Event d) o)
  end.

(** What must hold of the state when the transport is used. *)
Definition sendable (σ : NotifySys W) (off : bool) (j : job) (at_ : Time) : bool :=
  let s := ny_state σ in
  let d := jb_Delivery j in
  let e := nd_Event d in
  let presence := default no_presence (ny_presence σ !! notificationDeliveryKey (nd_Browser d) (ev_Slug e)) in
  let baseline := default no_baseline (ns_Sessions s !! ev_Slug e) in
  negb (ny_failed σ) && negb off
  && match ns_Outbox s !! jb_Key j, ns_Browsers s !! nd_Browser d with
     | Some current, Some registered =>
         (ev_ID (nd_Event current) == ev_ID e) && (ev_Revision (nd_Event current) =? ev_Revision e) && (nd_Browser current == nd_Browser d)
         && negb (bw_Disabled registered) && (bw_Origin registered == bw_Origin (jb_Browser j))
         && (sub_Endpoint (bw_Subscription registered) == sub_Endpoint (bw_Subscription (jb_Browser j)))
         && bool_decide (validatePushSubscription rt (bw_Subscription registered) (bw_ExpiresAt registered) at_ = None)
     | _, _ => false
     end
  && (UnixMilli at_ <? ev_ExpiresAt e) && ((pr_Identity presence != ev_Identity e) || negb (at_ <? pr_Until presence))
  && ((ev_Kind e == "test")
      || (ab_Eligible baseline && match ab_Event baseline with Some x => ev_ID x == ev_ID e | None => false end
          && (ab_Identity baseline == ev_Identity e) && notificationEnabled s (ev_Slug e) (ev_Identity e))).

Definition push_of (j : job) (registered : browserRegistration) (private public : string) (now : Time) : push :=
  let e := nd_Event (jb_Delivery j) in
  mkPush (notificationPayload (jb_Delivery j)) (bw_Subscription registered) private public
    (Z.quot (i64 (i64 (ev_ExpiresAt e - UnixMilli now) + 999)) 1000) (String.substring 0 32 (attentionDigest [ev_Identity e])).
Definition transmit (p : push) : Ny W push_answer :=
  modify (λ σ, σ <| ny_sent ::= λ l, l ++ [p] |>);; ask (nr_push rt p).

(** The delivery after an attempt. *)
Definition settle_delivery (j : job) (now : Time) (a : push_answer) (s : notificationState) : notificationState :=
  let d := jb_Delivery j in
  match ns_Outbox s !! jb_Key j with
  | Some current =>
      if (ev_ID (nd_Event current) != ev_ID (nd_Event d)) || negb (ev_Revision (nd_Event current) =? ev_Revision (nd_Event d))
         || (nd_Browser current != nd_Browser d) then s else
      let drop := s <| ns_Outbox ::= delete (jb_Key j) |> in
      match ns_Browsers s !! nd_Browser d with
      | None => drop
      | Some b =>
          let put s b := s <| ns_Browsers ::= <[bw_ID b := b]> |> in
          let code := pa_Code a in
          if bool_decide (pa_Err a = None) && (200 <=? code) && (code <? 300) then put drop (b <| bw_Result := "provider_accepted" |>)
          else if (code =? 404) || (code =? 410) then put drop (b <| bw_Disabled := true |> <| bw_Result := "expired" |>)
          else if bool_decide (pa_Err a ≠ None) || (code =? 429) || (500 <=? code) then
            let attempt := i64 (nd_Attempt current + 1) in
            if 6 <=? attempt then put drop (b <| bw_Result := "delivery_failed" |>)
            else
              let delay := notificationRetryDelay attempt (pa_RetryAfter a) now in
              put (s <| ns_Outbox ::= <[jb_Key j := current <| nd_Attempt := attempt |> <| nd_NextAt := UnixMilli (now + delay) |>]> |>)
                (b <| bw_Result := "retrying" |>)
          else put drop (b <| bw_Result := "provider_refused" |>)
      end
  | None => s
  end.

(** What is sent, if anything: everything up to the last look at the state, under the mutex, which is
    released before the transport is used. *)
Record sending := mkSending { sn_Job : job; sn_Registered : browserRegistration; sn_Private : string; sn_Public : string; sn_At : Time }.
Definition to_send (now : Time) : Ny W (option sending) :=
  failed ← gets ny_failed;
  if (failed : bool) then mret None else
  off ← disabled rt;
  if (off : bool) then mret None else
  state ← gets ny_state;
  l ← ranged rt (ns_Outbox state);
  j ← select now l;
  keys ← gets (λ σ, (ns_PrivateKey (ny_state σ), ns_PublicKey (ny_state σ)));
  modify (nr_others rt);;
  if jb_Key j == "" then mret None else
  relevant ← still_relevant (jb_Delivery j) now;
  if negb relevant then mret None else
  if bw_Disabled (jb_Browser j)
     || bool_decide (validatePushSubscription rt (bw_Subscription (jb_Browser j)) (bw_ExpiresAt (jb_Browser j)) now ≠ None)
  then mret None else
  modify (nr_others rt);;
  sendingAt ← ask (nr_now rt);
  off ← (failed ← gets ny_failed; if (failed : bool) then mret false else disabled rt);
  eligible ← gets (λ σ, sendable σ off j sendingAt);
  registered ← gets (λ σ, default no_browser (ns_Browsers (ny_state σ) !! nd_Browser (jb_Delivery j)));
  mret (if (eligible : bool) then Some (mkSending j registered keys.1 keys.2 sendingAt) else None).

Definition push_sent (now : Time) (x : sending) : push := push_of (sn_Job x) (sn_Registered x) (sn_Private x) (sn_Public x) now.
Definition sendNext (now : Time) : Ny W unit :=
  found ← to_send now;
  match found with
  | None => mret tt
  | Some x =>
      modify (nr_others rt);;
      answer ← transmit (push_sent now x);
      modify (nr_others rt);;
      ignore (change rt (λ s, mret (settle_delivery (sn_Job x) now answer s, tt)))
  end.

(** [run]: a pass of the delivery loop. *)
Definition pass : Ny W unit :=
  now ← ask (nr_now rt);
  may_send ← reconcile now;
  if (may_send : bool) then (now ← ask (nr_now rt); modify (nr_others rt);; sendNext now) else mret tt.
End Ops.
