(* ===== verification/NotificationRequests.v ===== *)
(** * Browser notifications: requests

    [browserNotificationsAPI], [attentionAPI] and [bindCreationNotificationPreference] of
    [web/notifications.go] after the host profile and the origin are checked and the body decoded; each runs
    under the store's mutex. *)

From S2P Require Import Prelude Effects GoStrings GoJson GoTime GoDecode Sha256 Attention LifecycleTypes Notifications NotificationOps.

Open Scope Z_scope.

(** A refusal carries its HTTP status and message. *)
Definition refuse {W A} (status : Z) (message : string) : Ny W A := fail (ErrUpload status message).
(** [writeError(w, r, status, err.Error())] *)
Definition answer_change {W A} (status : Z) (text_of : error → string) (r : result A) : Ny W A :=
  match r with Ok a => mret a | Err e => refuse status (text_of e) end.

Definition invalid_action : error := ErrorsNew "Invalid notification action.".
Definition errNotificationRegistrationExists : error :=
  ErrorsNew "This browser still has a notification registration. Choose Disable again before enabling notifications.".

Record register_input := mkRegister { ri_Subscription : Subscription; ri_ExpirationTime : option Z; ri_RequireFresh : bool }.
(** What a browser is shown of its registration. *)
Record registration_view := mkRegView { rv_PublicKey : string; rv_Registered : bool; rv_Result : string; rv_Available : bool }.
Record test_view := mkTestView { tv_ID : string; tv_Identity : string; tv_Revision : Z; tv_ExpiresAt : Z }.
Record attention_view := mkAttentionView {
  av_Identity : string; av_RootThread : string; av_Enabled : bool; av_Fresh : bool; av_Event : option attentionEvent; av_Revision : Z }.

Section Requests.
Context {W : Type} (rt : NotifyRuntime W) (text_of : error → string).

Definition admitted : Ny W unit :=
  failed ← gets ny_failed;
  if (failed : bool) then refuse 503 "Notification storage is unavailable." else mret tt.

(** GET /api/browser-notifications *)
Definition showRegistration (origin id : string) : Ny W registration_view :=
  admitted;;
  s ← gets ny_state;
  off ← disabled rt;
  let browser := ns_Browsers s !! id in
  let own := match browser with Some b => bw_Origin b == origin | None => false end in
  let b := default no_browser browser in
  mret (mkRegView (ns_PublicKey s) (own && negb (bw_Disabled b)) (if own then bw_Result b else "") (negb off)).

(** ** Registering, testing and disabling a browser *)

(** The last registration of the address that the loop sees. *)
Fixpoint registered_as (origin endpoint : string) (fresh : bool) (l : list (string * browserRegistration)) (id : string) : result string :=
  match l with
  | [] => Ok id
  | (k, b) :: l =>
      if sub_Endpoint (bw_Subscription b) == endpoint then
        if bw_Origin b != origin then Err (ErrorsNew "This subscription belongs to another portal origin.")
        else if fresh then Err errNotificationRegistrationExists
        else registered_as origin endpoint fresh l k
      else registered_as origin endpoint fresh l id
  end.
Definition register (origin : string) (input : register_input) (s : notificationState) : Ny W (notificationState * string) :=
  let expires := default 0 (ri_ExpirationTime input) in
  now ← ask (nr_now rt);
  lift_error (validatePushSubscription rt (ri_Subscription input) expires now);;
  browsers ← ranged rt (ns_Browsers s);
  id ← lift_result (registered_as origin (sub_Endpoint (ri_Subscription input)) (ri_RequireFresh input) browsers "");
  id ← (if id == "" then
          raw ← ask (nr_random rt);
          match raw with Ok bytes => mret (hex_encode bytes) | Err _ => fail (ErrorsNew "Registration could not be created.") end
        else mret id);
  mret (s <| ns_Browsers ::= <[id := mkBrowser id origin (ri_Subscription input) expires false ""]> |>, id).
Definition registerBrowser (origin : string) (input : register_input) : Ny W string :=
  admitted;;
  r ← attempt (change rt (register origin input));
  match r with
  | Ok id => mret id
  | Err e => if errors_Is e errNotificationRegistrationExists then refuse 409 (text_of e) else refuse 400 (text_of e)
  end.

Definition test_event (b : browserRegistration) (now : Time) : attentionEvent :=
  mkEvent 1 (attentionDigest [bw_ID b; nr_String rt now]) ("test-" +:+ bw_ID b) (u64 (UnixMilli now)) "" "" "test" "/"
    (UnixMilli (now + Minute)).
Definition queue_test (origin id : string) (s : notificationState) : Ny W (notificationState * test_view) :=
  match ns_Browsers s !! id with
  | Some b =>
      if bw_Origin b != origin then fail (ErrorsNew "Browser registration is unavailable. Enable notifications again.") else
      if bw_Disabled b then fail (ErrorsNew "Browser notifications are disabled.") else
      off ← disabled rt;
      if (off : bool) then fail (ErrorsNew "Browser notifications are disabled.") else
      now ← ask (nr_now rt);
      let e := test_event b now in
      mret (s <| ns_Outbox ::= <[notificationDeliveryKey (bw_ID b) "test" := mkDelivery (bw_ID b) e 0 (UnixMilli (now + 10 * 1000000000))]> |>,
            mkTestView (ev_ID e) (ev_Identity e) (ev_Revision e) (ev_ExpiresAt e))
  | None => fail (ErrorsNew "Browser registration is unavailable. Enable notifications again.")
  end.
Definition testBrowser (origin id : string) : Ny W test_view :=
  admitted;;
  r ← attempt (change rt (queue_test origin id));
  answer_change 400 text_of r.

Definition drop_deliveries (browser : string) (s : notificationState) : notificationState :=
  s <| ns_Outbox ::= filter (λ kv, nd_Browser kv.2 ≠ browser) |>.
Definition selects (origin id digest : string) (kv : string * browserRegistration) : bool :=
  (bw_Origin kv.2 == origin)
  && negb (((id != "") && (kv.1 != id))
           || ((digest != "") && (hex_encode (Sum256 (bytes_of (sub_Endpoint (bw_Subscription kv.2)))) != digest))).
Definition disable_one (origin id digest : string) (kv : string * browserRegistration) (s : notificationState) : Ny W notificationState :=
  mret (if selects origin id digest kv then drop_deliveries kv.1 (s <| ns_Browsers ::= delete kv.1 |>) else s).
(** Exactly one selector is given, a digest in hexadecimal. *)
Definition disableBrowser (origin : string) (id digest : option string) : Ny W unit :=
  admitted;;
  let well_formed s := match s with Some s => messageDigestPattern s | None => true end in
  if Bool.eqb (bool_decide (id = None)) (bool_decide (digest = None)) || negb (well_formed id) || negb (well_formed digest)
  then refuse 400 "Invalid notification action." else
  r ← attempt (change rt (λ s,
        browsers ← ranged rt (ns_Browsers s);
        s ← each (disable_one origin (default "" id) (default "" digest)) browsers s;
        mret (s, tt)));
  answer_change 400 text_of r.

(** ** A session's attention *)

Definition set_preference (slug identity : string) (enabled : bool) (s : notificationState) : notificationState :=
  s <| ns_Preferences ::= <[slug := mkPreference identity enabled]> |>
    <| ns_Outbox ::= filter (λ kv, ev_Identity (nd_Event kv.2) ≠ identity) |>.
Definition set_presence (origin slug identity registration event : string) : Ny W unit :=
  s ← gets ny_state;
  match ns_Browsers s !! registration with
  | Some b =>
      if (bw_Origin b != origin) || bw_Disabled b then refuse 409 "Browser registration is unavailable." else
      presence ← gets ny_presence;
      let key := notificationDeliveryKey (bw_ID b) slug in
      if (Z.of_nat (size presence) <? 512) || (pr_Identity (default no_presence (presence !! key)) != "") then
        now ← ask (nr_now rt);
        modify (λ σ, σ <| ny_presence ::= <[key := mkPresence identity event (now + 12 * 1000000000)]> |>)
      else mret tt
  | None => refuse 409 "Browser registration is unavailable."
  end.
Definition attentionView (slug : string) (summary : Summary) (identity : string) : Ny W attention_view :=
  s ← gets ny_state;
  now ← ask (nr_now rt);
  let baseline := default no_baseline (ns_Sessions s !! slug) in
  let fresh := (ab_Identity baseline == identity) && ab_Eligible baseline && ab_Fresh baseline
               && (i64 (UnixMilli now - ab_ObservedAt baseline) <? 40000) in
  mret (mkAttentionView identity (sum_ThreadID summary) (notificationEnabled s slug identity) fresh
          (if fresh then ab_Event baseline else None) (ab_Revision baseline)).

(** The body of a POST. *)
Record attention_input := mkAttentionInput { ai_Identity : string; ai_Enabled : option bool; ai_RegistrationID : string; ai_EventID : string }.
Definition attention_post (origin identity : string) (slug : string) (input : attention_input) : Ny W unit :=
  if ai_Identity input != identity then refuse 409 "Session identity changed. Reload before saving." else
  match ai_Enabled input with
  | Some enabled =>
      r ← attempt (change rt (λ s, mret (set_preference slug identity enabled s, tt)));
      match r with Ok _ => mret tt | Err _ => refuse 503 "Notification settings could not be saved." end
  | None => set_presence origin slug identity (ai_RegistrationID input) (ai_EventID input)
  end.
Definition attentionAPI (origin slug : string) (input : option attention_input) : Ny W attention_view :=
  found ← ask (nr_Find rt slug);
  match found with
  | Err _ => refuse 404 ""
  | Ok summary =>
      identity ← ask (nr_Identity rt summary);
      if bool_decide (identity.2 ≠ None) then refuse 503 "Session attention is unavailable." else
      modify (nr_others rt);;
      admitted;;
      match input with Some input => attention_post origin identity.1 slug input | None => mret tt end;;
      attentionView slug summary identity.1
  end.

(** The preference a creation request carried is bound once to the session it made. *)
Definition bindCreationNotificationPreference (available : bool) (slug : string) (requested : option bool) : Ny W unit :=
  if negb available
  then (if bool_decide (requested = Some false) then fail (ErrorsNew "Notification preference cannot be saved.") else mret tt) else
  found ← ask (nr_Find rt slug);
  summary ← lift_result found;
  identity ← ask (nr_Identity rt summary);
  lift_error identity.2;;
  modify (nr_others rt);;
  s ← gets ny_state;
  if match ns_Preferences s !! sum_Slug summary with Some p => np_Identity p == identity.1 | None => false end then mret tt else
  change rt (λ s, mret (s <| ns_Preferences ::= <[sum_Slug summary := mkPreference identity.1 (default true requested)]> |>, tt)).

(** ** Histories: passes of the delivery loop, requests and bindings, one after the other *)

Inductive operation :=
  | op_pass
  | op_register (origin : string) (input : register_input)
  | op_test (origin id : string)
  | op_disable (origin : string) (id digest : option string)
  | op_attention (origin slug : string) (input : option attention_input)
  | op_bind (available : bool) (slug : string) (requested : option bool).
Definition serve (op : operation) : Ny W unit :=
  match op with
  | op_pass => pass rt
  | op_register origin input => ignore (registerBrowser origin input)
  | op_test origin id => ignore (testBrowser origin id)
  | op_disable origin id digest => ignore (disableBrowser origin id digest)
  | op_attention origin slug input => ignore (attentionAPI origin slug input)
  | op_bind available slug requested => ignore (bindCreationNotificationPreference available slug requested)
  end.
Definition history (ops : list operation) (σ : NotifySys W) : NotifySys W := foldl (λ σ op, (serve op σ).1) σ ops.
End Requests.
