(* ===== verification/AttentionFacts.v ===== *)
(** * Attention: what is announced, and once

    An announcement is raised by a request that was not there before or by a lead turn
    that was seen to finish; it is not raised again while its cause lasts. *)

From S2P Require Import Prelude GoStrings GoJson GoTime Attention.
From Stdlib Require Import Permutation.

Open Scope Z_scope.

Section Facts.
Context (sorted : list attentionRequest → list attentionRequest).

Abbreviation reduce := (reduceAttention sorted).

(** The parts of a baseline the steps before an announcement leave alone. *)
Lemma follow_fields fresh previous b o :
  ab_Revision (follow fresh previous b o) = ab_Revision b ∧ ab_Requests (follow fresh previous b o) = ab_Requests b
  ∧ ab_LeadTurn (follow fresh previous b o) = as_CurrentTurnID (ao_Lead o)
  ∧ ab_Identity (follow fresh previous b o) = ab_Identity b ∧ ab_Eligible (follow fresh previous b o) = ab_Eligible b.
Proof. unfold follow, rebase, when. cbv zeta. destruct fresh; repeat case_match; done. Qed.
Lemma drop_stale_fields o requests b :
  ab_Revision (drop_stale o requests b) = ab_Revision b ∧ ab_Requests (drop_stale o requests b) = ab_Requests b
  ∧ ab_LeadTurn (drop_stale o requests b) = ab_LeadTurn b ∧ ab_ArmedTurn (drop_stale o requests b) = ab_ArmedTurn b
  ∧ ab_CompletedTurn (drop_stale o requests b) = ab_CompletedTurn b ∧ ab_Identity (drop_stale o requests b) = ab_Identity b
  ∧ ab_Eligible (drop_stale o requests b) = ab_Eligible b.
Proof. unfold drop_stale, when. repeat case_match; done. Qed.

(** The baseline a fresh observation announces from, and the request it finds new. *)
Definition followed (previous : attentionBaseline) (o : attentionObservation) (now : Time) : attentionBaseline :=
  let b := previous <| ab_Identity := ao_Identity o |> <| ab_RootThread := ao_RootThread o |>
             <| ab_Eligible := ao_Eligible o |> <| ab_Fresh := ao_Fresh o |> in
  let at_ms := as_ObservedAtMS (ao_Lead o) in
  let b := b <| ab_ObservedAt := if at_ms =? 0 then UnixMilli now else at_ms |> in
  let b := follow (gap previous o now) previous b o in
  drop_stale o (sorted (ao_Requests o)) (b <| ab_Requests := Some (map rq_Key (sorted (ao_Requests o))) |>).
Definition new_request (previous : attentionBaseline) (o : attentionObservation) : option attentionRequest :=
  List.find (λ r, negb (bool_decide (rq_Key r ∈ elems (ab_Requests previous)))) (sorted (ao_Requests o)).

(** The four ways an observation is reduced. *)
Lemma reduce_cases previous o now :
  (ao_Eligible o = false ∧ (reduce previous o now).2 = false ∧ ab_Requests (reduce previous o now).1 = ab_Requests previous
     ∧ ab_LeadTurn (reduce previous o now).1 = ab_LeadTurn previous ∧ ab_ArmedTurn (reduce previous o now).1 = ""
     ∧ ab_CompletedTurn (reduce previous o now).1 = ab_CompletedTurn previous ∧ ab_Event (reduce previous o now).1 = None)
  ∨ (ao_Eligible o = true ∧ ao_Fresh o = false ∧ reduce previous o now = (previous <| ab_Identity := ao_Identity o |>
     <| ab_RootThread := ao_RootThread o |> <| ab_Eligible := ao_Eligible o |> <| ab_Fresh := ao_Fresh o |>, false))
  ∨ (ao_Eligible o = true ∧ ao_Fresh o = true ∧ ∃ first rest, sorted (ao_Requests o) = first :: rest ∧
       reduce previous o now = raise_request (gap previous o now) (followed previous o now) o now (new_request previous o) first)
  ∨ (ao_Eligible o = true ∧ ao_Fresh o = true ∧ sorted (ao_Requests o) = [] ∧
       reduce previous o now = raise_done (followed previous o now) o now).
Proof.
  unfold reduceAttention. cbv zeta. destruct (ao_Eligible o) eqn:Ee; cbn [negb]; [|left; done].
  right. destruct (ao_Fresh o) eqn:Ef; cbn [negb]; [|left; done]. right.
  destruct (sorted (ao_Requests o)) as [|first rest] eqn:Es; [right|left; split; [done|]; split; [done|]; exists first, rest; split; [done|]].
  - split; [done|]. split; [done|]. split; [done|]. unfold followed. rewrite Es, Ee, Ef. done.
  - unfold followed, new_request. rewrite Es, Ee, Ef. done.
Qed.

Lemma followed_requests previous o now : ab_Requests (followed previous o now) = Some (map rq_Key (sorted (ao_Requests o))).
Proof.
  unfold followed. cbv zeta. destruct (drop_stale_fields o (sorted (ao_Requests o))
    (follow (gap previous o now) previous (previous <| ab_Identity := ao_Identity o |> <| ab_RootThread := ao_RootThread o |>
      <| ab_Eligible := ao_Eligible o |> <| ab_Fresh := ao_Fresh o |>
      <| ab_ObservedAt := if as_ObservedAtMS (ao_Lead o) =? 0 then UnixMilli now else as_ObservedAtMS (ao_Lead o) |>) o
     <| ab_Requests := Some (map rq_Key (sorted (ao_Requests o))) |>)) as (_ & -> & _). done.
Qed.

Lemma followed_fields previous o now :
  ab_Revision (followed previous o now) = ab_Revision previous ∧ ab_LeadTurn (followed previous o now) = as_CurrentTurnID (ao_Lead o)
  ∧ ab_Identity (followed previous o now) = ao_Identity o ∧ ab_Eligible (followed previous o now) = ao_Eligible o.
Proof.
  unfold followed. cbv zeta.
  match goal with |- context [drop_stale ?o ?r ?b] => destruct (drop_stale_fields o r b) as (-> & _ & -> & _ & _ & -> & ->) end.
  match goal with |- context [follow ?f ?p ?b ?o] =>
    destruct (follow_fields f p b o) as (E1 & _ & E3 & E4 & E5); destruct (follow f p b o) end.
  cbn in *. by subst.
Qed.

(** The lead's turn across an observation: after a gap a running turn is armed and a completed
    one known; otherwise a turn is armed when it changes or runs. *)
Lemma followed_turns previous o now :
  let b := followed previous o now in
  let turn := as_CurrentTurnID (ao_Lead o) in
  let status := as_LatestTurnStatus (ao_Lead o) in
  if gap previous o now
  then (ab_ArmedTurn b = if status == "inProgress" then turn else "")
       ∧ (ab_CompletedTurn b = if status == "completed" then turn else "")
  else ab_CompletedTurn b = ab_CompletedTurn previous
       ∧ ab_ArmedTurn b = (if (turn != ab_LeadTurn previous) || ((turn != "") && (status == "inProgress")) then turn else ab_ArmedTurn previous).
Proof.
  cbv zeta. unfold followed. cbv zeta.
  match goal with |- context [drop_stale ?o ?r ?b] => destruct (drop_stale_fields o r b) as (_ & _ & _ & -> & -> & _) end.
  unfold follow, rebase, when. cbv zeta. destruct (gap previous o now); cbn [negb andb].
  - destruct (as_LatestTurnStatus (ao_Lead o) == "completed") eqn:E1.
    + apply bool_decide_eq_true_1 in E1. rewrite E1. done.
    + destruct (as_LatestTurnStatus (ao_Lead o) == "inProgress") eqn:E2; done.
  - cbn. destruct (as_CurrentTurnID (ao_Lead o) != ab_LeadTurn previous) eqn:E1; cbn [orb];
      destruct ((as_CurrentTurnID (ao_Lead o) != "") && (as_LatestTurnStatus (ao_Lead o) == "inProgress")); done.
Qed.

(** ** One announcement *)

Lemma raise_request_emits fresh b o now n first b' :
  raise_request fresh b o now n first = (b', true) →
  fresh = false ∧ ∃ r, n = Some r ∧ ab_Revision b' = u64 (ab_Revision b + 1)
    ∧ ab_Event b' = Some (request_event o now (ab_Revision b') r) ∧ ab_Requests b' = ab_Requests b.
Proof.
  unfold raise_request. case_match; [done|]. cbv zeta. destruct (match ab_Event b with None => true | Some e => _ end); [|done].
  intros [= <- E]. apply andb_true_iff in E as [E1%negb_true_iff E2%bool_decide_eq_true_1]. split; [done|].
  destruct n as [r|]; [|done]. exists r. done.
Qed.
Lemma raise_done_emits b o now b' :
  raise_done b o now = (b', true) →
  all_idle o = true ∧ as_CurrentTurnID (ao_Lead o) ≠ "" ∧ as_LatestTurnStatus (ao_Lead o) = "completed"
  ∧ ab_ArmedTurn b = as_CurrentTurnID (ao_Lead o) ∧ ab_CompletedTurn b ≠ as_CurrentTurnID (ao_Lead o)
  ∧ ab_Revision b' = u64 (ab_Revision b + 1) ∧ ab_Event b' = Some (done_event o now (ab_Revision b'))
  ∧ ab_CompletedTurn b' = as_CurrentTurnID (ao_Lead o) ∧ ab_LeadTurn b' = ab_LeadTurn b.
Proof.
  unfold raise_done. cbv zeta. destruct (_ && _) eqn:E; [|done]. intros [= <-].
  rewrite !andb_true_iff, !negb_true_iff in E. destruct E as [[[[H1 H2] H3] H4] H5].
  apply bool_decide_eq_false_1 in H2, H5. apply bool_decide_eq_true_1 in H3, H4. done.
Qed.

Lemma new_request_spec previous o r : (∀ l, sorted l ≡ₚ l) → new_request previous o = Some r →
  r ∈ ao_Requests o ∧ rq_Key r ∉ elems (ab_Requests previous).
Proof.
  intros Hs H. apply List.find_some in H as [Hin H%negb_true_iff%bool_decide_eq_false_1].
  apply list_elem_of_In in Hin. by rewrite (Hs (ao_Requests o)) in Hin.
Qed.

(** An announcement comes only from a fresh observation of a session the portal watches,
    without a gap since the last one: either a request that was not there before, or, with
    nothing asked and every thread idle, a lead turn that completed and was not announced or
    known to be complete.  Its event takes the session's next revision, names the session
    and is relevant to what was observed. *)
Theorem announcement_caused previous o now b :
  (∀ l, sorted l ≡ₚ l) → (∀ r, r ∈ ao_Requests o → rq_Kind r ≠ "done") → reduce previous o now = (b, true) →
  ao_Eligible o = true ∧ ao_Fresh o = true ∧ gap previous o now = false ∧ ab_Revision b = u64 (ab_Revision previous + 1) ∧
  ∃ e, ab_Event b = Some e ∧ ev_Revision e = ab_Revision b ∧ ev_Identity e = ao_Identity o ∧ ev_Slug e = ao_Slug o ∧
    attentionRelevant e o = true ∧
    ((∃ r, r ∈ ao_Requests o ∧ rq_Key r ∉ elems (ab_Requests previous) ∧ e = request_event o now (ab_Revision b) r) ∨
     (ao_Requests o = [] ∧ all_idle o = true ∧ as_LatestTurnStatus (ao_Lead o) = "completed"
      ∧ as_CurrentTurnID (ao_Lead o) ≠ ab_CompletedTurn previous ∧ e = done_event o now (ab_Revision b))).
Proof.
  intros Hs Hk H. destruct (reduce_cases previous o now) as [(_ & E & _)|[(_ & _ & E)|[(He & Hf & first & rest & Hsort & E)|(He & Hf & Hsort & E)]]];
    rewrite H in E; [done|done| |].
  - symmetry in E. apply raise_request_emits in E as (Hg & r & Hr & Hrev & Hev & _).
    destruct (followed_fields previous o now) as (Er & _). rewrite Er in Hrev.
    apply new_request_spec in Hr as [Hin Hnew]; [|done]. split; [done|]. split; [done|]. split; [done|]. split; [done|].
    eexists. split; [exact Hev|]. split; [done|]. split; [done|]. split; [done|]. split; [|left; by exists r].
    unfold attentionRelevant. cbn [ev_Kind ev_ID request_event]. rewrite bool_decide_false by by apply Hk. cbn [negb].
    apply existsb_exists. exists r. split; [by apply list_elem_of_In|]. by apply bool_decide_eq_true_2.
  - symmetry in E. apply raise_done_emits in E as (Hi & Hne & Hst & Ha & Hc & Hrev & Hev & _).
    destruct (followed_fields previous o now) as (Er & _). rewrite Er in Hrev.
    pose proof (followed_turns previous o now) as Ht. cbv zeta in Ht. rewrite Hst in Ht.
    assert (ao_Requests o = []) as Hnil.
    { apply Permutation_nil_r. rewrite <- Hsort. symmetry. apply Hs. }
    split; [done|]. split; [done|].
    destruct (gap previous o now) eqn:Hg.
    { destruct Ht as [Ht _]. rewrite Ha in Ht. done. }
    destruct Ht as [Hcp _]. rewrite Hcp in Hc. split; [done|]. split; [done|].
    eexists. split; [exact Hev|]. split; [done|]. split; [done|]. split; [done|]. split; [|right; split_and!; try done; congruence].
    unfold all_idle in Hi. apply andb_true_iff in Hi as [Hi1 Hi2].
    unfold attentionRelevant. cbn [ev_Kind ev_ID done_event]. rewrite bool_decide_true by done. cbn [negb].
    rewrite Hnil, Hst, Hi1, !bool_decide_true by done. cbn. exact Hi2.
Qed.

(** ** Observations in a row *)

Definition run (b : attentionBaseline) (l : list (attentionObservation * Time)) : attentionBaseline :=
  foldl (λ b x, (reduce b x.1 x.2).1) b l.

(** What an announcement is about: the key of a request, or the lead's turn. *)
Inductive subject := s_request (key : string) | s_turn (turn : string).
Definition subject_of (previous : attentionBaseline) (o : attentionObservation) : subject :=
  match new_request previous o with Some r => s_request (rq_Key r) | None => s_turn (as_CurrentTurnID (ao_Lead o)) end.
(** It lasts: the request is still asked, the turn is still the lead's and does not run again. *)
Definition lasts (s : subject) (o : attentionObservation) : Prop :=
  match s with
  | s_request key => key ∈ map rq_Key (ao_Requests o)
  | s_turn turn => as_CurrentTurnID (ao_Lead o) = turn ∧ as_LatestTurnStatus (ao_Lead o) ≠ "inProgress"
  end.
(** As far as an observation tells: one of a session that is not watched, or a stale one, says nothing. *)
Definition lasting (s : subject) (o : attentionObservation) : Prop := ao_Eligible o = true → ao_Fresh o = true → lasts s o.
(** The baseline remembers it. *)
Definition remembers (s : subject) (b : attentionBaseline) : Prop :=
  match s with
  | s_request key => key ∈ elems (ab_Requests b)
  | s_turn turn => turn ≠ "" ∧ ab_LeadTurn b = turn ∧ (ab_CompletedTurn b = turn ∨ ab_ArmedTurn b = "")
  end.

Lemma raise_fields fresh b o now n first b' emit :
  raise_request fresh b o now n first = (b', emit) ∨ raise_done b o now = (b', emit) →
  ab_Requests b' = ab_Requests b ∧ ab_LeadTurn b' = ab_LeadTurn b ∧ ab_ArmedTurn b' = ab_ArmedTurn b
  ∧ (ab_CompletedTurn b' = ab_CompletedTurn b ∨ ab_CompletedTurn b' = as_CurrentTurnID (ao_Lead o)).
Proof.
  unfold raise_request, raise_done. cbv zeta. intros [H|H]; revert H; repeat case_match; intros [= <- _]; cbn; auto.
Qed.

(** A fresh observation under which the subject lasts leaves it remembered, and the announcing
    baseline remembers the turn. *)
Lemma followed_remembers previous o now turn :
  remembers (s_turn turn) previous → lasts (s_turn turn) o → remembers (s_turn turn) (followed previous o now).
Proof.
  intros (Hne & Hl & Hm) [Ht Hst]. pose proof (followed_turns previous o now) as H. cbv zeta in H.
  destruct (followed_fields previous o now) as (_ & E & _). split; [done|]. split; [by rewrite E|].
  rewrite (bool_decide_false (as_LatestTurnStatus _ = _)) in H by done.
  destruct (gap previous o now).
  - destruct H as [H _]. by right.
  - destruct H as [H1 H2]. rewrite H1, H2, Ht, Hl, bool_decide_true by done. cbn [negb orb]. rewrite andb_false_r. done.
Qed.

Lemma reduce_remembers s previous o now : (∀ l, sorted l ≡ₚ l) →
  remembers s previous → lasting s o → remembers s (reduce previous o now).1.
Proof.
  intros Hs Hm Hlast.
  destruct (reduce_cases previous o now) as [(_ & _ & E1 & E2 & E3 & E4 & _)|[(_ & _ & ->)|H]].
  - destruct s as [key|turn]; cbn; [by rewrite E1|]. destruct Hm as (? & ? & _). rewrite E2, E3. auto.
  - by destruct s.
  - assert (lasts s o) as Hl by (destruct H as [(He & Hf & _)|(He & Hf & _)]; by apply Hlast).
    assert (∃ first b emit, (raise_request (gap previous o now) (followed previous o now) o now (new_request previous o) first = (b, emit)
      ∨ raise_done (followed previous o now) o now = (b, emit)) ∧ reduce previous o now = (b, emit)) as (first & b & emit & Hr & ->).
    { destruct H as [(_ & _ & first & rest & _ & E)|(_ & _ & _ & E)]; [exists first|exists (mkRequest "" "" "")]; destruct (reduce previous o now) as [b emit];
        exists b, emit; split; auto. }
    cbn [fst]. apply raise_fields in Hr as (E1 & E2 & E3 & E4). destruct s as [key|turn]; cbn.
    + rewrite E1, followed_requests. cbn. by rewrite (Hs (ao_Requests o)).
    + apply (followed_remembers previous o now) in Hm as (Hne & Hlt & Hor); [|done]. rewrite E2, E3. split; [done|]. split; [done|].
      destruct Hl as [Ht _]. destruct E4 as [-> | ->]; auto.
Qed.

Lemma announcement_remembered previous o now b : (∀ l, sorted l ≡ₚ l) →
  reduce previous o now = (b, true) → remembers (subject_of previous o) b.
Proof.
  intros Hs H. destruct (reduce_cases previous o now) as [(_ & E & _)|[(_ & _ & E)|[(_ & _ & first & rest & _ & E)|(_ & _ & Hsort & E)]]];
    rewrite H in E; [done|done| |]; symmetry in E.
  - apply raise_request_emits in E as (_ & r & Hr & _ & _ & Hb). unfold subject_of. rewrite Hr. cbn. rewrite Hb, followed_requests. cbn.
    rewrite Hs. apply new_request_spec in Hr as [Hin _]; [|done]. by apply list_elem_of_fmap_2.
  - apply raise_done_emits in E as (_ & Hne & _ & _ & _ & _ & _ & Hc & Hl). unfold subject_of, new_request. rewrite Hsort. cbn.
    rewrite Hl. destruct (followed_fields previous o now) as (_ & -> & _). auto.
Qed.

Lemma remembered_silent previous o now b s : (∀ l, sorted l ≡ₚ l) →
  remembers s previous → lasting s o → reduce previous o now = (b, true) → subject_of previous o ≠ s.
Proof.
  intros Hs Hm Hlast H <-. destruct (reduce_cases previous o now) as [(_ & E & _)|[(_ & _ & E)|[(_ & _ & first & rest & _ & E)|(He & Hf & Hsort & E)]]];
    rewrite H in E; [done|done| |]; symmetry in E.
  - apply raise_request_emits in E as (_ & r & Hr & _). revert Hm. unfold subject_of. rewrite Hr. cbn.
    by apply new_request_spec in Hr as [_ ?].
  - assert (lasts (subject_of previous o) o) as Hl by by apply Hlast.
    apply raise_done_emits in E as (_ & Hne & _ & Ha & Hc & _). revert Hm Hl. unfold subject_of, new_request. rewrite Hsort. cbn [List.find].
    intros Hm Hl. apply (followed_remembers previous o now) in Hm as (_ & _ & Hor); [|done]. destruct Hor; congruence.
Qed.

(** C27: an announcement is made once: however many observations follow, with gaps, stale ones or
    ones of a session that is not watched for a while among them - which report no requests - the same
    request or turn is not announced again while it lasts, that is, as long as every fresh
    observation still shows it. *)
Theorem announced_once previous o now b l o' now' b' :
  (∀ l, sorted l ≡ₚ l) → reduce previous o now = (b, true) →
  Forall (λ x, ao_Eligible x.1 = true → ao_Fresh x.1 = true → lasts (subject_of previous o) x.1) l →
  lasts (subject_of previous o) o' → reduce (run b l) o' now' = (b', true) → subject_of (run b l) o' ≠ subject_of previous o.
Proof.
  intros Hs H Hl Ho' H'. eapply remembered_silent; [done| |by intros _ _; exact Ho'|exact H'].
  apply announcement_remembered in H; [|done]. clear H' Ho'. revert b H.
  induction Hl as [|[x t] l Hx _ IH]; intros b Hb; [done|]. cbn. apply IH. by apply reduce_remembers.
Qed.
End Facts.
