(* ===== verification/NotificationFacts.v ===== *)
(** * Browser notifications: reasoning about the store

    Procedures that only ask the rest of the system, loops over maps, and the rule for
    [change]. *)

From S2P Require Import Prelude Effects GoStrings GoJson GoTime LifecycleTypes GoDecode Attention Notifications NotificationOps NotificationRequests.
From Stdlib Require Import Permutation.

Open Scope Z_scope.

(** Only the world moved. *)
Record kept {W} (σ σ' : NotifySys W) : Prop := {
  k_state : ny_state σ' = ny_state σ; k_failed : ny_failed σ' = ny_failed σ; k_presence : ny_presence σ' = ny_presence σ;
  k_file : ny_file σ' = ny_file σ; k_sent : ny_sent σ' = ny_sent σ }.
#[export] Instance kept_preorder {W} : PreOrder (@kept W).
Proof. split; [by split|]. intros σ1 σ2 σ3 [] []. split; congruence. Qed.

Section Rules.
Context {W : Type} (rt : NotifyRuntime W).

Lemma nwp_ask {A} (f : W → W * A) (Q : NotifySys W → result A → Prop) σ :
  (∀ w a, f (ny_world σ) = (w, a) → Q (σ <| ny_world := w |>) (Ok a)) → wp (ask f) Q σ.
Proof. intros H. unfold wp, ask. destruct (f (ny_world σ)) as [w a] eqn:E. simpl. by apply H. Qed.
Lemma kept_ask {A} (f : W → W * A) : rel_steps kept (ask f).
Proof. intros σ. unfold ask. by destruct (f (ny_world σ)). Qed.
Lemma kept_ncall name : rel_steps kept (ncall rt name).
Proof. apply rel_bind; [typeclasses eauto|apply kept_ask|]. intros e. apply rel_lift_error. typeclasses eauto. Qed.
Hint Resolve kept_ask kept_ncall : proc.
Lemma kept_ranged {A} (m : gmap string A) : rel_steps kept (ranged rt m).
Proof. unfold ranged. procs. Qed.
Lemma kept_disabled : rel_steps kept (disabled rt).
Proof. unfold disabled. procs. Qed.
Lemma kept_each {A D} (body : A → D → Ny W D) l d : (∀ a d, rel_steps kept (body a d)) → rel_steps kept (each body l d).
Proof.
  intros H. revert d. induction l as [|a l IH]; intros d; simpl; [apply rel_ret; typeclasses eauto|].
  apply rel_bind; [typeclasses eauto|auto..].
Qed.
Hint Resolve kept_ranged kept_disabled kept_each : proc.

Lemma wp_kept {A} (m : Ny W A) (Q : NotifySys W → result A → Prop) σ :
  rel_steps kept m → (∀ σ' r, kept σ σ' → Q σ' r) → wp m Q σ.
Proof. intros Hm H. unfold wp. apply H. apply Hm. Qed.

(** Visiting a map: the pairs are the map's. *)
Lemma wp_ranged {A} (m : gmap string A) (Q : NotifySys W → result (list (string * A)) → Prop) σ :
  (∀ σ' l, kept σ σ' → (∀ k a, (k, a) ∈ l → m !! k = Some a) → Q σ' (Ok l)) → wp (ranged rt m) Q σ.
Proof.
  intros H. unfold ranged. apply wp_bind, nwp_ask. intros w ks _. apply wp_ret. apply H; [by split|].
  intros k a. rewrite list_elem_of_omap. intros (k' & _ & E).
  destruct (m !! k') eqn:Em; simpl in E; [|done]. by injection E as -> ->.
Qed.

(** A map is visited whole, each key once. *)
Definition visits_all : Prop := ∀ ks w, (nr_range rt ks w).2 ≡ₚ ks.
Lemma visited_pairs {A} (m : gmap string A) l :
  (∀ k a, (k, a) ∈ l → m !! k = Some a) → omap (λ k, a ← m !! k; Some (k, a)) (map fst l) = l.
Proof.
  induction l as [|[k a] l IH]; intros Hl; [done|]. cbn. rewrite (Hl k a) by set_solver. cbn. f_equal. apply IH. set_solver.
Qed.
Lemma wp_ranged_all {A} (m : gmap string A) (Q : NotifySys W → result (list (string * A)) → Prop) σ :
  visits_all → (∀ σ' l, kept σ σ' → l ≡ₚ map_to_list m → Q σ' (Ok l)) → wp (ranged rt m) Q σ.
Proof.
  intros Hlaw H. unfold ranged. apply wp_bind, nwp_ask. intros w ks E. apply wp_ret, H; [by split|].
  pose proof (Hlaw (map fst (map_to_list m)) (ny_world σ)) as Hp. rewrite E in Hp. cbn in Hp.
  transitivity (omap (λ k, a ← m !! k; Some (k, a)) (map fst (map_to_list m))).
  - by apply omap_Permutation.
  - rewrite visited_pairs; [done|]. intros k a. apply elem_of_map_to_list.
Qed.

(** A loop that only asks, by an invariant of what is left to visit. *)
Lemma wp_each {A D} (I : list A → D → Prop) (body : A → D → Ny W D) l d (Q : NotifySys W → result D → Prop) σ :
  (∀ a l d σ, I (a :: l) d → wp (body a d) (λ σ' r, kept σ σ' ∧ match r with Ok d' => I l d' | Err _ => False end) σ) →
  I l d → (∀ σ' d, kept σ σ' → I [] d → Q σ' (Ok d)) → wp (each body l d) Q σ.
Proof.
  intros Hb. revert d Q σ. induction l as [|a l IH]; intros d Q σ Hi Hq; simpl; [by apply wp_ret, Hq|].
  apply wp_bind. eapply wp_mono; [by apply Hb|]. intros σ1 [d1|e] [H1 H2]; [|done]. apply IH; [done|]. intros σ2 d2 H3 H4. apply Hq; [by etrans|done].
Qed.

(** ** Saving and changing *)

Lemma save_state_spec s (Q : NotifySys W → result unit → Prop) σ :
  (∀ σ' e, kept σ σ' → Q σ' (Err e)) →
  (∀ σ' e, ny_state σ' = ny_state σ → ny_failed σ' = ny_failed σ → ny_presence σ' = ny_presence σ → ny_sent σ' = ny_sent σ →
     Q σ' (Err e)) →
  (∀ σ', over_limits s = false → ny_state σ' = ny_state σ → ny_failed σ' = ny_failed σ → ny_presence σ' = ny_presence σ →
     ny_sent σ' = ny_sent σ → ny_file σ' = Some s → Q σ' (Ok tt)) →
  wp (save_state rt s) Q σ.
Proof.
  intros Hk Herr Hok. unfold save_state. destruct (over_limits s) eqn:Eo; [by apply wp_fail, Hk|].
  destruct (State_json _ _) as [data|]; [|by apply wp_fail, Hk]. case_match; [by apply wp_fail, Hk|].
  apply wp_bind, wp_kept; [procs|]. intros σ1 [[]|e] H1; [|by apply Hk].
  apply wp_bind, wp_kept; [procs|]. intros σ2 [[]|e] H2; [|apply Hk; by etrans].
  apply wp_bind, wp_modify, wp_kept; [procs|]. intros σ3 r [H3 H4 H5 H6 H7]. cbn in *. destruct H1, H2.
  destruct r as [[]|e]; [apply Hok|apply Herr]; congruence.
Qed.

(** What a change leaves: the state it had; or, with storage failed, that state in memory; or
    the new state in memory and on disk. *)
Inductive outcome {A} (R : notificationState → A → Prop) (σ σ' : NotifySys W) : result A → Prop :=
  | o_refused e : kept σ σ' → outcome R σ σ' (Err e)
  | o_fenced e : ny_failed σ = false → ny_failed σ' = true → ny_state σ' = ny_state σ → ny_presence σ' = ny_presence σ → ny_sent σ' = ny_sent σ →
      outcome R σ σ' (Err e)
  | o_same s a : R s a → kept σ σ' → ny_failed σ = false → State_json (nr_marshal rt) s = State_json (nr_marshal rt) (ny_state σ) →
      outcome R σ σ' (Ok a)
  | o_saved s a : R s a → over_limits s = false → ny_state σ' = s → ny_file σ' = Some s → ny_failed σ = false → ny_failed σ' = false →
      ny_presence σ' = ny_presence σ → ny_sent σ' = ny_sent σ → outcome R σ σ' (Ok a).

Lemma change_spec {A} (update : notificationState → Ny W (notificationState * A)) (R : notificationState → A → Prop) σ :
  (∀ σ1, kept σ σ1 → wp (update (copy_state (ny_state σ))) (λ σ2 r, kept σ1 σ2 ∧ match r with Ok (s, a) => R s a | Err _ => True end) σ1) →
  wp (change rt update) (outcome R σ) σ.
Proof.
  intros Hu. unfold change, fence. apply wp_bind, wp_gets. destruct (ny_failed σ) eqn:Ef; [by apply wp_fail, o_refused|].
  apply wp_bind, wp_gets. destruct (State_json _ (ny_state σ)) as [data|] eqn:Ed.
  2:{ apply wp_bind, wp_modify, wp_fail. by apply o_fenced. }
  apply wp_bind. eapply wp_mono; [by apply Hu|]. intros σ2 [[s a]|e] [H2 HR]; [|by apply o_refused].
  pose proof H2 as [K1 K2 K3 K4 K5]. destruct (State_json _ s) as [next|] eqn:En.
  2:{ apply wp_bind, wp_modify, wp_fail. by apply o_fenced. }
  case_match eqn:Eq; [apply wp_ret; apply bool_decide_eq_true_1 in Eq; subst next; eapply o_same; [done..|congruence]|].
  apply wp_bind, wp_attempt, save_state_spec.
  - intros σ3 e [L1 L2 L3 L4 L5]. apply wp_bind, wp_modify, wp_fail. apply o_fenced; [done|done|..]; cbn; congruence.
  - intros σ3 e L1 L2 L3 L5. apply wp_bind, wp_modify, wp_fail. apply o_fenced; [done|done|..]; cbn; congruence.
  - intros σ3 Ho L1 L2 L3 L4 L5. apply wp_bind, wp_modify, wp_ret. eapply o_saved; try done; cbn; congruence.
Qed.
End Rules.

#[export] Hint Resolve kept_ask kept_ncall kept_ranged kept_disabled kept_each : proc.

(** ** Browser notifications: what the store keeps

    Every operation leaves the store's state on disk and within its limits until a write
    fails; from then on nothing is changed or sent.  A push is made only in a state that
    wants it, and a delivery is attempted a bounded number of times. *)

(** Until a write fails the state is what the file holds, within the limits. *)
Definition sound {W} (σ : NotifySys W) : Prop :=
  ny_failed σ = false → ny_file σ = Some (ny_state σ) ∧ over_limits (ny_state σ) = false.
(** Storage failed, and nothing but presence has changed since. *)
Definition frozen {W} (σ σ' : NotifySys W) : Prop :=
  ny_failed σ' = true ∧ ny_state σ' = ny_state σ ∧ ny_file σ' = ny_file σ ∧ ny_sent σ' = ny_sent σ.
Definition fences {W} (σ σ' : NotifySys W) : Prop :=
  (sound σ → sound σ') ∧ (ny_failed σ = true → frozen σ σ').
#[export] Instance fences_preorder {W} : PreOrder (@fences W).
Proof.
  split; [by intros σ; split|]. intros σ1 σ2 σ3 [H1 H2] [H3 H4]. split; [auto|].
  intros (E1 & E2 & E3 & E4)%H2. destruct H4 as (F1 & F2 & F3 & F4); [done|]. split_and!; congruence.
Qed.

Section Fence.
Context {W : Type} (rt : NotifyRuntime W) (text_of : error → string).
Context (others : ∀ σ, fences σ (nr_others rt σ)).

Lemma kept_fences (σ σ' : NotifySys W) : kept σ σ' → fences σ σ'.
Proof. intros [E1 E2 E3 E4 E5]. unfold fences, sound, frozen. rewrite E1, E2, E4, E5. done. Qed.
Lemma outcome_fences {A} (R : notificationState → A → Prop) (σ σ' : NotifySys W) r : outcome rt R σ σ' r → fences σ σ'.
Proof.
  intros []; [by apply kept_fences| |by apply kept_fences|].
  - split; [unfold sound; congruence|congruence].
  - split; [intros _ _; split; congruence|congruence].
Qed.

(** Whatever only asks and changes the state through the store keeps the fence. *)
Lemma fences_kept {A} (m : Ny W A) : rel_steps kept m → rel_steps fences m.
Proof. intros H σ. apply kept_fences, H. Qed.
Lemma fences_change {A} (update : notificationState → Ny W (notificationState * A)) :
  (∀ s, rel_steps kept (update s)) → rel_steps fences (change rt update).
Proof.
  intros H σ. apply (outcome_fences (λ _ _, True) σ _ (change rt update σ).2). apply change_spec.
  intros σ1 _. apply wp_kept; [apply H|]. by intros σ2 [[]|].
Qed.
Lemma fences_others : rel_steps fences (modify (nr_others rt)).
Proof. apply rel_modify, others. Qed.
Lemma fences_ask {A} (f : W → W * A) : rel_steps fences (ask f).
Proof. apply fences_kept, kept_ask. Qed.
Lemma fences_ranged {A} (m : gmap string A) : rel_steps fences (ranged rt m).
Proof. apply fences_kept. procs. Qed.
Lemma fences_disabled : rel_steps fences (disabled rt).
Proof. apply fences_kept. procs. Qed.
Lemma fences_presence f : rel_steps fences (modify (λ σ : NotifySys W, σ <| ny_presence ::= f |>)).
Proof. apply rel_modify. intros σ. by split. Qed.
Hint Resolve fences_change fences_others fences_ask fences_ranged fences_disabled fences_presence : proc.

(** Observing and the updates of the state only ask. *)
Lemma kept_observe_thread now kv o : rel_steps kept (observe_thread rt now kv o).
Proof. destruct kv. unfold observe_thread. cbv zeta. procs. Qed.
Lemma kept_member_threads slug l threads : rel_steps kept (member_threads rt slug l threads).
Proof. revert threads. induction l as [|m l IH]; intros threads; simpl; procs. Qed.
Hint Resolve kept_observe_thread kept_member_threads : proc.
Lemma kept_observeAttention summary now : rel_steps kept (observeAttention rt summary now).
Proof. unfold observeAttention. procs. Qed.
Hint Resolve kept_observeAttention : proc.
Lemma kept_still_relevant d now : rel_steps kept (still_relevant rt d now).
Proof. unfold still_relevant. procs. Qed.
Lemma kept_queue_delivery now slug e kv s : rel_steps kept (queue_delivery (W:=W) now slug e kv s).
Proof. destruct kv. unfold queue_delivery. cbv zeta. procs. Qed.
Hint Resolve kept_queue_delivery : proc.
Lemma kept_queue_event now kv s : rel_steps kept (queue_event rt now kv s).
Proof. unfold queue_event. procs. Qed.
Lemma kept_observe_session off now kv d : rel_steps kept (observe_session rt off now kv d).
Proof. destruct kv, d. unfold observe_session. cbv zeta. procs. Qed.
Lemma kept_expire_browser now kv s : rel_steps kept (expire_browser (W:=W) now kv s).
Proof. destruct kv. unfold expire_browser. procs. Qed.
Lemma kept_forget_session m kv s : rel_steps kept (forget_session (W:=W) m kv s).
Proof. destruct kv. unfold forget_session. procs. Qed.
Lemma kept_prune_delivery off now kv s : rel_steps kept (prune_delivery (W:=W) off now kv s).
Proof. unfold prune_delivery. procs. Qed.
Hint Resolve kept_queue_event kept_observe_session kept_expire_browser kept_forget_session kept_prune_delivery : proc.
Lemma kept_reconcile_state s observations off now : rel_steps kept (reconcileNotificationState rt s observations off now).
Proof. unfold reconcileNotificationState. procs. Qed.
Hint Resolve kept_still_relevant kept_reconcile_state : proc.

(** ** Each operation *)

Lemma fences_observe summary now : rel_steps fences (observeAttention rt summary now).
Proof. apply fences_kept. procs. Qed.
Lemma fences_summaries now l m : rel_steps fences (each (observe_summary rt now) l m).
Proof. apply fences_kept. apply kept_each. intros. unfold observe_summary. procs. Qed.
Hint Resolve fences_observe fences_summaries : proc.
Hint Extern 1 (rel_steps fences (change _ _)) => apply fences_change; solve [procs] : proc.
Lemma fences_reconcile now : rel_steps fences (reconcile rt now).
Proof. unfold reconcile. procs. Qed.
Lemma fences_select now l : rel_steps fences (select rt now l).
Proof.
  induction l as [|[k d] l IH]; simpl; procs.
Qed.
Hint Resolve fences_reconcile fences_select : proc.

(** What is found to send is sendable in the state it is found in. *)
Definition chosen (x : sending) (σ : NotifySys W) : Prop :=
  sendable rt σ false (sn_Job x) (sn_At x) = true
  ∧ sn_Registered x = default no_browser (ns_Browsers (ny_state σ) !! nd_Browser (jb_Delivery (sn_Job x))).
Lemma sendable_off (σ : NotifySys W) off j t : sendable rt σ off j t = true → off = false.
Proof. unfold sendable. destruct off; [|done]. cbn. by rewrite andb_false_r. Qed.
Lemma fences_to_send now : rel_steps fences (to_send rt now).
Proof. unfold to_send. procs. all: try (apply fences_kept; procs). Qed.
Definition found_chosen (σ : NotifySys W) (r : result (option sending)) : Prop :=
  match r with Ok (Some x) => chosen x σ | _ => True end.
Lemma found_bind {A} (m : Ny W A) k σ : (∀ a σ, wp (k a) found_chosen σ) → wp (mbind k m) found_chosen σ.
Proof. intros H. apply wp_bind. unfold wp at 1. destruct (m σ).2; [apply H|done]. Qed.
Lemma to_send_chosen now σ : wp (to_send rt now) found_chosen σ.
Proof.
  unfold to_send. do 7 (apply found_bind; intros ? ?; try (case_match; [done|])).
  apply found_bind. intros ? ?. case_match; [done|]. case_match; [done|].
  do 3 (apply found_bind; intros ? ?). apply wp_bind, wp_gets, wp_bind, wp_gets, wp_ret.
  destruct (sendable _ _ _ _ _) eqn:E; [|done]. pose proof (sendable_off _ _ _ _ E) as ->. by split.
Qed.
Lemma sendNext_run now σ :
  sendNext rt now σ = match to_send rt now σ with
    | (σ1, Ok (Some x)) => (modify (nr_others rt);; answer ← transmit rt (push_sent now x); modify (nr_others rt);;
        ignore (change rt (λ s, mret (settle_delivery rt (sn_Job x) now answer s, tt)))) σ1
    | (σ1, Ok None) => (σ1, Ok tt)
    | (σ1, Err e) => (σ1, Err e)
    end.
Proof. unfold sendNext. unfold mbind at 1, SE_bind at 1. by destruct (to_send rt now σ) as [σ1 [[x|]|e]]. Qed.
(** A push that was decided on before storage failed may still be made. *)
Definition sounds (σ σ' : NotifySys W) : Prop := sound σ → sound σ'.
#[local] Instance sounds_preorder : PreOrder sounds.
Proof. split; [intros σ H; exact H|intros σ1 σ2 σ3 H1 H2 H; exact (H2 (H1 H))]. Qed.
Lemma sounds_fences {A} (m : Ny W A) : rel_steps fences m → rel_steps sounds m.
Proof. intros H σ. exact (proj1 (H σ)). Qed.
Lemma sounds_transmit p : rel_steps sounds (transmit rt p).
Proof.
  apply (rel_bind sounds); [apply rel_modify; intros σ Hs; exact Hs|]. intros _. apply sounds_fences. procs.
Qed.
Lemma fences_sendNext now : rel_steps fences (sendNext rt now).
Proof.
  intros σ. split.
  - change (sounds σ (sendNext rt now σ).1). apply (rel_bind sounds); [apply sounds_fences, fences_to_send|]. intros [x|]; [|by apply (rel_ret sounds)].
    apply (rel_bind sounds); [apply sounds_fences; procs|]. intros _. apply (rel_bind sounds); [apply sounds_transmit|]. intros answer.
    apply sounds_fences. procs.
  - intros Hf. rewrite sendNext_run. cbv [to_send mbind SE_bind gets mret SE_ret]. rewrite Hf. by split_and!.
Qed.
Hint Resolve fences_sendNext : proc.
Lemma fences_pass : rel_steps fences (pass rt).
Proof. unfold pass. procs. Qed.

Lemma fences_admitted : rel_steps fences (admitted (W:=W)).
Proof. unfold admitted, refuse. procs. Qed.
Lemma fences_answer {A} status (r : result A) : rel_steps fences (answer_change (W:=W) status text_of r).
Proof. unfold answer_change, refuse. procs. Qed.
Hint Resolve fences_admitted fences_answer : proc.
Lemma kept_register origin input s : rel_steps kept (register rt origin input s).
Proof. unfold register. cbv zeta. procs. Qed.
Lemma kept_queue_test origin id s : rel_steps kept (queue_test rt origin id s).
Proof. unfold queue_test. cbv zeta. procs. Qed.
Lemma kept_disable_one origin id digest kv s : rel_steps kept (disable_one (W:=W) origin id digest kv s).
Proof. unfold disable_one. procs. Qed.
Hint Resolve kept_register kept_queue_test kept_disable_one : proc.
Lemma fences_register origin input : rel_steps fences (registerBrowser rt text_of origin input).
Proof. unfold registerBrowser, refuse. procs. Qed.
Lemma fences_test origin id : rel_steps fences (testBrowser rt text_of origin id).
Proof. unfold testBrowser. procs. Qed.
Lemma fences_disable origin id digest : rel_steps fences (disableBrowser rt text_of origin id digest).
Proof. unfold disableBrowser, refuse. cbv zeta. procs. Qed.
Lemma fences_set_presence origin slug identity registration event : rel_steps fences (set_presence rt origin slug identity registration event).
Proof. unfold set_presence, refuse. cbv zeta. procs. Qed.
Hint Resolve fences_set_presence : proc.
Lemma fences_attention origin slug input : rel_steps fences (attentionAPI rt origin slug input).
Proof. unfold attentionAPI, attention_post, attentionView, refuse. cbv zeta. procs. Qed.
Lemma fences_bind available slug requested : rel_steps fences (bindCreationNotificationPreference rt available slug requested).
Proof. unfold bindCreationNotificationPreference. procs. Qed.

Hint Resolve fences_pass fences_register fences_test fences_disable fences_attention fences_bind : proc.
Lemma fences_history ops σ : fences σ (history rt text_of ops σ).
Proof.
  revert σ. induction ops as [|op ops IH]; intros σ; cbn; [done|]. etrans; [|apply IH].
  assert (rel_steps fences (serve rt text_of op)) as H by (destruct op; cbn; procs). apply H.
Qed.

(** C25: however passes of the delivery loop, registrations, tests, disablings, preferences and
    bindings follow each other, and whatever other goroutines do meanwhile that keeps the same,
    the store's state is what its file holds, within the record limits, until a write fails; from
    then on no operation changes the state or the file and nothing is sent, so a saved mute is
    never replaced by a default. *)
Theorem storage_failure_fences ops later σ :
  sound σ → let σ1 := history rt text_of ops σ in
  sound σ1 ∧ (ny_failed σ1 = true → frozen σ1 (history rt text_of later σ1)).
Proof. intros H. cbv zeta. split; [by apply fences_history|]. intros Hf. by apply fences_history. Qed.
End Fence.

#[local] Hint Resolve kept_observeAttention kept_still_relevant kept_reconcile_state : proc.

(** ** What is sent *)

Section Send.
Context {W : Type} (rt : NotifyRuntime W).
Context (others : ∀ σ, ny_sent (nr_others rt σ) = ny_sent σ).

Definition same_sent (σ σ' : NotifySys W) : Prop := ny_sent σ' = ny_sent σ.
#[export] Instance same_sent_preorder : PreOrder same_sent.
Proof. split; [done|]. unfold same_sent. intros ???. congruence. Qed.
Lemma quiet_kept {A} (m : Ny W A) : rel_steps kept m → rel_steps same_sent m.
Proof. intros H σ. apply H. Qed.
Lemma quiet_others : rel_steps same_sent (modify (nr_others rt)).
Proof. apply rel_modify. intros σ. apply others. Qed.
Lemma quiet_change {A} (update : notificationState → Ny W (notificationState * A)) :
  (∀ s, rel_steps kept (update s)) → rel_steps same_sent (change rt update).
Proof.
  intros H σ. pose proof (change_spec rt update (λ _ _, True) σ) as Hc. unfold wp in Hc.
  destruct Hc as [? Hk|??????|??? Hk|]; [|apply Hk|done|apply Hk|done].
  intros σ1 _. pose proof (H (copy_state (ny_state σ)) σ1). split; [done|]. by destruct (update _ σ1).2 as [[]|].
Qed.
Hint Extern 2 (rel_steps same_sent (change _ _)) => apply quiet_change; solve [procs] : proc.
Hint Resolve quiet_others : proc.
Lemma quiet_select now l : rel_steps same_sent (select rt now l).
Proof. induction l as [|[k d] l IH]; simpl; procs. Qed.
Hint Resolve quiet_select : proc.
Lemma quiet_to_send now : rel_steps same_sent (to_send rt now).
Proof. unfold to_send. procs. all: apply quiet_kept; procs. Qed.

(** The last look, as a proposition. *)
Definition worth_sending (σ : NotifySys W) (j : job) (at_ : Time) : Prop :=
  let d := jb_Delivery j in
  let e := nd_Event d in
  let s := ny_state σ in
  ny_failed σ = false
  ∧ (∃ current, ns_Outbox s !! jb_Key j = Some current ∧ ev_ID (nd_Event current) = ev_ID e
       ∧ ev_Revision (nd_Event current) = ev_Revision e ∧ nd_Browser current = nd_Browser d)
  ∧ (∃ b, ns_Browsers s !! nd_Browser d = Some b ∧ bw_Disabled b = false ∧ bw_Origin b = bw_Origin (jb_Browser j)
       ∧ validatePushSubscription rt (bw_Subscription b) (bw_ExpiresAt b) at_ = None)
  ∧ UnixMilli at_ < ev_ExpiresAt e
  ∧ (∀ presence, ny_presence σ !! notificationDeliveryKey (nd_Browser d) (ev_Slug e) = Some presence →
       pr_Identity presence = ev_Identity e → pr_Until presence <= at_)
  ∧ (ev_Kind e = "test" ∨
     notificationEnabled s (ev_Slug e) (ev_Identity e) = true ∧ ∃ baseline shown, ns_Sessions s !! ev_Slug e = Some baseline
       ∧ ab_Eligible baseline = true ∧ ab_Identity baseline = ev_Identity e ∧ ab_Event baseline = Some shown ∧ ev_ID shown = ev_ID e).
Lemma sendable_worth (σ : NotifySys W) off j at_ : sendable rt σ off j at_ = true → worth_sending σ j at_.
Proof.
  unfold sendable, worth_sending. cbv zeta.
  destruct (ns_Outbox _ !! _) as [current|] eqn:Ec; [|by rewrite !andb_false_r].
  destruct (ns_Browsers _ !! _) as [b|] eqn:Eb; [|by rewrite !andb_false_r].
  rewrite !andb_true_iff, !orb_true_iff, !andb_true_iff, !negb_true_iff, !bool_decide_eq_true, Z.ltb_lt, Z.eqb_eq.
  intros [[[[[Hf _] [[[[[[H1 H2] H3] H4] H5] _] H6]] He] Hp] Hk].
  split; [done|]. split; [by exists current|]. split; [by exists b|]. split; [done|]. split.
  - intros presence E Hi. rewrite E in Hp. cbn in Hp. destruct Hp as [Hp|Hp]; [by apply bool_decide_eq_false_1 in Hp|]. by apply Z.ltb_ge in Hp.
  - destruct Hk as [Hk|[[[K1 K2] K3] K4]]; [by left|]. right. split; [done|]. destruct (ns_Sessions _ !! _) as [baseline|]; [|done].
    cbn in *. destruct (ab_Event baseline) as [shown|] eqn:Ex; [|done]. exists baseline, shown. split_and!; try done. by apply bool_decide_eq_true_1 in K2.
Qed.

(** C26: a pass makes at most one push, and only one that was wanted when it last looked at the state,
    under the store's mutex, after the session had been observed once more: storage had not
    failed, the delivery was still the one queued, the browser was registered and enabled with
    an unexpired subscription, which is the push's, the event had not expired and nobody
    looked at the session, and, a test apart, the event was still the session's and its
    notifications were enabled.  [σ1] is the state at that last look.  The mutex is released before the
    push is made: what others do from then on, a mute for instance, no longer stops it. *)
Theorem sends_only_wanted now σ :
  let '(σ1, found) := to_send rt now σ in
  let sent := ny_sent (sendNext rt now σ).1 in
  match found with
  | Ok (Some x) =>
      let p := push_sent now x in
      let d := jb_Delivery (sn_Job x) in
      let e := nd_Event d in
      let s := ny_state σ1 in
      sent = ny_sent σ ++ [p] ∧ pu_Payload p = notificationPayload d ∧ ny_failed σ1 = false
      ∧ (∃ current, ns_Outbox s !! jb_Key (sn_Job x) = Some current ∧ ev_ID (nd_Event current) = ev_ID e
           ∧ ev_Revision (nd_Event current) = ev_Revision e ∧ nd_Browser current = nd_Browser d)
      ∧ (∃ b, ns_Browsers s !! nd_Browser d = Some b ∧ bw_Disabled b = false ∧ pu_Subscription p = bw_Subscription b
           ∧ validatePushSubscription rt (bw_Subscription b) (bw_ExpiresAt b) (sn_At x) = None)
      ∧ UnixMilli (sn_At x) < ev_ExpiresAt e
      ∧ (∀ presence, ny_presence σ1 !! notificationDeliveryKey (nd_Browser d) (ev_Slug e) = Some presence →
           pr_Identity presence = ev_Identity e → pr_Until presence <= sn_At x)
      ∧ (ev_Kind e = "test" ∨
         notificationEnabled s (ev_Slug e) (ev_Identity e) = true ∧ ∃ baseline shown, ns_Sessions s !! ev_Slug e = Some baseline
           ∧ ab_Eligible baseline = true ∧ ab_Identity baseline = ev_Identity e ∧ ab_Event baseline = Some shown ∧ ev_ID shown = ev_ID e)
  | _ => sent = ny_sent σ
  end.
Proof.
  pose proof (quiet_to_send now σ) as Hq. pose proof (to_send_chosen rt now σ) as Hc. unfold wp in Hc.
  rewrite sendNext_run. destruct (to_send rt now σ) as [σ1 [[x|]|e]]; cbn [fst snd found_chosen] in *; cbv zeta; [|exact Hq..].
  destruct Hc as [Hs Hr].
  apply sendable_worth in Hs as (H1 & H2 & (b & Hb & H3 & _ & H4) & H5 & H6 & H7). rewrite Hb in Hr. cbn in Hr.
  split; [|split; [done|]; split; [done|]; split; [done|]; split; [exists b; cbn; by rewrite Hr|done]].
  transitivity (ny_sent (nr_others rt σ1 <| ny_sent ::= λ l, l ++ [push_sent now x] |>)); [|cbn; by rewrite others, Hq].
  apply (rel_bind same_sent (ask (nr_push rt (push_sent now x)))); [apply quiet_kept, kept_ask|]. intros answer. procs.
Qed.
End Send.

(** ** Requests *)

Section Requests.
Context {W : Type} (rt : NotifyRuntime W) (text_of : error → string).

Lemma change_text (f : notificationState → notificationState) (σ : NotifySys W) :
  wp (change rt (λ s, mret (f s, tt))) (λ σ' r, match r with
    | Ok _ => ny_failed σ' = false ∧ State_json (nr_marshal rt) (ny_state σ') = State_json (nr_marshal rt) (f (copy_state (ny_state σ)))
    | Err _ => True end) σ.
Proof.
  eapply wp_mono; [apply (change_spec rt _ (λ s _, s = f (copy_state (ny_state σ))))|].
  - intros σ1 _. by apply wp_ret.
  - intros σ' r []; [done|done|subst|subst].
    + match goal with H : kept _ _ |- _ => destruct H end. split; congruence.
    + split; congruence.
Qed.
Lemma muted_state slug identity enabled s :
  let s' := set_preference slug identity enabled s in
  ns_Preferences s' !! slug = Some (mkPreference identity enabled) ∧ notificationEnabled s' slug identity = enabled
  ∧ ∀ k d, ns_Outbox s' !! k = Some d → ev_Identity (nd_Event d) ≠ identity.
Proof.
  cbv zeta. unfold notificationEnabled, set_preference. cbn. rewrite lookup_insert_eq. split; [done|]. split.
  - by rewrite bool_decide_true by done.
  - intros k d [_ H]%map_lookup_filter_Some. done.
Qed.

(** The text of a state with the preference as asked for. *)
Definition saved_preference (slug identity : string) (enabled : bool) (σ : NotifySys W) : Prop :=
  ny_failed σ = false ∧ ∃ s,
    State_json (nr_marshal rt) (ny_state σ) = State_json (nr_marshal rt) s
    ∧ ns_Preferences s !! slug = Some (mkPreference identity enabled) ∧ notificationEnabled s slug identity = enabled
    ∧ ∀ k d, ns_Outbox s !! k = Some d → ev_Identity (nd_Event d) ≠ identity.
Lemma attention_saves origin slug input enabled σ : ai_Enabled input = Some enabled →
  wp (attentionAPI rt origin slug (Some input)) (λ σ' r, match r with
    | Ok view => av_Identity view = ai_Identity input ∧ saved_preference slug (ai_Identity input) enabled σ'
    | Err _ => True end) σ.
Proof.
  intros He. unfold attentionAPI, refuse. apply wp_bind, nwp_ask. intros w1 found _. destruct found as [summary|]; [|done].
  apply wp_bind, nwp_ask. intros w2 identity _. case_match; [done|]. apply wp_bind, wp_modify.
  apply wp_bind. unfold admitted, refuse. apply wp_bind, wp_gets. case_match; [done|]. apply wp_ret. apply wp_bind.
  unfold attention_post, refuse. destruct (ai_Identity input != identity.1) eqn:Ei; [done|].
  apply negb_false_iff, bool_decide_eq_true_1 in Ei. rewrite He. apply wp_bind, wp_attempt.
  eapply wp_mono; [apply change_text|]. intros σ1 [[]|]; [|done]. intros [Hn Ht]. apply wp_ret.
  unfold attentionView. apply wp_bind, wp_gets, wp_bind, nwp_ask. intros w3 now _. apply wp_ret. cbn.
  split; [done|]. split; [done|]. eexists. split; [exact Ht|]. rewrite Ei. apply muted_state.
Qed.

(** A preference answered as saved is durable and in force: storage has not failed, the file
    holds the state in memory, and its text is that of a state which has the session's
    preference as asked for, under the identity the browser named, and no delivery of that
    identity in its outbox. *)
Theorem mute_takes_effect origin slug input enabled σ :
  (∀ σ, fences σ (nr_others rt σ)) → sound σ → ai_Enabled input = Some enabled →
  wp (attentionAPI rt origin slug (Some input)) (λ σ' r, match r with
    | Ok view => av_Identity view = ai_Identity input ∧ ny_file σ' = Some (ny_state σ')
        ∧ saved_preference slug (ai_Identity input) enabled σ'
    | Err _ => True end) σ.
Proof.
  intros Ho Hs He. pose proof (fences_attention rt Ho origin slug (Some input) σ) as [Hf _]. specialize (Hf Hs).
  pose proof (attention_saves origin slug input enabled σ He) as Ha. unfold wp in *.
  destruct (attentionAPI rt origin slug (Some input) σ) as [σ' [view|]]; [|done]. cbn in *. destruct Ha as [H1 H2].
  split; [done|]. split; [|done]. by apply Hf, H2.
Qed.

(** ** The registration limit *)

Lemma change_over {A} (update : notificationState → Ny W (notificationState * A)) σ σ1 s a :
  ny_failed σ = false → update (copy_state (ny_state σ)) σ = (σ1, Ok (s, a)) → ny_state σ1 = ny_state σ → over_limits s = true →
  State_json (nr_marshal rt) s ≠ State_json (nr_marshal rt) (ny_state σ) →
  ∃ σ', change rt update σ = (σ', Err storage_unavailable) ∧ ny_failed σ' = true ∧ ny_state σ' = ny_state σ.
Proof.
  intros Hf Hu Hs Ho Hne. cbv [change fence save_state mbind SE_bind gets fail attempt modify mret SE_ret]. rewrite Hf.
  destruct (State_json _ (ny_state σ)) as [data|] eqn:Ed; [|by eexists]. rewrite Hu. destruct (State_json _ s) as [next|] eqn:En; [|by eexists].
  rewrite bool_decide_false by congruence. rewrite Ho. by eexists.
Qed.

(** C31: registering one browser too many stops notifications for everyone: with 128 registered, a
    valid subscription of an address not among them and a new identifier, [change] takes the
    record limit for a storage failure, the request is refused and nothing is delivered or
    changed any more. *)
Theorem registration_limit_fences origin input σ σ1 s id :
  ny_failed σ = false → register rt origin input (copy_state (ny_state σ)) σ = (σ1, Ok (s, id)) → (128 < size (ns_Browsers s))%nat →
  State_json (nr_marshal rt) s ≠ State_json (nr_marshal rt) (ny_state σ) →
  let σ' := (registerBrowser rt text_of origin input σ).1 in
  (registerBrowser rt text_of origin input σ).2 = Err (ErrUpload 400 (text_of storage_unavailable))
  ∧ ny_failed σ' = true ∧ ny_state σ' = ny_state σ ∧ (∀ now, (sendNext rt now σ').1 = σ') ∧ (∀ id, (testBrowser rt text_of origin id σ').1 = σ').
Proof.
  intros Hf Hr Hsize Hne.
  pose proof (kept_register rt origin input (copy_state (ny_state σ)) σ) as [Hs _ _ _ _]. rewrite Hr in Hs. cbn in Hs.
  destruct (change_over (register rt origin input) σ σ1 s id) as (σ' & Hc & H1 & H2); try done.
  { unfold over_limits. rewrite (proj2 (Z.ltb_lt _ _)); [done|lia]. }
  assert (registerBrowser rt text_of origin input σ = (σ', Err (ErrUpload 400 (text_of storage_unavailable)))) as ->.
  { cbv [registerBrowser admitted attempt mbind SE_bind gets mret SE_ret]. by rewrite Hf, Hc. }
  cbn [fst snd]. split; [done|]. split; [done|]. split; [done|]. split.
  - intros now. rewrite sendNext_run. cbv [to_send mbind SE_bind gets mret SE_ret]. by rewrite H1.
  - intros id'. cbv [testBrowser admitted refuse fail mbind SE_bind gets mret SE_ret]. by rewrite H1.
Qed.
End Requests.
