(* ===== verification/NotificationLoad.v ===== *)
(** * Browser notifications: opening the store

    [newNotificationStore] of [web/notifications_store.go].  A missing file starts an empty
    state with new keys; any other trouble with it refuses, so that a saved mute is
    never replaced by the default. *)

From S2P Require Import Communication.
From S2P Require Import Prelude Effects GoStrings GoJson GoTime GoDecode Sha256 Attention LifecycleTypes Notifications NotificationFacts.


Open Scope Z_scope.

(** The parent's directory, opening the file (a failure other than that there is none), what
    is found on reading it, generating keys, and whether two keys are a pair of P-256. *)
Record LoadRuntime (W : Type) := mkLoadRuntime {
  nl_ensureDirectory : W → W * option error;
  nl_open : W → W * option error;
  nl_private : W → W * bool;
  nl_read : W → W * bool;
  nl_decodes : W → W * bool;
  nl_GenerateVAPIDKeys : W → W * result (string * string);
  nl_key_pair : string → string → bool }.
Arguments nl_ensureDirectory {W}. Arguments nl_open {W}. Arguments nl_private {W}. Arguments nl_read {W}. Arguments nl_decodes {W}.
Arguments nl_GenerateVAPIDKeys {W}.  Arguments nl_key_pair {W}.

Definition decodes_to (n : Z) (s : string) : bool :=
  match base64_raw_url s with Some l => Z.of_nat (length l) =? n | None => false end.

Section Load.
Context {W : Type} (rt : NotifyRuntime W) (lt : LoadRuntime W).

Definition new_state (workspace private public : string) : notificationState := mkNotify 1 workspace private public ∅ ∅ ∅ ∅.

Definition preference_valid (kv : string * notificationPreference) : bool :=
  ValidSlug kv.1 && messageDigestPattern (np_Identity kv.2).
Definition registration_valid (kv : string * browserRegistration) : bool :=
  (kv.1 == bw_ID kv.2) && messageDigestPattern kv.1
  && bool_decide (validatePushSubscription rt (bw_Subscription kv.2) (bw_ExpiresAt kv.2) 0 = None).

(** The checks of a decoded state, in their order. *)
Definition check_state (workspace : string) (s : notificationState) : option error :=
  if negb ((ns_Schema s =? 1) && (ns_Workspace s == workspace) && (strlen (ns_PrivateKey s) =? 43) && (strlen (ns_PublicKey s) =? 87))
  then Some (ErrorsNew "notification state identity or format is invalid")
  else if over_limits s then Some (ErrorsNew "notification state exceeds record limits")
  else if negb (decodes_to 32 (ns_PrivateKey s) && decodes_to 65 (ns_PublicKey s)) then Some (ErrorsNew "notification key format is invalid")
  else if negb (nl_key_pair lt (ns_PrivateKey s) (ns_PublicKey s)) then Some (ErrorsNew "notification key pair is inconsistent")
  else if negb (forallb preference_valid (map_to_list (ns_Preferences s))) then Some (ErrorsNew "notification preference is invalid")
  else if negb (forallb registration_valid (map_to_list (ns_Browsers s))) then Some (ErrorsNew "notification registration is invalid")
  else None.

(** The store starts: nobody looks at anything, and no write has failed. *)
Definition start (s : notificationState) : Ny W unit :=
  modify (λ σ, σ <| ny_state := s |> <| ny_failed := false |> <| ny_presence := ∅ |>).

(** A file that opens and decodes is one [save] wrote. *)
Definition newNotificationStore (workspace : string) : Ny W unit :=
  e ← ask (nl_ensureDirectory lt); lift_error e;;
  opened ← ask (nl_open lt);
  if bool_decide (opened ≠ None) then fail (ErrorsNew "notification state cannot be opened") else
  file ← gets ny_file;
  match file with
  | None =>
      keys ← ask (nl_GenerateVAPIDKeys lt);
      '(private, public) ← lift_result keys;
      let s := new_state workspace private public in
      save_state rt s;; start s
  | Some saved =>
      private ← ask (nl_private lt);
      if negb private then fail (ErrorsNew "notification state is not a private bounded file") else
      read ← ask (nl_read lt);
      if negb read then fail (ErrorsNew "notification state cannot be read") else
      decodes ← ask (nl_decodes lt);
      if negb decodes then fail (ErrorsNew "notification state identity or format is invalid") else
      lift_error (check_state workspace (copy_state saved));;
      start (copy_state saved)
  end.

(** C30: opening the store never replaces what was saved: it fails and leaves the file as it is,
    or, with a file, takes the file's state after every check, or, without one, an empty
    state that is already saved; a store that opened has not failed and is within the limits. *)
Theorem load_never_defaults workspace σ :
  wp (newNotificationStore workspace) (λ σ' r, match r with
    | Err _ => ny_state σ' = ny_state σ ∧ (∀ saved, ny_file σ = Some saved → ny_file σ' = Some saved)
    | Ok _ => ny_failed σ' = false ∧ ny_presence σ' = ∅ ∧ ny_sent σ' = ny_sent σ ∧ over_limits (ny_state σ') = false
        ∧ match ny_file σ with
          | Some saved => ny_file σ' = Some saved ∧ ny_state σ' = copy_state saved ∧ check_state workspace (copy_state saved) = None
          | None => ∃ private public, ny_state σ' = new_state workspace private public ∧ ny_file σ' = Some (ny_state σ')
          end
    end) σ.
Proof.
  unfold newNotificationStore, start. apply wp_bind, nwp_ask. intros w1 e _. apply wp_bind, wp_lift_error. destruct e; [done|].
  apply wp_bind, nwp_ask. intros w2 opened _. case_match; [done|]. apply wp_bind, wp_gets. cbn.
  destruct (ny_file σ) as [saved|] eqn:Ef.
  - do 3 (apply wp_bind, nwp_ask; intros ? ? _; case_match; [by split; [|intros ? [= <-]]|]).
    apply wp_bind, wp_lift_error. destruct (check_state workspace (copy_state saved)) eqn:Ec; [by split; [|intros ? [= <-]]|].
    apply wp_modify. cbn. split_and!; try done. unfold check_state in Ec. case_match; [done|]. by destruct (over_limits _).
  - apply wp_bind, nwp_ask. intros w3 keys _. apply wp_bind, wp_lift_result. destruct keys as [[private public]|]; [|done].
    apply wp_bind, save_state_spec; cbn.
    + intros σ1 e [H1 _ _ _ _]. done.
    + intros σ1 e H1 _ _ _. done.
    + intros σ1 Ho _ _ _ Hsent Hfile. split_and!; try done. by exists private, public.
Qed.
End Load.
