(* ===== verification/NotificationDeliveryFacts.v ===== *)
(** * Browser notifications: deliveries

    After a reconciliation the outbox holds only deliveries worth sending; a failed attempt
    is repeated after a bounded time and a bounded number of times. *)

From S2P Require Import Prelude Effects GoStrings GoJson GoTime GoDecode Attention LifecycleTypes Notifications NotificationOps AttentionFacts NotificationFacts.
From Stdlib Require Import Permutation.

Open Scope Z_scope.

(** ** Attempts *)

Section Attempts.
Context {W : Type} (rt : NotifyRuntime W).

Lemma retry_delay_range attempt header now : 1 <= attempt < 6 →
  10 * 1000000000 <= notificationRetryDelay rt attempt header now <= 300 * 1000000000.
Proof.
  intros H. unfold notificationRetryDelay, Minute. cbv zeta.
  assert (10 * 1000000000 <= i64 (i64 (Z.shiftl 1 (Z.min attempt 6)) * 5 * 1000000000)) as Hd.
  { assert (attempt = 1 ∨ attempt = 2 ∨ attempt = 3 ∨ attempt = 4 ∨ attempt = 5) as Ha by lia.
    destruct Ha as [-> |[-> |[-> |[-> | ->]]]]; by vm_compute. }
  repeat case_match; lia.
Qed.
Lemma UnixMilli_add now delay : 0 <= now < 2^63 → 0 <= delay <= 900 * 1000000000 →
  UnixMilli now = now `div` 1000000 ∧ UnixMilli (now + delay) = (now + delay) `div` 1000000.
Proof.
  intros H Hd. unfold UnixMilli. split; apply i64_id; split.
  all: try (apply Z.le_trans with 0; [lia|apply Z.div_pos; lia]).
  all: apply Z.div_lt_upper_bound; lia.
Qed.
Lemma later_milli now delay : 0 <= now < 2^63 → 10 * 1000000000 <= delay <= 300 * 1000000000 →
  UnixMilli now + 10000 <= UnixMilli (now + delay) <= UnixMilli now + 300000.
Proof.
  intros H Hd. destruct (UnixMilli_add now delay) as [-> ->]; [done|lia|].
  pose proof (Z.div_mod now 1000000). pose proof (Z.mod_pos_bound now 1000000).
  pose proof (Z.div_mod (now + delay) 1000000). pose proof (Z.mod_pos_bound (now + delay) 1000000). lia.
Qed.

(** The queued delivery is the one that was sent. *)
Definition same_delivery (d current : notificationDelivery) : bool :=
  (ev_ID (nd_Event current) == ev_ID (nd_Event d)) && (ev_Revision (nd_Event current) =? ev_Revision (nd_Event d))
  && (nd_Browser current == nd_Browser d).
(** An answer that is worth another attempt. *)
Definition transient (a : push_answer) : bool :=
  negb (bool_decide (pa_Err a = None) && (200 <=? pa_Code a) && (pa_Code a <? 300)) && negb (pa_Code a =? 404) && negb (pa_Code a =? 410)
  && (bool_decide (pa_Err a ≠ None) || (pa_Code a =? 429) || (500 <=? pa_Code a)).

(** What settling does to the delivery itself. *)
Lemma settle_entry j now a s current :
  ns_Outbox s !! jb_Key j = Some current → same_delivery (jb_Delivery j) current = true →
  ns_Outbox (settle_delivery rt j now a s) !! jb_Key j =
    if bool_decide (ns_Browsers s !! nd_Browser (jb_Delivery j) ≠ None) && transient a && (i64 (nd_Attempt current + 1) <? 6)
    then Some (current <| nd_Attempt := i64 (nd_Attempt current + 1) |>
                 <| nd_NextAt := UnixMilli (now + notificationRetryDelay rt (i64 (nd_Attempt current + 1)) (pa_RetryAfter a) now) |>)
    else None.
Proof.
  intros Hc Hs. unfold settle_delivery, transient. rewrite Hc. unfold same_delivery in Hs.
  rewrite !andb_true_iff in Hs. destruct Hs as [[-> ->] ->]. cbn [negb orb]. cbv zeta.
  destruct (ns_Browsers s !! _) as [b|] eqn:Eb; [|by cbn; rewrite lookup_delete_eq].
  rewrite (bool_decide_true (Some b ≠ None)) by done. cbn [andb].
  destruct (bool_decide (pa_Err a = None) && _ && _); cbn [negb andb]; [by cbn; rewrite lookup_delete_eq|].
  destruct (pa_Code a =? 404); cbn [orb negb andb]; [by cbn; rewrite lookup_delete_eq|].
  destruct (pa_Code a =? 410); cbn [orb negb andb]; [by cbn; rewrite lookup_delete_eq|].
  destruct (_ || _ || _); cbn [andb]; [|by cbn; rewrite lookup_delete_eq].
  destruct (Z.leb_spec 6 (i64 (nd_Attempt current + 1))) as [H|H].
  - rewrite (proj2 (Z.ltb_ge _ _)) by done. by cbn; rewrite lookup_delete_eq.
  - rewrite (proj2 (Z.ltb_lt _ _)) by done. by cbn; rewrite lookup_insert_eq.
Qed.

(** C29: after an attempt a delivery is gone, or, when the answer was an error, 429 or a server's
    failure, it waits as attempt [n + 1], of at most five, for at least ten seconds and at most
    five minutes, whatever the provider asks for. *)
Theorem retry_bounded j now a s current :
  0 <= now < 2^63 → ns_Outbox s !! jb_Key j = Some current → same_delivery (jb_Delivery j) current = true →
  0 <= nd_Attempt current < 2^63 - 1 →
  ns_Outbox (settle_delivery rt j now a s) !! jb_Key j = None
  ∨ transient a = true ∧ ∃ d, ns_Outbox (settle_delivery rt j now a s) !! jb_Key j = Some d
      ∧ nd_Event d = nd_Event current ∧ nd_Browser d = nd_Browser current ∧ nd_Attempt d = nd_Attempt current + 1
      ∧ nd_Attempt d <= 5 ∧ UnixMilli now + 10000 <= nd_NextAt d <= UnixMilli now + 300000.
Proof.
  intros Hn Hc Hs Ha. rewrite (settle_entry _ _ _ _ _ Hc Hs), i64_id by (unfold is_i64; lia).
  destruct (_ && _ && _) eqn:E; [right|by left]. rewrite !andb_true_iff, Z.ltb_lt in E. destruct E as [[_ Ht] Hl].
  split; [done|]. eexists. split; [done|]. cbn. split; [done|]. split; [done|]. split; [done|]. split; [lia|].
  apply later_milli; [done|]. apply retry_delay_range. lia.
Qed.

(** The attempts of one delivery, each with its time and answer. *)
Definition attempts (j : job) (l : list (Time * push_answer)) (s : notificationState) : notificationState :=
  foldl (λ s x, settle_delivery rt j x.1 x.2 s) s l.
Lemma settle_gone j now a s : ns_Outbox s !! jb_Key j = None → settle_delivery rt j now a s = s.
Proof. intros H. unfold settle_delivery. by rewrite H. Qed.
Lemma attempts_gone j l s : ns_Outbox s !! jb_Key j = None → attempts j l s = s.
Proof. intros H. induction l as [|x l IH]; [done|]. cbn. by rewrite settle_gone. Qed.
Lemma attempts_count j l s current :
  ns_Outbox s !! jb_Key j = Some current → same_delivery (jb_Delivery j) current = true → 0 <= nd_Attempt current <= 5 →
  6 <= nd_Attempt current + Z.of_nat (length l) → ns_Outbox (attempts j l s) !! jb_Key j = None.
Proof.
  revert s current. induction l as [|[now a] l IH]; intros s current Hc Hs Ha Hl; cbn [length attempts foldl] in *; [lia|].
  pose proof (settle_entry j now a s current Hc Hs) as E. cbn [fst snd]. rewrite i64_id in E by (unfold is_i64; lia).
  destruct (_ && _ && _) eqn:Eb.
  - apply (IH _ _ E); cbn; [done|..]; rewrite !andb_true_iff, Z.ltb_lt in Eb; lia.
  - fold (attempts j l (settle_delivery rt j now a s)). by rewrite attempts_gone.
Qed.

(** Retrying ends: six answers settle a new delivery, whatever they are, and a later one
    changes nothing. *)
Theorem six_attempts_settle j l l' s current :
  ns_Outbox s !! jb_Key j = Some current → same_delivery (jb_Delivery j) current = true → 0 <= nd_Attempt current <= 5 →
  (6 <= length l)%nat → ns_Outbox (attempts j l s) !! jb_Key j = None ∧ attempts j l' (attempts j l s) = attempts j l s.
Proof.
  intros Hc Hs Ha Hl. assert (ns_Outbox (attempts j l s) !! jb_Key j = None) as H; [|by split; [|apply attempts_gone]].
  eapply attempts_count; [done..|lia].
Qed.
End Attempts.

(** ** Reconciliation *)

Section Reconcile.
Context {W : Type} (rt : NotifyRuntime W) (law : visits_all rt).

Lemma later now delay : 0 <= now < 2^63 → 1000000 <= delay <= 900 * 1000000000 → UnixMilli now < UnixMilli (now + delay).
Proof.
  intros H Hd. destruct (UnixMilli_add now delay) as [-> ->]; [done|lia|].
  pose proof (Z.div_mod now 1000000). pose proof (Z.mod_pos_bound now 1000000).
  pose proof (Z.div_mod (now + delay) 1000000). pose proof (Z.mod_pos_bound (now + delay) 1000000). lia.
Qed.
(** An announcement's event is the baseline's. *)
Lemma reduce_event previous o now b : 0 <= now < 2^63 →
  reduceAttention (nr_sorted rt) previous o now = (b, true) →
  ab_Eligible b = true ∧ ab_Identity b = ao_Identity o ∧ ∃ e, ab_Event b = Some e ∧ ev_Identity e = ao_Identity o
    ∧ ev_Slug e = ao_Slug o ∧ UnixMilli now < ev_ExpiresAt e.
Proof.
  intros Hn H. destruct (reduce_cases (nr_sorted rt) previous o now)
    as [(_ & E & _)|[(_ & _ & E)|[(He & _ & first & rest & _ & E)|(He & _ & _ & E)]]]; rewrite H in E; [done|done| |]; symmetry in E.
  all: destruct (followed_fields (nr_sorted rt) previous o now) as (_ & _ & Hi & Hel).
  - unfold raise_request in E. case_match; [done|]. cbv zeta in E. destruct (match ab_Event _ with None => true | Some _ => _ end); [|done].
    injection E as <- _. cbn. rewrite Hel, Hi. split; [done|]. split; [done|]. eexists. split; [done|]. split; [done|]. split; [done|].
    apply later; [done|]. unfold Minute. lia.
  - unfold raise_done in E. cbv zeta in E. destruct (_ && _); [|done].
    injection E as <-. cbn. rewrite Hel, Hi. split; [done|]. split; [done|]. eexists. split; [done|]. split; [done|]. split; [done|].
    apply later; [done|]. unfold Minute. lia.
Qed.

(** The loops over the browsers and the sessions leave the outbox. *)
Definition outbox_kept (s s' : notificationState) : Prop := ns_Outbox s' = ns_Outbox s ∧ ns_Preferences s' = ns_Preferences s.

(** What the observations announced so far. *)
Definition announced (now : Time) (s : notificationState) (emitted : gmap string attentionEvent) (off : bool) : Prop :=
  ∀ slug e, emitted !! slug = Some e → off = false ∧ ev_Slug e = slug ∧ UnixMilli now < ev_ExpiresAt e
    ∧ notificationEnabled s slug (ev_Identity e) = true
    ∧ ∃ b, ns_Sessions s !! slug = Some b ∧ ab_Eligible b = true ∧ ab_Event b = Some e ∧ ab_Identity b = ev_Identity e.
Lemma announced_wanted now s emitted off slug e id b attempt next :
  announced now s emitted off → emitted !! slug = Some e → ns_Browsers s !! id = Some b → bw_Disabled b = false →
  wanted s off now (mkDelivery id e attempt next) = true.
Proof.
  intros H He Hb Hd. destruct (H slug e He) as (-> & <- & Hx & Hn & b' & Hs & H1 & H2 & H3).
  unfold wanted. cbn [nd_Event nd_Browser]. cbv zeta. rewrite Hb, Hs, Hd. change (default no_baseline (Some b')) with b'. rewrite H1, H2, H3, Hn.
  rewrite (proj2 (Z.leb_gt _ _)) by done. rewrite (bool_decide_true (ev_ID e = ev_ID e)), (bool_decide_true (ev_Identity e = ev_Identity e)) by done. cbn. by rewrite andb_false_r.
Qed.

Lemma observe_announces off now slug o s emitted σ : 0 <= now < 2^63 → ao_Slug o = slug → emitted !! slug = None →
  announced now s emitted off →
  wp (observe_session rt off now (slug, o) (s, emitted))
    (λ σ' r, kept σ σ' ∧ match r with
       | Ok (s', emitted') => announced now s' emitted' off ∧ outbox_kept s s' ∧ (∀ k, k ≠ slug → emitted' !! k = emitted !! k)
       | Err _ => False
       end) σ.
Proof.
  intros Hn Ho Hnew Ha. unfold observe_session. case_match; [by apply wp_ret|].
  destruct (reduceAttention _ _ _ _) as [b emit] eqn:Er. cbv zeta.
  assert (announced now (s <| ns_Sessions ::= <[slug := b]> |>) emitted off) as Ha'.
  { intros k e Hk. destruct (Ha k e Hk) as (H1 & H2 & H3 & H4 & b' & H5). split_and!; try done. exists b'. cbn.
    rewrite lookup_insert_ne by congruence. done. }
  destruct (emit && negb off && _) eqn:E; [|apply wp_ret; by split_and!].
  rewrite !andb_true_iff, negb_true_iff in E. destruct E as [[-> Hoff] He].
  apply reduce_event in Er as (H1 & H2 & e & H3 & H4 & H5 & H6); [|done]. rewrite H3. apply wp_ret.
  split; [done|]. split; [|split; [done|intros k Hk; by rewrite lookup_insert_ne]].
  intros k x. destruct (decide (k = slug)) as [->|Hk].
  - rewrite lookup_insert_eq. intros [= <-]. split_and!; try done; [congruence|by rewrite H4|].
    exists b. cbn. rewrite lookup_insert_eq. split_and!; congruence.
  - rewrite lookup_insert_ne by done. apply Ha'.
Qed.

Definition keyed (observations : gmap string attentionObservation) : Prop :=
  ∀ slug o, observations !! slug = Some o → ao_Slug o = slug.
Lemma observed_announces off now observations l s σ (Q : NotifySys W → result (notificationState * gmap string attentionEvent) → Prop) :
  0 <= now < 2^63 → keyed observations → l ≡ₚ map_to_list observations →
  (∀ σ' s' emitted, kept σ σ' → announced now s' emitted off → outbox_kept s s' → Q σ' (Ok (s', emitted))) →
  wp (each (observe_session rt off now) l (s, ∅)) Q σ.
Proof.
  intros Hn Hk Hl HQ.
  apply (wp_each (λ l d, NoDup l.*1 ∧ (∀ slug o, (slug, o) ∈ l → ao_Slug o = slug ∧ d.2 !! slug = None)
           ∧ announced now d.1 d.2 off ∧ outbox_kept s d.1)).
  - intros [slug o] l' [s1 emitted] σ1 (Hnd & Hin & Ha & Hs). cbn in *. apply NoDup_cons in Hnd as [Hni Hnd].
    destruct (Hin slug o) as [Ho Hnew]; [by left|].
    eapply wp_mono; [by apply observe_announces|]. intros σ2 [[s2 emitted2]|]; [|tauto]. cbn. intros (Hkept & Ha2 & Hs2 & Hf).
    split; [done|]. split; [done|]. split; [|split; [done|unfold outbox_kept in *; intuition congruence]].
    intros k o' Hk'. destruct (Hin k o') as [? ?]; [by right|]. split; [done|]. rewrite Hf; [done|]. intros ->.
    apply Hni. by apply (list_elem_of_fmap_2 fst l' (slug, o')).
  - split; [|split; [|split; [|by split]]].
    + rewrite Hl. apply NoDup_fst_map_to_list.
    + intros slug o. rewrite Hl, elem_of_map_to_list. intros H. split; [by apply Hk|apply lookup_empty].
    + intros slug e. cbn. by rewrite lookup_empty.
  - intros σ' [s' emitted] H (_ & _ & H1 & H2). by apply HQ.
Qed.

(** The outbox of a state that is otherwise [s]. *)
Definition holding (s : notificationState) (P : notificationDelivery → Prop) (limit : nat) (s' : notificationState) : Prop :=
  ∃ m, s' = s <| ns_Outbox := m |> ∧ (∀ k d, m !! k = Some d → P d) ∧ (size m ≤ limit)%nat.

Lemma prune_holds off now s l σ (Q : NotifySys W → result notificationState → Prop) :
  l ≡ₚ map_to_list (ns_Outbox s) →
  (∀ σ' s', kept σ σ' → holding s (λ d, wanted s off now d = true) (size (ns_Outbox s)) s' → Q σ' (Ok s')) →
  wp (each (prune_delivery off now) l s) Q σ.
Proof.
  intros Hl HQ.
  apply (wp_each (λ l s', ∃ m, s' = s <| ns_Outbox := m |> ∧ m ⊆ ns_Outbox s
           ∧ (∀ k d, m !! k = Some d → wanted s off now d = true ∨ (k, d) ∈ l))).
  - intros [k d] l' _ σ1 (m & -> & Hsub & Hm). unfold prune_delivery. apply wp_ret. split; [done|]. cbn [fst snd].
    change (wanted (s <| ns_Outbox := m |>) off now d) with (wanted s off now d). destruct (wanted s off now d) eqn:E.
    + exists m. split; [done|]. split; [done|]. intros k' d' [H|[[= -> ->]|H]%elem_of_cons]%Hm; auto.
    + exists (delete k m). split; [done|]. split; [etrans; [apply delete_subseteq|done]|].
      intros k' d' [Hne [H|[[= -> ->]|H]%elem_of_cons]%Hm]%lookup_delete_Some; auto.
  - exists (ns_Outbox s). split; [by destruct s|]. split; [done|]. intros k d H. right. rewrite Hl. by apply elem_of_map_to_list.
  - intros σ' s' H (m & -> & Hsub & Hm). apply HQ; [done|]. exists m. split; [done|]. split; [|by apply map_subseteq_size].
    intros k d Hd. destruct (Hm k d Hd) as [?|Hnil]; [done|by apply elem_of_nil in Hnil].
Qed.

Lemma queue_holds now s P limit slug e l s1 σ (Q : NotifySys W → result notificationState → Prop) : (512 ≤ limit)%nat →
  (∀ id b, (id, b) ∈ l → bw_Disabled b = false → P (mkDelivery id e 0 (UnixMilli now))) → holding s P limit s1 →
  (∀ σ' s', kept σ σ' → holding s P limit s' → Q σ' (Ok s')) →
  wp (each (queue_delivery now slug e) l s1) Q σ.
Proof.
  intros Hlim Hl H1 HQ.
  apply (wp_each (λ l s', (∀ id b, (id, b) ∈ l → bw_Disabled b = false → P (mkDelivery id e 0 (UnixMilli now))) ∧ holding s P limit s')).
  - intros [id b] l' _ σ1 (Hin & m & -> & Hm & Hs). split; [apply kept_queue_delivery|]. unfold queue_delivery.
    assert (∀ s', holding s P limit s' → (∀ id b, (id, b) ∈ l' → bw_Disabled b = false → P (mkDelivery id e 0 (UnixMilli now))) ∧ holding s P limit s') as Hrest
      by (intros s' Hs'; split; [intros i c Hi; apply Hin; by right|done]).
    assert (holding s P limit (s <| ns_Outbox := m |>)) as Hsame by (by exists m).
    destruct (bw_Disabled b) eqn:Ed; [by apply Hrest|]. cbv zeta.
    destruct (bool_decide _ && _) eqn:Ef; [by apply Hrest|]. apply Hrest. change (ns_Outbox (s <| ns_Outbox := m |>)) with m in Ef.
    exists (<[notificationDeliveryKey id slug := mkDelivery id e 0 (UnixMilli now)]> m). split; [done|]. split.
    + intros k d. rewrite lookup_insert_Some. intros [[<- <-]|[_ H]]; [apply (Hin id b); [by left|done]|by apply (Hm k)].
    + rewrite map_size_insert. destruct (m !! notificationDeliveryKey id slug) eqn:Em; [done|].
      rewrite bool_decide_true in Ef by done. cbn [andb] in Ef. apply Z.leb_gt in Ef. lia.
  - by split.
  - intros σ' s' H [_ H']. by apply HQ.
Qed.

Lemma queue_events now off s emitted l s1 limit σ (Q : NotifySys W → result notificationState → Prop) : (512 ≤ limit)%nat →
  announced now s emitted off → (∀ slug e, (slug, e) ∈ l → emitted !! slug = Some e) →
  holding s (λ d, wanted s off now d = true) limit s1 →
  (∀ σ' s', kept σ σ' → holding s (λ d, wanted s off now d = true) limit s' → Q σ' (Ok s')) →
  wp (each (queue_event rt now) l s1) Q σ.
Proof.
  intros Hlim Ha Hl H1 HQ.
  apply (wp_each (λ l s', (∀ slug e, (slug, e) ∈ l → emitted !! slug = Some e) ∧ holding s (λ d, wanted s off now d = true) limit s')).
  - intros [slug e] l' s2 σ1 [Hin Hs]. unfold queue_event. cbn [fst snd].
    apply wp_bind, wp_ranged. intros σ2 browsers Hk Hb.
    eapply (queue_holds _ s (λ d, wanted s off now d = true)); [exact Hlim| |exact Hs|].
    + intros id b Hi Hd. eapply announced_wanted; [exact Ha|apply (Hin slug e); by left| |exact Hd].
      destruct Hs as (m & -> & _). by apply Hb.
    + intros σ3 s3 Hk3 H3. split; [by etrans|]. split; [|done]. intros k x Hx. apply Hin. by right.
  - by split.
  - intros σ' s' H [_ H']. by apply HQ.
Qed.

(** What makes a delivery worth sending. *)
Definition deliverable (s : notificationState) (off : bool) (now : Time) (d : notificationDelivery) : Prop :=
  let e := nd_Event d in
  off = false
  ∧ (∃ b, ns_Browsers s !! nd_Browser d = Some b ∧ bw_Disabled b = false)
  ∧ UnixMilli now < ev_ExpiresAt e
  ∧ (ev_Kind e = "test" ∨
     (∃ baseline shown, ns_Sessions s !! ev_Slug e = Some baseline ∧ ab_Eligible baseline = true ∧ ab_Identity baseline = ev_Identity e
        ∧ ab_Event baseline = Some shown ∧ ev_ID shown = ev_ID e)
     ∧ (∀ p, ns_Preferences s !! ev_Slug e = Some p → np_Identity p = ev_Identity e → np_Enabled p = true)).
Lemma wanted_deliverable s off now d : wanted s off now d = true → deliverable s off now d.
Proof.
  unfold wanted, deliverable, notificationEnabled. cbv zeta. rewrite negb_true_iff, !orb_false_iff, andb_false_iff, !orb_false_iff, !negb_false_iff.
  intros [[[H1 H2] H3] H4]. split; [done|]. split; [|split].
  - destruct (ns_Browsers s !! _) as [b|]; [by exists b|done].
  - by apply Z.leb_gt.
  - destruct H4 as [H4|[[[H4 H5] H6] H7]]; [left; by apply bool_decide_eq_true_1 in H4|right]. split.
    + destruct (ns_Sessions s !! _) as [baseline|]; [|done]. cbn in *. destruct (ab_Event baseline) as [shown|] eqn:Ee; [|done].
      exists baseline, shown. apply negb_false_iff, bool_decide_eq_true_1 in H5. by apply bool_decide_eq_true_1 in H6.
    + intros p Hp Hi. rewrite Hp in H7. apply orb_true_iff in H7 as [H7|H7]; [|done]. by apply negb_true_iff, bool_decide_eq_false_1 in H7.
Qed.

(** C28: after a reconciliation every delivery in the outbox is worth sending: notifications are
    not switched off, its browser is registered and enabled, it has not expired, and, a test
    apart, its event is the one the watched baseline of its session holds and the session has no
    preference of that identity that mutes it; and no more than 512 wait, unless more did before. *)
Theorem outbox_worth_sending s observations off now σ :
  0 <= now < 2^63 → keyed observations →
  wp (reconcileNotificationState rt s observations off now)
    (λ σ' r, kept σ σ' ∧ ∃ s', r = Ok s'
       ∧ (∀ k d, ns_Outbox s' !! k = Some d → deliverable s' off now d)
       ∧ (size (ns_Outbox s') ≤ 512 `max` size (ns_Outbox s))%nat) σ.
Proof.
  intros Hn Hk. unfold reconcileNotificationState.
  apply wp_bind, wp_ranged. intros σ1 browsers K1 _. apply wp_bind, (wp_each (λ _ t, outbox_kept s t)).
  { intros [id b] l t τ Ht. unfold expire_browser. apply wp_ret. split; [done|]. by case_match. }
  { by split. }
  intros σ2 s1 K2 H1. apply wp_bind, wp_ranged. intros σ3 sessions K3 _. apply wp_bind, (wp_each (λ _ t, outbox_kept s t)).
  { intros [slug b] l t τ Ht. unfold forget_session. apply wp_ret. split; [done|]. by case_match. }
  { done. }
  intros σ4 s2 K4 H2. apply wp_bind, wp_ranged_all; [exact law|]. intros σ5 l K5 Hl.
  apply wp_bind, (observed_announces off now observations); [done..|]. intros σ6 s3 emitted K6 Ha H3.
  apply wp_bind, wp_ranged_all; [exact law|]. intros σ7 outbox K7 Ho. apply wp_bind, prune_holds; [done|].
  intros σ8 s4 K8 H4. apply wp_bind, wp_ranged. intros σ9 events K9 Hev.
  eapply (queue_events now off s3 emitted _ _ (512 `max` size (ns_Outbox s))); [lia|done|done| |].
  - destruct H4 as (m & Em & Hm & Hs). exists m. split; [done|]. split; [done|].
    destruct H2 as [E2 _], H3 as [E3 _]. rewrite E3, E2 in Hs. lia.
  - intros σ10 s' K10 (m & -> & Hm & Hs). split.
    + do 9 (etrans; [eassumption|]). done.
    + eexists. split; [done|]. split; [intros k d Hd; apply wanted_deliverable, (Hm k d Hd)|exact Hs].
Qed.
End Reconcile.
