(* ===== verification/NotificationSample.v ===== *)
(** * Notifications at work

    A concrete portal: one session, its observations, browsers and a push service; the
    theorems applied to its runs. *)

From S2P Require Import Prelude Effects GoStrings GoJson GoTime GoDecode Attention LifecycleTypes Notifications NotificationOps NotificationRequests.
From S2P Require Import AttentionFacts NotificationFacts NotificationDeliveryFacts NotificationLoad.
From stdpp Require Import pretty.

Open Scope Z_scope.

(** ** Observations of one session *)

Definition noon : Time := 1700000000000000000.
Definition second : Z := 1000000000.
Definition identity : string := "a3f5".
Definition lead (turn state status : string) (at_ : Time) : ActivitySnapshot :=
  mkActivity "thread" turn state "userInput" status (UnixMilli at_) false [].
Definition seen (l : ActivitySnapshot) (requests : list attentionRequest) : attentionObservation :=
  mkObservation identity "demo" "thread" l [] requests true true.
Definition working : attentionObservation := seen (lead "turn-1" "working" "inProgress" noon) [].
Definition finished (at_ : Time) : attentionObservation := seen (lead "turn-1" "idle" "completed" at_) [].

Definition in_order (l : list attentionRequest) : list attentionRequest := l.
Definition watched : attentionBaseline := Eval vm_compute in (reduceAttention in_order no_baseline working noon).1.
Definition done_baseline : attentionBaseline :=
  Eval vm_compute in (reduceAttention in_order watched (finished (noon + 30 * second)) (noon + 30 * second)).1.

Lemma announcement_caused_witness :
  ∃ e, ab_Event done_baseline = Some e ∧ attentionRelevant e (finished (noon + 30 * second)) = true ∧ ev_Kind e = "done".
Proof.
  destruct (announcement_caused in_order watched (finished (noon + 30 * second)) (noon + 30 * second) done_baseline)
    as (_ & _ & _ & _ & e & He & _ & _ & _ & Hr & _); [done|intros r Hr; by apply elem_of_nil in Hr|computed|].
  exists e. split; [done|]. split; [done|]. injection He as <-. reflexivity.
Defined.

(** A request is announced; a stale observation and one while the session is not watched report none;
    it is seen again, with a second request, which is the one announced. *)
Definition asked : list attentionRequest := [mkRequest "key-1" "lead" "input"].
Definition asking (requests : list attentionRequest) (at_ : Time) : attentionObservation :=
  seen (lead "turn-1" "waiting" "inProgress" at_) requests.
Definition unseen (eligible : bool) : attentionObservation := mkObservation identity "demo" "thread" no_activity [] [] eligible false.
Definition asked_baseline : attentionBaseline := Eval vm_compute in
  (reduceAttention in_order watched (asking asked (noon + 30 * second)) (noon + 30 * second)).1.
Definition meanwhile : list (attentionObservation * Time) :=
  [(unseen true, noon + 40 * second); (unseen false, noon + 50 * second); (asking asked (noon + 60 * second), noon + 60 * second)].
Definition still_asked : attentionBaseline := Eval vm_compute in run in_order asked_baseline meanwhile.
Definition both : attentionObservation := asking (asked ++ [mkRequest "key-2" "lead" "input"]) (noon + 90 * second).
Definition asked_again : attentionBaseline := Eval vm_compute in (reduceAttention in_order still_asked both (noon + 90 * second)).1.
Lemma announced_once_witness :
  subject_of in_order watched (asking asked (noon + 30 * second)) = s_request "key-1"
  ∧ reduceAttention in_order still_asked both (noon + 90 * second) = (asked_again, true)
  ∧ subject_of in_order still_asked both ≠ subject_of in_order watched (asking asked (noon + 30 * second)).
Proof.
  assert (reduceAttention in_order still_asked both (noon + 90 * second) = (asked_again, true)) as E by computed.
  assert (run in_order asked_baseline meanwhile = still_asked) as E' by computed. split; [computed|]. split; [exact E|]. revert E. rewrite <- E'.
  apply (announced_once in_order watched (asking asked (noon + 30 * second)) (noon + 30 * second) asked_baseline meanwhile).
  - intros l. reflexivity.
  - computed.
  - assert (subject_of in_order watched (asking asked (noon + 30 * second)) = s_request "key-1") as -> by computed. unfold meanwhile.
    apply Forall_cons_2; [cbn; discriminate|]. apply Forall_cons_2; [cbn; discriminate|].
    apply Forall_cons_2; [|apply Forall_nil_2]. cbn. intros _ _. by apply list_elem_of_here.
  - assert (subject_of in_order watched (asking asked (noon + 30 * second)) = s_request "key-1") as -> by computed.
    cbn. by apply list_elem_of_here.
Defined.

(** ** A portal with one session

    The world is the clock, which moves half a minute at each reading, and whether the disk
    fails.  The lead works for a minute and then finishes its turn. *)

Definition World : Type := Time * bool.
Definition half_minute : Z := 30 * second.
Definition lead_at (t : Time) : ActivitySnapshot :=
  if t <=? noon + 2 * half_minute then lead "turn-1" "working" "inProgress" t else lead "turn-1" "idle" "completed" t.
Definition demo : Summary := mkSummary "/w" "/w/demo" "demo" "thread" false false "" "".

Definition portal : NotifyRuntime World := {|
  nr_now := λ w : World, ((w.1 + half_minute, w.2), w.1); nr_range := λ ks w, (w, ks); nr_random := λ w, (w, Ok (repeat 7 32));
  nr_profile := λ w, (w, None); nr_List := λ w, (w, Ok [demo]);
  nr_Find := λ slug w, (w, if slug == "demo" then Ok demo else Err ErrNotExist);
  nr_Identity := λ _ w, (w, (identity, None)); nr_owns := λ _ w, (w, true); nr_recoveryHeld := λ _ _ w, (w, false);
  nr_creation := λ _ w, (w, None); nr_roster := λ _ w, (w, Err ErrNotExist);
  nr_snapshot := λ _ (w : World), (w, Some (lead_at w.1, w.1)); nr_stat_disabled := λ w, (w, Some ErrNotExist);
  nr_call := λ _ (w : World), (w, if w.2 then Some (ErrorsNew "disk") else None); nr_push := λ _ w, (w, mkAnswer None 201 "");
  nr_others := λ σ : NotifySys World, σ; nr_sorted := in_order; nr_Parse := λ s, Some (mkURL "https" "fcm.googleapis.com" false "" "" "fcm.googleapis.com" s); nr_point := λ _, true;
  nr_marshal := λ s, json_string (sub_Endpoint s); nr_ParseTime := λ _, None; nr_String := λ _, "now" |}.
Definition fresh_state : notificationState := new_state "/w" "private" "public".
Definition opened : NotifySys World := mkNotifySys (noon, false) fresh_state false ∅ (Some fresh_state) [].
Definition origin : string := "https://portal".
Definition auth_key : string := "AAAAAAAAAAAAAAAAAAAAAA".
Definition point_key : string := "BAAAAAAAAAAAAAAAAAAAAAAAAAAAAAAAAAAAAAAAAAAAAAAAAAAAAAAAAAAAAAAAAAAAAAAAAAAAAAAAAAAAAAA".
Definition subscribe (endpoint : string) (fresh : bool) : register_input := mkRegister (mkSubscription endpoint auth_key point_key) None fresh.
Definition text_of (e : error) : string := "refused".

Definition registered : NotifySys World := Eval vm_compute in (serve portal text_of (op_register origin (subscribe "https://push/1" false)) opened).1.
Definition once : NotifySys World := Eval vm_compute in (serve portal text_of op_pass registered).1.
Definition twice : NotifySys World := Eval vm_compute in (serve portal text_of op_pass once).1.
Example notifications_run :
  length (ny_sent once) = 0%nat ∧ length (ny_sent twice) = 1%nat ∧ (serve portal text_of op_pass twice).1.(ny_sent) = ny_sent twice
  ∧ map_to_list (ns_Outbox (ny_state twice)) = [] ∧ ny_file twice = Some (ny_state twice).
Proof. by vm_compute. Qed.

(** The second pass up to its sending. *)
Definition at_ : Time := noon + 3 * half_minute.
Definition ready : NotifySys World := Eval vm_compute in (reconcile portal at_ once).1.
Definition found : NotifySys World * result (option sending) := Eval vm_compute in to_send portal at_ ready.
Definition queued_job : job := Eval vm_compute in match found.2 with Ok (Some x) => sn_Job x | _ => no_job end.
Definition key : string := Eval vm_compute in jb_Key queued_job.

Lemma kept_by_portal (σ : NotifySys World) : fences σ (nr_others portal σ).
Proof. reflexivity. Qed.

Lemma storage_failure_fences_witness :
  let broken := history portal text_of [op_register origin (subscribe "https://push/2" false); op_pass] (ready <| ny_world := (at_, true) |>) in
  ny_failed broken = true ∧
  frozen broken (history portal text_of [op_pass; op_attention origin "demo" (Some (mkAttentionInput identity (Some false) "" "")); op_pass] broken).
Proof.
  cbv zeta. split; [computed|].
  apply (storage_failure_fences portal text_of kept_by_portal [op_register origin (subscribe "https://push/2" false); op_pass]
    [op_pass; op_attention origin "demo" (Some (mkAttentionInput identity (Some false) "" "")); op_pass] (ready <| ny_world := (at_, true) |>));
    [by split|computed].
Defined.

Lemma sends_only_wanted_witness :
  ∃ p, ny_sent (sendNext portal at_ ready).1 = [p] ∧ pu_Subscription p = ri_Subscription (subscribe "https://push/1" false).
Proof.
  pose proof (sends_only_wanted portal (λ _, eq_refl) at_ ready) as H.
  assert (to_send portal at_ ready = found) as E by computed. rewrite E in H.
  unfold found in H. cbv beta iota zeta in H. apply proj1 in H. eexists. split; [exact H|]. reflexivity.
Defined.

Lemma retry_bounded_witness :
  ∃ d, ns_Outbox (settle_delivery portal queued_job at_ (mkAnswer None 503 "20") (ny_state ready)) !! key = Some d
    ∧ nd_Attempt d = 1 ∧ UnixMilli at_ + 10000 <= nd_NextAt d.
Proof.
  destruct (retry_bounded portal queued_job at_ (mkAnswer None 503 "20") (ny_state ready) (jb_Delivery queued_job))
    as [H|(_ & d & H & _ & _ & H1 & _ & H2)].
  - unfold at_, noon, half_minute, second. lia.
  - computed.
  - computed.
  - split; by vm_compute.
  - exfalso. revert H. by vm_compute.
  - exists d. split; [exact H|]. split; [exact H1|]. apply H2.
Defined.

Lemma six_attempts_settle_witness :
  let l := repeat (at_, mkAnswer (Some (ErrorsNew "offline")) 0 "") in
  ns_Outbox (attempts portal queued_job (l 5%nat) (ny_state ready)) !! key ≠ None
  ∧ ns_Outbox (attempts portal queued_job (l 6%nat) (ny_state ready)) !! key = None.
Proof.
  cbv zeta. split; [by vm_compute|].
  apply (six_attempts_settle portal queued_job _ [] (ny_state ready) (jb_Delivery queued_job)); [computed|computed|split; by vm_compute|].
  by apply Nat.leb_le.
Defined.

Lemma whole_range : visits_all portal.
Proof. intros ks w. reflexivity. Qed.
Lemma outbox_worth_sending_witness :
  ∃ s', (reconcileNotificationState portal (ny_state once) {[ "demo" := finished at_ ]} false at_ once).2 = Ok s'
    ∧ size (ns_Outbox s') = 1%nat ∧ ∀ k d, ns_Outbox s' !! k = Some d → deliverable s' false at_ d.
Proof.
  destruct (outbox_worth_sending portal whole_range (ny_state once) {[ "demo" := finished at_ ]} false at_ once) as (_ & s' & E & H & _).
  - unfold at_, noon, half_minute, second. lia.
  - intros slug o. rewrite lookup_singleton_Some. by intros [<- <-].
  - exists s'. split; [exact E|]. split; [|exact H].
    assert ((reconcileNotificationState portal (ny_state once) {[ "demo" := finished at_ ]} false at_ once).2
      = Ok (ny_state ready)) as E' by computed. rewrite E' in E. injection E as <-. reflexivity.
Defined.

Lemma mute_takes_effect_witness :
  let '(σ, r) := attentionAPI portal origin "demo" (Some (mkAttentionInput identity (Some false) "" "")) ready in
  is_ok r = true ∧ ny_file σ = Some (ny_state σ) ∧ saved_preference portal "demo" identity false σ.
Proof.
  pose proof (mute_takes_effect portal origin "demo" (mkAttentionInput identity (Some false) "" "") false ready kept_by_portal) as H.
  unfold wp in H. destruct (attentionAPI _ _ _ _ _) as [σ r] eqn:E.
  assert (is_ok r = true) as Hr.
  { change r with (σ, r).2. rewrite <- E. computed. }
  destruct r; [|done]. split; [done|]. apply H; [by split|done].
Defined.

(** ** A full list of browsers *)

Definition crowd : gmap string browserRegistration := Eval vm_compute in
  list_to_map (map (λ n, let id := "browser " +:+ pretty n in (id, mkBrowser id origin (mkSubscription ("https://push/" +:+ id) "a" "k") 0 false ""))
    (seq 0 128)).
Definition crowded : NotifySys World := opened <| ny_state ::= λ s, s <| ns_Browsers := crowd |> |>.
Definition registering : NotifySys World * result (notificationState * string) := Eval vm_compute in
  register portal origin (subscribe "https://push/new" true) (copy_state (ny_state crowded)) crowded.
Definition one_more : notificationState * string := match registering.2 with Ok p => p | Err _ => (fresh_state, "") end.

Lemma registration_limit_fences_witness :
  over_limits (ny_state crowded) = false ∧
  let σ := (registerBrowser portal text_of origin (subscribe "https://push/new" true) crowded).1 in
  ny_failed σ = true ∧ ∀ now, (sendNext portal now σ).1 = σ.
Proof.
  split; [computed|]. cbv zeta.
  destruct (registration_limit_fences portal text_of origin (subscribe "https://push/new" true) crowded registering.1 one_more.1 one_more.2)
    as (_ & H & _ & H' & _); [computed|computed|apply Nat.ltb_lt; computed| |by split].
  intros E. apply (f_equal (λ d, bool_decide (d = State_json (nr_marshal portal) (ny_state crowded)))) in E.
  revert E. by vm_compute.
Defined.
