(* ===== verification/SessionPreparation.v ===== *)
(** * Session preparations: data

    The durable record of an accepted session request ([web/preparation_store.go]), the
    creation request and receipt it is handed over to ([web/creation_store.go]) and the
    frozen team ([teamruntime/runtime.go]): their JSON text, digests and validity, and the
    naming of sessions ([web/session_name.go]). *)

From S2P Require Import Prelude GoStrings GoUtf8 GoJson GoDecimal GoTime GoTimeParse GoDecode Sha256 RetryValidate Communication LifecycleTypes.
From Stdlib Require Import Ascii.
From stdpp Require Import pretty.

Open Scope Z_scope.

Definition MaxMessageBytes : Z := 20000.
Definition maxCreationReceiptBytes : Z := 12 * MaxMessageBytes + 16384.
Definition maxUnfinishedPreparations : Z := 512.
Definition maxPreparationMappings : Z := 10000.
Definition maxPreparationBytes : Z := 2 * maxCreationReceiptBytes + 16384.
Definition maxPreparationMappingBytes : Z := 2048.
Definition maxPreparationAggregateBytes : Z :=
  maxUnfinishedPreparations * maxPreparationBytes + maxPreparationMappings * maxPreparationMappingBytes.

(** ** Records *)

Record preparationValue := mkValue { pv_Present : bool; pv_Value : string }.
Record preparationInput := mkInput {
  pi_Sensitive : bool; pi_RawPrompt : string; pi_Date : string; pi_CustomName : string; pi_UploadScope : string;
  pi_Attachments : slice string; pi_Team : preparationValue; pi_Catalog : preparationValue; pi_Model : preparationValue;
  pi_Effort : preparationValue; pi_Notify : option bool; pi_Provider : string }.

Record MemberSpec := mkMemberSpec {
  ms_Role : string; ms_Address : string; ms_Model : string; ms_Effort : string; ms_Behavior : string; ms_Purpose : string;
  ms_Instructions : string; ms_Access : string }.
Record Preset := mkPreset {
  pt_ID : string; pt_Name : string; pt_Description : string; pt_Roles : slice string; pt_CatalogDigest : string;
  pt_TeamDigest : string; pt_LeadModel : string; pt_LeadEffort : string; pt_LeadInstructions : string;
  pt_Members : slice MemberSpec }.
#[export] Instance eta_Preset : Eta Preset := λ p,
  mkPreset (pt_ID p) (pt_Name p) (pt_Description p) (pt_Roles p) (pt_CatalogDigest p) (pt_TeamDigest p) (pt_LeadModel p)
    (pt_LeadEffort p) (pt_LeadInstructions p) (pt_Members p).

Record preparationSnapshot := mkSnapshot { sn_Input : preparationInput; sn_Preset : option Preset; sn_Goal : string }.
#[export] Instance eta_Snapshot : Eta preparationSnapshot := λ s, mkSnapshot (sn_Input s) (sn_Preset s) (sn_Goal s).

Record creationRequest := mkCreation {
  cr_Sensitive : bool; cr_Kind : string; cr_Slug : string; cr_Goal : string; cr_Model : string; cr_Effort : string;
  cr_Provider : string; cr_DestinationSettings : bool; cr_Source : string; cr_SourceThreadID : string; cr_SourceIdentity : string;
  cr_PlanTurnID : string; cr_PlanSHA256 : string; cr_PlanText : string; cr_Notify : option bool; cr_Team : string;
  cr_CatalogDigest : string; cr_directTeam : option Preset; cr_teamSubmitted : bool; cr_digestSubmitted : bool;
  cr_modelSubmitted : bool; cr_effortSubmitted : bool }.
#[export] Instance eta_Creation : Eta creationRequest := λ r,
  mkCreation (cr_Sensitive r) (cr_Kind r) (cr_Slug r) (cr_Goal r) (cr_Model r) (cr_Effort r) (cr_Provider r)
    (cr_DestinationSettings r) (cr_Source r) (cr_SourceThreadID r) (cr_SourceIdentity r) (cr_PlanTurnID r) (cr_PlanSHA256 r)
    (cr_PlanText r) (cr_Notify r) (cr_Team r) (cr_CatalogDigest r) (cr_directTeam r) (cr_teamSubmitted r) (cr_digestSubmitted r)
    (cr_modelSubmitted r) (cr_effortSubmitted r).
Record creationReceipt := mkReceipt {
  ct_Schema : Z; ct_Workspace : string; ct_Request : creationRequest; ct_ReceiptID : string; ct_DeletionHistory : string;
  ct_Attempt : Z; ct_State : string; ct_Phase : string; ct_Error : string; ct_StartedAt : string; ct_UpdatedAt : string;
  ct_Validated : bool; ct_Goal : string; ct_Model : string; ct_Effort : string; ct_AgentTeamBinding : string;
  ct_AgentTeamBindingDigest : string; ct_DirectTeam : option Preset }.

Record sessionPreparation := mkPrep {
  sp_Schema : Z; sp_Workspace : string; sp_RequestID : string; sp_InputVersion : Z; sp_InputDigest : string;
  sp_SnapshotDigest : string; sp_ReceiptID : string; sp_Attempt : Z; sp_State : string; sp_Phase : string; sp_Error : string;
  sp_StartedAt : string; sp_UpdatedAt : string; sp_Snapshot : option preparationSnapshot; sp_Base : string;
  sp_NamingOutcome : string; sp_Slug : string; sp_Epoch : string; sp_Handoff : option creationRequest; sp_Terminal : string }.
#[export] Instance eta_Prep : Eta sessionPreparation := λ r,
  mkPrep (sp_Schema r) (sp_Workspace r) (sp_RequestID r) (sp_InputVersion r) (sp_InputDigest r) (sp_SnapshotDigest r)
    (sp_ReceiptID r) (sp_Attempt r) (sp_State r) (sp_Phase r) (sp_Error r) (sp_StartedAt r) (sp_UpdatedAt r) (sp_Snapshot r)
    (sp_Base r) (sp_NamingOutcome r) (sp_Slug r) (sp_Epoch r) (sp_Handoff r) (sp_Terminal r).
Definition no_preparation : sessionPreparation :=
  mkPrep 0 "" "" 0 "" "" "" 0 "" "" "" "" "" None "" "" "" "" None "".

#[export] Instance MemberSpec_eq_dec : EqDecision MemberSpec.
Proof. solve_decision. Defined.
#[export] Instance Preset_eq_dec : EqDecision Preset.
Proof. solve_decision. Defined.
#[export] Instance creationRequest_eq_dec : EqDecision creationRequest.
Proof. solve_decision. Defined.
#[export] Instance preparationValue_eq_dec : EqDecision preparationValue.
Proof. solve_decision. Defined.
#[export] Instance preparationInput_eq_dec : EqDecision preparationInput.
Proof. solve_decision. Defined.
#[export] Instance preparationSnapshot_eq_dec : EqDecision preparationSnapshot.
Proof. solve_decision. Defined.
#[export] Instance sessionPreparation_eq_dec : EqDecision sessionPreparation.
Proof. solve_decision. Defined.

(** ** JSON text *)

Definition optional_bool (name : string) (b : option bool) : jfield :=
  omitempty (bool_decide (b = None)) name (json_ptr json_bool b).
Definition Value_json (v : preparationValue) : json :=
  json_struct [field "present" (json_bool (pv_Present v)); field "value" (json_string (pv_Value v))].
Definition Input_json (i : preparationInput) : json :=
  json_struct
    [flag "sensitive" (pi_Sensitive i); field "rawPrompt" (json_string (pi_RawPrompt i)); field "date" (json_string (pi_Date i));
     field "customName" (json_string (pi_CustomName i)); field "uploadScope" (json_string (pi_UploadScope i));
     field "attachments" (json_slice json_string (pi_Attachments i)); field "team" (Value_json (pi_Team i));
     field "catalog" (Value_json (pi_Catalog i)); field "model" (Value_json (pi_Model i)); field "effort" (Value_json (pi_Effort i));
     optional_bool "browserNotificationsEnabled" (pi_Notify i); str "provider" (pi_Provider i)].
Definition MemberSpec_json (m : MemberSpec) : json :=
  json_struct
    [field "role" (json_string (ms_Role m)); field "address" (json_string (ms_Address m)); field "model" (json_string (ms_Model m));
     field "reasoningEffort" (json_string (ms_Effort m)); field "behavior" (json_string (ms_Behavior m));
     str "purpose" (ms_Purpose m); str "instructions" (ms_Instructions m); field "access" (json_string (ms_Access m))].
Definition Preset_json (p : Preset) : json :=
  json_struct
    [field "id" (json_string (pt_ID p)); field "name" (json_string (pt_Name p)); field "description" (json_string (pt_Description p));
     field "roles" (json_slice json_string (pt_Roles p)); str "catalogDigest" (pt_CatalogDigest p); str "teamDigest" (pt_TeamDigest p);
     str "leadModel" (pt_LeadModel p); str "leadEffort" (pt_LeadEffort p); str "leadInstructions" (pt_LeadInstructions p);
     field "members" (json_slice MemberSpec_json (pt_Members p))].
Definition Snapshot_json (s : preparationSnapshot) : json :=
  json_struct
    [field "input" (Input_json (sn_Input s)); omitempty (bool_decide (sn_Preset s = None)) "preset" (json_ptr Preset_json (sn_Preset s));
     field "goal" (json_string (sn_Goal s))].
Definition Creation_json (r : creationRequest) : json :=
  json_struct
    [flag "sensitive" (cr_Sensitive r); field "kind" (json_string (cr_Kind r)); field "slug" (json_string (cr_Slug r));
     str "goal" (cr_Goal r); str "model" (cr_Model r); str "effort" (cr_Effort r); str "provider" (cr_Provider r);
     flag "destinationSettings" (cr_DestinationSettings r); str "source" (cr_Source r); str "sourceThreadId" (cr_SourceThreadID r);
     str "sourceIdentity" (cr_SourceIdentity r); str "planTurnId" (cr_PlanTurnID r); str "planSha256" (cr_PlanSHA256 r);
     str "planText" (cr_PlanText r); optional_bool "browserNotificationsEnabled" (cr_Notify r); str "team" (cr_Team r);
     str "catalogDigest" (cr_CatalogDigest r)].
Definition Preparation_json (r : sessionPreparation) : json :=
  json_struct
    [field "schema" (json_int (sp_Schema r)); field "workspace" (json_string (sp_Workspace r));
     field "requestId" (json_string (sp_RequestID r)); field "inputVersion" (json_int (sp_InputVersion r));
     field "inputDigest" (json_string (sp_InputDigest r)); str "snapshotDigest" (sp_SnapshotDigest r);
     field "receiptId" (json_string (sp_ReceiptID r)); field "attempt" (json_int (sp_Attempt r)); field "state" (json_string (sp_State r));
     field "phase" (json_string (sp_Phase r)); str "error" (sp_Error r); field "startedAt" (json_string (sp_StartedAt r));
     field "updatedAt" (json_string (sp_UpdatedAt r));
     omitempty (bool_decide (sp_Snapshot r = None)) "snapshot" (json_ptr Snapshot_json (sp_Snapshot r)); str "base" (sp_Base r);
     str "namingOutcome" (sp_NamingOutcome r); str "slug" (sp_Slug r); str "epoch" (sp_Epoch r);
     omitempty (bool_decide (sp_Handoff r = None)) "handoff" (json_ptr Creation_json (sp_Handoff r)); str "terminal" (sp_Terminal r)].
Definition Receipt_json (c : creationReceipt) : json :=
  json_struct
    [field "schema" (json_int (ct_Schema c)); field "workspace" (json_string (ct_Workspace c)); field "request" (Creation_json (ct_Request c));
     field "receiptId" (json_string (ct_ReceiptID c)); field "deletionHistorySha256" (json_string (ct_DeletionHistory c));
     field "attempt" (json_int (ct_Attempt c)); field "state" (json_string (ct_State c)); field "phase" (json_string (ct_Phase c));
     str "error" (ct_Error c); field "startedAt" (json_string (ct_StartedAt c)); field "updatedAt" (json_string (ct_UpdatedAt c));
     field "validated" (json_bool (ct_Validated c)); str "goal" (ct_Goal c); str "model" (ct_Model c); str "effort" (ct_Effort c);
     str "agentTeamBinding" (ct_AgentTeamBinding c); str "agentTeamBindingDigest" (ct_AgentTeamBindingDigest c);
     omitempty (bool_decide (ct_DirectTeam c = None)) "directTeam" (json_ptr Preset_json (ct_DirectTeam c))].

(** A value that does not marshal has the digest of no text. *)
Definition preparationDigest (j : json) : string := hex_encode (Sum256 (bytes_of (default "" j))).
Definition inputPreparationDigest (i : preparationInput) : string :=
  preparationDigest (json_struct [field "version" (json_int 1); field "input" (Input_json i)]).

(** ** What is read back of a text that was written *)

Definition copy_value (v : preparationValue) : preparationValue := mkValue (pv_Present v) (json_coerce (pv_Value v)).
Definition copy_input (i : preparationInput) : preparationInput :=
  mkInput (pi_Sensitive i) (json_coerce (pi_RawPrompt i)) (json_coerce (pi_Date i)) (json_coerce (pi_CustomName i))
    (json_coerce (pi_UploadScope i)) (map json_coerce <$> pi_Attachments i) (copy_value (pi_Team i)) (copy_value (pi_Catalog i))
    (copy_value (pi_Model i)) (copy_value (pi_Effort i)) (pi_Notify i) (json_coerce (pi_Provider i)).
Definition copy_member (m : MemberSpec) : MemberSpec :=
  mkMemberSpec (json_coerce (ms_Role m)) (json_coerce (ms_Address m)) (json_coerce (ms_Model m)) (json_coerce (ms_Effort m))
    (json_coerce (ms_Behavior m)) (json_coerce (ms_Purpose m)) (json_coerce (ms_Instructions m)) (json_coerce (ms_Access m)).
Definition copy_preset (p : Preset) : Preset :=
  mkPreset (json_coerce (pt_ID p)) (json_coerce (pt_Name p)) (json_coerce (pt_Description p)) (map json_coerce <$> pt_Roles p)
    (json_coerce (pt_CatalogDigest p)) (json_coerce (pt_TeamDigest p)) (json_coerce (pt_LeadModel p)) (json_coerce (pt_LeadEffort p))
    (json_coerce (pt_LeadInstructions p)) (map copy_member <$> pt_Members p).
Definition copy_snapshot (s : preparationSnapshot) : preparationSnapshot :=
  mkSnapshot (copy_input (sn_Input s)) (copy_preset <$> sn_Preset s) (json_coerce (sn_Goal s)).
Definition copy_creation (r : creationRequest) : creationRequest :=
  mkCreation (cr_Sensitive r) (json_coerce (cr_Kind r)) (json_coerce (cr_Slug r)) (json_coerce (cr_Goal r)) (json_coerce (cr_Model r))
    (json_coerce (cr_Effort r)) (json_coerce (cr_Provider r)) (cr_DestinationSettings r) (json_coerce (cr_Source r))
    (json_coerce (cr_SourceThreadID r)) (json_coerce (cr_SourceIdentity r)) (json_coerce (cr_PlanTurnID r))
    (json_coerce (cr_PlanSHA256 r)) (json_coerce (cr_PlanText r)) (cr_Notify r) (json_coerce (cr_Team r))
    (json_coerce (cr_CatalogDigest r)) None false false false false.
Definition copy_preparation (r : sessionPreparation) : sessionPreparation :=
  mkPrep (sp_Schema r) (json_coerce (sp_Workspace r)) (json_coerce (sp_RequestID r)) (sp_InputVersion r) (json_coerce (sp_InputDigest r))
    (json_coerce (sp_SnapshotDigest r)) (json_coerce (sp_ReceiptID r)) (sp_Attempt r) (json_coerce (sp_State r))
    (json_coerce (sp_Phase r)) (json_coerce (sp_Error r)) (json_coerce (sp_StartedAt r)) (json_coerce (sp_UpdatedAt r))
    (copy_snapshot <$> sp_Snapshot r) (json_coerce (sp_Base r)) (json_coerce (sp_NamingOutcome r)) (json_coerce (sp_Slug r))
    (json_coerce (sp_Epoch r)) (copy_creation <$> sp_Handoff r) (json_coerce (sp_Terminal r)).

(** ** Validity of the parts *)

(** [strings.ContainsAny(value, "\x00\r\n")] *)
Definition breaks (s : string) : bool := contains_char (λ c, (code c =? 0) || (code c =? 13) || (code c =? 10)) s.
Definition validateCreationSettingValue (s : string) : option error :=
  refuse ((4096 <? strlen s) || breaks s) "Codex model settings are invalid".
Definition validateCreationSettings (model effort : string) : option error :=
  first_refusal [validateCreationSettingValue model; validateCreationSettingValue effort;
    refuse ((model == "") && (effort != "")) "select a Codex model before choosing a reasoning effort"].

(** [time.Parse(time.DateOnly, date)]: every date it reads it also prints back. *)
Definition is_date (s : string) : bool :=
  match ('(y, l) ← year (chars s); l ← literal "-" l; '(mo, l) ← getnum true l; l ← literal "-" l; '(d, l) ← getnum true l;
         Some (y, mo, d, l)) with
  | Some (y, mo, d, l) => bool_decide (l = []) && (1 <=? mo) && (mo <=? 12) && (1 <=? d) && (d <=? days_in y mo)
  | None => false
  end.
Definition creationDestination (name date : string) : result string :=
  if negb (ValidSlug name) || (48 <? strlen name) then Err (ErrorsNew "session name is invalid")
  else if negb (is_date date) then Err (ErrorsNew "session creation date is invalid")
  else Ok (date +:+ "-" +:+ name).

Definition lower_letter (c : ascii) : bool := in_range 97 122 (code c).
(** [codexproviders.ValidID] *)
Definition provider_char (c : ascii) : bool := lower_letter c || is_digit c.
Definition ValidID (s : string) : bool :=
  match s with
  | EmptyString => false
  | String c r => provider_char c && (strlen r <=? 62) && all_chars (λ c, provider_char c || is_char c "_"%char || is_char c "-"%char) r
  end.

Definition validManagedCreationTeam (s : string) : bool :=
  match s with
  | EmptyString => false
  | String c r => lower_letter c && (strlen s <=? 63) && all_chars (λ c, lower_letter c || is_digit c || is_char c "_"%char) r
  end.
Definition validDirectMemberRole (s : string) : bool :=
  match s with
  | EmptyString => false
  | String c r => (strlen s <=? 32) && lower_letter c && all_chars (λ c, lower_letter c || is_digit c) r
  end.
Definition validDirectInstructions (s : string) : bool :=
  (s != "") && (strlen s <=? 4096) && utf8_valid s && negb (contains_char (λ c, code c =? 0) s).
Definition validDirectMemberPolicy (role behavior access purpose instructions : string) (withInstructions : bool) : bool :=
  if withInstructions then
    validDirectInstructions instructions &&
    (if behavior == "designer" then (purpose == "design") && ((access == "read_only") || (access == "workspace_write"))
     else if behavior == "implementer" then (purpose == "implementation") && (access == "workspace_write")
     else if behavior == "reviewer" then (purpose == "review") && (access == "read_only")
     else (behavior == "general") && (purpose == "general") && ((access == "read_only") || (access == "workspace_write")))
  else if (purpose != "") || (instructions != "") then false
  else if role == "architect" then (behavior == "designer") && (access == "read_only")
  else if role == "implementer" then (behavior == "implementer") && (access == "workspace_write")
  else (role == "reviewer") && (behavior == "reviewer") && (access == "read_only").

(** The members' addresses, numbered within their roles. *)
Fixpoint member_addresses (withInstructions : bool) (l : list MemberSpec) (indices : gmap string Z) (seen : list string)
    : option error * list string :=
  match l with
  | [] => (None, seen)
  | m :: l =>
      let index := default 0 (indices !! ms_Role m) in
      if negb (validDirectMemberRole (ms_Role m)) || (ms_Role m == "lead")
         || (ms_Address m != ms_Role m +:+ pretty index) || (ms_Model m == "") || (ms_Effort m == "")
         || negb (validDirectMemberPolicy (ms_Role m) (ms_Behavior m) (ms_Access m) (ms_Purpose m) (ms_Instructions m) withInstructions)
         || bool_decide (validateCreationSettingValue (ms_Model m) ≠ None) || bool_decide (validateCreationSettingValue (ms_Effort m) ≠ None)
      then (Some (ErrorsNew "direct team preset has an invalid member"), seen)
      else if bool_decide (ms_Address m ∈ seen) then (Some (ErrorsNew "direct team preset has duplicate member addresses"), seen)
      else member_addresses withInstructions l (<[ms_Role m := index + 1]> indices) (seen ++ [ms_Address m])
  end.
Definition validDirectTeamPreset (p : Preset) : option error :=
  if negb (validManagedCreationTeam (pt_ID p)) || (pt_Name p == "") || (256 <? strlen (pt_Name p)) || (pt_Description p == "")
     || (4096 <? strlen (pt_Description p)) || negb (utf8_valid (pt_Name p)) || negb (utf8_valid (pt_Description p))
     || breaks (pt_Name p +:+ pt_Description p) || negb (messageDigestPattern (pt_CatalogDigest p))
     || negb (messageDigestPattern (pt_TeamDigest p)) || bool_decide (validateCreationSettingValue (pt_LeadModel p) ≠ None)
     || bool_decide (validateCreationSettingValue (pt_LeadEffort p) ≠ None) || (pt_LeadModel p == "") || (pt_LeadEffort p == "")
     || (64 <? Z.of_nat (length (elems (pt_Roles p)))) || (64 <? Z.of_nat (length (elems (pt_Members p))))
  then Some (ErrorsNew "direct team preset is malformed") else
  let withInstructions := pt_LeadInstructions p != "" in
  if withInstructions && negb (validDirectInstructions (pt_LeadInstructions p))
  then Some (ErrorsNew "direct team preset has invalid lead instructions") else
  let '(e, addresses) := member_addresses withInstructions (elems (pt_Members p)) ∅ [] in
  match e with
  | Some e => Some e
  | None => refuse (bool_decide (elems (pt_Roles p) ≠ "lead" :: addresses)) "direct team preset has an invalid role summary"
  end.

Fixpoint repeated (n : nat) (s : string) : string := match n with O => "" | S n => s +:+ repeated n s end.
Definition MaxCreationJournalBytes : Z := 64 * 1024.
(** [Preset.ValidateCreationSize] *)
Definition ValidateCreationSize (p : Preset) : option error :=
  match json_struct
    [field "direct_team" (Preset_json p); field "effort" (json_string (pt_LeadEffort p));
     field "goal_sha256" (json_string (repeated 64 "0")); field "model" (json_string (pt_LeadModel p));
     field "run_codex" (json_bool true); field "schema" (json_int 3); field "sensitive" (json_bool true);
     field "slug" (json_string (repeated 255 "s")); field "state" (json_string "creating");
     field "tmux_identity" (json_string (repeated 64 "0"))] with
  | None => Some (ErrorsNew "json")
  | Some data => refuse (MaxCreationJournalBytes <? strlen data + 1) "starting team exceeds the 64 KiB creation journal limit"
  end.

(** ** Creation requests *)

(** [sameCreationRequest]: a missing notification preference counts as enabled, and what the
    server adds itself is not compared. *)
Definition comparable (r : creationRequest) : creationRequest :=
  r <| cr_Notify := None |> <| cr_directTeam := None |> <| cr_DestinationSettings := false |> <| cr_teamSubmitted := false |>
    <| cr_digestSubmitted := false |> <| cr_modelSubmitted := false |> <| cr_effortSubmitted := false |>.
Definition sameCreationRequest (left right : creationRequest) : bool :=
  if negb (Bool.eqb (default true (cr_Notify left)) (default true (cr_Notify right))) then false
  else comparable left == comparable right.

Definition new_request (r : sessionPreparation) (s : preparationSnapshot) : creationRequest :=
  let i := sn_Input s in
  mkCreation (pi_Sensitive i) "new" (sp_Slug r) (sn_Goal s) (TrimSpace (pv_Value (pi_Model i))) (TrimSpace (pv_Value (pi_Effort i)))
    (pi_Provider i) false "" "" "" "" "" "" (pi_Notify i) "" "" None false false false false.
Definition no_input : preparationInput :=
  mkInput false "" "" "" "" None (mkValue false "") (mkValue false "") (mkValue false "") (mkValue false "") None "".
Definition no_snapshot : preparationSnapshot := mkSnapshot no_input None "".
(** A record without a snapshot is not handed over: reading it would panic. *)
Definition preparationCreationRequest (r : sessionPreparation) : creationRequest :=
  let s := default no_snapshot (sp_Snapshot r) in
  let request := new_request r s in
  match sn_Preset s with
  | None => request
  | Some p => request <| cr_Team := pt_ID p |> <| cr_CatalogDigest := pt_CatalogDigest p |> <| cr_directTeam := Some p |>
  end.
Definition preparationReceiptMatches (r : sessionPreparation) (c : creationReceipt) : bool :=
  if bool_decide (sp_Snapshot r = None) || bool_decide (sp_Handoff r = None) then false else
  let request := preparationCreationRequest r in
  let schema := match cr_directTeam request with None => 1 | Some _ => 3 end in
  (ct_Schema c =? schema) && (ct_Workspace c == sp_Workspace r) && (ct_ReceiptID c == sp_ReceiptID r)
  && (ct_DeletionHistory c == sp_Epoch r) && sameCreationRequest (ct_Request c) request
  && (ct_DirectTeam c == cr_directTeam request)
  && match cr_directTeam request with
     | None => true
     | Some p => (ct_Model c == pt_LeadModel p) && (ct_Effort c == pt_LeadEffort p)
     end.

(** ** Validity of a record *)

Definition validPreparationID (id : string) : bool :=
  queueClientMessageIDPattern id
  && match String.get 14 id, String.get 19 id with
     | Some v, Some w => is_char v "4"%char && one_of (String w "") ["8"; "9"; "a"; "b"]
     | _, _ => false
     end.
Definition naming_outcomes : list string :=
  ["custom"; "model"; "unavailable"; "utility_error"; "invalid_output"; "timeout"; "attachment_only"].
Fixpoint attachments_ok (seen l : list string) : bool :=
  match l with
  | [] => true
  | id :: l => queueClientMessageIDPattern id && negb (bool_decide (id ∈ seen)) && attachments_ok (id :: seen) l
  end.
Definition setting_ok (v : preparationValue) : bool :=
  negb ((negb (pv_Present v) && (pv_Value v != "")) || negb (utf8_valid (pv_Value v))
        || bool_decide (validateCreationSettingValue (pv_Value v) ≠ None)).
Definition result_refusal {A} (r : result A) : option error := match r with Err e => Some e | Ok _ => None end.
Definition starts_with (prefix s : string) : bool := String.prefix prefix s.

Definition validate_snapshot (r : sessionPreparation) (s : preparationSnapshot) : option error :=
  let i := sn_Input s in
  first_refusal [
    refuse ((sp_InputDigest r != inputPreparationDigest i) || (sp_SnapshotDigest r != preparationDigest (Snapshot_json s)))
      "preparation snapshot digest mismatch";
    refuse ((pi_Provider i != "") && negb (ValidID (pi_Provider i))) "preparation has an invalid provider";
    refuse (negb (utf8_valid (pi_RawPrompt i)) || (MaxMessageBytes <? strlen (pi_RawPrompt i))
            || (50 <? Z.of_nat (length (elems (pi_Attachments i))))
            || ((TrimSpace (pi_RawPrompt i) == "") && bool_decide (elems (pi_Attachments i) = []))) "invalid preparation prompt";
    result_refusal (creationDestination "session" (pi_Date i));
    (if pi_CustomName i == "" then None else result_refusal (creationDestination (pi_CustomName i) (pi_Date i)));
    refuse (negb (forallb setting_ok [pi_Team i; pi_Catalog i; pi_Model i; pi_Effort i])) "invalid preparation settings";
    refuse (negb (attachments_ok [] (elems (pi_Attachments i)))) "invalid preparation attachments";
    refuse ((bool_decide (elems (pi_Attachments i) ≠ []) || (pi_UploadScope i != "")) && negb (queueClientMessageIDPattern (pi_UploadScope i)))
      "invalid preparation upload scope";
    refuse (match sn_Preset s with Some p => bool_decide (validDirectTeamPreset p ≠ None) | None => false end)
      "invalid preparation team snapshot";
    refuse ((MaxMessageBytes <? strlen (sn_Goal s)) || negb (utf8_valid (sn_Goal s))) "invalid preparation goal";
    refuse (((sp_State r == "handed_off") || ((sp_State r == "running") && (sp_Phase r != "accepting"))) && (sn_Goal s == ""))
      "missing preparation goal";
    refuse ((sp_Base r != "") && (negb (ValidSlug (sp_Base r)) || (48 <? strlen (sp_Base r)))) "invalid preparation base";
    refuse (negb (Bool.eqb (sp_Slug r == "") (bool_decide (sp_Handoff r = None)))) "incomplete preparation handoff";
    refuse ((sp_Slug r != "") && (negb (starts_with (pi_Date i +:+ "-") (sp_Slug r)) || (sp_Base r == "")
            || ((pi_CustomName i != "") && (sp_Slug r != pi_Date i +:+ "-" +:+ pi_CustomName i))))
      "preparation destination does not match its frozen input";
    refuse (match sp_Handoff r with Some h => negb (sameCreationRequest h (preparationCreationRequest r)) | None => false end)
      "preparation handoff mismatch"].

Definition validatePreparation (r : sessionPreparation) (workspace : string) : option error :=
  first_refusal [
    refuse (negb (sp_Schema r =? 1) || (sp_Workspace r != workspace) || negb (validPreparationID (sp_RequestID r))
            || negb (sp_InputVersion r =? 1) || negb (messageDigestPattern (sp_InputDigest r))
            || negb (messageDigestPattern (sp_ReceiptID r)) || (sp_Attempt r <? 1) || (4096 <? strlen (sp_Error r)))
      "invalid preparation identity";
    refuse (negb (is_time (sp_StartedAt r)) || negb (is_time (sp_UpdatedAt r))) "invalid preparation timestamp";
    refuse (((sp_Slug r == "") && (sp_Epoch r != ""))
            || ((sp_Slug r != "") && (negb (ValidSlug (sp_Slug r)) || negb (messageDigestPattern (sp_Epoch r)))))
      "invalid preparation reservation";
    refuse ((sp_NamingOutcome r != "") && negb (one_of (sp_NamingOutcome r) naming_outcomes)) "invalid preparation naming outcome";
    if sp_State r == "terminal" then
      refuse (bool_decide (sp_Snapshot r ≠ None) || bool_decide (sp_Handoff r ≠ None) || (sp_SnapshotDigest r != "") || (sp_Base r != "")
              || (sp_Slug r == "") || (sp_Phase r != "initializing") || negb (one_of (sp_Terminal r) ["ready"; "conflict"; "cancelled"]))
        "invalid preparation mapping"
    else first_refusal [
      refuse (sp_Terminal r != "") "unfinished preparation has a terminal outcome";
      refuse (negb (one_of (sp_State r) ["accepting"; "running"; "paused"; "failed"; "handed_off"])) "invalid preparation state";
      refuse (negb (one_of (sp_Phase r) ["accepting"; "naming"; "reserving"; "initializing"; "stopped"])) "invalid preparation phase";
      match sp_Snapshot r with
      | None => Some (ErrorsNew "preparation snapshot digest mismatch")
      | Some s => validate_snapshot r s
      end]].

(** ** Names *)

Fixpoint split_at_dashes (s : string) : list string :=
  match s with
  | EmptyString => [""]
  | String c s =>
      if is_char c "-"%char then "" :: split_at_dashes s
      else match split_at_dashes s with w :: l => String c w :: l | [] => [String c ""] end
  end.
Fixpoint bounded_words (limit : Z) (result : string) (words : list string) : string :=
  match words with
  | [] => result
  | w :: words =>
      let candidate := if result == "" then w else result +:+ "-" +:+ w in
      if limit <? strlen candidate then result else bounded_words limit candidate words
  end.
Definition boundedSessionWords (name : string) (limit : Z) : string := bounded_words limit "" (split_at_dashes name).
Definition suffixedSessionName (base : string) (number : Z) : string :=
  if number =? 1 then base else
  let suffix := "-" +:+ pretty number in
  let prefix := boundedSessionWords base (48 - strlen suffix) in
  (if prefix == "" then "session" else prefix) +:+ suffix.

Definition canSetPreparationName (r : sessionPreparation) (state : string) : bool :=
  one_of state ["failed"; "paused"]
  && match sp_Snapshot r with
     | Some s => (sn_Goal s != "") && (pi_CustomName (sn_Input s) == "")
     | None => false
     end
  && (sp_Slug r == "") && bool_decide (sp_Handoff r = None) && ((sp_Base r == "") || (sp_NamingOutcome r == "custom")).
