(* ===== verification/PreparationStore.v ===== *)
(** * Session preparations: the store

    [web/preparation_store.go]: reading, saving and confirming a record, the capacity and the
    load at start-up.  A record is a file of the unfinished or of the completed directory;
    a rename publishes it before the directories are known to be on disk. *)

From S2P Require Import Prelude Effects GoStrings GoJson GoTime Sha256 LifecycleTypes SessionPreparation.

Open Scope Z_scope.

Record preparationWork := mkWork { wk_Attempt : Z; wk_Dispatched : bool; wk_Stopped : bool }.
#[export] Instance eta_Work : Eta preparationWork := λ w, mkWork (wk_Attempt w) (wk_Dispatched w) (wk_Stopped w).
Definition no_work : preparationWork := mkWork 0 false false.

(** A worker started for an attempt; a creation receipt installed for a request. *)
Inductive prep_event := ev_dispatch (id : string) (attempt : Z) | ev_install (slug receipt : string).

(** [pp_unconfirmed]: the records whose last rename is not known to be on disk, with the
    directory (completed or not) they are in; [pp_unfinished] and [pp_mappings]: the files. *)
Record PrepSys (W : Type) := mkPrepSys {
  pp_world : W; pp_records : gmap string sessionPreparation; pp_unconfirmed : gmap string bool;
  pp_work : gmap string preparationWork; pp_closing : bool; pp_creations : gmap string creationReceipt;
  pp_unfinished : gmap string sessionPreparation; pp_mappings : gmap string sessionPreparation; pp_trace : list prep_event }.
Arguments mkPrepSys {W}. Arguments pp_world {W}. Arguments pp_records {W}. Arguments pp_unconfirmed {W}. Arguments pp_work {W}.
Arguments pp_closing {W}. Arguments pp_creations {W}. Arguments pp_unfinished {W}. Arguments pp_mappings {W}. Arguments pp_trace {W}.
#[export] Instance eta_PrepSys {W} : Eta (PrepSys W) := λ σ,
  mkPrepSys (pp_world σ) (pp_records σ) (pp_unconfirmed σ) (pp_work σ) (pp_closing σ) (pp_creations σ) (pp_unfinished σ)
    (pp_mappings σ) (pp_trace σ).

(** The rest of the system.  [pr_call] is every system call or lock that only succeeds or fails;
    [pr_others] is what other goroutines do while [operationMu] is free. *)
Record PrepRuntime (W : Type) := mkPrepRuntime {
  pr_workspace : string;
  pr_now : W → W * Time;
  pr_random : W → W * result (list Z);
  pr_range : list string → W → W * list string;
  pr_call : string → W → W * option error;
  pr_Validate : string → string → string → slice string → W → W * option error;
  pr_Claim : string → string → string → slice string → W → W * result string;
  pr_Bind : string → string → string → string → string → W → W * option error;
  pr_BindCreation : creationReceipt → W → W * option error;
  pr_prove : creationReceipt → W → W * option error;
  pr_history : string → W → W * result string;
  pr_pending : string → W → W * result string;
  pr_journal : string → W → W * result (option string);
  pr_current : string → W → W * option creationReceipt;
  pr_Find : string → W → W * option error;
  pr_name : string → string → W → W * (string * string * option error);
  pr_teams : W → W * option (bool * option string);
  pr_preset : string → W → W * result Preset;
  pr_provider : string → W → W * option error;
  pr_retry_creation : string → string → Z → W → W * (Z * option error);
  pr_others : PrepSys W → PrepSys W;
  pr_text : error → string }.
Arguments pr_workspace {W}. Arguments pr_now {W}. Arguments pr_random {W}. Arguments pr_range {W}. Arguments pr_call {W}.
Arguments pr_Validate {W}. Arguments pr_Claim {W}. Arguments pr_Bind {W}. Arguments pr_BindCreation {W}. Arguments pr_prove {W}.
Arguments pr_history {W}. Arguments pr_pending {W}. Arguments pr_journal {W}. Arguments pr_current {W}.
Arguments pr_Find {W}. Arguments pr_name {W}. Arguments pr_teams {W}. Arguments pr_preset {W}. Arguments pr_provider {W}.
Arguments pr_retry_creation {W}. Arguments pr_others {W}. Arguments pr_text {W}.

Abbreviation Pr W := (SE (PrepSys W)).

Section Store.
Context {W : Type} (rt : PrepRuntime W).

Definition pask {A} (f : W → W * A) : Pr W A :=
  λ σ, let '(w, a) := f (pp_world σ) in (σ <| pp_world := w |>, Ok a).
Definition pcall (name : string) : Pr W unit := e ← pask (pr_call rt name); lift_error e.
(** [Format(time.RFC3339Nano)] of the time in UTC. *)
Definition timestamp : Pr W string := now ← pask (pr_now rt); mret (rfc3339 now).

Definition file_in (completed : bool) (σ : PrepSys W) (id : string) : option sessionPreparation :=
  (if completed then pp_mappings σ else pp_unfinished σ) !! id.
Definition put_file (completed : bool) (id : string) (r : sessionPreparation) (σ : PrepSys W) : PrepSys W :=
  if completed then σ <| pp_mappings ::= <[id := r]> |> else σ <| pp_unfinished ::= <[id := r]> |>.

(** A file that can be read holds the text of a record that was saved. *)
Definition readPreparation (completed : bool) (id : string) : Pr W sessionPreparation :=
  pcall "open preparation";;
  file ← gets (λ σ, file_in completed σ id);
  match file with
  | None => fail ErrNotExist
  | Some saved =>
      pcall "stat preparation";;
      pcall "read preparation";;
      match Preparation_json saved with
      | None => fail (ErrorsNew "json")
      | Some data =>
          if maxPreparationBytes <? strlen data then fail (ErrorsNew "preparation is too large") else
          let r := copy_preparation saved in
          if (sp_State r == "terminal") && (maxPreparationMappingBytes <? strlen data)
          then fail (ErrorsNew "preparation mapping is too large") else
          lift_error (validatePreparation r (pr_workspace rt));; mret r
      end
  end.

Definition errPreparationPersistenceUnconfirmed : error := ErrorsNew "preparation persistence is unconfirmed".
Definition syncPreparationDirectory : Pr W unit := pcall "sync directory".
Definition privatePreparationDirectory : Pr W unit := pcall "private directory".

(** A completed record is moved to the completed directory. *)
Definition move_completed (id : string) (completed : bool) : Pr W unit :=
  pcall "mkdir";; privatePreparationDirectory;; syncPreparationDirectory;;
  (if completed then mret tt else
     pcall "rename preparation";;
     modify (λ σ, match pp_unfinished σ !! id with
       | Some r => put_file true id r (σ <| pp_unfinished ::= delete id |>)
       | None => σ
       end <| pp_unconfirmed ::= <[id := true]> |>));;
  syncPreparationDirectory;;
  syncPreparationDirectory.

(** The published file is the record in memory, and its directories are on disk. *)
Definition confirm_published (id : string) (completed : bool) (record : sessionPreparation) : Pr W unit :=
  published ← readPreparation completed id;
  if preparationDigest (Preparation_json published) != preparationDigest (Preparation_json record)
  then fail (ErrorsNew "published preparation changed") else
  syncPreparationDirectory;;
  syncPreparationDirectory;;
  (if sp_State record == "terminal" then move_completed id completed else mret tt).
Definition confirmPreparationLocked (id : string) : Pr W unit :=
  pending ← gets (λ σ, pp_unconfirmed σ !! id);
  match pending with
  | None => mret tt
  | Some completed =>
      record ← gets (λ σ, default no_preparation (pp_records σ !! id));
      confirmed ← attempt (confirm_published id completed record);
      match confirmed with
      | Err e => fail (ErrWrap errPreparationPersistenceUnconfirmed (pr_text rt e))
      | Ok _ => modify (λ σ, σ <| pp_unconfirmed ::= delete id |>)
      end
  end.

(** Saved in place of a completed mapping, or among the unfinished. *)
Definition save_directory (r : sessionPreparation) : Pr W bool :=
  previous ← gets (λ σ, pp_records σ !! sp_RequestID r);
  match previous with
  | Some p =>
      if sp_State p == "terminal" then
        found ← gets (λ σ, bool_decide (is_Some (pp_mappings σ !! sp_RequestID r)));
        e ← pask (pr_call rt "lstat mapping");
        mret (found && bool_decide (e = None))
      else mret false
  | None => mret false
  end.
Definition publish (completed : bool) (r : sessionPreparation) : Pr W unit :=
  pcall "mkdir";; privatePreparationDirectory;; syncPreparationDirectory;;
  pcall "write temporary file";; pcall "rename preparation";;
  modify (λ σ, put_file completed (sp_RequestID r) r σ
     <| pp_records ::= <[sp_RequestID r := r]> |> <| pp_unconfirmed ::= <[sp_RequestID r := completed]> |>).
Definition savePreparation (r : sessionPreparation) : Pr W unit :=
  confirmPreparationLocked (sp_RequestID r);;
  lift_error (validatePreparation r (pr_workspace rt));;
  match Preparation_json r with
  | None => fail (ErrorsNew "json")
  | Some data =>
      if (if sp_State r == "terminal" then maxPreparationMappingBytes else maxPreparationBytes) <? strlen data
      then fail (ErrorsNew "preparation record exceeds its byte limit") else
      completed ← save_directory r;
      publish completed r;;
      confirmPreparationLocked (sp_RequestID r)
  end.

Definition unfinished (m : gmap string sessionPreparation) : Z :=
  Z.of_nat (size (filter (λ kv, sp_State kv.2 ≠ "terminal") m)).
Definition preparationCapacity (m : gmap string sessionPreparation) : option error :=
  refuse ((maxUnfinishedPreparations <=? unfinished m) || (maxPreparationMappings <=? Z.of_nat (size m)))
    "session request history is full".

(** ** Start-up *)

(** What is kept while the directories are read: the records, how many are unfinished, and the bytes they may take. *)
Record loading := mkLoading { ld_records : gmap string sessionPreparation; ld_unfinished : Z; ld_bytes : Z }.
Definition load_one (completed : bool) (id : string) (d : loading) : Pr W loading :=
  if negb (validPreparationID id) then fail (ErrorsNew "invalid preparation filename") else
  if bool_decide (is_Some (ld_records d !! id)) then fail (ErrorsNew "duplicate preparation identity") else
  read ← attempt (readPreparation completed id);
  r ← match read with Ok r => mret r | Err e => fail (ErrWrap e ("load preparation " +:+ id)) end;
  if (sp_RequestID r != id) || (completed && (sp_State r != "terminal")) then fail (ErrorsNew "preparation path identity mismatch") else
  let terminal := sp_State r == "terminal" in
  let n := if terminal then ld_unfinished d else ld_unfinished d + 1 in
  let bytes := ld_bytes d + (if terminal then maxPreparationMappingBytes else maxPreparationBytes) in
  if (maxPreparationMappings <=? Z.of_nat (size (ld_records d))) || (maxUnfinishedPreparations <? n) || (maxPreparationAggregateBytes <? bytes)
  then fail (ErrorsNew "preparation capacity exceeded") else
  r ← (if sp_State r == "running"
       then (now ← timestamp; mret (r <| sp_State := "paused" |> <| sp_Phase := "stopped" |> <| sp_UpdatedAt := now |>))
       else mret r);
  mret (mkLoading (<[id := r]> (ld_records d)) n bytes).
Fixpoint load_each (completed : bool) (ids : list string) (d : loading) : Pr W loading :=
  match ids with [] => mret d | id :: ids => d ← load_one completed id d; load_each completed ids d end.
Definition load_directory (completed : bool) (d : loading) : Pr W loading :=
  pcall "read directory";;
  files ← gets (λ σ, if completed then pp_mappings σ else pp_unfinished σ);
  load_each completed (map fst (sort_keys (map_to_list files))) d.
Definition loadPreparations : Pr W unit :=
  modify (λ σ, σ <| pp_records := ∅ |> <| pp_unconfirmed := ∅ |> <| pp_work := ∅ |>);;
  d ← load_directory false (mkLoading ∅ 0 0);
  d ← load_directory true d;
  modify (λ σ, σ <| pp_records := ld_records d |>).
End Store.
