(* ===== verification/PreparationOps.v ===== *)
(** * Session preparations: accepting, dispatching, reserving and handing over

    [web/preparation.go] under its locks: finishing an acceptance, the worker and its
    mutations, the compaction of records, the reservation of a name; and the installation and
    retirement of creation receipts ([web/creation.go], [creation_store.go]).  Other
    goroutines act while [operationMu] is free. *)

From S2P Require Import Prelude Effects GoStrings GoJson GoTime Sha256 RetryValidate LifecycleTypes SessionPreparation PreparationStore.

Open Scope Z_scope.

Section Ops.
Context {W : Type} (rt : PrepRuntime W).

Definition record_of (id : string) (σ : PrepSys W) : sessionPreparation := default no_preparation (pp_records σ !! id).
Definition work_of (id : string) (σ : PrepSys W) : preparationWork := default no_work (pp_work σ !! id).
Definition snapshot_of (r : sessionPreparation) : preparationSnapshot := default no_snapshot (sp_Snapshot r).
Definition input_of (r : sessionPreparation) : preparationInput := sn_Input (snapshot_of r).

(** ** Work *)

Definition pendingPreparationLocked (r : sessionPreparation) : Pr W unit :=
  modify (λ σ, if wk_Attempt (work_of (sp_RequestID r) σ) =? sp_Attempt r then σ
               else σ <| pp_work ::= <[sp_RequestID r := mkWork (sp_Attempt r) false false]> |>).
Definition savePreparationForDispatchLocked (r : sessionPreparation) : Pr W unit :=
  saved ← attempt (savePreparation rt r);
  published ← gets (λ σ, pp_records σ !! sp_RequestID r);
  match published with
  | Some p => if (sp_Attempt p =? sp_Attempt r) && one_of (sp_State p) ["accepting"; "running"] then pendingPreparationLocked p else mret tt
  | None => mret tt
  end;;
  lift_result saved.
(** The worker itself is [runPreparation]; the trace records that it was started. *)
Definition launchPreparationLocked (r : sessionPreparation) : Pr W unit :=
  modify (λ σ,
    let work := work_of (sp_RequestID r) σ in
    if pp_closing σ || (sp_State r != "running") || negb (wk_Attempt work =? sp_Attempt r) || wk_Dispatched work
       || bool_decide (is_Some (pp_unconfirmed σ !! sp_RequestID r))
    then σ
    else σ <| pp_work ::= <[sp_RequestID r := work <| wk_Dispatched := true |>]> |>
           <| pp_trace ::= λ l, l ++ [ev_dispatch (sp_RequestID r) (sp_Attempt r)] |>).

(** ** Accepting *)

Definition with_goal (r : sessionPreparation) (goal : string) : sessionPreparation :=
  let s := snapshot_of r <| sn_Goal := goal |> in
  r <| sp_Snapshot := Some s |> <| sp_SnapshotDigest := preparationDigest (Snapshot_json s) |>.
(** The record as the caller's pointer sees it, also when an error is returned. *)
Definition finishAcceptingPreparationLocked (r : sessionPreparation) : Pr W (sessionPreparation * option error) :=
  confirmed ← attempt (confirmPreparationLocked rt (sp_RequestID r));
  match confirmed with
  | Err e => mret (r, Some e)
  | Ok _ =>
      let i := input_of r in
      claimed ← pask (pr_Claim rt (sp_RequestID r) (pi_UploadScope i) (pi_RawPrompt i) (pi_Attachments i));
      match claimed with
      | Err e => mret (r, Some e)
      | Ok goal =>
          if (sn_Goal (snapshot_of r) != "") && (sn_Goal (snapshot_of r) != goal)
          then mret (r, Some (ErrorsNew "Accepted attachment goal changed.")) else
          now ← timestamp rt;
          let r := with_goal r goal <| sp_State := "running" |> <| sp_Phase := "naming" |> <| sp_UpdatedAt := now |> in
          saved ← attempt (savePreparationForDispatchLocked r);
          mret (r, match saved with Err e => Some e | Ok _ => None end)
      end
  end.
Definition finish_accepting (r : sessionPreparation) : Pr W sessionPreparation :=
  '(r, e) ← finishAcceptingPreparationLocked r;
  lift_error e;; mret r.

(** Every mutation of a worker takes the package's transition lock, the upload lock and [operationMu] again. *)
Definition acquire_locks : Pr W unit :=
  pcall rt "transition lock";; pcall rt "host profile";; pcall rt "upload lock";; modify (pr_others rt).
Definition attempt_changed : error := ErrorsNew "session preparation attempt changed or stopped".
Definition mutatePreparation (id : string) (at_ : Z) (mutate : sessionPreparation → Pr W sessionPreparation) : Pr W unit :=
  acquire_locks;;
  found ← gets (λ σ, (pp_records σ !! id, pp_closing σ));
  match found with
  | (Some r, closing) =>
      if negb (sp_Attempt r =? at_) || (sp_State r == "terminal") || closing then fail attempt_changed else
      confirmPreparationLocked rt id;;
      r ← mutate r;
      now ← timestamp rt;
      savePreparation rt (r <| sp_UpdatedAt := now |>)
  | (None, _) => fail attempt_changed
  end.

(** Some unfinished preparation of another request holds the name. *)
Definition held_by_another (slug owner : string) (m : gmap string sessionPreparation) : bool :=
  existsb (λ kv, (sp_State kv.2 != "terminal") && (sp_Slug kv.2 == slug) && (sp_ReceiptID kv.2 != owner)) (map_to_list m).
(** A value of its own: [install_new] has another error of the same text. *)
Definition errPreparationOccupied : error := ErrWrap (ErrExternal 1) "session name already exists".

(** ** Compaction and retirement of creation receipts *)

(** [current.Error[:4096]] cuts bytes, not characters. *)
Definition cut_error (limit : Z) (s : string) : string :=
  if limit <? strlen s then String.substring 0 (Z.to_nat limit) s else s.
(** [for _, record := range s.preparations]: each record as it is when it is visited. *)
Fixpoint visit (body : sessionPreparation → Pr W unit) (ids : list string) : Pr W unit :=
  match ids with
  | [] => mret tt
  | id :: ids =>
      found ← gets (λ σ, pp_records σ !! id);
      (match found with Some r => body r | None => mret tt end);; visit body ids
  end.
Definition for_each_record (body : sessionPreparation → Pr W unit) : Pr W unit :=
  records ← gets pp_records;
  ids ← pask (pr_range rt (map fst (map_to_list records)));
  visit body ids.

(** A finished creation turns its record into a compact mapping. *)
Definition compacted (r : sessionPreparation) (c : creationReceipt) (now : string) : sessionPreparation :=
  r <| sp_State := "terminal" |> <| sp_Terminal := ct_State c |> <| sp_Phase := "initializing" |>
    <| sp_Error := cut_error 512 (ct_Error c) |> <| sp_Snapshot := None |> <| sp_Handoff := None |> <| sp_Base := "" |>
    <| sp_SnapshotDigest := "" |> <| sp_UpdatedAt := now |>.
Definition related_to (c : creationReceipt) (r : sessionPreparation) : bool :=
  (sp_ReceiptID r == ct_ReceiptID c) && (sp_Slug r == cr_Slug (ct_Request c)).
Definition compact_record (c : creationReceipt) (r : sessionPreparation) : Pr W unit :=
  (if related_to c r then confirmPreparationLocked rt (sp_RequestID r) else mret tt);;
  if (sp_State r == "terminal") || negb (preparationReceiptMatches r c) then mret tt else
  (if ct_State c == "ready" then
     pcall rt "upload store";;
     proved ← pask (pr_prove rt c); lift_error proved;;
     bound ← pask (pr_BindCreation rt c); lift_error bound
   else mret tt);;
  now ← timestamp rt;
  savePreparation rt (compacted r c now).
Definition compactPreparationsLocked (c : creationReceipt) : Pr W unit :=
  if negb (one_of (ct_State c) ["ready"; "conflict"; "cancelled"]) then mret tt else
  records ← gets pp_records;
  if negb (existsb (λ kv, related_to c kv.2) (map_to_list records)) then mret tt else
  pcall rt "transition lock";; pcall rt "host profile";;
  for_each_record (compact_record c).

(** The first of the files exists; another failure than its absence is an error. *)
Fixpoint any_exists (paths : list string) : Pr W bool :=
  match paths with
  | [] => mret false
  | path :: paths =>
      e ← pask (pr_call rt ("lstat " +:+ path));
      match e with
      | None => mret true
      | Some e => if errors_Is e ErrNotExist then any_exists paths else fail e
      end
  end.
Definition session_roots (slug : string) : list string := ["work/" +:+ slug; "archive/" +:+ slug; "worktrees/" +:+ slug].
Definition creationJournalPresent (slug : string) (includeCompleted : bool) : Pr W bool :=
  owner ← pask (pr_pending rt slug);
  owner ← lift_result owner;
  if owner != "" then mret true else
  started ← any_exists ["worktrees/.locks/" +:+ slug +:+ ".start.json"; "worktrees/.locks/" +:+ slug +:+ ".fork.json"];
  if (started : bool) then mret true else
  journal ← pask (pr_journal rt slug);
  journal ← lift_result journal;
  mret match journal with None => false | Some state => includeCompleted || (state != "ready") end.
Definition creationEvidencePath (c : creationReceipt) : string := "creations/" +:+ cr_Slug (ct_Request c) +:+ "." +:+ ct_ReceiptID c +:+ ".complete.json".
Definition creationPath (slug : string) : string := "creations/" +:+ slug +:+ ".json".
Fixpoint remove_all (paths : list string) : Pr W unit :=
  match paths with
  | [] => mret tt
  | path :: paths =>
      e ← pask (pr_call rt ("remove " +:+ path));
      match e with
      | Some e => if errors_Is e ErrNotExist then remove_all paths else fail (ErrWrap e "retire creation receipt")
      | None => remove_all paths
      end
  end.
(** The receipt's preparations are compacted before its files go. *)
Definition retireCreation (c : creationReceipt) : Pr W unit :=
  pcall rt "transition lock";; pcall rt "host profile";;
  compactPreparationsLocked c;;
  remove_all [creationEvidencePath c +:+ ".request"; creationEvidencePath c; creationPath (cr_Slug (ct_Request c))];;
  pcall rt "sync creations";;
  modify (λ σ, σ <| pp_creations ::= delete (cr_Slug (ct_Request c)) |>).
Definition EWOULDBLOCK : error := ErrExternal 11.
(** The runtime lock is shared: a session in use is left alone. *)
Definition with_shared_runtime (slug : string) (m : Pr W unit) : Pr W unit :=
  e ← pask (pr_call rt ("shared runtime lock " +:+ slug));
  match e with
  | Some e => if errors_Is e EWOULDBLOCK then mret tt else fail e
  | None => m
  end.
Definition retireIdleCreation (c : creationReceipt) : Pr W unit :=
  with_shared_runtime (cr_Slug (ct_Request c)) (
    pending ← creationJournalPresent (cr_Slug (ct_Request c)) false;
    if (pending : bool) then mret tt else retireCreation c).
Definition retire_absent (slug : string) (c : creationReceipt) : Pr W unit :=
  exists_ ← any_exists (("authority/" +:+ slug +:+ ".json") :: session_roots slug);
  if (exists_ : bool) then mret tt else
  pending ← creationJournalPresent slug true;
  if (pending : bool) then mret tt else
  if (ct_State c != "ready") && (ct_State c != "conflict") then
    history ← pask (pr_history rt slug);
    history ← lift_result history;
    if history == ct_DeletionHistory c then mret tt else retireCreation c
  else retireCreation c.
Definition retireAbsentCreation (slug : string) : Pr W unit :=
  found ← gets (λ σ, pp_creations σ !! slug);
  match found with
  | None => mret tt
  | Some c =>
      if one_of (ct_State c) ["running"; "cancelled"] then mret tt else
      with_shared_runtime slug (retire_absent slug c)
  end.
Definition maxCreationReceipts : Z := 512.
Definition over_capacity (reserve : Z) (σ : PrepSys W) : bool := maxCreationReceipts <? Z.of_nat (size (pp_creations σ)) + reserve.
(** [for slug, receipt := range s.creations]: an entry deleted meanwhile is not visited. *)
Fixpoint retire_stopped (slugs : list string) : Pr W unit :=
  match slugs with
  | [] => mret tt
  | slug :: slugs =>
      found ← gets (λ σ, pp_creations σ !! slug);
      match found with
      | Some c => if one_of (ct_State c) ["paused"; "failed"] then retireAbsentCreation slug else mret tt
      | None => mret tt
      end;;
      retire_stopped slugs
  end.
Fixpoint retire_terminal (reserve : Z) (l : list creationReceipt) : Pr W unit :=
  match l with
  | [] => mret tt
  | c :: l =>
      over ← gets (over_capacity reserve);
      if (over : bool) then retireIdleCreation c;; retire_terminal reserve l else mret tt
  end.
(** By time of the last change, then by name. *)
Definition oldest_first (l : list creationReceipt) : list creationReceipt :=
  map snd (sort_keys (map (λ c, (ct_UpdatedAt c, c)) (map snd (sort_keys (map (λ c, (cr_Slug (ct_Request c), c)) l))))).
Definition terminal_creations (m : gmap string creationReceipt) : list creationReceipt :=
  List.filter (λ c, one_of (ct_State c) ["ready"; "conflict"; "cancelled"]) (map snd (map_to_list m)).
Definition retireReadyCreations (reserve : Z) : Pr W unit :=
  over ← gets (over_capacity reserve);
  if negb over then mret tt else
  creations ← gets pp_creations;
  slugs ← pask (pr_range rt (map fst (map_to_list creations)));
  retire_stopped slugs;;
  creations ← gets pp_creations;
  retire_terminal reserve (oldest_first (terminal_creations creations));;
  over ← gets (over_capacity reserve);
  if (over : bool) then fail (ErrorsNew "too many unfinished session creations") else mret tt.

(** ** Reserving and installing *)

Definition destinationOccupiedLocked (slug owner : string) : Pr W bool :=
  receipt ← gets (λ σ, pp_creations σ !! slug);
  if match receipt with Some c => ct_ReceiptID c != owner | None => false end then mret true else
  held ← gets (λ σ, held_by_another slug owner (pp_records σ));
  if (held : bool) then mret true else
  present ← any_exists (session_roots slug);
  if (present : bool) then mret true else
  pending ← creationJournalPresent slug true;
  if (pending : bool) then mret true else
  any_exists ["authority/" +:+ slug +:+ ".json"; "authority/" +:+ slug +:+ ".start.json"; "codex-teams/" +:+ slug +:+ ".json"].

(** An exact owner ([receiptID]) takes back only its own receipt. *)
Definition same_receipt (request : creationRequest) (receiptID epoch : string) (previous : creationReceipt) : bool :=
  sameCreationRequest (ct_Request previous) request && negb (ct_Schema previous =? 2)
  && (negb (ct_Schema previous =? 3)
      || match cr_directTeam request, ct_DirectTeam previous with
         | Some p, Some q => (q == p) && (ct_Model previous == pt_LeadModel p) && (ct_Effort previous == pt_LeadEffort p)
         | _, _ => false
         end)
  && ((receiptID == "")
      || (ct_ReceiptID previous == receiptID) && (ct_DeletionHistory previous == epoch) && (ct_Workspace previous == pr_workspace rt)).
Definition new_receipt (request : creationRequest) (receiptID history now : string) : creationReceipt :=
  let team := cr_directTeam request in
  mkReceipt (match team with Some _ => 3 | None => 1 end) (pr_workspace rt) request receiptID history 1 "running"
    "Checking session settings…" "" now now false ""
    (match team with Some p => pt_LeadModel p | None => "" end) (match team with Some p => pt_LeadEffort p | None => "" end) "" "" team.
Definition check_team (request : creationRequest) : option error :=
  match cr_directTeam request with
  | None => None
  | Some p =>
      if (cr_Kind request == "fork") || (cr_Team request != pt_ID p) || (cr_CatalogDigest request != pt_CatalogDigest p)
      then Some (ErrorsNew "direct team preset is incomplete") else validDirectTeamPreset p
  end.
(** [saveCreation]: the map of receipts follows only when all of it succeeds. *)
Definition saveCreation (c : creationReceipt) : Pr W unit :=
  pcall rt "create creations directory";;
  match Receipt_json c with
  | None => fail (ErrorsNew "json")
  | Some data =>
      if maxCreationReceiptBytes <? strlen data then fail (ErrorsNew "session creation receipt is too large") else
      pcall rt "write creation";; pcall rt "rename creation";; pcall rt "sync creations"
  end.
(** The receipt's identity: the owner's, or a random one. *)
Definition receipt_identity (receiptID history expectedEpoch : string) : Pr W string :=
  if receiptID == "" then (raw ← pask (pr_random rt); raw ← lift_result raw; mret (hex_encode raw)) else
  if negb (messageDigestPattern receiptID) || (history != expectedEpoch) then fail (ErrorsNew "session reservation identity changed")
  else mret receiptID.
Definition install_new (request : creationRequest) (receiptID expectedEpoch : string) (destinationLocked : bool) : Pr W creationReceipt :=
  (if destinationLocked then mret tt else (pcall rt "creation lock";; pcall rt "runtime lock"));;
  held ← gets (λ σ, held_by_another (cr_Slug request) receiptID (pp_records σ));
  if (held : bool) then fail (ErrorsNew "session name belongs to an accepted request") else
  occupied ← any_exists (session_roots (cr_Slug request));
  if (occupied : bool) then fail (ErrorsNew "session name already exists") else
  owner ← pask (pr_pending rt (cr_Slug request));
  owner ← lift_result owner;
  if owner != "" then fail (ErrorsNew "session has an unfinished lifecycle operation") else
  retireReadyCreations 1;;
  history ← pask (pr_history rt (cr_Slug request));
  history ← lift_result history;
  receiptID ← receipt_identity receiptID history expectedEpoch;
  now ← timestamp rt;
  lift_error (check_team request);;
  saveCreation (new_receipt request receiptID history now);;
  modify (λ σ, σ <| pp_creations ::= <[cr_Slug request := new_receipt request receiptID history now]> |>
                 <| pp_trace ::= λ l, l ++ [ev_install (cr_Slug request) receiptID] |>);;
  mret (new_receipt request receiptID history now).
(** The receipt's worker, [runCreation], is started with it. *)
Definition installCreationLocked (request : creationRequest) (receiptID expectedEpoch : string) (destinationLocked : bool) : Pr W creationReceipt :=
  closing ← gets pp_closing;
  if (closing : bool) then fail (ErrorsNew "portal is stopping; retry shortly") else
  (if receiptID == "" then retireAbsentCreation (cr_Slug request) else mret tt);;
  previous ← gets (λ σ, pp_creations σ !! cr_Slug request);
  match previous with
  | Some previous =>
      if same_receipt request receiptID expectedEpoch previous then mret previous
      else fail (ErrorsNew "this session name belongs to a different creation request")
  | None => install_new request receiptID expectedEpoch destinationLocked
  end.

(** [handoffPreparationLocked] before the record is touched: the name is free, or has the
    record's own receipt; the epoch of its reservation. *)
Definition handoff_check (slug : string) (r : sessionPreparation) : Pr W string :=
  previous ← gets (λ σ, pp_creations σ !! slug);
  match previous, sp_Slug r != "" with
  | Some previous, true =>
      if preparationReceiptMatches r previous then mret tt
      else fail (ErrorsNew "session receipt does not match the accepted reservation")
  | _, _ =>
      occupied ← destinationOccupiedLocked slug (sp_ReceiptID r);
      if (occupied : bool) then fail errPreparationOccupied else mret tt
  end;;
  if sp_Slug r == "" then (epoch ← pask (pr_history rt slug); lift_result epoch) else mret (sp_Epoch r).
(** The reservation is saved before the uploads are bound and the creation installed. *)
Definition reserve_slug (slug epoch : string) (r : sessionPreparation) : sessionPreparation :=
  let r := r <| sp_Slug := slug |> <| sp_Epoch := epoch |> in r <| sp_Handoff := Some (preparationCreationRequest r) |>.
Definition bind_preparation (r : sessionPreparation) : Pr W unit :=
  let i := input_of r in
  if bool_decide (elems (pi_Attachments i) = []) then mret tt else
    e ← pask (pr_Bind rt (sp_RequestID r) (pi_UploadScope i) (sn_Goal (snapshot_of r)) (sp_Slug r) (sp_Epoch r)); lift_error e.
Definition hand_over (r : sessionPreparation) : Pr W sessionPreparation :=
  bind_preparation r;;
  installCreationLocked (preparationCreationRequest r) (sp_ReceiptID r) (sp_Epoch r) true;;
  mret (r <| sp_State := "handed_off" |> <| sp_Phase := "initializing" |> <| sp_Error := "" |>).
Definition handoff_take (slug epoch : string) (r : sessionPreparation) : Pr W sessionPreparation :=
  r ← (if sp_Slug r == "" then savePreparation rt (reserve_slug slug epoch r);; mret (reserve_slug slug epoch r) else mret r);
  hand_over r.

(** [reservePreparationCandidateLocked] before the record is touched. *)
Definition candidate_check (slug : string) (r : sessionPreparation) : Pr W string :=
  (if sp_Slug r == "" then
     occupied ← destinationOccupiedLocked slug (sp_ReceiptID r);
     if (occupied : bool) then fail errPreparationOccupied else mret tt
   else mret tt);;
  pcall rt "creation lock";; pcall rt "runtime lock";;
  handoff_check slug r.
Definition candidate_slug (r : sessionPreparation) (number : Z) : string :=
  if sp_Slug r == "" then pi_Date (input_of r) +:+ "-" +:+ suffixedSessionName (sp_Base r) number else sp_Slug r.
(** [n] candidates are left, the next one is [number].  Another name is tried only while the
    record has none. *)
Fixpoint reserve_from (n : nat) (number : Z) (r : sessionPreparation) : Pr W sessionPreparation :=
  match n with
  | O => fail (ErrorsNew "session name collision limit reached")
  | S n =>
      checked ← attempt (candidate_check (candidate_slug r number) r);
      match checked with
      | Ok epoch => handoff_take (candidate_slug r number) epoch r
      | Err e =>
          if errors_Is e errPreparationOccupied && (sp_Slug r == "") && (pi_CustomName (input_of r) == "") && (sp_NamingOutcome r != "custom")
          then reserve_from n (number + 1) r else fail e
      end
  end.
Definition reservePreparationLocked (r : sessionPreparation) : Pr W sessionPreparation :=
  reserve_from (Z.to_nat (maxPreparationMappings + 1)) 1 r.
End Ops.
