(* ===== verification/PreparationRequests.v ===== *)
(** * Session preparations: the worker, requests and reconciliation

    The rest of [web/preparation.go]: [runPreparation], the requests after their bodies are
    decoded, the projected status, [reconcilePreparations], compaction, the pause at
    shutdown, and histories of them. *)

From S2P Require Import Prelude Effects GoStrings GoJson GoTime Sha256 RetryValidate Communication LifecycleTypes SessionPreparation PreparationStore PreparationOps.

Open Scope Z_scope.

Section Requests.
Context {W : Type} (rt : PrepRuntime W).

(** ** The worker *)

Definition choose_base (base outcome : string) (r : sessionPreparation) : Pr W sessionPreparation :=
  mret (r <| sp_Base := base |> <| sp_NamingOutcome := outcome |> <| sp_Phase := "reserving" |>).
Definition mark_failed (e : error) (namingOutcome : string) (r : sessionPreparation) : Pr W sessionPreparation :=
  let r := r <| sp_State := "failed" |> <| sp_Phase := "stopped" |> in
  let r := if (namingOutcome != "") && (sp_Base r == "") then r <| sp_NamingOutcome := namingOutcome |> else r in
  mret (r <| sp_Error := cut_error 4096 (pr_text rt e) |>).

(** The base, the naming outcome to report on failure, and the first error. *)
Definition name_session (id : string) (at_ : Z) (r : sessionPreparation) : Pr W (string * option error) :=
  if sp_Base r != "" then mret ("", None) else
  '(base, outcome, reported, e) ←
    (if pi_CustomName (input_of r) != "" then mret (pi_CustomName (input_of r), "custom", "", None)
     else (named ← pask (pr_name rt (pi_RawPrompt (input_of r)) (pi_Provider (input_of r)));
           mret (named.1.1, named.1.2, named.1.2, named.2)));
  match e with
  | Some e => mret (reported, Some e)
  | None =>
      changed ← attempt (mutatePreparation rt id at_ (choose_base base outcome));
      mret (reported, match changed with Err e => Some e | Ok _ => None end)
  end.
Definition stop_work (id : string) (at_ : Z) : Pr W unit :=
  modify (λ σ, if wk_Attempt (work_of id σ) =? at_
               then σ <| pp_work ::= <[id := work_of id σ <| wk_Stopped := true |>]> |> else σ).
Definition run_steps (id : string) (at_ : Z) : Pr W unit :=
  r ← gets (record_of id);
  modify (pr_others rt);;
  accepted ← (if (sn_Goal (snapshot_of r) == "") || bool_decide (elems (pi_Attachments (input_of r)) ≠ [])
              then attempt (mutatePreparation rt id at_ (finish_accepting rt)) else mret (Ok tt));
  '(outcome, e) ← match accepted with Err e => mret ("", Some e) | Ok _ => name_session id at_ r end;
  e ← match e with
      | Some e => mret (Some e)
      | None => reserved ← attempt (mutatePreparation rt id at_ (reservePreparationLocked rt));
                mret match reserved with Err e => Some e | Ok _ => None end
      end;
  match e with
  | None => mret tt
  | Some e =>
      canceled ← pask (pr_call rt "operation context");
      if bool_decide (canceled ≠ None) then mret tt
      else ignore (mutatePreparation rt id at_ (mark_failed e outcome))
  end.
Definition runPreparation (id : string) (at_ : Z) : Pr W unit :=
  run_steps id at_;; modify (pr_others rt);; stop_work id at_.

(** ** Status *)

Record preparationStatus := mkStatus {
  st_RequestID : string; st_ReceiptID : string; st_Attempt : Z; st_PreparationAttempt : Z; st_URL : string; st_Slug : string;
  st_CanonicalURL : string; st_State : string; st_Phase : string; st_Detail : string; st_Error : string;
  st_InitialRequest : string; st_CanSetName : bool; st_StartedAt : string; st_UpdatedAt : string }.
#[export] Instance eta_Status : Eta preparationStatus := λ s,
  mkStatus (st_RequestID s) (st_ReceiptID s) (st_Attempt s) (st_PreparationAttempt s) (st_URL s) (st_Slug s) (st_CanonicalURL s)
    (st_State s) (st_Phase s) (st_Detail s) (st_Error s) (st_InitialRequest s) (st_CanSetName s) (st_StartedAt s) (st_UpdatedAt s).
Definition no_status : preparationStatus := mkStatus "" "" 0 0 "" "" "" "" "" "" "" "" false "" "".

(** A running record whose worker has not started, or has ended, is shown as paused. *)
Definition idle_work (r : sessionPreparation) (w : preparationWork) : bool :=
  (sp_State r == "running") && (wk_Attempt w =? sp_Attempt r) && (negb (wk_Dispatched w) || wk_Stopped w).
Definition base_status (id : string) (r : sessionPreparation) (w : preparationWork) : preparationStatus :=
  let s := mkStatus id (sp_ReceiptID r) (sp_Attempt r) (sp_Attempt r) ("/creations/" +:+ id +:+ "/") "" "" (sp_State r) (sp_Phase r) ""
    (sp_Error r) (match sp_Snapshot r with Some s => pi_RawPrompt (sn_Input s) | None => "" end) false (sp_StartedAt r) (sp_UpdatedAt r) in
  let s := if idle_work r w then s <| st_State := "paused" |> <| st_Phase := "stopped" |>
                                  <| st_Error := "Session preparation stopped. Retry to continue." |> else s in
  s <| st_CanSetName := canSetPreparationName r (st_State s) |>.
Definition gone (message : string) (s : preparationStatus) : preparationStatus := s <| st_State := "gone" |> <| st_Error := message |>.
Definition at_slug (slug : string) (s : preparationStatus) : preparationStatus :=
  s <| st_Slug := slug |> <| st_CanonicalURL := "/" +:+ slug +:+ "/" |>.
Definition terminal_status (r : sessionPreparation) (s : preparationStatus) : Pr W preparationStatus :=
  history ← pask (pr_history rt (sp_Slug r));
  let s := s <| st_State := sp_Terminal r |> in
  if match history with Ok epoch => epoch != sp_Epoch r | Err _ => true end
  then mret (gone "The original session is no longer available." s) else
  if sp_Terminal r != "ready" then mret s else
  found ← pask (pr_Find rt (sp_Slug r));
  if bool_decide (found ≠ None) then mret (gone "The original session is no longer available." s) else
  modify (pr_others rt);;
  current ← gets (λ σ, pp_creations σ !! sp_Slug r);
  if match current with Some c => ct_ReceiptID c != sp_ReceiptID r | None => false end
  then mret (gone "The recorded session was replaced." s)
  else mret (at_slug (sp_Slug r) s).
Definition handed_status (r : sessionPreparation) (s : preparationStatus) : Pr W preparationStatus :=
  receipt ← pask (pr_current rt (sp_Slug r));
  match receipt with
  | Some c =>
      if preparationReceiptMatches r c then
        let s := at_slug (sp_Slug r) s <| st_State := ct_State c |> <| st_Phase := "initializing" |> <| st_Detail := ct_Phase c |>
                   <| st_Attempt := ct_Attempt c |> <| st_UpdatedAt := ct_UpdatedAt c |> <| st_Error := ct_Error c |> in
        mret (if one_of (ct_State c) ["conflict"; "cancelled"] then s <| st_CanonicalURL := "" |> else s)
      else mret (if sp_State r == "handed_off" then s <| st_State := "conflict" |> <| st_Error := "The recorded session creation identity changed." |> else s)
  | None => mret (if sp_State r == "handed_off" then s <| st_State := "conflict" |> <| st_Error := "The recorded session creation identity changed." |> else s)
  end.
Definition preparationStatusFromSnapshot (id : string) (found : option sessionPreparation) (w : preparationWork)
    : Pr W (option preparationStatus) :=
  match found with
  | None => mret None
  | Some r =>
      let s := base_status id r w in
      if sp_Slug r == "" then mret (Some s) else
      s ← (if sp_State r == "terminal" then terminal_status r s else handed_status r s);
      mret (Some s)
  end.
Definition preparation_status (id : string) : Pr W preparationStatus :=
  modify (pr_others rt);;
  found ← gets (λ σ, (pp_records σ !! id, work_of id σ));
  s ← preparationStatusFromSnapshot id found.1 found.2;
  mret (default no_status s).

(** GET: what is shown is confirmed to be on disk first. *)
Definition confirmPreparationStatus (id : string) : Pr W (option preparationStatus) :=
  acquire_locks rt;;
  confirmPreparationLocked rt id;;
  found ← gets (λ σ, (pp_records σ !! id, work_of id σ));
  (if match found.1 with Some r => sp_State r == "accepting" | None => false end
   then fail errPreparationPersistenceUnconfirmed else mret tt);;
  modify (pr_others rt);;
  preparationStatusFromSnapshot id found.1 found.2.

(** ** Requests *)

Inductive answer :=
  | an_status (code : Z) (s : preparationStatus)
  | an_error (code : Z) (message : string)
  | an_unconfirmed (id : string)
  | an_stale (id digest message : string)
  | an_not_found.
Definition preparation_error (id : string) (status : Z) (e : error) : answer :=
  if errors_Is e errPreparationPersistenceUnconfirmed || errors_Is e ErrPersistenceUnconfirmed then an_unconfirmed id
  else an_error status (pr_text rt e).
Definition answered (id : string) (code : Z) : Pr W answer := s ← preparation_status id; mret (an_status code s).

Definition errPreparationCatalogStale : error :=
  ErrorsNew "The starting team catalog changed. Reload the form to review your selection.".
Definition stopping : error := ErrorsNew "portal is stopping".

(** [installedTeams]: whether it is managed, and its catalog's digest. *)
Definition freezePreparationPreset (i : preparationInput) : Pr W (option Preset) :=
  teams ← pask (pr_teams rt);
  let model := TrimSpace (pv_Value (pi_Model i)) in
  let effort := TrimSpace (pv_Value (pi_Effort i)) in
  if negb (pv_Present (pi_Team i)) && negb (pv_Present (pi_Catalog i)) then
    if match teams with Some (managed, _) => managed | None => false end
    then fail (ErrorsNew "select a starting team and reload the form")
    else lift_error (validateCreationSettings model effort);; mret None
  else
  match teams with
  | Some (true, Some digest) =>
      if negb (pv_Present (pi_Team i)) || negb (pv_Present (pi_Catalog i)) || negb (Bool.eqb (pv_Present (pi_Model i)) (pv_Present (pi_Effort i)))
      then fail (ErrorsNew "invalid starting team selection") else
      if pv_Value (pi_Catalog i) != digest then fail errPreparationCatalogStale else
      preset ← pask (pr_preset rt (TrimSpace (pv_Value (pi_Team i))));
      preset ← lift_result preset;
      preset ← (if (model != "") || (effort != "") then
                  if (model == "") || (effort == "") || bool_decide (validateCreationSettings model effort ≠ None)
                  then fail (ErrorsNew "select a Codex model and reasoning effort together")
                  else mret (preset <| pt_LeadModel := model |> <| pt_LeadEffort := effort |>)
                else mret preset);
      lift_error (validDirectTeamPreset preset);;
      lift_error (ValidateCreationSize preset);;
      mret (Some (copy_preset preset))
  | _ => fail (ErrorsNew "invalid starting team selection")
  end.

(** A known request: confirmed, finished when it was only an intent, launched when it still waits. *)
Definition repeat_request (id : string) (r : sessionPreparation) : Pr W unit :=
  confirmPreparationLocked rt id;;
  waiting ← gets (λ σ, pp_closing σ && (wk_Attempt (work_of id σ) =? sp_Attempt r) && negb (wk_Dispatched (work_of id σ)));
  if (waiting : bool) then fail stopping else
  closing ← gets pp_closing;
  (if sp_State r == "accepting" then
     if (closing : bool) then fail stopping else _ ← finish_accepting rt r; mret tt
   else mret tt);;
  if (closing : bool) then mret tt else
  current ← gets (record_of id);
  launchPreparationLocked current.

Definition new_preparation (id digest receipt now : string) (i : preparationInput) (preset : option Preset) : sessionPreparation :=
  let s := mkSnapshot i preset "" in
  mkPrep 1 (pr_workspace rt) id 1 digest (preparationDigest (Snapshot_json s)) receipt 1 "accepting" "accepting" "" now now (Some s)
    "" "" "" "" None "".
(** A new request: the intent is saved before the uploads are claimed, and the worker starts last. *)
Definition accept_request (id digest : string) (i : preparationInput) (preset : option Preset) : Pr W unit :=
  raw ← pask (pr_random rt);
  now ← timestamp rt;
  raw ← lift_result raw;
  let r := new_preparation id digest (hex_encode raw) now i preset in
  lift_error (validatePreparation r (pr_workspace rt));;
  e ← pask (pr_Validate rt id (pi_UploadScope i) (pi_RawPrompt i) (pi_Attachments i));
  lift_error e;;
  savePreparationForDispatchLocked rt r;;
  r ← finish_accepting rt r;
  launchPreparationLocked r.

(** The answer to an error, and whether the request was refused before anything was kept. *)
Definition createPreparation (id : string) (i : preparationInput) : Pr W answer :=
  provider ← pask (pr_provider rt (pi_Provider i));
  match provider with
  | Some e => mret (an_error 400 (pr_text rt e))
  | None =>
  locked ← attempt (pcall rt "upload lock");
  match locked with
  | Err e => mret (an_error 503 (pr_text rt e))
  | Ok _ =>
  modify (pr_others rt);;
  let digest := inputPreparationDigest i in
  existing ← gets (λ σ, pp_records σ !! id);
  match existing with
  | Some r =>
      if sp_InputDigest r != digest then mret (an_error 409 "Session request ID was reused with different input.") else
      done ← attempt (repeat_request id r);
      match done with
      | Err e => mret (preparation_error id 409 e)
      | Ok _ => answered id 202
      end
  | None =>
      admitted ← attempt (closing ← gets pp_closing;
        (if (closing : bool) then fail stopping else
         records ← gets pp_records; lift_error (preparationCapacity records));;
        freezePreparationPreset i);
      match admitted with
      | Err e => mret (if errors_Is e errPreparationCatalogStale then an_stale id (pv_Value (pi_Catalog i)) (pr_text rt e)
                       else preparation_error id 409 e)
      | Ok preset =>
          done ← attempt (accept_request id digest i preset);
          match done with
          | Err e => mret (preparation_error id 409 e)
          | Ok _ => answered id 202
          end
      end
  end
  end
  end.

(** The next attempt of a record, saved before its worker starts. *)
Definition relaunch (id : string) (r : sessionPreparation) : Pr W answer :=
  saved ← attempt (savePreparationForDispatchLocked rt r);
  match saved with
  | Err e => mret (preparation_error id 500 e)
  | Ok _ => launchPreparationLocked r;; answered id 202
  end.
Definition next_attempt (r : sessionPreparation) : sessionPreparation :=
  r <| sp_Attempt := i64 (sp_Attempt r + 1) |> <| sp_State := "running" |> <| sp_Error := "" |>
    <| sp_Phase := if sn_Goal (snapshot_of r) == "" then "accepting" else "naming" |>.
Definition retry_owned (id receiptID : string) (at_ : Z) (r : sessionPreparation) : Pr W answer :=
  if (receiptID != sp_ReceiptID r) || negb (at_ =? sp_Attempt r)
  then mret (an_error 409 "Creation status changed. Reload before retrying.") else
  work ← gets (work_of id);
  closing ← gets pp_closing;
  if closing && (wk_Attempt work =? sp_Attempt r) && negb (wk_Dispatched work) then mret (an_error 503 "Portal is stopping.") else
  if sp_State r == "terminal" then
    s ← preparation_status id; mret (an_status (if st_State s != "ready" then 409 else 202) s)
  else if (sp_State r == "running") && negb ((wk_Attempt work =? sp_Attempt r) && wk_Stopped work) then
    (if (closing : bool) then mret tt else launchPreparationLocked r);; answered id 202
  else if (closing : bool) then mret (an_error 503 "Portal is stopping.")
  else relaunch id (next_attempt r).
Definition retryPreparation (id receiptID : string) (at_ : Z) : Pr W answer :=
  locked ← attempt (pcall rt "upload lock");
  match locked with
  | Err e => mret (an_error 503 (pr_text rt e))
  | Ok _ =>
  modify (pr_others rt);;
  found ← gets (λ σ, pp_records σ !! id);
  match found with
  | None => mret an_not_found
  | Some r =>
      confirmed ← attempt (confirmPreparationLocked rt id);
      match confirmed with
      | Err e => mret (preparation_error id 503 e)
      | Ok _ =>
          if sp_State r == "handed_off" then
            receipt ← gets (λ σ, pp_creations σ !! sp_Slug r);
            if match receipt with Some c => negb (preparationReceiptMatches r c) | None => true end
            then mret (an_error 409 "Session creation identity changed.") else
            modify (pr_others rt);;
            retried ← pask (pr_retry_creation rt (sp_Slug r) receiptID at_);
            match retried.2 with
            | Some e => mret (an_error retried.1 (pr_text rt e))
            | None => answered id retried.1
            end
          else retry_owned id receiptID at_ r
      end
  end
  end.

(** The selection a repeated request may name: the base, or the completed slug after its date. *)
Definition selected_name (r : sessionPreparation) : string :=
  if (sp_State r == "terminal") && (11 <? strlen (sp_Slug r)) then String.substring 11 (String.length (sp_Slug r)) (sp_Slug r) else sp_Base r.
Definition replays (receiptID name : string) (at_ : Z) (r : sessionPreparation) : bool :=
  (receiptID == sp_ReceiptID r) && (sp_Attempt r =? i64 (at_ + 1)) && (sp_NamingOutcome r == "custom") && (selected_name r == name).
Definition named_attempt (name now : string) (r : sessionPreparation) : sessionPreparation :=
  r <| sp_Base := name |> <| sp_NamingOutcome := "custom" |> <| sp_Attempt := i64 (sp_Attempt r + 1) |> <| sp_State := "running" |>
    <| sp_Phase := "reserving" |> <| sp_Error := "" |> <| sp_UpdatedAt := now |>.
Definition setPreparationName (id receiptID : string) (at_ : Z) (given : string) : Pr W answer :=
  let name := TrimSpace given in
  if match creationDestination name "2000-01-01" with Err _ => true | Ok _ => false end || (at_ <? 1)
  then mret (an_error 400 "Enter a valid short session name.") else
  locked ← attempt (pcall rt "upload lock");
  match locked with
  | Err e => mret (an_error 503 (pr_text rt e))
  | Ok _ =>
  modify (pr_others rt);;
  found ← gets (λ σ, pp_records σ !! id);
  match found with
  | None => mret an_not_found
  | Some r =>
      confirmed ← attempt (confirmPreparationLocked rt id);
      match confirmed with
      | Err e => mret (preparation_error id 503 e)
      | Ok _ =>
          work ← gets (work_of id);
          let state := if idle_work r work then "paused" else sp_State r in
          if negb (replays receiptID name at_ r)
             && ((receiptID != sp_ReceiptID r) || negb (at_ =? sp_Attempt r) || negb (canSetPreparationName r state))
          then mret (an_error 409 "Creation status changed. Reload before choosing a name.") else
          closing ← gets pp_closing;
          if (closing : bool) then mret (an_error 503 "Portal is stopping.") else
          if replays receiptID name at_ r then launchPreparationLocked r;; answered id 202 else
          now ← timestamp rt;
          relaunch id (named_attempt name now r)
      end
  end
  end.

(** ** Reconciliation *)

Definition ended (e : error) : bool := errors_Is e ErrCanceled || errors_Is e ErrDeadlineExceeded.
(** An intent is finished, or paused with the reason. *)
Definition settle_intent (r : sessionPreparation) : Pr W sessionPreparation :=
  if sp_State r != "accepting" then mret r else
  '(r, e) ← finishAcceptingPreparationLocked rt r;
  r ← match e with
      | Some e =>
          if ended e || errors_Is e errPreparationPersistenceUnconfirmed || errors_Is e ErrPersistenceUnconfirmed then fail e
          else mret (r <| sp_Error := pr_text rt e |>)
      | None => mret r
      end;
  let r := r <| sp_State := "paused" |> <| sp_Phase := "stopped" |> in
  savePreparation rt r;; mret r.
(** The claim is made again; whether the record is still good. *)
Definition confirm_claim (r : sessionPreparation) : Pr W bool :=
  let i := input_of r in
  if (sp_State r == "accepting") || (sn_Goal (snapshot_of r) == "") || bool_decide (elems (pi_Attachments i) = []) then mret true else
  claimed ← pask (pr_Claim rt (sp_RequestID r) (pi_UploadScope i) (pi_RawPrompt i) (pi_Attachments i));
  match claimed with
  | Err e => if ended e || errors_Is e ErrPersistenceUnconfirmed then fail e else mret false
  | Ok goal => mret (goal == sn_Goal (snapshot_of r))
  end.
Definition stopped_with (message : string) (r : sessionPreparation) : sessionPreparation :=
  r <| sp_State := "failed" |> <| sp_Phase := "stopped" |> <| sp_Error := message |>.
Definition adopt_receipt (r : sessionPreparation) : Pr W unit :=
  if bool_decide (sp_Handoff r = None) then mret tt else
  receipt ← gets (λ σ, pp_creations σ !! sp_Slug r);
  match receipt with
  | None => mret tt
  | Some c =>
      savePreparation rt (if preparationReceiptMatches r c then r <| sp_State := "handed_off" |> <| sp_Phase := "initializing" |>
                          else stopped_with "Session receipt identity changed." r);;
      compactPreparationsLocked rt c
  end.
Definition reconcile_record (r : sessionPreparation) : Pr W unit :=
  pcall rt "context";;
  confirmPreparationLocked rt (sp_RequestID r);;
  work ← gets (work_of (sp_RequestID r));
  if (wk_Attempt work =? sp_Attempt r) && negb (wk_Dispatched work) then
    (if (sp_State r == "accepting") || ((sp_State r == "running") && (sn_Goal (snapshot_of r) == ""))
     then _ ← finish_accepting rt r; mret tt else mret tt)
  else if sp_State r == "terminal" then
    found ← gets (λ σ, bool_decide (is_Some (pp_unfinished σ !! sp_RequestID r)));
    pcall rt "lstat preparation";;
    (if (found : bool) then savePreparation rt r else mret tt)
  else
    (if sp_State r == "paused" then savePreparation rt r else mret tt);;
    r ← settle_intent r;
    good ← confirm_claim r;
    if negb good then savePreparation rt (stopped_with "Accepted attachment ownership changed." r)
    else adopt_receipt r.
Definition reconcilePreparationsLocked : Pr W unit := for_each_record rt reconcile_record.
Definition reconcilePreparations : Pr W unit := acquire_locks rt;; reconcilePreparationsLocked.

(** A failed save is logged and the next record is paused. *)
Definition pause_record (r : sessionPreparation) : Pr W unit :=
  if sp_State r != "running" then mret tt else
  now ← timestamp rt;
  ignore (savePreparation rt (r <| sp_State := "paused" |> <| sp_Phase := "stopped" |> <| sp_UpdatedAt := now |>)).
Definition pausePreparationsOnClose : Pr W unit :=
  pcall rt "transition lock";; pcall rt "host profile";; modify (pr_others rt);;
  for_each_record rt pause_record.

(** ** Histories of one process: requests, workers that were started, reconciliation and shutdown *)

Inductive operation :=
  | op_create (id : string) (i : preparationInput)
  | op_retry (id receiptID : string) (attempt : Z)
  | op_name (id receiptID : string) (attempt : Z) (name : string)
  | op_status (id : string)
  | op_worker (id : string) (attempt : Z)
  | op_reconcile
  | op_compact (c : creationReceipt)
  | op_close.
Definition serve (op : operation) : Pr W unit :=
  match op with
  | op_create id i => ignore (createPreparation id i)
  | op_retry id receiptID attempt => ignore (retryPreparation id receiptID attempt)
  | op_name id receiptID attempt name => ignore (setPreparationName id receiptID attempt name)
  | op_status id => ignore (confirmPreparationStatus id)
  | op_worker id attempt => ignore (runPreparation id attempt)
  | op_reconcile => ignore reconcilePreparations
  | op_compact c => ignore (compactPreparationsLocked rt c)
  | op_close => modify (λ σ, σ <| pp_closing := true |>);; ignore pausePreparationsOnClose
  end.
Definition history (ops : list operation) (σ : PrepSys W) : PrepSys W := foldl (λ σ op, (serve op σ).1) σ ops.
End Requests.
