(* ===== verification/PreparationMachine.v ===== *)
(** * Session preparations: the abstract machine

    What the portal may do with the records of accepted requests, as single steps: publish a
    record that grows from the one in memory, confirm what was published, start the worker of
    a durable attempt once, install a reserved creation.  The invariants of its runs are
    proved here; that the source's operations are such runs, in [PreparationFacts]. *)

From S2P Require Import Prelude Effects GoStrings GoJson GoTime RetryValidate LifecycleTypes SessionPreparation PreparationStore PreparationOps.
From Stdlib Require Import Relations.

Open Scope Z_scope.

(** ** How a record may change *)

Definition max_int64 : Z := 2^63 - 1.
Definition same_input (s s' : preparationSnapshot) : Prop :=
  sn_Input s' = sn_Input s ∧ sn_Preset s' = sn_Preset s ∧ (sn_Goal s ≠ "" → sn_Goal s' = sn_Goal s).
Definition identity_of (r : sessionPreparation) :=
  (sp_Schema r, sp_Workspace r, sp_RequestID r, sp_InputVersion r, sp_InputDigest r, sp_ReceiptID r, sp_StartedAt r).
(** Who asked for what is fixed; attempts increase; a reserved name stays; a goal stays; a completed record stays. *)
Record follows (r r' : sessionPreparation) : Prop := {
  fo_identity : identity_of r' = identity_of r;
  fo_attempt : sp_Attempt r <= sp_Attempt r';
  fo_terminal : sp_State r = "terminal" → sp_State r' = "terminal" ∧ sp_Terminal r' = sp_Terminal r;
  fo_slug : sp_Slug r ≠ "" → sp_Slug r' = sp_Slug r ∧ sp_Epoch r' = sp_Epoch r;
  fo_snapshot : match sp_Snapshot r, sp_Snapshot r' with
                | Some s, Some s' => same_input s s'
                | Some _, None => sp_State r' = "terminal"
                | None, s' => s' = None
                end }.
Lemma follows_refl r : follows r r.
Proof. split; try done. destruct (sp_Snapshot r); [by split_and!|done]. Qed.
Lemma follows_trans r1 r2 r3 : follows r1 r2 → follows r2 r3 → follows r1 r3.
Proof.
  intros [E1 A1 T1 S1 N1] [E2 A2 T2 S2 N2]. split; [congruence|lia| | |].
  - intros [H1 H2]%T1. apply T2 in H1 as [H1 H3]. split; congruence.
  - intros H. apply S1 in H as H'. destruct H' as [H1 H2]. rewrite <- H1 in H. apply S2 in H as [H3 H4]. split; congruence.
  - destruct (sp_Snapshot r1) as [s1|], (sp_Snapshot r2) as [s2|], (sp_Snapshot r3) as [s3|]; try done.
    + destruct N1 as (A & B & C), N2 as (D & E & F). split; [congruence|]. split; [congruence|]. intros H. apply C in H as H'.
      rewrite <- H' in H. rewrite F by done. done.
    + by apply T2.
Qed.
#[export] Instance follows_preorder : PreOrder follows.
Proof. split; [exact follows_refl|exact follows_trans]. Qed.
Lemma follows_id r r' : follows r r' → sp_RequestID r' = sp_RequestID r.
Proof. intros [E _ _ _ _]. unfold identity_of in E. congruence. Qed.
Lemma follows_receipt r r' : follows r r' → sp_ReceiptID r' = sp_ReceiptID r.
Proof. intros [E _ _ _ _]. unfold identity_of in E. congruence. Qed.

(** ** Steps *)

Section Machine.
Context {W : Type} (rt : PrepRuntime W).

(** The record is on disk, as it is or as it was before a restart paused it. *)
Definition paused_on_load (r : sessionPreparation) (now : string) : sessionPreparation :=
  r <| sp_State := "paused" |> <| sp_Phase := "stopped" |> <| sp_UpdatedAt := now |>.
Definition holds_text (r f : sessionPreparation) : Prop :=
  preparationDigest (Preparation_json (copy_preparation f)) = preparationDigest (Preparation_json r).
Definition on_disk (σ : PrepSys W) (id : string) (r : sessionPreparation) : Prop :=
  ∃ completed f, file_in completed σ id = Some f ∧ (holds_text r f ∨ ∃ now, r = paused_on_load (copy_preparation f) now).

(** No other unfinished request holds the name. *)
Definition free_for (r : sessionPreparation) (σ : PrepSys W) : Prop :=
  held_by_another (sp_Slug r) (sp_ReceiptID r) (pp_records σ) = false.
(** A record may be published when it follows the one in memory and takes no name another
    unfinished request holds, or when it is a new intent. *)
Definition publishable (σ : PrepSys W) (r : sessionPreparation) : Prop :=
  sp_Attempt r <= max_int64 ∧
  match pp_records σ !! sp_RequestID r with
  | Some r0 => follows r0 r ∧ (sp_Slug r0 = sp_Slug r ∨ free_for r σ)
  | None => sp_State r = "accepting" ∧ sp_Attempt r = 1 ∧ sp_Slug r = ""
  end.

(** A receipt is kept under the name it asks for. *)
Definition receipts_keyed (m : gmap string creationReceipt) : Prop := map_Forall (λ slug c, cr_Slug (ct_Request c) = slug) m.

Inductive pstep : PrepSys W → PrepSys W → Prop :=
  | ps_world σ w : pstep σ (σ <| pp_world := w |>)
  | ps_publish σ completed r :
      publishable σ r → validatePreparation r (pr_workspace rt) = None → pp_unconfirmed σ !! sp_RequestID r = None →
      pstep σ (put_file completed (sp_RequestID r) r σ
        <| pp_records ::= <[sp_RequestID r := r]> |> <| pp_unconfirmed ::= <[sp_RequestID r := completed]> |>)
  | ps_move σ id r :
      pp_unfinished σ !! id = Some r → is_Some (pp_unconfirmed σ !! id) →
      pstep σ (put_file true id r (σ <| pp_unfinished ::= delete id |>) <| pp_unconfirmed ::= <[id := true]> |>)
  | ps_confirm σ id completed f :
      file_in completed σ id = Some f → holds_text (record_of id σ) f →
      pstep σ (σ <| pp_unconfirmed ::= delete id |>)
  | ps_pending σ id r :
      pp_records σ !! id = Some r → wk_Attempt (work_of id σ) ≠ sp_Attempt r →
      pstep σ (σ <| pp_work ::= <[id := mkWork (sp_Attempt r) false false]> |>)
  | ps_dispatch σ id r :
      pp_records σ !! id = Some r → sp_State r = "running" → pp_unconfirmed σ !! id = None → pp_closing σ = false →
      wk_Attempt (work_of id σ) = sp_Attempt r → wk_Dispatched (work_of id σ) = false →
      pstep σ (σ <| pp_work ::= <[id := work_of id σ <| wk_Dispatched := true |>]> |>
                 <| pp_trace ::= λ l, l ++ [ev_dispatch id (sp_Attempt r)] |>)
  | ps_stop σ id : pstep σ (σ <| pp_work ::= <[id := work_of id σ <| wk_Stopped := true |>]> |>)
  | ps_install σ id r c :
      pp_records σ !! id = Some r → pp_unconfirmed σ !! id = None → sp_Slug r ≠ "" → ct_ReceiptID c = sp_ReceiptID r →
      ct_DeletionHistory c = sp_Epoch r → cr_Slug (ct_Request c) = sp_Slug r → pp_closing σ = false → pp_creations σ !! sp_Slug r = None →
      pstep σ (σ <| pp_creations ::= <[sp_Slug r := c]> |> <| pp_trace ::= λ l, l ++ [ev_install (sp_Slug r) (sp_ReceiptID r)] |>)
  | ps_creations σ m : receipts_keyed m → pstep σ (σ <| pp_creations := m |>)
  | ps_close σ : pstep σ (σ <| pp_closing := true |>).
Definition psteps : PrepSys W → PrepSys W → Prop := rtc pstep.
#[export] Instance psteps_preorder : PreOrder psteps.
Proof. unfold psteps. typeclasses eauto. Qed.
Lemma step_once_more σ1 σ2 σ3 : psteps σ1 σ2 → pstep σ2 σ3 → psteps σ1 σ3.
Proof. intros H1 H2. eapply rtc_r; done. Qed.

(** ** Records over a run *)

Definition evolves (σ σ' : PrepSys W) : Prop :=
  ∀ id r, pp_records σ !! id = Some r → ∃ r', pp_records σ' !! id = Some r' ∧ follows r r'.
#[export] Instance evolves_preorder : PreOrder evolves.
Proof.
  split; [intros σ id r H; by exists r|]. intros σ1 σ2 σ3 H1 H2 id r (r2 & E2 & G2)%H1. apply H2 in E2 as (r3 & E3 & G3).
  exists r3. split; [done|by etrans].
Qed.
Lemma records_put completed id r (σ : PrepSys W) : pp_records (put_file completed id r σ) = pp_records σ.
Proof. by destruct completed. Qed.
Lemma work_put completed id r (σ : PrepSys W) : pp_work (put_file completed id r σ) = pp_work σ.
Proof. by destruct completed. Qed.
Lemma trace_put completed id r (σ : PrepSys W) : pp_trace (put_file completed id r σ) = pp_trace σ.
Proof. by destruct completed. Qed.
Lemma unconfirmed_put completed id r (σ : PrepSys W) : pp_unconfirmed (put_file completed id r σ) = pp_unconfirmed σ.
Proof. by destruct completed. Qed.
Lemma step_evolves σ σ' : pstep σ σ' → evolves σ σ'.
Proof.
  intros [] id' r' H'; cbn in *; rewrite ?records_put; try (by exists r').
  destruct (decide (id' = sp_RequestID r)) as [->|Hne]; [|rewrite lookup_insert_ne by done; by exists r'].
  rewrite lookup_insert_eq. exists r. split; [done|]. unfold publishable in *. rewrite H' in *. tauto.
Qed.
Lemma steps_evolve σ σ' : psteps σ σ' → evolves σ σ'.
Proof. induction 1; [done|]. etrans; [by apply step_evolves|done]. Qed.

(** A property of every record that each publishable record has. *)
Lemma step_records (P : string → sessionPreparation → Prop) σ σ' :
  (∀ r, publishable σ r → validatePreparation r (pr_workspace rt) = None → P (sp_RequestID r) r) →
  pstep σ σ' → map_Forall P (pp_records σ) → map_Forall P (pp_records σ').
Proof.
  intros HP Hs H. destruct Hs; cbn; rewrite ?records_put; try done. apply map_Forall_insert_2; [by apply HP|done].
Qed.
(** Records are kept under their request, receipts under their name; attempts are a Go
    [int64]; an unfinished record has its snapshot, and every record the receipt it is for. *)
Definition record_ok (id : string) (r : sessionPreparation) : Prop :=
  sp_RequestID r = id ∧ sp_Attempt r <= max_int64 ∧ (sp_State r ≠ "terminal" → is_Some (sp_Snapshot r)) ∧ sp_ReceiptID r ≠ "".
Record keyed (σ : PrepSys W) : Prop := {
  k_records : map_Forall record_ok (pp_records σ);
  k_receipts : receipts_keyed (pp_creations σ) }.
Lemma valid_snapshot r workspace : validatePreparation r workspace = None → sp_State r ≠ "terminal" → is_Some (sp_Snapshot r).
Proof.
  intros Hv Ht. apply first_refusal_None, Forall_inv_tail, Forall_inv_tail, Forall_inv_tail, Forall_inv_tail, Forall_inv in Hv.
  rewrite bool_decide_eq_false_2 in Hv by done.
  apply first_refusal_None, Forall_inv_tail, Forall_inv_tail, Forall_inv_tail, Forall_inv in Hv. by destruct (sp_Snapshot r); [eexists|].
Qed.
Lemma valid_receipt r workspace : validatePreparation r workspace = None → sp_ReceiptID r ≠ "".
Proof.
  intros Hv E. apply first_refusal_None, Forall_inv in Hv. rewrite E in Hv. revert Hv. unfold refuse.
  replace (messageDigestPattern "") with false by reflexivity. cbn [negb]. rewrite !orb_true_r. cbn. done.
Qed.
Lemma step_keyed σ σ' : pstep σ σ' → keyed σ → keyed σ'.
Proof.
  intros Hs [H1 H2]. split; [apply (step_records _ σ); [|done|done]|].
  - intros r [Ha _] Hv. split_and!; [done|done|by apply (valid_snapshot r (pr_workspace rt))|by eapply valid_receipt].
  - destruct Hs as [|σ completed r| | | | | |σ id r c| |]; try done; [by destruct completed|]. by apply map_Forall_insert_2.
Qed.
Lemma steps_keyed σ σ' : psteps σ σ' → keyed σ → keyed σ'.
Proof. induction 1 as [|σ1 σ2 σ3 Hs _ IH]; [done|]. intros H. apply IH. by apply (step_keyed σ1). Qed.

(** ** Workers: a dispatched attempt is past, or it is the one its work says is dispatched *)

Definition dispatch_of (e : prep_event) : option (string * Z) := match e with ev_dispatch id a => Some (id, a) | _ => None end.
Definition dispatches (σ : PrepSys W) : list (string * Z) := omap dispatch_of (pp_trace σ).
Definition dispatched_once (σ : PrepSys W) : Prop :=
  NoDup (dispatches σ) ∧ ∀ id a, (id, a) ∈ dispatches σ → ∃ r, pp_records σ !! id = Some r ∧ a <= sp_Attempt r
    ∧ (a = sp_Attempt r → wk_Attempt (work_of id σ) = a ∧ wk_Dispatched (work_of id σ) = true).
Lemma work_insert id id' w (σ σ' : PrepSys W) : pp_work σ' = <[id := w]> (pp_work σ) →
  work_of id' σ' = if decide (id' = id) then w else work_of id' σ.
Proof. intros E. unfold work_of. rewrite E. case_decide as E'; [subst; by rewrite lookup_insert_eq|by rewrite lookup_insert_ne]. Qed.
Lemma same_work id (σ σ' : PrepSys W) : pp_work σ' = pp_work σ → work_of id σ' = work_of id σ.
Proof. intros E. unfold work_of. by rewrite E. Qed.
Lemma dispatched_frame (σ σ' : PrepSys W) :
  pp_trace σ' = pp_trace σ → pp_records σ' = pp_records σ → pp_work σ' = pp_work σ → dispatched_once σ → dispatched_once σ'.
Proof.
  intros Et Er Ew [Hn Ho]. unfold dispatched_once, dispatches in *. rewrite Et, Er. split; [done|]. intros id a H.
  rewrite (same_work id σ σ') by done. by apply Ho.
Qed.

Lemma once_publish completed r σ : publishable σ r → dispatched_once σ → dispatched_once (put_file completed (sp_RequestID r) r σ
  <| pp_records ::= <[sp_RequestID r := r]> |> <| pp_unconfirmed ::= <[sp_RequestID r := completed]> |>).
Proof.
  intros [_ Hp] [Hn Ho]. unfold dispatched_once, dispatches in *. cbn. rewrite trace_put, records_put. split; [done|]. intros id a H.
  erewrite same_work by (cbn; apply work_put). apply Ho in H as (r0 & E & Ha & Hw).
  destruct (decide (id = sp_RequestID r)) as [->|Hne]; [|rewrite lookup_insert_ne by done; by exists r0].
  rewrite E in Hp. destruct Hp as [Hf _]. pose proof (fo_attempt _ _ Hf). rewrite lookup_insert_eq. exists r.
  split_and!; [done|lia|]. intros ->. apply Hw. lia.
Qed.
Lemma once_work id w σ σ' : pp_trace σ' = pp_trace σ → pp_records σ' = pp_records σ → pp_work σ' = <[id := w]> (pp_work σ) →
  (∀ r, pp_records σ !! id = Some r → wk_Attempt (work_of id σ) = sp_Attempt r → wk_Dispatched (work_of id σ) = true →
     wk_Attempt w = sp_Attempt r ∧ wk_Dispatched w = true) →
  dispatched_once σ → dispatched_once σ'.
Proof.
  intros Et Er Ew Hk [Hn Ho]. unfold dispatched_once, dispatches in *. rewrite Et, Er. split; [done|]. intros id' a H.
  rewrite (work_insert id id' w σ σ') by done. apply Ho in H as (r & E & Ha & Hw). exists r. split_and!; [done|done|].
  intros He. apply Hw in He as He'. case_decide; [subst|done]. apply Hk; tauto.
Qed.
Lemma once_dispatch id r σ : pp_records σ !! id = Some r → wk_Attempt (work_of id σ) = sp_Attempt r → wk_Dispatched (work_of id σ) = false →
  dispatched_once σ → dispatched_once (σ <| pp_work ::= <[id := work_of id σ <| wk_Dispatched := true |>]> |>
                                         <| pp_trace ::= λ l, l ++ [ev_dispatch id (sp_Attempt r)] |>).
Proof.
  intros Hr Hw Hd [Hn Ho]. unfold dispatched_once, dispatches in *. cbn. rewrite omap_app. cbn. split.
  - apply NoDup_app. split_and!; [done| |apply NoDup_singleton]. intros [id' a] H [= -> ->]%list_elem_of_singleton.
    apply Ho in H as (r' & E & _ & He). simplify_eq. destruct He as [_ He]; [done|]. congruence.
  - intros id' a [H|[= -> ->]%list_elem_of_singleton]%elem_of_app; erewrite work_insert by done.
    + apply Ho in H as (r' & E & Ha & He). exists r'. split_and!; [done|done|]. intros H. apply He in H as [H1 H2]. case_decide; [|done].
      by subst.
    + exists r. rewrite decide_True by done. by split_and!.
Qed.
Lemma step_once σ σ' : pstep σ σ' → dispatched_once σ → dispatched_once σ'.
Proof.
  intros Hs. destruct Hs as [|σ completed r Hp _ _|σ id r _ _| |σ id r Hr Hne|σ id r Hr _ _ _ Hw Hd|σ id|σ id r c| |];
    try by apply dispatched_frame.
  - by apply once_publish.
  - apply (once_work id (mkWork (sp_Attempt r) false false)); try done. intros r' Hr'. simplify_eq. congruence.
  - by apply once_dispatch.
  - apply (once_work id (work_of id σ <| wk_Stopped := true |>)); done.
  - intros [Hn Ho]. unfold dispatched_once, dispatches in *. cbn. rewrite omap_app, app_nil_r. by split.
Qed.
Lemma steps_once σ σ' : psteps σ σ' → dispatched_once σ → dispatched_once σ'.
Proof. induction 1 as [|σ1 σ2 σ3 Hs _ IH]; [done|]. intros H. apply IH. by apply (step_once σ1). Qed.

(** ** Records on disk *)

Definition durable (σ : PrepSys W) : Prop :=
  ∀ id r, pp_records σ !! id = Some r → pp_unconfirmed σ !! id = None → on_disk σ id r.
Lemma disk_frame σ σ' id r : (∀ completed, file_in completed σ' id = file_in completed σ id) → on_disk σ id r → on_disk σ' id r.
Proof. intros E (completed & f & Hf & H). exists completed, f. by rewrite E. Qed.
Lemma file_put completed completed' id id' r (σ : PrepSys W) : id ≠ id' → file_in completed' (put_file completed id r σ) id' = file_in completed' σ id'.
Proof. intros. unfold file_in. destruct completed, completed'; cbn; try done; by rewrite lookup_insert_ne. Qed.
Lemma step_durable σ σ' : pstep σ σ' → durable σ → durable σ'.
Proof.
  intros Hs H. destruct Hs as [|σ completed r|σ id r Hf Hu|σ id completed f Hf Ht| | | | | |]; try done.
  - intros id r' Hr' Hu. cbn in *. rewrite records_put in Hr'. rewrite unconfirmed_put in Hu.
    destruct (decide (sp_RequestID r = id)) as [<-|Hne]; [by rewrite lookup_insert_eq in Hu|]. rewrite lookup_insert_ne in Hr' by done. rewrite lookup_insert_ne in Hu by done.
    apply (disk_frame σ); [|by apply H]. intros. by apply (file_put completed).
  - intros id' r' Hr' Hu'. cbn in *. destruct (decide (id = id')) as [<-|Hne]; [by rewrite lookup_insert_eq in Hu'|].
    rewrite lookup_insert_ne in Hu' by done. apply (disk_frame σ); [|by apply H]. intros [|]; cbn; unfold file_in; cbn.
    + by rewrite lookup_insert_ne.
    + by rewrite lookup_delete_ne.
  - intros id' r' Hr' Hu'. cbn in *. destruct (decide (id = id')) as [<-|Hne].
    + exists completed, f. unfold record_of in Ht. rewrite Hr' in Ht. split; [done|by left].
    + rewrite lookup_delete_ne in Hu' by done. by apply H.
Qed.
Lemma steps_durable σ σ' : psteps σ σ' → durable σ → durable σ'.
Proof. induction 1 as [|σ1 σ2 σ3 Hs _ IH]; [done|]. intros H. apply IH. by apply (step_durable σ1). Qed.

(** ** Names *)

Definition takes (r : sessionPreparation) : Prop := sp_State r ≠ "terminal" ∧ sp_Slug r ≠ "".
Definition names_unique (σ : PrepSys W) : Prop :=
  ∀ id r id' r', pp_records σ !! id = Some r → pp_records σ !! id' = Some r' → takes r → takes r' →
    sp_Slug r = sp_Slug r' → sp_ReceiptID r = sp_ReceiptID r'.
Lemma free_for_spec r (σ : PrepSys W) id r' : free_for r σ → pp_records σ !! id = Some r' → sp_State r' ≠ "terminal" →
  sp_Slug r' = sp_Slug r → sp_ReceiptID r' = sp_ReceiptID r.
Proof.
  unfold free_for, held_by_another. intros Hf Hr Ht Hs. destruct (decide (sp_ReceiptID r' = sp_ReceiptID r)) as [|Hne]; [done|].
  rewrite <- not_true_iff_false in Hf. destruct Hf. apply existsb_exists. exists (id, r').
  split; [by apply list_elem_of_In, elem_of_map_to_list|]. cbn. rewrite !andb_true_iff, !negb_true_iff, !bool_decide_eq_false, bool_decide_eq_true. done.
Qed.
Lemma takes_before r r' : follows r r' → sp_Slug r = sp_Slug r' → takes r' → takes r.
Proof. intros Hf E [Ht Hn]. split; [|by rewrite E]. intros H. by apply (fo_terminal _ _ Hf) in H as [H _]. Qed.
(** The published record against another one. *)
Lemma names_publish σ r id r' : publishable σ r → names_unique σ → pp_records σ !! id = Some r' →
  takes r → takes r' → sp_Slug r = sp_Slug r' → sp_ReceiptID r' = sp_ReceiptID r.
Proof.
  intros [_ Hp] H Hr' Ht Ht' E. destruct (pp_records σ !! sp_RequestID r) as [r0|] eqn:E0.
  - destruct Hp as [Hf [Hs|Hfree]]; [|destruct Ht'; by eapply free_for_spec].
    rewrite (follows_receipt r0 r) by done. eapply H; [done|done|done| |congruence]. by apply (takes_before r0 r).
  - destruct Hp as (_ & _ & Hs). by destruct Ht as [_ []].
Qed.
Lemma step_names σ σ' : pstep σ σ' → names_unique σ → names_unique σ'.
Proof.
  intros Hs H. destruct Hs as [|σ completed r Hp|σ id r _ _| | | | | | |]; try done.
  - intros i1 r1 i2 r2. cbn. rewrite records_put. intros E1 E2 T1 T2 E.
    destruct (decide (i1 = sp_RequestID r)) as [->|N1]; [rewrite lookup_insert_eq in E1; injection E1 as <-|rewrite lookup_insert_ne in E1 by done];
    (destruct (decide (i2 = sp_RequestID r)) as [->|N2]; [rewrite lookup_insert_eq in E2; injection E2 as <-|rewrite lookup_insert_ne in E2 by done]).
    + done.
    + symmetry. by eapply names_publish.
    + by eapply names_publish.
    + by eapply H.
Qed.
Lemma steps_names σ σ' : psteps σ σ' → names_unique σ → names_unique σ'.
Proof. induction 1 as [|σ1 σ2 σ3 Hs _ IH]; [done|]. intros H. apply IH. by apply (step_names σ1). Qed.

(** ** Installed creations belong to the reservation *)

Definition installs_reserved (σ : PrepSys W) : Prop := ∀ slug receipt, ev_install slug receipt ∈ pp_trace σ →
  ∃ id r, pp_records σ !! id = Some r ∧ sp_Slug r = slug ∧ sp_ReceiptID r = receipt ∧ slug ≠ "".
Lemma step_installs σ σ' : pstep σ σ' → installs_reserved σ → installs_reserved σ'.
Proof.
  intros Hs H. assert (He := step_evolves _ _ Hs).
  assert (Hold : ∀ slug receipt, ev_install slug receipt ∈ pp_trace σ →
    ∃ id r, pp_records σ' !! id = Some r ∧ sp_Slug r = slug ∧ sp_ReceiptID r = receipt ∧ slug ≠ "").
  { intros slug receipt Hi. apply H in Hi as (id & r & Hr & <- & <- & Hn). apply He in Hr as (r' & Hr' & Hf). exists id, r'.
    split_and!; [done|by apply (fo_slug _ _ Hf)|by apply follows_receipt|done]. }
  destruct Hs as [| | | | |σ id r| |σ id r c Hr _ Hn| |]; try exact Hold; intros slug receipt; cbn in *; rewrite ?trace_put; try exact (Hold _ _);
    intros [Hi|Hi%list_elem_of_singleton]%elem_of_app; try by apply Hold. all: try done.
  injection Hi as -> ->. by exists id, r.
Qed.
Lemma steps_installs σ σ' : psteps σ σ' → installs_reserved σ → installs_reserved σ'.
Proof. induction 1 as [|σ1 σ2 σ3 Hs _ IH]; [done|]. intros H. apply IH. by apply (step_installs σ1). Qed.

(** ** The moment an event happened *)

#[local] Instance prep_event_eq_dec : EqDecision prep_event.
Proof. solve_decision. Defined.
Lemma event_moment σ σ' e : psteps σ σ' → e ∈ pp_trace σ' → e ∉ pp_trace σ →
  ∃ σ1 σ2, psteps σ σ1 ∧ pstep σ1 σ2 ∧ psteps σ2 σ' ∧ e ∉ pp_trace σ1 ∧ e ∈ pp_trace σ2.
Proof.
  induction 1 as [|σ1 σ2 σ3 Hs Hr IH]; [done|]; intros Ha Hb. destruct (decide (e ∈ pp_trace σ2)) as [Hin|Hout].
  - exists σ1, σ2. by split_and!.
  - destruct (IH Ha Hout) as (a & b & H1 & H2 & H3 & H4 & H5). exists a, b. split_and!; try done. by eapply rtc_l.
Qed.
(** A step that adds a dispatch starts a running record that is known to be on disk. *)
Lemma dispatch_step σ σ' id a : pstep σ σ' → ev_dispatch id a ∉ pp_trace σ → ev_dispatch id a ∈ pp_trace σ' →
  ∃ r, pp_records σ !! id = Some r ∧ sp_Attempt r = a ∧ sp_State r = "running" ∧ pp_unconfirmed σ !! id = None ∧ pp_closing σ = false.
Proof.
  intros Hs H1 H2. destruct Hs as [| | | | |σ id' r| |σ id' r c| |]; cbn in *; rewrite ?trace_put in H2; try done.
  - apply elem_of_app in H2 as [H2|H2%list_elem_of_singleton]; [done|]. injection H2 as -> ->. by exists r.
  - by apply elem_of_app in H2 as [H2|H2%list_elem_of_singleton].
Qed.
(** A step that adds an installation has the reservation on disk. *)
Lemma install_step σ σ' slug receipt : pstep σ σ' → ev_install slug receipt ∉ pp_trace σ → ev_install slug receipt ∈ pp_trace σ' →
  ∃ id r c, pp_records σ !! id = Some r ∧ sp_Slug r = slug ∧ sp_ReceiptID r = receipt ∧ slug ≠ "" ∧ pp_unconfirmed σ !! id = None
    ∧ pp_creations σ !! slug = None ∧ pp_creations σ' !! slug = Some c ∧ ct_ReceiptID c = receipt ∧ ct_DeletionHistory c = sp_Epoch r.
Proof.
  intros Hs H1 H2. destruct Hs as [| | | | |σ id' r| |σ id' r c| |]; cbn in *; rewrite ?trace_put in H2; try done.
  - by apply elem_of_app in H2 as [H2|H2%list_elem_of_singleton].
  - apply elem_of_app in H2 as [H2|H2%list_elem_of_singleton]; [done|]. injection H2 as -> ->. exists id', r, c.
    rewrite lookup_insert_eq. by split_and!.
Qed.
End Machine.
