(* ===== verification/PreparationFacts.v ===== *)
(** * Session preparations: the operations are runs of the machine

    [safe] is the program logic: from a well-keyed state, an operation takes steps of
    [PreparationMachine] and ends in a state and result with the stated property.  Every history
    of requests, workers, reconciliation and shutdown is such a run. *)

From S2P Require Import Prelude Effects GoStrings GoJson GoTime RetryValidate LifecycleTypes SessionPreparation PreparationStore PreparationOps PreparationRequests PreparationMachine.
From Stdlib Require Import Relations.

Open Scope Z_scope.

Section Logic.
Context {W : Type} (rt : PrepRuntime W).

Definition safe {A} (σ : PrepSys W) (m : Pr W A) (Q : PrepSys W → result A → Prop) : Prop :=
  keyed σ → wp m (λ σ' r, psteps rt σ σ' ∧ (keyed σ' → Q σ' r)) σ.

Lemma safe_keyed {A} σ (m : Pr W A) Q : (keyed σ → safe σ m Q) → safe σ m Q.
Proof. intros H Hk. by apply H. Qed.
Lemma safe_mono {A} σ (m : Pr W A) (Q R : PrepSys W → result A → Prop) :
  safe σ m Q → (∀ σ' r, psteps rt σ σ' → keyed σ' → Q σ' r → R σ' r) → safe σ m R.
Proof. intros H HQ Hk. specialize (H Hk) as [H1 H2]. split; [done|]. intros Hk'. apply HQ; auto. Qed.
Lemma safe_ret {A} σ (a : A) (Q : PrepSys W → result A → Prop) : Q σ (Ok a) → safe σ (mret a) Q.
Proof. intros H _. split; [reflexivity|done]. Qed.
Lemma safe_fail {A} σ e (Q : PrepSys W → result A → Prop) : Q σ (Err e) → safe σ (fail e) Q.
Proof. intros H _. split; [reflexivity|done]. Qed.
Lemma safe_gets {A} σ (f : PrepSys W → A) (Q : PrepSys W → result A → Prop) : Q σ (Ok (f σ)) → safe σ (gets f) Q.
Proof. intros H _. split; [reflexivity|done]. Qed.
Lemma safe_lift_error σ e (Q : PrepSys W → result unit → Prop) :
  Q σ (match e with Some e => Err e | None => Ok tt end) → safe σ (lift_error e) Q.
Proof. intros H _. split; [reflexivity|done]. Qed.
Lemma safe_lift_result {A} σ (r : result A) (Q : PrepSys W → result A → Prop) : Q σ r → safe σ (lift_result r) Q.
Proof. intros H _. split; [reflexivity|done]. Qed.
Lemma safe_modify σ f (Q : PrepSys W → result unit → Prop) : psteps rt σ (f σ) → Q (f σ) (Ok tt) → safe σ (modify f) Q.
Proof. intros Hs H _. by split. Qed.
Lemma safe_bind {A B} σ (m : Pr W A) (f : A → Pr W B) (Q : PrepSys W → result B → Prop) :
  safe σ m (λ σ' r, match r with Ok a => safe σ' (f a) Q | Err e => Q σ' (Err e) end) → safe σ (mbind f m) Q.
Proof.
  intros H Hk. specialize (H Hk). unfold wp, mbind, SE_bind in *. destruct (m σ) as [σ' [a|e]]; cbn in H; destruct H as [Hs H]; [|by split].
  assert (Hk' := steps_keyed rt _ _ Hs Hk). destruct (H Hk' Hk') as [Hs' H']. split; [by etrans|done].
Qed.
Lemma safe_attempt {A} σ (m : Pr W A) (Q : PrepSys W → result (result A) → Prop) :
  safe σ m (λ σ' r, Q σ' (Ok r)) → safe σ (attempt m) Q.
Proof. intros H Hk. specialize (H Hk). unfold wp, attempt in *. by destruct (m σ). Qed.
Lemma safe_pask {A} σ (f : W → W * A) (Q : PrepSys W → result A → Prop) :
  (∀ w a, Q (σ <| pp_world := w |>) (Ok a)) → safe σ (pask f) Q.
Proof.
  intros H _. unfold wp, pask. destruct (f (pp_world σ)) as [w a]. cbn. split; [|by intros _].
  apply rtc_once. constructor.
Qed.
Lemma safe_pcall σ name (Q : PrepSys W → result unit → Prop) : (∀ w r, Q (σ <| pp_world := w |>) r) → safe σ (pcall rt name) Q.
Proof. intros H. apply safe_bind, safe_pask. intros w [e|]; apply safe_lift_error, H. Qed.
Lemma safe_timestamp σ (Q : PrepSys W → result string → Prop) : (∀ w now, Q (σ <| pp_world := w |>) (Ok now)) → safe σ (timestamp rt) Q.
Proof. intros H. apply safe_bind, safe_pask. intros w now. apply safe_ret, H. Qed.

(** Operations that are safe whatever the state. *)
Definition runs {A} (m : Pr W A) : Prop := ∀ σ, safe σ m (λ _ _, True).
Lemma safe_runs {A} σ (m : Pr W A) (Q : PrepSys W → result A → Prop) :
  runs m → (∀ σ' r, psteps rt σ σ' → keyed σ' → Q σ' r) → safe σ m Q.
Proof. intros H HQ. eapply safe_mono; [apply H|]. auto. Qed.
Lemma safe_bind_runs {A B} σ (m : Pr W A) (f : A → Pr W B) (Q : PrepSys W → result B → Prop) :
  runs m → (∀ σ' a, psteps rt σ σ' → safe σ' (f a) Q) → (∀ σ' e, Q σ' (Err e)) → safe σ (mbind f m) Q.
Proof. intros H Hf He. apply safe_bind, safe_runs; [done|]. intros σ' [a|e] Hs _; auto. Qed.
Lemma runs_bind {A B} (m : Pr W A) (f : A → Pr W B) : runs m → (∀ a, runs (f a)) → runs (mbind f m).
Proof. intros Hm Hf σ. apply safe_bind_runs; auto. intros. apply Hf. Qed.
Lemma runs_attempt {A} (m : Pr W A) : runs m → runs (attempt m).
Proof. intros H σ. apply safe_attempt, safe_runs; [done|done]. Qed.
Lemma runs_ignore {A} (m : Pr W A) : runs m → runs (ignore m).
Proof. intros H. apply runs_bind; [by apply runs_attempt|]. intros _ σ. by apply safe_ret. Qed.
Lemma runs_ret {A} (a : A) : runs (mret a).
Proof. intros σ. by apply safe_ret. Qed.
Lemma runs_fail {A} e : runs (fail e : Pr W A).
Proof. intros σ. by apply safe_fail. Qed.
Lemma runs_gets {A} (f : PrepSys W → A) : runs (gets f).
Proof. intros σ. by apply safe_gets. Qed.
Lemma runs_pask {A} (f : W → W * A) : runs (pask f).
Proof. intros σ. by apply safe_pask. Qed.
Lemma runs_pcall name : runs (pcall rt name).
Proof. intros σ. by apply safe_pcall. Qed.
Lemma runs_lift_error e : runs (lift_error e).
Proof. intros σ. by apply safe_lift_error. Qed.
Lemma runs_lift_result {A} (r : result A) : runs (lift_result r).
Proof. intros σ. by apply safe_lift_result. Qed.
Lemma runs_timestamp : runs (timestamp rt).
Proof. intros σ. by apply safe_timestamp. Qed.
End Logic.

#[export] Hint Resolve runs_ret runs_fail runs_gets runs_pask runs_pcall runs_lift_error runs_lift_result runs_timestamp : runs.

(** One symbolic step of a procedure; [world] changes are the only ones of calls outside. *)
Ltac safe_step :=
  lazymatch goal with
  | |- safe _ _ (mret _) _ => apply safe_ret
  | |- safe _ _ (fail _) _ => apply safe_fail
  | |- safe _ _ (gets _) _ => apply safe_gets
  | |- safe _ _ (lift_error _) _ => apply safe_lift_error
  | |- safe _ _ (lift_result _) _ => apply safe_lift_result
  | |- safe _ _ (mbind _ _) _ => apply safe_bind
  | |- safe _ _ (attempt _) _ => apply safe_attempt
  | |- safe _ _ (pask _) _ => apply safe_pask; intros
  | |- safe _ _ (pcall _ _) _ => apply safe_pcall; intros ? [[]|]
  | |- safe _ _ (timestamp _) _ => apply safe_timestamp; intros
  | |- safe _ _ (syncPreparationDirectory _) _ => unfold syncPreparationDirectory
  | |- safe _ _ (privatePreparationDirectory _) _ => unfold privatePreparationDirectory
  end.
Ltac safe_steps := repeat (safe_step; cbv beta iota).
Ltac runs_step :=
  lazymatch goal with
  | |- runs _ (mbind _ _) => apply runs_bind; [|intros]
  | |- runs _ (attempt _) => apply runs_attempt
  | |- runs _ (ignore _) => apply runs_ignore
  | |- runs _ (if ?b then _ else _) => destruct b
  | |- runs _ (match ?x with _ => _ end) => destruct x
  | |- runs _ _ => solve [eauto with runs]
  end.
Ltac run := intros; repeat runs_step.

(** ** The store *)

Section Store.
Context {W : Type} (rt : PrepRuntime W).

(** Only the world changes. *)
Definition worldly (σ σ' : PrepSys W) : Prop := ∃ w, σ' = σ <| pp_world := w |>.
#[export] Instance worldly_preorder : PreOrder worldly.
Proof. split; [intros σ; by exists (pp_world σ); destruct σ|]. intros σ _ _ [w ->] [w' ->]. by exists w'. Qed.
Lemma worldly_pask {A} (f : W → W * A) : rel_steps worldly (pask f).
Proof. intros σ. unfold pask. destruct (f (pp_world σ)) as [w a]. by exists w. Qed.
#[local] Hint Resolve worldly_pask worldly_preorder : proc.
Lemma worldly_pcall name : rel_steps worldly (pcall rt name).
Proof. unfold pcall. procs. Qed.

#[local] Hint Resolve worldly_pcall : proc.
Lemma safe_worldly {A} σ (m : Pr W A) (Q : PrepSys W → result A → Prop) :
  rel_steps worldly m → (∀ w, (m σ).1 = σ <| pp_world := w |> → Q (σ <| pp_world := w |>) (m σ).2) → safe rt σ m Q.
Proof.
  intros Hm HQ _. destruct (Hm σ) as [w E]. unfold wp. rewrite E. split; [apply rtc_once; constructor|]. intros _. by apply HQ.
Qed.

Lemma worldly_read completed id : rel_steps worldly (readPreparation rt completed id).
Proof. unfold readPreparation. procs. Qed.
Lemma read_spec completed id σ : wp (readPreparation rt completed id)
  (λ _ r, ∀ p, r = Ok p → ∃ f, file_in completed σ id = Some f ∧ p = copy_preparation f) σ.
Proof.
  unfold readPreparation. apply wp_bind. eapply wp_mono; [apply (rel_wp worldly), worldly_pcall|]. intros σ1 [[]|e] [w1 ->]; [|done].
  apply wp_bind, wp_gets. change (file_in completed (σ <| pp_world := w1 |>) id) with (file_in completed σ id).
  destruct (file_in completed σ id) as [f|] eqn:Ef; [|by apply wp_fail].
  apply wp_bind. eapply wp_mono; [apply (rel_wp worldly), worldly_pcall|]. intros σ2 [[]|e] _; [|done].
  apply wp_bind. eapply wp_mono; [apply (rel_wp worldly), worldly_pcall|]. intros σ3 [[]|e] _; [|done].
  destruct (Preparation_json f) as [data|]; [|by apply wp_fail]. destruct (maxPreparationBytes <? strlen data); [by apply wp_fail|].
  cbv zeta. destruct (_ && _); [by apply wp_fail|]. apply wp_bind, wp_lift_error.
  destruct (validatePreparation (copy_preparation f) (pr_workspace rt)); [done|]. apply wp_ret. intros p [= <-]. by exists f.
Qed.
Lemma safe_read completed id σ (Q : PrepSys W → result sessionPreparation → Prop) :
  (∀ w e, Q (σ <| pp_world := w |>) (Err e)) →
  (∀ w f, file_in completed σ id = Some f → Q (σ <| pp_world := w |>) (Ok (copy_preparation f))) →
  safe rt σ (readPreparation rt completed id) Q.
Proof.
  intros He Ho. apply safe_worldly; [apply worldly_read|]. intros w _. assert (H := read_spec completed id σ). unfold wp in H.
  destruct (readPreparation rt completed id σ).2 as [p|e]; [|done]. by destruct (H p) as (f & Hf & ->); [|apply Ho].
Qed.

(** What stays while the records of [id] are confirmed or saved. *)
Record frame (id : string) (σ σ' : PrepSys W) : Prop := {
  fr_creations : pp_creations σ' = pp_creations σ;
  fr_closing : pp_closing σ' = pp_closing σ;
  fr_work : pp_work σ' = pp_work σ;
  fr_trace : pp_trace σ' = pp_trace σ;
  fr_records : ∀ j, j ≠ id → pp_records σ' !! j = pp_records σ !! j;
  fr_unconfirmed : ∀ j, j ≠ id → pp_unconfirmed σ' !! j = pp_unconfirmed σ !! j }.
#[export] Instance frame_preorder id : PreOrder (frame id).
Proof.
  split; [by intros σ|]. intros σ1 σ2 σ3 [A1 B1 C1 D1 E1 F1] [A2 B2 C2 D2 E2 F2]. split; try congruence.
  - intros j Hj. by rewrite E2, E1.
  - intros j Hj. by rewrite F2, F1.
Qed.
Definition moved (id : string) (σ σ' : PrepSys W) : Prop := frame id σ σ' ∧ pp_records σ' = pp_records σ.
#[export] Instance moved_preorder id : PreOrder (moved id).
Proof.
  split; [by intros σ|]. intros σ1 σ2 σ3 [F1 R1] [F2 R2]. split; [by etrans|congruence].
Qed.
Lemma moved_world id σ w : moved id σ (σ <| pp_world := w |>).
Proof. done. Qed.
Lemma frame_world id σ w σ' : frame id (σ <| pp_world := w |>) σ' → frame id σ σ'.
Proof. intros H. by etrans; [|exact H]. Qed.
Lemma frame_put id completed r (σ : PrepSys W) : frame id σ (put_file completed id r σ).
Proof. by destruct completed. Qed.

Lemma move_spec id completed f σ :
  pp_unconfirmed σ !! id = Some completed → file_in completed σ id = Some f →
  safe rt σ (move_completed rt id completed)
    (λ σ' _, moved id σ σ' ∧ is_Some (pp_unconfirmed σ' !! id) ∧ ∃ c, file_in c σ' id = Some f).
Proof.
  intros Hu Hf. unfold move_completed. safe_steps; try (by split_and!; [done|exists completed; exact Hu|exists completed; exact Hf]).
  destruct completed.
  - apply safe_ret. safe_steps; (by split_and!; [done|exists true; exact Hu|exists true; exact Hf]).
  - safe_steps; [|by split_and!; [done|exists false; exact Hu|exists false; exact Hf]].
    apply safe_modify.
    + cbn. unfold file_in in Hf. rewrite Hf. apply rtc_once, (ps_move _ _ id f); [done|]. exists false. exact Hu.
    + unfold file_in in Hf. safe_steps; cbn; rewrite Hf; cbn; (split_and!;
        [split; [split; cbn; try done|done]; intros j Hj; by rewrite lookup_insert_ne|by rewrite lookup_insert_eq|exists true; unfold file_in; cbn; by rewrite lookup_insert_eq]).
Qed.

Lemma confirm_published_spec id completed σ : pp_unconfirmed σ !! id = Some completed →
  safe rt σ (confirm_published rt id completed (record_of id σ))
    (λ σ' r, moved id σ σ' ∧ (r = Ok tt → ∃ c f, file_in c σ' id = Some f ∧ holds_text (record_of id σ) f)).
Proof.
  intros Hu. unfold confirm_published. apply safe_bind, safe_read; [done|]. intros w f Hf.
  destruct (bool_decide (preparationDigest _ = _)) eqn:E; cbn [negb]; [|by apply safe_fail].
  apply bool_decide_eq_true in E. safe_steps; try done. destruct (sp_State _ == "terminal").
  - eapply safe_mono; [by eapply (move_spec id completed f)|]. intros σ' r _ _ (Hm & _ & c & Hc). split; [by etrans; [|exact Hm]|]. intros _. by exists c, f.
  - apply safe_ret. split; [done|]. intros _. by exists completed, f.
Qed.
Lemma moved_record id σ σ' : moved id σ σ' → record_of id σ' = record_of id σ.
Proof. intros [_ E]. unfold record_of. by rewrite E. Qed.
Lemma preparation_confirm_spec id σ :
  safe rt σ (confirmPreparationLocked rt id) (λ σ' r, moved id σ σ' ∧ (r = Ok tt → pp_unconfirmed σ' !! id = None)).
Proof.
  unfold confirmPreparationLocked. apply safe_bind, safe_gets. destruct (pp_unconfirmed σ !! id) as [completed|] eqn:Hu; [|by apply safe_ret].
  apply safe_bind, safe_gets, safe_bind, safe_attempt. eapply safe_mono; [by apply confirm_published_spec|].
  intros σ' [[]|e] _ _ [Hm Hok]; [|by apply safe_fail]. destruct (Hok eq_refl) as (c & f & Hf & Ht).
  apply safe_modify.
  - apply rtc_once, (ps_confirm _ _ id c f); [done|]. by rewrite (moved_record id σ).
  - split; [|intros _; apply lookup_delete_eq]. etrans; [done|]. split; [|done]. split; try done.
    intros j Hj. cbn. by rewrite lookup_delete_ne.
Qed.
Lemma directory_spec r : rel_steps worldly (save_directory rt r).
Proof. unfold save_directory. procs. Qed.

(** What saving a record may have done, also when it fails. *)
Definition saved (r : sessionPreparation) (σ σ' : PrepSys W) : Prop :=
  frame (sp_RequestID r) σ σ' ∧ (pp_records σ' = pp_records σ ∨ pp_records σ' = <[sp_RequestID r := r]> (pp_records σ)).
Lemma preparation_publish_spec completed r σ :
  publishable σ r → validatePreparation r (pr_workspace rt) = None → pp_unconfirmed σ !! sp_RequestID r = None →
  safe rt σ (publish rt completed r) (λ σ' res, saved r σ σ' ∧ (res = Ok tt → pp_records σ' = <[sp_RequestID r := r]> (pp_records σ))).
Proof.
  intros Hp Hv Hu. unfold publish. safe_steps; try (by split; [split; [done|by left]|done]). apply safe_modify.
  - apply rtc_once, (ps_publish rt _ completed r); [exact Hp|done|exact Hu].
  - split; [|intros _; cbn; by rewrite records_put]. split; [|right; cbn; by rewrite records_put]. split; destruct completed; cbn; try done;
      intros j Hj; by rewrite lookup_insert_ne.
Qed.
Lemma preparation_save_spec r σ : (validatePreparation r (pr_workspace rt) = None → publishable σ r) →
  safe rt σ (savePreparation rt r) (λ σ' res, saved r σ σ' ∧
    (res = Ok tt → pp_records σ' !! sp_RequestID r = Some r ∧ pp_unconfirmed σ' !! sp_RequestID r = None)).
Proof.
  intros Hp. unfold savePreparation. apply safe_bind. eapply safe_mono; [apply preparation_confirm_spec|]. intros σ1 [[]|e] _ _ [[Hf Hr] Hok]; [|by split; [split; [|left]|]].
  apply safe_bind, safe_lift_error. destruct (validatePreparation r (pr_workspace rt)) eqn:Hv; [by split; [split; [|left]|]|].
  destruct (Preparation_json r) as [data|]; [|by apply safe_fail; split; [split; [|left]|]].
  destruct (_ <? strlen data); [by apply safe_fail; split; [split; [|left]|]|].
  apply safe_bind, safe_worldly; [apply directory_spec|]. intros w _. destruct (save_directory rt r σ1).2 as [completed|e]; cbv beta iota; [|by split; [split; [by etrans; [exact Hf|]|by left]|]].
  apply safe_bind. eapply safe_mono; [apply preparation_publish_spec; [|done|by apply Hok]|].
  { specialize (Hp eq_refl). unfold publishable, free_for in *. cbn. by rewrite Hr. }
  intros σ2 [[]|e] _ _ [[Hf2%frame_world Hr2] Hpub].
  - eapply safe_mono; [apply preparation_confirm_spec|]. intros σ3 res _ _ [[Hf3 Hr3] Hc]. cbn in Hr2. rewrite Hr in Hr2.
    assert (E := Hpub eq_refl). cbn in E. split.
    + split; [etrans; [exact Hf|]; etrans; [exact Hf2|done]|right; by rewrite Hr3, E, Hr].
    + intros Hres. split; [rewrite Hr3, E; apply lookup_insert_eq|by apply Hc].
  - cbn in Hr2. rewrite Hr in Hr2. split; [|done]. split; [by etrans|done].
Qed.
End Store.
#[export] Hint Resolve worldly_pask worldly_pcall : proc.

(** ** Edits of the record in memory *)

Section Near.
Context {W : Type} (rt : PrepRuntime W).

(** The record is the one in memory; or it may replace it, with the name it has. *)
Definition has (σ : PrepSys W) (r : sessionPreparation) : Prop := pp_records σ !! sp_RequestID r = Some r.
Definition near (σ : PrepSys W) (r : sessionPreparation) : Prop :=
  sp_Attempt r <= max_int64 ∧ ∃ r0, pp_records σ !! sp_RequestID r = Some r0 ∧ follows r0 r ∧ sp_Slug r0 = sp_Slug r.

Lemma near_publishable σ r : near σ r → publishable σ r.
Proof. intros (Ha & r0 & Hr & Hf & Hs). split; [done|]. rewrite Hr. auto. Qed.
Lemma has_near σ r : keyed σ → has σ r → near σ r.
Proof. intros Hk H. destruct (k_records _ Hk _ _ H) as (_ & Ha & _). split; [done|]. by exists r. Qed.
Lemma near_edit σ r r' : near σ r → follows r r' → sp_Slug r' = sp_Slug r → sp_Attempt r' <= max_int64 → near σ r'.
Proof.
  intros (_ & r0 & Hr & Hf & Hs) Hf' Hs' Ha. split; [done|]. exists r0. rewrite (follows_id r r') by done.
  split_and!; [done|by etrans|congruence].
Qed.
Lemma near_records σ σ' r : pp_records σ' = pp_records σ → near σ r → near σ' r.
Proof. unfold near. by intros ->. Qed.
Lemma has_records σ σ' r : pp_records σ' = pp_records σ → has σ r → has σ' r.
Proof. unfold has. by intros ->. Qed.
Lemma near_saved σ σ' r : saved r σ σ' → near σ r → near σ' r.
Proof.
  intros [_ [E|E]] Hn; [by apply (near_records σ)|]. split; [by destruct Hn|]. exists r. rewrite E, lookup_insert_eq. done.
Qed.
Lemma has_known σ id r : keyed σ → pp_records σ !! id = Some r → sp_RequestID r = id ∧ has σ r.
Proof. intros Hk H. destruct (k_records _ Hk _ _ H) as (E & _). split; [done|]. by rewrite <- E in H. Qed.
Lemma has_snapshot σ r : keyed σ → has σ r → sp_State r ≠ "terminal" → is_Some (sp_Snapshot r).
Proof. intros Hk H. by destruct (k_records _ Hk _ _ H) as (_ & _ & Hs & _). Qed.

(** An edit of the state, the phase, the error, the base or the times. *)
Lemma follows_plain r r' : sp_State r ≠ "terminal" → identity_of r' = identity_of r → sp_Attempt r <= sp_Attempt r' →
  sp_Slug r' = sp_Slug r → sp_Epoch r' = sp_Epoch r → sp_Snapshot r' = sp_Snapshot r → follows r r'.
Proof.
  intros Ht Hi Ha Hs He Hn. split; [done|done|by intros|by rewrite Hs, He|]. rewrite Hn. destruct (sp_Snapshot r); [|done].
  by split_and!.
Qed.
Lemma follows_time r now : follows r (r <| sp_UpdatedAt := now |>).
Proof. split; cbn; try done. destruct (sp_Snapshot r); [by split_and!|done]. Qed.

Lemma save_near r σ : near σ r →
  safe rt σ (savePreparation rt r) (λ σ' res, saved r σ σ' ∧ near σ' r ∧ (res = Ok tt → has σ' r ∧ pp_unconfirmed σ' !! sp_RequestID r = None)).
Proof.
  intros Hn. eapply safe_mono; [apply preparation_save_spec; intros _; by apply near_publishable|]. intros σ' res _ _ [Hs Hok]. split; [done|].
  split; [by apply (near_saved σ)|done].
Qed.

(** ** Work *)

(** Work changes only. *)
Definition worked (σ σ' : PrepSys W) : Prop :=
  pp_records σ' = pp_records σ ∧ pp_unconfirmed σ' = pp_unconfirmed σ ∧ pp_creations σ' = pp_creations σ ∧ pp_closing σ' = pp_closing σ.
Lemma pending_spec r σ : (∃ r', pp_records σ !! sp_RequestID r = Some r' ∧ sp_Attempt r' = sp_Attempt r) →
  safe rt σ (pendingPreparationLocked r) (λ σ' _, worked σ σ').
Proof.
  intros (r' & Hr & Ha). unfold pendingPreparationLocked. apply safe_modify; destruct (wk_Attempt _ =? _) eqn:E; try done.
  rewrite <- Ha. apply rtc_once, ps_pending; [done|]. rewrite Ha. by apply Z.eqb_neq.
Qed.
Lemma launch_spec r σ : (sp_State r = "running" → has σ r) → safe rt σ (launchPreparationLocked r) (λ σ' _, worked σ σ').
Proof.
  intros Hr. unfold launchPreparationLocked. apply safe_modify; cbv zeta; destruct (_ || _) eqn:E; try done.
  rewrite !orb_false_iff, !negb_false_iff in E. destruct E as ((((Hc & Hs) & Hw) & Hd) & Hu).
  apply bool_decide_eq_true in Hs. apply Z.eqb_eq in Hw. apply bool_decide_eq_false in Hu.
  apply rtc_once, ps_dispatch; [by apply Hr|done|by apply eq_None_not_Some|done|done|done].
Qed.
Lemma dispatch_save_spec r σ : (validatePreparation r (pr_workspace rt) = None → publishable σ r) →
  safe rt σ (savePreparationForDispatchLocked rt r) (λ σ' res,
    (pp_records σ' = pp_records σ ∨ pp_records σ' = <[sp_RequestID r := r]> (pp_records σ))
    ∧ pp_creations σ' = pp_creations σ ∧ pp_closing σ' = pp_closing σ
    ∧ (res = Ok tt → has σ' r ∧ pp_unconfirmed σ' !! sp_RequestID r = None)).
Proof.
  intros Hp. unfold savePreparationForDispatchLocked. apply safe_bind, safe_attempt. eapply safe_mono; [by apply preparation_save_spec|].
  intros σ1 res _ Hk ([Hf Hr] & Hok). cbv beta iota. apply safe_bind, safe_gets, safe_bind.
  assert (∀ σ2 res', worked σ1 σ2 → (res' = Ok tt → res = Ok tt) →
    (pp_records σ2 = pp_records σ ∨ pp_records σ2 = <[sp_RequestID r := r]> (pp_records σ))
    ∧ pp_creations σ2 = pp_creations σ ∧ pp_closing σ2 = pp_closing σ
    ∧ (res' = Ok tt → has σ2 r ∧ pp_unconfirmed σ2 !! sp_RequestID r = None)) as Hend.
  { intros σ2 res' (E1 & E2 & E3 & E4) Hres. unfold has. rewrite E1, E2, E3, E4. split; [done|].
    split; [by destruct Hf|]. split; [by destruct Hf|]. auto. }
  destruct (pp_records σ1 !! sp_RequestID r) as [p|] eqn:E1; [|by apply safe_ret, safe_lift_result, Hend].
  destruct (_ && _); [|by apply safe_ret, safe_lift_result, Hend].
  destruct (has_known σ1 _ _ Hk E1) as [E2 Hh]. eapply safe_mono; [apply pending_spec; by exists p|].
  intros σ2 [[]|e] _ _ Hw; [by apply safe_lift_result, Hend|by apply Hend].
Qed.
End Near.

(** ** Accepting *)

Section Accept.
Context {W : Type} (rt : PrepRuntime W).

(** The creations and the shutdown are left alone. *)
Definition same_creations (σ σ' : PrepSys W) : Prop := pp_creations σ' = pp_creations σ ∧ pp_closing σ' = pp_closing σ.

Lemma accepted_follows r goal now : sp_State r ≠ "terminal" → is_Some (sp_Snapshot r) →
  (sn_Goal (snapshot_of r) = "" ∨ sn_Goal (snapshot_of r) = goal) →
  follows r (with_goal r goal <| sp_State := "running" |> <| sp_Phase := "naming" |> <| sp_UpdatedAt := now |>).
Proof.
  intros Ht [s Hs] Hg. unfold with_goal, snapshot_of in *. rewrite Hs in *. cbn in *. split; cbn; try done. rewrite Hs. split_and!; [done|done|].
  by destruct Hg.
Qed.
(** The record the caller's pointer shows: the one in memory, or its successor. *)
Definition accepted (r : sessionPreparation) (σ σ' : PrepSys W) (r' : sessionPreparation) (e : option error) : Prop :=
  same_creations σ σ' ∧ near σ' r' ∧ follows r r' ∧ sp_Slug r' = sp_Slug r ∧ sp_State r' ≠ "terminal" ∧ (e = None → has σ' r').
Lemma accept_spec r σ : has σ r → sp_State r ≠ "terminal" →
  safe rt σ (finishAcceptingPreparationLocked rt r) (λ σ' res, ∃ r' e, res = Ok (r', e) ∧ accepted r σ σ' r' e).
Proof.
  intros Hh Ht. apply safe_keyed. intros Hk. assert (Hn := has_near σ r Hk Hh). assert (Hs := has_snapshot σ r Hk Hh Ht).
  assert (Hid : ∀ σ' e, same_creations σ σ' → pp_records σ' = pp_records σ → ∃ r' e', Ok (r, Some e) = Ok (r', e') ∧ accepted r σ σ' r' e').
  { intros σ' e Hc Hr. exists r, (Some e). split; [done|]. split_and!; try done. by apply (near_records σ). }
  unfold finishAcceptingPreparationLocked. apply safe_bind, safe_attempt. eapply safe_mono; [apply preparation_confirm_spec|].
  intros σ1 [[]|e] _ _ [[Hf1 Hr1] _]; cbv beta iota; [|by apply safe_ret, Hid; [destruct Hf1|]].
  cbv zeta. apply safe_bind, safe_pask. intros w [goal|e]; [|by apply safe_ret, Hid; [destruct Hf1|]].
  destruct (_ && _) eqn:Hgoal; [by apply safe_ret, Hid; [destruct Hf1|]|].
  apply safe_bind, safe_timestamp. intros w' now. apply safe_bind, safe_attempt.
  set (r' := with_goal r goal <| sp_State := "running" |> <| sp_Phase := "naming" |> <| sp_UpdatedAt := now |>).
  assert (Hfol : follows r r').
  { apply accepted_follows; [done|done|]. rewrite andb_false_iff, !negb_false_iff, !bool_decide_eq_true in Hgoal. done. }
  assert (Hn' : near σ r') by (apply (near_edit σ r); [done|done|done|by destruct Hn]).
  eapply safe_mono; [apply dispatch_save_spec; intros _; apply near_publishable; revert Hn'; by apply near_records|].
  intros σ2 res _ _ (Hr2 & Hc2 & Hcl2 & Hok). cbn in Hr2, Hc2, Hcl2. rewrite Hr1 in Hr2. apply safe_ret.
  eexists _, _. split; [done|]. assert (same_creations σ σ2) by (destruct Hf1; split; congruence). split_and!; try done.
  - destruct Hr2 as [E|E]; [by apply (near_records σ)|]. split; [by destruct Hn'|]. exists r'. unfold r' at 1. cbn. by rewrite E, lookup_insert_eq.
  - destruct res as [[]|]; [intros _; by apply Hok|done].
Qed.
Lemma finish_accepting_spec r σ : has σ r → sp_State r ≠ "terminal" →
  safe rt σ (finish_accepting rt r) (λ σ' res, same_creations σ σ' ∧
    ∀ r', res = Ok r' → has σ' r' ∧ follows r r' ∧ sp_Slug r' = sp_Slug r ∧ sp_State r' ≠ "terminal").
Proof.
  intros Hh Ht. unfold finish_accepting. apply safe_bind. eapply safe_mono; [by apply accept_spec|].
  intros σ1 res _ _ (r' & e & -> & Hc & Hn & Hf & Hs & Hst & Hok). cbv beta iota. apply safe_bind, safe_lift_error.
  destruct e; [by split|]. apply safe_ret. split; [done|]. intros r'' [= <-]. by split_and!; [apply Hok|..].
Qed.
Lemma finish_accepting_runs r σ (Q : PrepSys W → result unit → Prop) : has σ r → sp_State r ≠ "terminal" →
  (∀ σ' res, same_creations σ σ' → Q σ' res) → safe rt σ (_ ← finish_accepting rt r; mret tt) Q.
Proof.
  intros Hh Ht HQ. apply safe_bind. eapply safe_mono; [by apply finish_accepting_spec|]. intros σ' [r'|e] _ _ [Hc _]; [apply safe_ret|]; by apply HQ.
Qed.
End Accept.

(** ** Compaction and retirement *)

Section Visits.
Context {W : Type} (rt : PrepRuntime W) (R : PrepSys W → PrepSys W → Prop) `{HR : !PreOrder R}.
Context (Rworld : ∀ σ w, R σ (σ <| pp_world := w |>)).

Lemma safe_then {A B} σ (m : Pr W A) (f : A → Pr W B) :
  safe rt σ m (λ σ' _, R σ σ') → (∀ σ' a, R σ σ' → safe rt σ' (f a) (λ σ'' _, R σ' σ'')) → safe rt σ (mbind f m) (λ σ' _, R σ σ').
Proof.
  intros Hm Hf. apply safe_bind. eapply safe_mono; [exact Hm|]. intros σ' [a|e] _ _ H; [|done].
  eapply safe_mono; [by apply Hf|]. intros σ'' r _ _ H'. by etrans.
Qed.
Lemma safe_quiet {A} σ (m : Pr W A) : rel_steps (worldly (W:=W)) m → safe rt σ m (λ σ' _, R σ σ').
Proof. intros Hm. by apply safe_worldly. Qed.
Lemma visit_safe (body : sessionPreparation → Pr W unit) ids σ :
  (∀ σ r, has σ r → safe rt σ (body r) (λ σ' _, R σ σ')) → safe rt σ (visit body ids) (λ σ' _, R σ σ').
Proof.
  intros Hb. revert σ. induction ids as [|id ids IH]; intros σ; [by apply safe_ret|]. cbn [visit].
  apply safe_bind, safe_gets. destruct (pp_records σ !! id) as [r|] eqn:Hr; (apply safe_then; [|by intros]).
  - apply safe_keyed. intros Hk. by apply Hb, (has_known σ id).
  - by apply safe_ret.
Qed.
Lemma for_each_safe (body : sessionPreparation → Pr W unit) σ :
  (∀ σ r, has σ r → safe rt σ (body r) (λ σ' _, R σ σ')) → safe rt σ (for_each_record rt body) (λ σ' _, R σ σ').
Proof.
  intros Hb. unfold for_each_record. apply safe_bind, safe_gets, safe_then; [by apply safe_quiet, worldly_pask|].
  intros σ' ids _. by apply visit_safe.
Qed.
End Visits.

Section Retire.
Context {W : Type} (rt : PrepRuntime W) (j : string) (o : sessionPreparation) (P : Prop).

(** The record [o] of request [j] is in memory and on disk; that stays so under [P]. *)
Definition reserved (σ : PrepSys W) : Prop := pp_records σ !! j = Some o ∧ pp_unconfirmed σ !! j = None.
Definition keeps (σ σ' : PrepSys W) : Prop :=
  pp_creations σ' ⊆ pp_creations σ ∧ pp_closing σ' = pp_closing σ ∧ (P → reserved σ → reserved σ').
#[export] Instance keeps_preorder : PreOrder keeps.
Proof.
  split; [by intros σ|]. intros σ1 σ2 σ3 (A1 & B1 & C1) (A2 & B2 & C2). split_and!; [by etrans|congruence|auto].
Qed.
Lemma keeps_world σ w : keeps σ (σ <| pp_world := w |>).
Proof. done. Qed.
Lemma keeps_moved id σ σ' : moved id σ σ' → (pp_unconfirmed σ !! id = None → pp_unconfirmed σ' !! id = None) → keeps σ σ'.
Proof.
  intros [Hf Hr] Hu. split_and!; [by rewrite (fr_creations _ _ _ Hf)|by apply Hf|]. intros _ [H1 H2]. split; [by rewrite Hr|].
  destruct (decide (j = id)) as [->|Hne]; [auto|]. by rewrite (fr_unconfirmed _ _ _ Hf).
Qed.
Lemma keeps_frame id σ σ' : frame id σ σ' → (P → reserved σ → j ≠ id) → keeps σ σ'.
Proof.
  intros Hf Hj. split_and!; [by rewrite (fr_creations _ _ _ Hf)|by apply Hf|]. intros HP H. specialize (Hj HP H). destruct H as [H1 H2].
  split; [by rewrite (fr_records _ _ _ Hf)|by rewrite (fr_unconfirmed _ _ _ Hf)].
Qed.
Lemma confirm_keeps id σ : safe rt σ (confirmPreparationLocked rt id) (λ σ' _, keeps σ σ' ∧ pp_records σ' = pp_records σ).
Proof.
  destruct (pp_unconfirmed σ !! id) as [completed|] eqn:Hu.
  - eapply safe_mono; [apply preparation_confirm_spec|]. intros σ' r _ _ [Hm _]. split; [|apply Hm]. apply (keeps_moved id); [done|]. by rewrite Hu.
  - unfold confirmPreparationLocked. apply safe_bind, safe_gets. rewrite Hu. by apply safe_ret.
Qed.

Lemma same_slug a b : sameCreationRequest a b = true → cr_Slug a = cr_Slug b.
Proof.
  unfold sameCreationRequest. destruct (negb _); [done|]. intros H%bool_decide_eq_true.
  exact (f_equal cr_Slug H).
Qed.
Lemma creation_slug r : cr_Slug (preparationCreationRequest r) = sp_Slug r.
Proof. unfold preparationCreationRequest. by destruct (sn_Preset _). Qed.
Lemma matches_spec r c : preparationReceiptMatches r c = true →
  cr_Slug (ct_Request c) = sp_Slug r ∧ ct_ReceiptID c = sp_ReceiptID r ∧ ct_DeletionHistory c = sp_Epoch r ∧ sp_Snapshot r ≠ None.
Proof.
  unfold preparationReceiptMatches. destruct (_ || _) eqn:E; [done|]. apply orb_false_iff in E as [E _]. apply bool_decide_eq_false in E.
  cbv zeta. rewrite !andb_true_iff. intros ((((((_ & _) & H1) & H2) & H3) & _) & _).
  apply bool_decide_eq_true in H1, H2. apply same_slug in H3. by rewrite creation_slug in H3.
Qed.
Lemma compacted_follows r c now : sp_State r ≠ "terminal" → follows r (compacted r c now).
Proof. intros Ht. split; cbn; try done. by destruct (sp_Snapshot r). Qed.
Lemma compact_record_keeps c r σ : (P → sp_Slug o ≠ cr_Slug (ct_Request c)) → has σ r →
  safe rt σ (compact_record rt c r) (λ σ' _, keeps σ σ').
Proof.
  intros Hc Hh. apply safe_keyed. intros Hk. unfold compact_record. apply safe_bind.
  apply (safe_mono _ _ _ (λ σ' _, keeps σ σ' ∧ pp_records σ' = pp_records σ)).
  { destruct (related_to c r); [|by apply safe_ret]. apply confirm_keeps. }
  intros σ1 [[]|e] _ _ [Hk1 Hr1]; [|done]. destruct (_ || _) eqn:E; [by apply safe_ret|]. apply orb_false_iff in E as [Ht Hm].
  apply bool_decide_eq_false in Ht. apply negb_false_iff, matches_spec in Hm as (Hslug & _).
  apply safe_bind. apply (safe_mono _ _ _ (λ σ' _, worldly σ1 σ')).
  { destruct (ct_State c == "ready"); [|by apply safe_ret; reflexivity].
    apply safe_worldly; [procs|intros w _; by exists w]. }
  intros σ2 [[]|e] _ _ [w ->]; [|by etrans; [exact Hk1|]]. apply safe_bind, safe_timestamp. intros w' now.
  set (r' := compacted r c now). assert (Hn : near σ1 r').
  { apply (near_edit σ1 r); [|by apply compacted_follows|done|by destruct (k_records _ Hk _ _ Hh) as (_ & Ha & _)]. apply (near_records σ); [done|by apply has_near]. }
  eapply safe_mono; [apply (save_near _ r'); exact Hn|]. intros σ3 res _ _ [[Hf _] _]. etrans; [exact Hk1|].
  apply (keeps_frame (sp_RequestID r)); [by do 2 apply frame_world in Hf|].
  intros HP [Hj _] ->. apply (Hc HP). rewrite Hslug. cbn in Hj. rewrite Hr1, Hh in Hj. by injection Hj as ->.
Qed.
Lemma compact_keeps c σ : (P → sp_Slug o ≠ cr_Slug (ct_Request c)) →
  safe rt σ (compactPreparationsLocked rt c) (λ σ' _, keeps σ σ').
Proof.
  intros Hc. unfold compactPreparationsLocked. destruct (negb (one_of _ _)); [by apply safe_ret|].
  apply safe_bind, safe_gets. destruct (negb (existsb _ _)); [by apply safe_ret|].
  apply safe_then; [apply _|by apply safe_quiet; procs|]. intros σ1 _ _.
  apply safe_then; [apply _|by apply safe_quiet; procs|]. intros σ2 _ _.
  apply for_each_safe; [apply _|by intros|]. intros σ' r Hh. by apply compact_record_keeps.
Qed.

Lemma worldly_exists paths : rel_steps worldly (any_exists rt paths).
Proof. induction paths as [|path paths IH]; cbn [any_exists]; procs. Qed.
#[local] Hint Resolve worldly_exists : proc.
Lemma worldly_journal slug all : rel_steps worldly (creationJournalPresent rt slug all).
Proof. unfold creationJournalPresent. procs. Qed.
#[local] Hint Resolve worldly_journal : proc.
Lemma worldly_remove paths : rel_steps worldly (remove_all rt paths).
Proof. induction paths as [|path paths IH]; cbn [remove_all]; procs. Qed.
#[local] Hint Resolve worldly_remove : proc.
Lemma worldly_occupied slug : rel_steps worldly (any_exists rt (session_roots slug)).
Proof. apply worldly_exists. Qed.

Lemma retireCreation_keeps c σ : (P → sp_Slug o ≠ cr_Slug (ct_Request c)) → safe rt σ (retireCreation rt c) (λ σ' _, keeps σ σ').
Proof.
  intros Hc. unfold retireCreation. apply safe_then; [apply _|by apply safe_quiet; procs|]. intros σ1 _ _.
  apply safe_then; [apply _|by apply safe_quiet; procs|]. intros σ2 _ _. apply safe_then; [apply _|by apply compact_keeps|]. intros σ3 _ _.
  apply safe_then; [apply _|by apply safe_quiet; procs|]. intros σ4 _ _. apply safe_then; [apply _|by apply safe_quiet; procs|].
  intros σ5 _ _. apply safe_keyed. intros Hk. apply safe_modify.
  - apply rtc_once. apply ps_creations. by apply map_Forall_delete, (k_receipts σ5).
  - split_and!; [apply delete_subseteq|done|done].
Qed.
Lemma shared_keeps slug (m : Pr W unit) σ : (∀ σ', pp_creations σ' = pp_creations σ → safe rt σ' m (λ σ'' _, keeps σ' σ'')) →
  safe rt σ (with_shared_runtime rt slug m) (λ σ' _, keeps σ σ').
Proof.
  intros Hm. unfold with_shared_runtime. apply safe_bind, safe_pask. intros w [e|].
  - destruct (errors_Is e EWOULDBLOCK); [by apply safe_ret|by apply safe_fail].
  - eapply safe_mono; [by apply Hm|]. intros σ' ? _ _ H. by etrans; [|exact H].
Qed.
Lemma retireIdle_keeps c σ : (P → sp_Slug o ≠ cr_Slug (ct_Request c)) → safe rt σ (retireIdleCreation rt c) (λ σ' _, keeps σ σ').
Proof.
  intros Hc. apply shared_keeps. intros σ1 _. apply safe_then; [apply _|by apply safe_quiet; procs|].
  intros σ2 [|] _; [by apply safe_ret|by apply retireCreation_keeps].
Qed.
Lemma retire_absent_keeps slug c σ : (P → sp_Slug o ≠ cr_Slug (ct_Request c)) → safe rt σ (retire_absent rt slug c) (λ σ' _, keeps σ σ').
Proof.
  intros Hc. unfold retire_absent. apply safe_then; [apply _|by apply safe_quiet; procs|]. intros σ1 [|] _; [by apply safe_ret|].
  apply safe_then; [apply _|by apply safe_quiet; procs|]. intros σ2 [|] _; [by apply safe_ret|].
  destruct (_ && _); [|by apply retireCreation_keeps].
  apply safe_then; [apply _|by apply safe_quiet; procs|]. intros σ3 h _. apply safe_then; [apply _|by apply safe_quiet; procs|].
  intros σ4 h' _. destruct (h' == _); [by apply safe_ret|by apply retireCreation_keeps].
Qed.
(** Retirement keeps a record whose name has no receipt. *)
Definition unclaimed (σ : PrepSys W) : Prop := P → pp_creations σ !! sp_Slug o = None.
Lemma unclaimed_keeps σ σ' : keeps σ σ' → unclaimed σ → unclaimed σ'.
Proof. intros (Hs & _) Hu HP. specialize (Hu HP). by eapply lookup_weaken_None. Qed.
Lemma unclaimed_slug σ slug c : keyed σ → unclaimed σ → pp_creations σ !! slug = Some c → P → sp_Slug o ≠ cr_Slug (ct_Request c).
Proof. intros Hk Hu Hc HP E. specialize (Hu HP). rewrite E, (k_receipts _ Hk _ _ Hc) in Hu. congruence. Qed.
Lemma retireAbsent_keeps slug σ : unclaimed σ → safe rt σ (retireAbsentCreation rt slug) (λ σ' _, keeps σ σ').
Proof.
  intros Hu. apply safe_keyed. intros Hk. unfold retireAbsentCreation. apply safe_bind, safe_gets.
  destruct (pp_creations σ !! slug) as [c|] eqn:Hc; [|by apply safe_ret]. destruct (one_of _ _); [by apply safe_ret|].
  apply shared_keeps. intros σ1 _. apply retire_absent_keeps. by apply (unclaimed_slug σ slug).
Qed.
Lemma retire_stopped_keeps slugs σ : unclaimed σ → safe rt σ (retire_stopped rt slugs) (λ σ' _, keeps σ σ').
Proof.
  revert σ. induction slugs as [|slug slugs IH]; intros σ Hu; [by apply safe_ret|]. cbn [retire_stopped].
  apply safe_bind, safe_gets, safe_then; [apply _| |intros σ' _ Hk; by apply IH, (unclaimed_keeps σ)].
  destruct (pp_creations σ !! slug); [|by apply safe_ret]. destruct (one_of _ _); [by apply retireAbsent_keeps|by apply safe_ret].
Qed.
Lemma retire_terminal_keeps reserve l σ : Forall (λ c, P → sp_Slug o ≠ cr_Slug (ct_Request c)) l →
  safe rt σ (retire_terminal rt reserve l) (λ σ' _, keeps σ σ').
Proof.
  intros Hl. revert σ. induction Hl as [|c l Hc _ IH]; intros σ; [by apply safe_ret|]. cbn [retire_terminal].
  apply safe_bind, safe_gets. destruct (over_capacity _ _); [|by apply safe_ret]. apply safe_then; [apply _|by apply retireIdle_keeps|by intros].
Qed.
Lemma oldest_elem l c : c ∈ oldest_first l → c ∈ l.
Proof.
  unfold oldest_first. rewrite list_elem_of_fmap. intros ([k c'] & -> & H). rewrite sort_keys_perm in H.
  apply list_elem_of_fmap in H as (c'' & [= -> ->] & H). apply list_elem_of_fmap in H as ([k' c'] & -> & H). rewrite sort_keys_perm in H.
  by apply list_elem_of_fmap in H as (c & [= -> ->] & H).
Qed.
Lemma terminal_elem (m : gmap string creationReceipt) c : c ∈ terminal_creations m → ∃ slug, m !! slug = Some c.
Proof.
  unfold terminal_creations. rewrite list_elem_of_In, filter_In, <- list_elem_of_In. intros [H _].
  apply list_elem_of_fmap in H as ([slug c'] & -> & H%elem_of_map_to_list). by exists slug.
Qed.
Lemma retireReady_keeps reserve σ : unclaimed σ → safe rt σ (retireReadyCreations rt reserve) (λ σ' _, keeps σ σ').
Proof.
  intros Hu. unfold retireReadyCreations. apply safe_bind, safe_gets. destruct (negb _); [by apply safe_ret|].
  apply safe_bind, safe_gets, safe_then; [apply _|by apply safe_quiet; procs|]. intros σ1 slugs H1.
  apply safe_then; [apply _|by apply retire_stopped_keeps, (unclaimed_keeps σ)|]. intros σ2 _ H2.
  assert (Hu2 : unclaimed σ2) by (apply (unclaimed_keeps σ1); [done|by apply (unclaimed_keeps σ)]).
  apply safe_bind, safe_gets, safe_then; [apply _| |intros σ3 _ _; apply safe_bind, safe_gets; by destruct (over_capacity _ _); [apply safe_fail|apply safe_ret]].
  apply safe_keyed. intros Hk. apply retire_terminal_keeps, Forall_forall. intros c (slug & Hc)%oldest_elem%terminal_elem.
  by apply (unclaimed_slug σ2 slug).
Qed.
End Retire.
#[export] Hint Resolve worldly_exists worldly_journal worldly_remove : proc.

(** ** Reserving a name and installing its creation *)

Section Reserve.
Context {W : Type} (rt : PrepRuntime W).

Lemma occupied_spec slug owner σ : safe rt σ (destinationOccupiedLocked rt slug owner)
  (λ σ' res, worldly σ σ' ∧ (res = Ok false → held_by_another slug owner (pp_records σ) = false)).
Proof.
  unfold destinationOccupiedLocked. apply safe_bind, safe_gets. destruct (match pp_creations σ !! slug with Some c => _ | None => _ end); [by apply safe_ret|].
  apply safe_bind, safe_gets. destruct (held_by_another slug owner (pp_records σ)); [by apply safe_ret|].
  apply safe_worldly; [procs|]. intros w _. split; [by exists w|done].
Qed.
(** The identity a receipt is installed under. *)
Lemma identity_spec receiptID history epoch σ : receiptID ≠ "" →
  safe rt σ (receipt_identity rt receiptID history epoch) (λ σ' res, σ' = σ ∧ ∀ id, res = Ok id → id = receiptID ∧ history = epoch).
Proof.
  intros Hn. unfold receipt_identity. rewrite bool_decide_eq_false_2 by done. destruct (_ || _) eqn:E; [by apply safe_fail|].
  apply orb_false_iff in E as [_ E]. apply negb_false_iff, bool_decide_eq_true in E. apply safe_ret. split; [done|]. by intros id [= <-].
Qed.
Section One.
Context (r : sessionPreparation) (Hslug : sp_Slug r ≠ "") (Hreceipt : sp_ReceiptID r ≠ "").
Context (request : creationRequest) (Hrequest : cr_Slug request = sp_Slug r).
Let id := sp_RequestID r.

Lemma install_new_spec σ : reserved id r σ → pp_closing σ = false → pp_creations σ !! sp_Slug r = None →
  safe rt σ (install_new rt request (sp_ReceiptID r) (sp_Epoch r) true) (λ σ' _, reserved id r σ').
Proof.
  intros Hres Hcl Hc. unfold install_new. apply safe_bind, safe_ret. cbv beta iota. apply safe_bind, safe_gets.
  destruct (held_by_another _ _ _); [by apply safe_fail|].
  apply safe_bind, safe_worldly; [procs|]. intros w _. destruct (any_exists _ _ _).2 as [[|]|e]; [by apply safe_fail| |done].
  apply safe_bind, safe_pask. intros w1 owner. apply safe_bind, safe_lift_result. destruct owner as [owner|e]; [|done].
  destruct (owner != ""); [by apply safe_fail|].
  apply safe_bind. eapply safe_mono; [apply (retireReady_keeps rt id r True); by intros _|]. intros σ2 res _ _ (Hsub & Hcl2 & Hres2).
  specialize (Hres2 I Hres). assert (Hc2 : pp_creations σ2 !! sp_Slug r = None) by (by eapply lookup_weaken_None).
  destruct res as [[]|e]; [|done]. cbv beta iota. apply safe_bind, safe_pask. intros w3 history. apply safe_bind, safe_lift_result.
  destruct history as [history|e]; [|done]. apply safe_bind. eapply safe_mono; [by apply identity_spec|]. intros σ4 [receiptID|e] _ _ [-> Hid]; [|done].
  destruct (Hid _ eq_refl) as [-> ->]. apply safe_bind, safe_timestamp. intros w5 now. apply safe_bind, safe_lift_error.
  destruct (check_team request); [done|]. apply safe_bind, safe_worldly; [unfold saveCreation; procs|]. intros w6 _.
  destruct (saveCreation _ _ _).2 as [[]|e]; [|done]. cbv beta iota. rewrite Hrequest. apply safe_bind, safe_modify; [|by apply safe_ret].
  apply rtc_once. apply (ps_install rt _ id r (new_receipt rt request (sp_ReceiptID r) (sp_Epoch r) now)); try done; [apply Hres2|apply Hres2|].
  cbn. by rewrite Hcl2.
Qed.
Lemma install_spec σ : reserved id r σ →
  safe rt σ (installCreationLocked rt request (sp_ReceiptID r) (sp_Epoch r) true) (λ σ' _, reserved id r σ').
Proof.
  intros Hres. unfold installCreationLocked. apply safe_bind, safe_gets. destruct (pp_closing σ) eqn:Hcl; [by apply safe_fail|].
  rewrite bool_decide_eq_false_2 by done. apply safe_bind, safe_ret, safe_bind, safe_gets. rewrite Hrequest.
  destruct (pp_creations σ !! sp_Slug r) as [c|] eqn:Hc; [|by apply install_new_spec].
  destruct (same_receipt _ _ _ _ _); [by apply safe_ret|by apply safe_fail].
Qed.
End One.

Lemma handoff_check_spec slug r σ : safe rt σ (handoff_check rt slug r)
  (λ σ' res, worldly σ σ' ∧ ((∃ epoch, res = Ok epoch) → sp_Slug r = "" → held_by_another slug (sp_ReceiptID r) (pp_records σ) = false)).
Proof.
  unfold handoff_check. apply safe_bind, safe_gets, safe_bind.
  set (first := match pp_creations σ !! slug, (sp_Slug r != "") with Some previous, true => _ | _, _ => _ end).
  apply (safe_mono _ _ _ (λ σ' res, worldly σ σ' ∧ (res = Ok tt → sp_Slug r = "" → held_by_another slug (sp_ReceiptID r) (pp_records σ) = false))).
  { assert (Hocc : safe rt σ (occupied ← destinationOccupiedLocked rt slug (sp_ReceiptID r);
        if (occupied : bool) then fail errPreparationOccupied else mret tt)
      (λ σ' res, worldly σ σ' ∧ (res = Ok tt → sp_Slug r = "" → held_by_another slug (sp_ReceiptID r) (pp_records σ) = false))).
    { apply safe_bind. eapply safe_mono; [apply occupied_spec|]. intros σ1 [[|]|e] _ _ [Hw Hok]; [by apply safe_fail| |done].
      apply safe_ret. split; [done|]. intros _ _. by apply Hok. }
    unfold first. destruct (pp_creations σ !! slug) as [c|]; [|exact Hocc]. destruct (sp_Slug r != "") eqn:E; [|exact Hocc].
    destruct (preparationReceiptMatches r c); [apply safe_ret|by apply safe_fail]. split; [done|]. intros _ E'. by rewrite E' in E. }
  intros σ1 [[]|e] _ _ [[w ->] Hok]; [|split; [by exists w|by intros [? ?]]].
  apply safe_worldly; [procs|]. intros w' _. split; [by exists w'|]. intros _. by apply Hok.
Qed.
Lemma candidate_check_spec slug r σ : safe rt σ (candidate_check rt slug r)
  (λ σ' res, worldly σ σ' ∧ ((∃ epoch, res = Ok epoch) → sp_Slug r = "" → held_by_another slug (sp_ReceiptID r) (pp_records σ) = false)).
Proof.
  unfold candidate_check. apply safe_bind. apply (safe_mono _ _ _ (λ σ' _, worldly σ σ')).
  { destruct (sp_Slug r == ""); [|by apply safe_ret]. apply safe_bind. eapply safe_mono; [apply occupied_spec|].
    intros σ1 [[|]|e] _ _ [Hw _]; [by apply safe_fail|by apply safe_ret|done]. }
  intros σ1 [[]|e] _ _ [w ->]; [|split; [by exists w|by intros [? ?]]]. cbv beta iota.
  apply safe_bind, safe_pcall. intros w1 [[]|e]; [|split; [by exists w1|by intros [? ?]]].
  apply safe_bind, safe_pcall. intros w2 [[]|e]; [|split; [by exists w2|by intros [? ?]]].
  eapply safe_mono; [apply handoff_check_spec|]. intros σ' res _ _ [[w3 ->] H]. split; [by exists w3|done].
Qed.
Lemma reserve_follows slug epoch r : sp_Slug r = "" → sp_State r ≠ "terminal" → follows r (reserve_slug slug epoch r).
Proof. intros Hs Ht. split; cbn; try done. destruct (sp_Snapshot r); [by split_and!|done]. Qed.

(** The record, reserved, and its creation installed. *)
Definition waiting (σ : PrepSys W) (r : sessionPreparation) : Prop :=
  has σ r ∧ pp_unconfirmed σ !! sp_RequestID r = None ∧ sp_State r ≠ "terminal".
Lemma handed_near (σ : PrepSys W) r : keyed σ → reserved (sp_RequestID r) r σ → sp_State r ≠ "terminal" →
  near σ (r <| sp_State := "handed_off" |> <| sp_Phase := "initializing" |> <| sp_Error := "" |>).
Proof.
  intros Hk [Hh _] Ht. destruct (k_records _ Hk _ _ Hh) as (_ & Ha & _). apply (near_edit σ r); [by apply has_near| |done|done].
  by apply follows_plain.
Qed.
Lemma bound_spec r σ : waiting σ r → sp_Slug r ≠ "" → safe rt σ (hand_over rt r) (λ σ' res, ∀ r', res = Ok r' → near σ' r').
Proof.
  intros (Hh & Hu & Ht) Hs. apply safe_keyed. intros Hk. destruct (k_records _ Hk _ _ Hh) as (_ & _ & _ & Hreceipt). unfold hand_over.
  apply safe_bind, safe_worldly; [unfold bind_preparation; procs|]. intros w _. destruct (bind_preparation rt r σ).2 as [[]|e]; [|done].
  apply safe_bind. eapply safe_mono; [apply (install_spec r Hs Hreceipt _ (creation_slug r)); by split|].
  intros σ1 [c|e] _ Hk1 Hres; [|done]. apply safe_ret. intros r' [= <-]. by apply handed_near.
Qed.
Lemma handoff_take_spec slug epoch r σ : waiting σ r → slug ≠ "" →
  (sp_Slug r = "" → held_by_another slug (sp_ReceiptID r) (pp_records σ) = false) →
  safe rt σ (handoff_take rt slug epoch r) (λ σ' res, ∀ r', res = Ok r' → near σ' r').
Proof.
  intros (Hh & Hu & Ht) Hslug Hfree. apply safe_keyed. intros Hk. unfold handoff_take. apply safe_bind.
  destruct (sp_Slug r == "") eqn:Hs; [apply bool_decide_eq_true in Hs|apply bool_decide_eq_false in Hs; by apply safe_ret, bound_spec].
  set (r1 := reserve_slug slug epoch r). apply safe_bind. eapply safe_mono; [apply (preparation_save_spec rt r1)|].
  { intros _. destruct (k_records _ Hk _ _ Hh) as (_ & Ha & _). split; [done|]. change (sp_RequestID r1) with (sp_RequestID r). rewrite Hh.
    split; [by apply reserve_follows|]. right. by apply Hfree. }
  intros σ1 [[]|e] _ _ [_ Hok]; [|done]. destruct (Hok eq_refl) as [Hh1 Hu1]. by apply safe_ret, bound_spec.
Qed.
Lemma candidate_nonempty r number : candidate_slug r number ≠ "".
Proof.
  unfold candidate_slug. destruct (sp_Slug r == "") eqn:E; [|by apply bool_decide_eq_false in E].
  by destruct (pi_Date (input_of r)).
Qed.
Lemma reserve_from_spec n number r σ : waiting σ r → safe rt σ (reserve_from rt n number r) (λ σ' res, ∀ r', res = Ok r' → near σ' r').
Proof.
  revert number σ. induction n as [|n IH]; intros number σ Hw; [by apply safe_fail|]. cbn [reserve_from].
  apply safe_bind, safe_attempt. eapply safe_mono; [apply candidate_check_spec|]. intros σ1 res _ _ [[w ->] Hok]. cbv beta iota.
  destruct res as [epoch|e].
  - apply handoff_take_spec; [done|apply candidate_nonempty|]. apply Hok. by exists epoch.
  - destruct (_ && _); [by apply IH|by apply safe_fail].
Qed.
End Reserve.

(** ** The operations *)

Section Operations.
Context {W : Type} (rt : PrepRuntime W) (Hothers : ∀ σ, psteps rt σ (pr_others rt σ)).

Lemma runs_others : runs rt (modify (pr_others rt)).
Proof. intros σ. by apply safe_modify. Qed.
#[local] Hint Resolve runs_others : runs.
Lemma runs_worldly {A} (m : Pr W A) : rel_steps worldly m → runs rt m.
Proof. intros Hm σ. by apply safe_worldly. Qed.
Lemma runs_acquire : runs rt (acquire_locks rt).
Proof. unfold acquire_locks. run. Qed.
Lemma runs_confirm id : runs rt (confirmPreparationLocked rt id).
Proof. intros σ. eapply safe_mono; [apply preparation_confirm_spec|]. done. Qed.
#[local] Hint Resolve runs_acquire runs_confirm : runs.

(** The record in memory after a confirmation is the one before it. *)
Lemma confirmed_bind {B} id σ (f : Pr W B) (Q : PrepSys W → result B → Prop) :
  (∀ σ', keyed σ' → pp_records σ' = pp_records σ → pp_closing σ' = pp_closing σ → pp_unconfirmed σ' !! id = None → safe rt σ' f Q) →
  (∀ σ' e, Q σ' (Err e)) → safe rt σ (confirmPreparationLocked rt id;; f) Q.
Proof.
  intros Hf He. apply safe_bind. eapply safe_mono; [apply preparation_confirm_spec|]. intros σ' [[]|e] _ Hk [[H1 H2] Hok]; [|done].
  apply Hf; [done|done|by apply H1|by apply Hok].
Qed.

Lemma mutate_runs id at_ (f : sessionPreparation → Pr W sessionPreparation) :
  (∀ σ r, waiting σ r → safe rt σ (f r) (λ σ' res, ∀ r', res = Ok r' → near σ' r')) → runs rt (mutatePreparation rt id at_ f).
Proof.
  intros Hf σ. unfold mutatePreparation. apply safe_bind_runs; [apply runs_acquire| |done]. intros σ1 _ _.
  apply safe_keyed. intros Hk. apply safe_bind, safe_gets. destruct (pp_records σ1 !! id) as [r|] eqn:Hr; [|by apply safe_fail].
  destruct (has_known σ1 id r Hk Hr) as [Hid Hh]. destruct (_ || _) eqn:E; [by apply safe_fail|].
  rewrite !orb_false_iff in E. destruct E as [[_ Ht] _]. apply bool_decide_eq_false in Ht.
  apply confirmed_bind; [|done]. intros σ2 Hk2 Hr2 _ Hu2. apply safe_bind.
  eapply safe_mono; [apply Hf; split_and!; [by apply (has_records σ1)|by rewrite Hid|done]|].
  intros σ3 [r'|e] _ _ Hn; [|done]. specialize (Hn r' eq_refl). apply safe_bind, safe_timestamp. intros w now.
  eapply safe_mono; [apply save_near|done]. apply (near_edit σ3 r'); [done|apply follows_time|done|by destruct Hn].
Qed.
Lemma near_plain (σ : PrepSys W) r r' : keyed σ → has σ r → sp_State r ≠ "terminal" → identity_of r' = identity_of r → sp_Attempt r' = sp_Attempt r →
  sp_Slug r' = sp_Slug r → sp_Epoch r' = sp_Epoch r → sp_Snapshot r' = sp_Snapshot r → near σ r'.
Proof.
  intros Hk Hh Ht Hi Ha Hs He Hn. destruct (k_records _ Hk _ _ Hh) as (_ & Hm & _).
  apply (near_edit σ r); [by apply has_near|apply follows_plain; [done|done|lia|done|done|done]|done|lia].
Qed.
Lemma choose_runs id at_ base outcome : runs rt (mutatePreparation rt id at_ (choose_base base outcome)).
Proof.
  apply mutate_runs. intros σ r (Hh & _ & Ht). apply safe_keyed. intros Hk. apply safe_ret. intros r' [= <-]. by apply (near_plain σ r).
Qed.
Lemma failed_runs id at_ e outcome : runs rt (mutatePreparation rt id at_ (mark_failed rt e outcome)).
Proof.
  apply mutate_runs. intros σ r (Hh & _ & Ht). apply safe_keyed. intros Hk. unfold mark_failed. apply safe_ret. intros r' [= <-].
  by destruct (_ && _); apply (near_plain σ r).
Qed.
Lemma accepting_runs id at_ : runs rt (mutatePreparation rt id at_ (finish_accepting rt)).
Proof.
  apply mutate_runs. intros σ r (Hh & _ & Ht). eapply safe_mono; [by apply finish_accepting_spec|].
  intros σ' res _ Hk [_ H] r' ->. apply has_near; [done|]. by apply H.
Qed.
Lemma reserving_runs id at_ : runs rt (mutatePreparation rt id at_ (reservePreparationLocked rt)).
Proof. apply mutate_runs. intros σ r Hw. by apply reserve_from_spec. Qed.
#[local] Hint Resolve choose_runs failed_runs accepting_runs reserving_runs : runs.
Lemma stop_runs id at_ : runs rt (stop_work id at_).
Proof. intros σ. apply safe_modify; [|done]. destruct (_ =? _); [apply rtc_once, ps_stop|done]. Qed.
Lemma name_runs id at_ r : runs rt (name_session rt id at_ r).
Proof. unfold name_session. run. Qed.
#[local] Hint Resolve stop_runs name_runs : runs.
Lemma worker_runs id at_ : runs rt (runPreparation rt id at_).
Proof. unfold runPreparation, run_steps. run. Qed.

(** *** Requests *)

Lemma status_runs id found w : runs rt (preparationStatusFromSnapshot rt id found w).
Proof. unfold preparationStatusFromSnapshot, terminal_status, handed_status. run. Qed.
#[local] Hint Resolve status_runs : runs.
Lemma answered_runs id code : runs rt (answered rt id code).
Proof. unfold answered, preparation_status. run. Qed.
#[local] Hint Resolve answered_runs : runs.
Lemma confirm_status_runs id : runs rt (confirmPreparationStatus rt id).
Proof. unfold confirmPreparationStatus. run. Qed.
Lemma preset_runs i : runs rt (freezePreparationPreset rt i).
Proof. unfold freezePreparationPreset. run. Qed.
Lemma worldly_preset i : rel_steps worldly (freezePreparationPreset rt i).
Proof. unfold freezePreparationPreset. procs. Qed.

Lemma launch_known σ id : keyed σ → safe rt σ (launchPreparationLocked (record_of id σ)) (λ _ _, True).
Proof.
  intros Hk. eapply safe_mono; [apply launch_spec|done]. unfold record_of. destruct (pp_records σ !! id) as [r|] eqn:Hr; [|done].
  intros _. by apply (has_known σ id).
Qed.
Lemma repeat_safe id r σ : pp_records σ !! id = Some r → safe rt σ (repeat_request rt id r) (λ _ _, True).
Proof.
  intros Hr. apply safe_keyed. intros Hk. destruct (has_known σ id r Hk Hr) as [_ Hh]. unfold repeat_request.
  apply confirmed_bind; [|done]. intros σ1 Hk1 Hr1 _ _. apply safe_bind, safe_gets. destruct (_ && _); [by apply safe_fail|].
  apply safe_bind, safe_gets, safe_bind. apply (safe_mono _ _ _ (λ _ _, True)).
  - destruct (sp_State r == "accepting") eqn:Hs; [|by apply safe_ret]. destruct (pp_closing σ1); [by apply safe_fail|].
    apply finish_accepting_runs; [by apply (has_records σ)| |done]. apply bool_decide_eq_true in Hs. by rewrite Hs.
  - intros σ2 [[]|e] _ Hk2 _; [|done]. destruct (pp_closing σ1); [by apply safe_ret|]. apply safe_bind, safe_gets. by apply launch_known.
Qed.
Lemma accept_safe id digest i preset σ : pp_records σ !! id = None → safe rt σ (accept_request rt id digest i preset) (λ _ _, True).
Proof.
  intros Hn. unfold accept_request. apply safe_bind, safe_pask. intros w raw. apply safe_bind, safe_timestamp. intros w' now.
  apply safe_bind, safe_lift_result. destruct raw as [raw|e]; [|done]. cbv zeta. set (r := new_preparation _ _ _ _ _ _ _).
  apply safe_bind, safe_lift_error. destruct (validatePreparation r _); [done|]. apply safe_bind, safe_pask. intros w2 refused.
  apply safe_bind, safe_lift_error. destruct refused; [done|]. apply safe_bind.
  eapply safe_mono; [apply dispatch_save_spec|].
  { intros _. split; [done|]. change (sp_RequestID r) with id. cbn. by rewrite Hn. }
  intros σ1 [[]|e] _ _ (_ & _ & _ & Hok); [|done]. destruct (Hok eq_refl) as [Hh _]. apply safe_bind.
  eapply safe_mono; [by apply finish_accepting_spec|]. intros σ2 [r'|e] _ _ [_ H]; [|done].
  eapply safe_mono; [apply launch_spec; intros _; by apply H|done].
Qed.
Lemma create_runs id i : runs rt (createPreparation rt id i).
Proof.
  intros σ. unfold createPreparation. apply safe_bind, safe_pask. intros w [e|]; [by apply safe_ret|].
  apply safe_bind_runs; [by run| |done]. intros σ1 [[]|e] _; [|by apply safe_ret].
  apply safe_bind_runs; [by run| |done]. intros σ2 _ _. cbv zeta. apply safe_bind, safe_gets.
  destruct (pp_records σ2 !! id) as [r|] eqn:Hr.
  - destruct (_ != _); [by apply safe_ret|]. apply safe_bind, safe_attempt. eapply safe_mono; [by apply repeat_safe|].
    intros σ3 [[]|e] _ _ _; [by apply safe_runs; [run|]|by apply safe_ret].
  - apply safe_bind, safe_attempt, safe_worldly.
    { apply rel_bind; [apply _|procs|]. intros closing. apply rel_bind; [apply _|destruct closing; procs|]. intros _. apply worldly_preset. }
    intros w1 _. cbv beta iota. destruct (_ σ2).2 as [preset|e]; [|by apply safe_ret].
    apply safe_bind, safe_attempt. eapply safe_mono; [by apply accept_safe|].
    intros σ3 [[]|e] _ _ _; [by apply safe_runs; [run|]|by apply safe_ret].
Qed.
(** The next attempt is past the last one, or it is no valid number. *)
Lemma next_number a : a <= max_int64 → 1 <= i64 (a + 1) → a <= i64 (a + 1) <= max_int64.
Proof.
  unfold i64, max_int64. intros Ha H. pose proof (Z.mod_pos_bound (a + 1 + 2 ^ 63) (2 ^ 64)) as Hb.
  assert (0 <= a \/ a < 0) as [H0|H0] by lia; [|lia]. destruct (decide (a = 2 ^ 63 - 1)) as [->|Hne].
  - replace ((2 ^ 63 - 1 + 1 + 2 ^ 63) `mod` 2 ^ 64) with 0 in H by reflexivity. lia.
  - rewrite Z.mod_small in * by lia. lia.
Qed.
Lemma valid_attempt r workspace : validatePreparation r workspace = None → 1 <= sp_Attempt r.
Proof.
  intros Hv. apply first_refusal_None, Forall_inv in Hv. unfold refuse in Hv. destruct (_ || _) eqn:E; [done|].
  rewrite !orb_false_iff in E. lia.
Qed.
Lemma relaunch_safe id r σ : (validatePreparation r (pr_workspace rt) = None → near σ r) → safe rt σ (relaunch rt id r) (λ _ _, True).
Proof.
  intros Hn. unfold relaunch. apply safe_bind, safe_attempt. eapply safe_mono; [apply dispatch_save_spec; intros Hv; by apply near_publishable, Hn|].
  intros σ1 [[]|e] _ _ (_ & _ & _ & Hok); [|by apply safe_ret]. destruct (Hok eq_refl) as [Hh _]. apply safe_bind.
  eapply safe_mono; [by apply launch_spec|]. intros σ2 [[]|e] _ _ _; [|done]. apply safe_runs; [run|done].
Qed.
Lemma near_attempt (σ : PrepSys W) r r' : keyed σ → has σ r → sp_State r ≠ "terminal" → identity_of r' = identity_of r →
  sp_Attempt r' = i64 (sp_Attempt r + 1) → sp_Slug r' = sp_Slug r → sp_Epoch r' = sp_Epoch r → sp_Snapshot r' = sp_Snapshot r →
  validatePreparation r' (pr_workspace rt) = None → near σ r'.
Proof.
  intros Hk Hh Ht Hi Ha Hs He Hn Hv%valid_attempt. destruct (k_records _ Hk _ _ Hh) as (_ & Hm & _).
  rewrite Ha in Hv. pose proof (next_number _ Hm Hv).
  apply (near_edit σ r); [by apply has_near|apply follows_plain; [done|done|lia|done|done|done]|done|lia].
Qed.

Lemma retry_owned_safe id receiptID at_ r σ : has σ r → safe rt σ (retry_owned rt id receiptID at_ r) (λ _ _, True).
Proof.
  intros Hh. apply safe_keyed. intros Hk. unfold retry_owned. destruct (_ || _); [by apply safe_ret|].
  apply safe_bind, safe_gets, safe_bind, safe_gets. destruct (_ && _); [by apply safe_ret|].
  destruct (sp_State r == "terminal") eqn:Ht; [apply safe_runs; [unfold preparation_status; run|done]|].
  apply bool_decide_eq_false in Ht. destruct (_ && _).
  - apply safe_bind. apply (safe_mono _ _ _ (λ _ _, True)).
    + destruct (pp_closing σ); [by apply safe_ret|]. eapply safe_mono; [by apply launch_spec|done].
    + intros σ1 [[]|e] _ _ _; [|done]. apply safe_runs; [run|done].
  - destruct (pp_closing σ); [by apply safe_ret|]. apply relaunch_safe. by apply (near_attempt σ r).
Qed.
Lemma retry_runs id receiptID at_ : runs rt (retryPreparation rt id receiptID at_).
Proof.
  intros σ. unfold retryPreparation. apply safe_bind_runs; [by run| |done]. intros σ1 [[]|e] _; [|by apply safe_ret].
  apply safe_bind_runs; [by run| |done]. intros σ2 _ _. apply safe_keyed. intros Hk. apply safe_bind, safe_gets.
  destruct (pp_records σ2 !! id) as [r|] eqn:Hr; [|by apply safe_ret]. destruct (has_known σ2 id r Hk Hr) as [_ Hh].
  apply safe_bind, safe_attempt. eapply safe_mono; [apply preparation_confirm_spec|]. intros σ3 res _ Hk3 [[_ Hr3] _]. cbv beta iota.
  destruct res as [[]|e]; [|by apply safe_ret]. destruct (sp_State r == "handed_off"); [apply safe_runs; [run|done]|].
  by apply retry_owned_safe, (has_records σ2).
Qed.
Lemma nameable r (w : preparationWork) : canSetPreparationName r (if idle_work r w then "paused" else sp_State r) = true → sp_State r ≠ "terminal".
Proof.
  unfold canSetPreparationName, idle_work. intros H E. rewrite E in H.
  replace ("terminal" == "running") with false in H by reflexivity. cbn [andb] in H.
  by replace (one_of "terminal" ["failed"; "paused"]) with false in H by reflexivity.
Qed.
Lemma name_request_runs id receiptID at_ given : runs rt (setPreparationName rt id receiptID at_ given).
Proof.
  intros σ. unfold setPreparationName. cbv zeta. destruct (_ || _); [by apply safe_ret|].
  apply safe_bind_runs; [by run| |done]. intros σ1 [[]|e] _; [|by apply safe_ret].
  apply safe_bind_runs; [by run| |done]. intros σ2 _ _. apply safe_keyed. intros Hk. apply safe_bind, safe_gets.
  destruct (pp_records σ2 !! id) as [r|] eqn:Hr; [|by apply safe_ret]. destruct (has_known σ2 id r Hk Hr) as [_ Hh].
  apply safe_bind, safe_attempt. eapply safe_mono; [apply preparation_confirm_spec|]. intros σ3 res _ Hk3 [[_ Hr3] _]. cbv beta iota.
  destruct res as [[]|e]; [|by apply safe_ret]. apply (has_records _ σ3) in Hh; [|done]. apply safe_bind, safe_gets.
  destruct (_ && _) eqn:E; [by apply safe_ret|]. apply safe_bind, safe_gets. destruct (pp_closing σ3); [by apply safe_ret|].
  destruct (replays _ _ _ _).
  - apply safe_bind. eapply safe_mono; [by apply launch_spec|]. intros σ4 [[]|e] _ _ _; [|done]. apply safe_runs; [run|done].
  - cbn [negb andb] in E. rewrite !orb_false_iff, !negb_false_iff in E. destruct E as [_ Ht%nameable].
    apply safe_bind, safe_timestamp. intros w now. apply safe_keyed. intros Hk4. apply relaunch_safe.
    by apply (near_attempt (σ3 <| pp_world := w |>) r).
Qed.

(** *** Reconciliation, compaction and shutdown *)

Lemma any_preorder : PreOrder (λ _ _ : PrepSys W, True).
Proof. by split. Qed.
#[local] Hint Extern 1 (PreOrder (λ _ _, True)) => exact any_preorder : typeclass_instances.
Lemma each_runs body : (∀ σ r, has σ r → safe rt σ (body r) (λ _ _, True)) → runs rt (for_each_record rt body).
Proof. intros Hb σ. by apply (for_each_safe rt (λ _ _, True)). Qed.
Lemma compact_runs c : runs rt (compactPreparationsLocked rt c).
Proof. intros σ. eapply safe_mono; [by apply (compact_keeps rt "" no_preparation False)|done]. Qed.
Lemma pause_runs : runs rt (pausePreparationsOnClose rt).
Proof.
  unfold pausePreparationsOnClose. do 3 (apply runs_bind; [run|intros _]). apply each_runs. intros σ r Hh. unfold pause_record.
  destruct (_ != _) eqn:Hs; [by apply safe_ret|]. apply negb_false_iff, bool_decide_eq_true in Hs. apply safe_keyed. intros Hk.
  apply safe_bind, safe_timestamp. intros w now. apply safe_bind, safe_attempt. eapply safe_mono; [apply save_near|by intros; apply safe_ret].
  destruct (k_records _ Hk _ _ Hh) as (_ & Hm & _).
  apply (near_edit σ r); [by apply has_near|apply follows_plain; [by rewrite Hs|done|done|done|done|done]|done|done].
Qed.
Lemma save_memory σ r : has σ r → safe rt σ (savePreparation rt r) (λ σ' _, has σ' r).
Proof.
  intros Hh. apply safe_keyed. intros Hk. eapply safe_mono; [apply save_near; by apply has_near|].
  intros σ' res _ _ [[_ [E|E]] _]; unfold has; rewrite E; [done|apply lookup_insert_eq].
Qed.
Lemma settle_spec r σ : has σ r → sp_State r ≠ "terminal" →
  safe rt σ (settle_intent rt r) (λ σ' res, ∀ r', res = Ok r' → has σ' r' ∧ sp_State r' ≠ "terminal").
Proof.
  intros Hh Ht. unfold settle_intent. destruct (sp_State r != "accepting"); [by apply safe_ret; intros r' [= <-]|].
  apply safe_bind. eapply safe_mono; [by apply accept_spec|]. intros σ1 res _ _ (r1 & e & -> & _ & Hn & _ & _ & Ht1 & _). cbv beta iota.
  apply safe_bind. apply (safe_mono _ _ _ (λ σ' res, σ' = σ1 ∧ ∀ r2, res = Ok r2 → near σ1 r2 ∧ sp_State r2 ≠ "terminal")).
  { destruct e as [e|]; [|by apply safe_ret; split; [|intros r2 [= <-]]]. destruct (_ || _); [by apply safe_fail|].
    apply safe_ret. split; [done|]. intros r2 [= <-]. split; [|done].
    apply (near_edit σ1 r1); [done|by apply follows_plain|done|by destruct Hn]. }
  intros _ [r2|e'] _ _ [-> H2]; [|done]. destruct (H2 r2 eq_refl) as [Hn2 Ht2]. cbv zeta. set (r3 := r2 <| sp_State := _ |> <| sp_Phase := _ |>).
  apply safe_bind. eapply safe_mono; [apply (save_near rt r3); apply (near_edit σ1 r2); [done|by apply follows_plain|done|by destruct Hn2]|].
  intros σ2 [[]|e'] _ _ (_ & _ & Hok); [|done]. apply safe_ret. intros r' [= <-]. split; [|done]. by apply Hok.
Qed.
Lemma worldly_claim r : rel_steps worldly (confirm_claim rt r).
Proof. unfold confirm_claim. procs. Qed.
Lemma stopped_near message (σ : PrepSys W) r : keyed σ → has σ r → sp_State r ≠ "terminal" → near σ (stopped_with message r).
Proof. intros. by apply (near_plain σ r). Qed.
Lemma adopt_safe r σ : has σ r → sp_State r ≠ "terminal" → safe rt σ (adopt_receipt rt r) (λ _ _, True).
Proof.
  intros Hh Ht. apply safe_keyed. intros Hk. unfold adopt_receipt. destruct (bool_decide _); [by apply safe_ret|].
  apply safe_bind, safe_gets. destruct (pp_creations σ !! sp_Slug r) as [c|]; [|by apply safe_ret].
  apply safe_bind. eapply safe_mono; [apply save_near|intros σ1 [[]|e] _ _ _; [apply compact_runs|done]].
  destruct (preparationReceiptMatches r c); [by apply (near_plain σ r)|by apply stopped_near].
Qed.
Lemma reconcile_record_safe r σ : has σ r → safe rt σ (reconcile_record rt r) (λ _ _, True).
Proof.
  intros Hh. unfold reconcile_record. apply safe_bind, safe_pcall. intros w [[]|e]; [|done].
  apply confirmed_bind; [|done]. intros σ1 Hk1 Hr1 _ _. apply (has_records _ σ1) in Hh; [|done]. apply safe_bind, safe_gets.
  destruct (_ && _).
  { destruct (_ || _) eqn:E; [|by apply safe_ret]. apply finish_accepting_runs; [done| |done]. intros Ht. rewrite Ht in E. done. }
  destruct (sp_State r == "terminal") eqn:Ht.
  { apply safe_bind, safe_gets, safe_bind, safe_pcall. intros w2 [[]|e]; [|done]. destruct (bool_decide (is_Some _)); [|by apply safe_ret].
    eapply safe_mono; [by apply save_memory|done]. }
  apply bool_decide_eq_false in Ht. apply safe_bind. apply (safe_mono _ _ _ (λ σ' _, has σ' r)).
  { destruct (sp_State r == "paused"); [by apply save_memory|by apply safe_ret]. }
  intros σ2 [[]|e] _ _ Hh2; [|done]. apply safe_bind. eapply safe_mono; [by apply settle_spec|].
  intros σ3 [r3|e] _ Hk3 H3; [|done]. destruct (H3 r3 eq_refl) as [Hh3 Ht3]. apply safe_bind, safe_worldly; [apply worldly_claim|].
  intros w3 _. destruct (confirm_claim rt r3 σ3).2 as [[|]|e]; [|cbn [negb]|done]; [by apply adopt_safe|].
  eapply safe_mono; [apply save_near|done]. by apply (stopped_near _ σ3).
Qed.
Lemma reconcile_runs : runs rt (reconcilePreparations rt).
Proof.
  unfold reconcilePreparations. apply runs_bind; [run|intros _]. apply each_runs. intros σ r. apply reconcile_record_safe.
Qed.
#[local] Hint Resolve create_runs retry_runs name_request_runs confirm_status_runs worker_runs compact_runs pause_runs reconcile_runs : runs.
Lemma serve_runs op : runs rt (serve rt op).
Proof.
  destruct op; cbn [serve]; try by run. apply runs_bind; [|intros _; by run].
  intros σ. apply safe_modify; [apply rtc_once, ps_close|done].
Qed.
Lemma history_steps ops σ : keyed σ → psteps rt σ (history rt ops σ) ∧ keyed (history rt ops σ).
Proof.
  unfold history. revert σ. induction ops as [|op ops IH]; intros σ Hk; [by split|]. cbn [foldl].
  destruct (serve_runs op σ Hk) as [Hs _]. assert (Hk' := steps_keyed rt _ _ Hs Hk). destruct (IH _ Hk') as [H1 H2].
  split; [by etrans|done].
Qed.
End Operations.
