(* ===== verification/PreparationSafety.v ===== *)
(** * Session preparations: what an accepted request may rely on

    The promises of every history of one process, from the start-up on: who asked for what is
    kept, a worker is started once per attempt and only for a record on disk, names are held by
    one request, creations are installed under a reservation on disk; the names tried are valid;
    a late worker changes nothing.  One flaw: a long error cut inside a character leaves a record
    that cannot be read back.  The theorems are applied to a small portal at the end. *)

From S2P Require Import Prelude Effects GoStrings GoUtf8 GoJson GoDecimal GoTime GoDecode RetryValidate Communication LifecycleTypes SessionPreparation PreparationStore PreparationOps PreparationRequests PreparationMachine PreparationFacts.
From Stdlib Require Import Relations Ascii.
From stdpp Require Import pretty.

Open Scope Z_scope.

Section Promises.
Context {W : Type} (rt : PrepRuntime W) (Hothers : ∀ σ, psteps rt σ (pr_others rt σ)).

(** A process that has loaded its records and started nothing. *)
Record started (σ : PrepSys W) : Prop := {
  st_keyed : keyed σ;
  st_durable : durable σ;
  st_names : names_unique σ;
  st_trace : pp_trace σ = [] }.
Lemma started_once σ : started σ → dispatched_once σ.
Proof. intros H. unfold dispatched_once, dispatches. rewrite (st_trace _ H). split; [apply NoDup_nil_2|]. intros id a []%elem_of_nil. Qed.
Lemma started_installs σ : started σ → installs_reserved σ.
Proof. intros H. unfold installs_reserved. rewrite (st_trace _ H). intros slug receipt []%elem_of_nil. Qed.
Lemma elem_dispatches (σ : PrepSys W) id a : (id, a) ∈ dispatches σ ↔ ev_dispatch id a ∈ pp_trace σ.
Proof.
  unfold dispatches. rewrite list_elem_of_omap. split.
  - intros ([id' a'|slug receipt] & He & H); [|done]. cbn in H. by injection H as -> ->.
  - intros H. by exists (ev_dispatch id a).
Qed.

(** C6: whatever requests, workers, reconciliations and shutdowns happen in whatever order, with any
    failures and any interference between them, every change is a step of the machine: a record is
    published only when it continues the one in memory and takes no held name, a worker starts
    only for the durable record of an attempt that has none, a creation is installed
    only under its reservation. *)
Theorem preparations_refine ops σ : keyed σ → psteps rt σ (history rt ops σ).
Proof. intros Hk. by apply history_steps. Qed.

(** C10: an accepted request keeps its owner, input, receipt and frozen team; its attempts never go
    back; once it has a name or has ended, that stays. *)
Theorem accepted_request_kept ops σ id r : started σ → pp_records σ !! id = Some r →
  ∃ r', pp_records (history rt ops σ) !! id = Some r' ∧ identity_of r' = identity_of r ∧ sp_Attempt r <= sp_Attempt r'
    ∧ (sp_State r = "terminal" → sp_State r' = "terminal" ∧ sp_Terminal r' = sp_Terminal r)
    ∧ (sp_Slug r ≠ "" → sp_Slug r' = sp_Slug r ∧ sp_Epoch r' = sp_Epoch r)
    ∧ (∀ s s', sp_Snapshot r = Some s → sp_Snapshot r' = Some s' →
         sn_Input s' = sn_Input s ∧ sn_Preset s' = sn_Preset s ∧ (sn_Goal s ≠ "" → sn_Goal s' = sn_Goal s)).
Proof.
  intros Hst Hr. destruct (history_steps rt Hothers ops σ) as [Hs _]; [by apply st_keyed|].
  destruct (steps_evolve rt _ _ Hs _ _ Hr) as (r' & Hr' & [H1 H2 H3 H4 H5]). exists r'. split_and!; try done.
  intros s s' E E'. by rewrite E, E' in H5.
Qed.

(** C9: in the life of a process the worker of an attempt is started at most once. *)
Theorem worker_started_once ops σ : started σ → NoDup (dispatches (history rt ops σ)).
Proof.
  intros Hst. destruct (history_steps rt Hothers ops σ) as [Hs _]; [by apply st_keyed|].
  by apply (steps_once rt _ _ Hs), started_once.
Qed.

(** C7: when a worker is started, the running record of that very attempt is on disk, and the portal
    is not shutting down. *)
Theorem worker_started_durably ops σ id a : started σ → ev_dispatch id a ∈ pp_trace (history rt ops σ) →
  ∃ σ1 r, psteps rt σ σ1 ∧ psteps rt σ1 (history rt ops σ) ∧ pp_records σ1 !! id = Some r ∧ sp_Attempt r = a
    ∧ sp_State r = "running" ∧ on_disk σ1 id r ∧ pp_closing σ1 = false.
Proof.
  intros Hst He. destruct (history_steps rt Hothers ops σ) as [Hs _]; [by apply st_keyed|].
  destruct (event_moment rt _ _ _ Hs He) as (σ1 & σ2 & H1 & H2 & H3 & H4 & H5); [rewrite (st_trace _ Hst); apply not_elem_of_nil|].
  destruct (dispatch_step rt _ _ _ _ H2 H4 H5) as (r & Hr & Ha & Hrun & Hu & Hc). exists σ1, r.
  assert (durable σ1) as Hd by (by apply (steps_durable rt _ _ H1), st_durable).
  split_and!; try done; [by eapply rtc_l|by apply Hd].
Qed.

(** C11: no two unfinished requests hold the same session name, provided that no two records were
    given the same random identity of 32 bytes. *)
Theorem names_held_once ops σ id r id' r' : started σ →
  (∀ i p j q, pp_records (history rt ops σ) !! i = Some p → pp_records (history rt ops σ) !! j = Some q → sp_ReceiptID p = sp_ReceiptID q → i = j) →
  pp_records (history rt ops σ) !! id = Some r → pp_records (history rt ops σ) !! id' = Some r' → id ≠ id' → takes r → takes r' →
  sp_Slug r ≠ sp_Slug r'.
Proof.
  intros Hst Hrandom Hr Hr' Hne Ht Ht' E. destruct (history_steps rt Hothers ops σ) as [Hs _]; [by apply st_keyed|].
  apply Hne, (Hrandom id r id' r' Hr Hr'). by apply (steps_names rt _ _ Hs (st_names _ Hst) id r id' r').
Qed.

(** C8: a creation is installed for a request only while its reservation of that name is on disk
    and nothing else has the name's receipt; the request keeps the name and the receipt for good. *)
Theorem creation_installed_reserved ops σ slug receipt : started σ → ev_install slug receipt ∈ pp_trace (history rt ops σ) →
  ∃ σ1 σ2 id r c r', psteps rt σ σ1 ∧ pstep rt σ1 σ2 ∧ psteps rt σ2 (history rt ops σ)
    ∧ pp_records σ1 !! id = Some r ∧ sp_Slug r = slug ∧ sp_ReceiptID r = receipt ∧ on_disk σ1 id r
    ∧ pp_creations σ1 !! slug = None ∧ pp_creations σ2 !! slug = Some c ∧ ct_ReceiptID c = receipt ∧ ct_DeletionHistory c = sp_Epoch r
    ∧ pp_records (history rt ops σ) !! id = Some r' ∧ sp_Slug r' = slug ∧ sp_ReceiptID r' = receipt.
Proof.
  intros Hst He. destruct (history_steps rt Hothers ops σ) as [Hs _]; [by apply st_keyed|].
  destruct (event_moment rt _ _ _ Hs He) as (σ1 & σ2 & H1 & H2 & H3 & H4 & H5); [rewrite (st_trace _ Hst); apply not_elem_of_nil|].
  destruct (install_step rt _ _ _ _ H2 H4 H5) as (id & r & c & Hr & <- & <- & Hn & Hu & Hc & Hc' & Hid & Hh).
  assert (durable σ1) as Hd by (by apply (steps_durable rt _ _ H1), st_durable).
  destruct (steps_evolve rt σ1 (history rt ops σ)) with (id := id) (r := r) as (r' & Hr' & Hf); [by eapply rtc_l|done|].
  exists σ1, σ2, id, r, c, r'. split_and!; try done; [by apply Hd|by apply (fo_slug _ _ Hf)|by apply follows_receipt].
Qed.

(** An attempt is over when the portal shuts down, its request has ended or a later attempt replaced it. *)
Definition over (id : string) (at_ : Z) (σ : PrepSys W) : Prop :=
  pp_closing σ = true ∨ ∃ r, pp_records σ !! id = Some r ∧ (at_ < sp_Attempt r ∨ sp_State r = "terminal").
(** What the state goes through beside it: the world, other goroutines, and the mark that this worker ended. *)
Inductive bystander (id : string) (at_ : Z) (σ : PrepSys W) : PrepSys W → Prop :=
  | by_world w : bystander id at_ σ (σ <| pp_world := w |>)
  | by_others : bystander id at_ σ (pr_others rt σ)
  | by_ended : wk_Attempt (work_of id σ) = at_ → bystander id at_ σ (σ <| pp_work ::= <[id := work_of id σ <| wk_Stopped := true |>]> |>).
Definition harmless (id : string) (at_ : Z) (σ σ' : PrepSys W) : Prop := over id at_ σ → rtc (bystander id at_) σ σ' ∧ over id at_ σ'.
#[local] Instance harmless_preorder id at_ : PreOrder (harmless id at_).
Proof.
  split; [intros σ Ho; by split|]. intros σ1 σ2 σ3 H1 H2 [H3 H4]%H1. apply H2 in H4 as [H4 H5]. split; [by etrans|done].
Qed.
Lemma closing_steps σ σ' : psteps rt σ σ' → pp_closing σ = true → pp_closing σ' = true.
Proof. induction 1 as [|σ1 σ2 σ3 Hs _ IH]; [done|]. intros H. apply IH. destruct Hs as [|σ [] r|σ id r| | | | | | |]; done. Qed.
Lemma over_steps id at_ σ σ' : psteps rt σ σ' → over id at_ σ → over id at_ σ'.
Proof.
  intros Hs [H|(r & Hr & H)]; [left; by eapply closing_steps|right]. destruct (steps_evolve rt _ _ Hs _ _ Hr) as (r' & Hr' & Hf).
  exists r'. split; [done|]. destruct H as [H|H]; [left; pose proof (fo_attempt _ _ Hf); lia|right; by apply (fo_terminal _ _ Hf)].
Qed.
Lemma harmless_step id at_ σ σ' : psteps rt σ σ' → bystander id at_ σ σ' → harmless id at_ σ σ'.
Proof. intros Hs Hb Ho. split; [by apply rtc_once|by eapply over_steps]. Qed.
Lemma harmless_others id at_ : rel_steps (harmless id at_) (modify (pr_others rt)).
Proof. apply rel_modify. intros σ. apply harmless_step; [done|constructor]. Qed.
Lemma harmless_pask {A} id at_ (f : W → W * A) : rel_steps (harmless id at_) (pask f).
Proof.
  intros σ. destruct (worldly_pask f σ) as [w ->]. apply harmless_step; [apply rtc_once|]; constructor.
Qed.
#[local] Hint Resolve harmless_others harmless_pask : proc.
Lemma harmless_locks id at_ : rel_steps (harmless id at_) (acquire_locks rt).
Proof. unfold acquire_locks, pcall. procs. Qed.
Lemma harmless_mutate id at_ f : rel_steps (harmless id at_) (mutatePreparation rt id at_ f).
Proof.
  intros σ Ho. destruct (harmless_locks id at_ σ Ho) as [H1 H2]. unfold mutatePreparation. cbv [mbind SE_bind].
  destruct (acquire_locks rt σ) as [σ1 [[]|e]]; [|done]. unfold gets. cbn in H1, H2 |- *.
  destruct (pp_records σ1 !! id) as [r|] eqn:Hr; [|done]. destruct (_ || _) eqn:E; [done|].
  rewrite !orb_false_iff, negb_false_iff, Z.eqb_eq, bool_decide_eq_false in E. destruct E as [[E1 E2] E3].
  destruct H2 as [H2|(r' & Hr' & H2)]; [congruence|]. simplify_eq. destruct H2 as [H2|H2]; [lia|done].
Qed.
#[local] Hint Resolve harmless_mutate : proc.
Lemma harmless_stop id at_ : rel_steps (harmless id at_) (stop_work id at_).
Proof.
  apply rel_modify. intros σ. destruct (_ =? _) eqn:E; [|reflexivity]. apply Z.eqb_eq in E.
  apply harmless_step; [apply rtc_once, ps_stop|by constructor].
Qed.
#[local] Hint Resolve harmless_stop : proc.

End Promises.

(** ** Start-up *)

Section Load.
Context {W : Type} (rt : PrepRuntime W).

(** What a file becomes at start-up: a running record is paused. *)
Definition restarted (f r : sessionPreparation) : Prop :=
  r = copy_preparation f ∧ sp_State r ≠ "running" ∨ sp_State (copy_preparation f) = "running" ∧ ∃ now, r = paused_on_load (copy_preparation f) now.
Definition file_loaded (σ : PrepSys W) (id : string) (r : sessionPreparation) : Prop :=
  (∃ completed f, file_in completed σ id = Some f ∧ restarted f r) ∧ sp_RequestID r = id
  ∧ (sp_State r ≠ "terminal" → is_Some (sp_Snapshot r)) ∧ sp_ReceiptID r ≠ "".
Definition loads (σ : PrepSys W) (d : loading) : Prop := map_Forall (file_loaded σ) (ld_records d).

Lemma worldly_load_one completed id d : rel_steps worldly (load_one rt completed id d).
Proof. unfold load_one, timestamp. pose proof (worldly_read rt completed id). procs. Qed.
Lemma read_valid completed id σ : wp (readPreparation rt completed id)
  (λ σ' r, worldly σ σ' ∧ ∀ p, r = Ok p → (∃ f, file_in completed σ id = Some f ∧ p = copy_preparation f) ∧ validatePreparation p (pr_workspace rt) = None) σ.
Proof.
  split; [apply worldly_read|]. intros p Hp. split; [by apply (read_spec rt completed id σ)|]. revert p Hp.
  change (wp (readPreparation rt completed id) (λ _ r, ∀ p, r = Ok p → validatePreparation p (pr_workspace rt) = None) σ).
  unfold readPreparation. apply wp_bind. unfold wp at 1. destruct (pcall _ _ _).2 as [[]|e]; [|done]. apply wp_bind, wp_gets.
  destruct (file_in _ _ _) as [f|]; [|by apply wp_fail]. apply wp_bind. unfold wp at 1. destruct (pcall _ _ _).2 as [[]|e]; [|done].
  apply wp_bind. unfold wp at 1. destruct (pcall _ _ _).2 as [[]|e]; [|done].
  destruct (Preparation_json f); [|by apply wp_fail]. destruct (_ <? _); [by apply wp_fail|]. cbv zeta. destruct (_ && _); [by apply wp_fail|].
  apply wp_bind, wp_lift_error. destruct (validatePreparation _ _) eqn:E; [done|]. apply wp_ret. by intros p [= <-].
Qed.
(** The file was read and its record kept. *)
Definition kept (σ : PrepSys W) (completed : bool) (id : string) (d : loading) : Prop :=
  is_Some (ld_records d !! id) ∧ ∃ f, file_in completed σ id = Some f ∧ validatePreparation (copy_preparation f) (pr_workspace rt) = None.
Lemma load_one_spec completed id d σ : loads σ d →
  wp (load_one rt completed id d) (λ σ' res, worldly σ σ' ∧ ∀ d', res = Ok d' → loads σ d' ∧ ld_records d ⊆ ld_records d' ∧ kept σ completed id d') σ.
Proof.
  intros Hd. split; [apply worldly_load_one|].
  change (wp (load_one rt completed id d) (λ _ res, ∀ d', res = Ok d' → loads σ d' ∧ ld_records d ⊆ ld_records d' ∧ kept σ completed id d') σ).
  unfold load_one. destruct (negb _); [by apply wp_fail|]. destruct (bool_decide (is_Some (ld_records d !! id))) eqn:Hdup; [by apply wp_fail|].
  apply bool_decide_eq_false, eq_None_not_Some in Hdup. apply wp_bind, wp_attempt. eapply wp_mono; [apply read_valid|]. intros σ1 [r|e] [_ Hr];
    [apply wp_bind, wp_ret|by apply wp_bind, wp_fail].
  destruct (Hr r eq_refl) as [(f & Hf & ->) Hv]. destruct ((sp_RequestID _ != id) || _) eqn:Hid; [by apply wp_fail|].
  apply orb_false_iff in Hid as [Hid _]. apply negb_false_iff, bool_decide_eq_true in Hid. cbv zeta. destruct (_ || _); [by apply wp_fail|].
  assert (Hins : ∀ r n b d', restarted f r → sp_RequestID r = id → (sp_State r ≠ "terminal" → is_Some (sp_Snapshot r)) → sp_ReceiptID r ≠ "" →
    Ok (mkLoading (<[id := r]> (ld_records d)) n b) = Ok d' → loads σ d' ∧ ld_records d ⊆ ld_records d' ∧ kept σ completed id d').
  { intros r n b d' H1 H2 H3 H4 [= <-]. cbn. split_and!; [|by apply insert_subseteq|split; [by cbn; rewrite lookup_insert_eq|by exists f]].
    apply map_Forall_insert_2; [|done]. split_and!; try done. by exists completed, f. }
  assert (Hsnap := valid_snapshot _ _ Hv). assert (Hrec := valid_receipt _ _ Hv). apply wp_bind.
  destruct (sp_State (copy_preparation f) == "running") eqn:Hrun; [apply bool_decide_eq_true in Hrun|apply bool_decide_eq_false in Hrun].
  - apply wp_bind. unfold wp at 1. destruct (timestamp rt σ1).2 as [now|e]; [|done]. apply wp_ret, wp_ret. intros d'.
    apply Hins; [right; split; [done|by exists now]|done|intros _; apply Hsnap; by rewrite Hrun|done].
  - apply wp_ret, wp_ret. intros d'. apply Hins; [by left|done|done|done].
Qed.
Lemma loads_worldly σ σ' d : worldly σ σ' → loads σ d → loads σ' d.
Proof. by intros [w ->]. Qed.
Lemma load_each_spec completed ids d σ : loads σ d →
  wp (load_each rt completed ids d) (λ σ' res, worldly σ σ' ∧ ∀ d', res = Ok d' → loads σ d' ∧ ld_records d ⊆ ld_records d'
    ∧ Forall (λ id, kept σ completed id d') ids) σ.
Proof.
  revert d σ. induction ids as [|id ids IH]; intros d σ Hd; [by apply wp_ret; split; [reflexivity|intros d' [= <-]]|]. cbn [load_each].
  apply wp_bind. eapply wp_mono; [by apply load_one_spec|]. intros σ1 [d1|e] [Hw H1]; [|done]. destruct (H1 d1 eq_refl) as (Hd1 & Hs1 & Hi1).
  eapply wp_mono; [apply IH; by apply (loads_worldly σ)|]. intros σ2 res [Hw2 H2]. split; [by etrans|]. intros d' ->.
  destruct (H2 d' eq_refl) as (Hd2 & Hs2 & Hi2). split_and!; [destruct Hw as [w ->]; done|by etrans|].
  destruct Hi1 as [[r Hr] Hf]. constructor; [|destruct Hw as [w ->]; done]. split; [|done]. exists r. by eapply lookup_weaken.
Qed.
Lemma load_directory_spec completed d σ : loads σ d →
  wp (load_directory rt completed d) (λ σ' res, worldly σ σ' ∧ ∀ d', res = Ok d' → loads σ d' ∧ ld_records d ⊆ ld_records d'
    ∧ ∀ id f, file_in completed σ id = Some f → kept σ completed id d') σ.
Proof.
  intros Hd. unfold load_directory. apply wp_bind. eapply wp_mono; [apply (rel_wp worldly), worldly_pcall|]. intros σ1 [[]|e] Hw; [|done].
  apply wp_bind, wp_gets. eapply wp_mono; [apply load_each_spec; by apply (loads_worldly σ)|]. intros σ2 res [Hw2 H2].
  split; [by etrans|]. intros d' ->. destruct (H2 d' eq_refl) as (H3 & H4 & H5). destruct Hw as [w ->]. split_and!; [done|done|].
  intros id f Hf. rewrite Forall_forall in H5. apply H5. apply list_elem_of_fmap. exists (id, f). split; [done|].
  rewrite sort_keys_perm. apply elem_of_map_to_list. destruct completed; exact Hf.
Qed.

(** The files of an earlier process: attempts were Go integers, names were exclusive. *)
Record files_ok (σ : PrepSys W) : Prop := {
  fi_attempts : ∀ completed id f, file_in completed σ id = Some f → sp_Attempt f <= max_int64;
  fi_names : ∀ completed id f completed' id' f', file_in completed σ id = Some f → file_in completed' σ id' = Some f' →
    takes (copy_preparation f) → takes (copy_preparation f') → sp_Slug (copy_preparation f) = sp_Slug (copy_preparation f') →
    sp_ReceiptID (copy_preparation f) = sp_ReceiptID (copy_preparation f') }.
Lemma restarted_same f r : restarted f r → sp_Slug r = sp_Slug (copy_preparation f) ∧ sp_ReceiptID r = sp_ReceiptID (copy_preparation f)
  ∧ sp_Attempt r = sp_Attempt f ∧ sp_State r ≠ "running" ∧ (takes r → takes (copy_preparation f)).
Proof.
  intros [[-> H]|[Hrun [now ->]]]; [by split_and!|]. split_and!; try done. intros [_ H]. split; [by rewrite Hrun|done].
Qed.
Lemma loads_started σ d : loads σ d → files_ok σ → receipts_keyed (pp_creations σ) → pp_trace σ = [] →
  ∀ w, started (σ <| pp_records := ∅ |> <| pp_unconfirmed := ∅ |> <| pp_work := ∅ |> <| pp_world := w |> <| pp_records := ld_records d |>).
Proof.
  intros Hd Hf Hc Ht w. split; [split; [|done]| | |done].
  - intros id r Hr. destruct (Hd id r Hr) as ((completed & f & Hfile & Hre) & Hid & Hs & Hrec). split_and!; try done.
    apply restarted_same in Hre as (_ & _ & -> & _). by eapply (fi_attempts σ).
  - intros id r Hr _. destruct (Hd id r Hr) as ((completed & f & Hfile & Hre) & _). exists completed, f. split; [exact Hfile|].
    destruct Hre as [[-> _]|[_ [now ->]]]; [by left|right; by exists now].
  - intros id r id' r' Hr Hr' Hk Hk' E. destruct (Hd id r Hr) as ((c1 & f1 & Hf1 & Hre1) & _). destruct (Hd id' r' Hr') as ((c2 & f2 & Hf2 & Hre2) & _).
    apply restarted_same in Hre1 as (S1 & -> & _ & _ & T1). apply restarted_same in Hre2 as (S2 & -> & _ & _ & T2).
    eapply (fi_names σ); [done|exact Hf1|exact Hf2|auto|auto|congruence].
Qed.
Lemma load_spec σ : wp (loadPreparations rt) (λ σ' res, res = Ok tt → ∃ d w, loads σ d
    ∧ (∀ completed id f, file_in completed σ id = Some f → kept σ completed id d)
    ∧ σ' = σ <| pp_records := ∅ |> <| pp_unconfirmed := ∅ |> <| pp_work := ∅ |> <| pp_world := w |> <| pp_records := ld_records d |>) σ.
Proof.
  unfold loadPreparations. apply wp_bind, wp_modify, wp_bind. set (σ0 := σ <| pp_records := ∅ |> <| pp_unconfirmed := ∅ |> <| pp_work := ∅ |>).
  eapply wp_mono; [apply (load_directory_spec false); apply map_Forall_empty|]. intros σ1 [d1|e] [[w1 ->] H1]; [|done].
  destruct (H1 d1 eq_refl) as (Hd1 & _ & Hf1). apply wp_bind.
  eapply wp_mono; [apply (load_directory_spec true d1 (σ0 <| pp_world := w1 |>)); exact Hd1|]. intros σ2 [d2|e] [[w2 ->] H2]; [|done].
  destruct (H2 d2 eq_refl) as (Hd2 & Hs2 & Hf2). apply wp_modify. intros _. exists d2, w2. split; [exact Hd2|]. split; [|done].
  intros [|] id f Hfile; [by apply (Hf2 id f)|]. destruct (Hf1 id f Hfile) as [[r Hr] Hv]. split; [|exact Hv]. exists r. by eapply lookup_weaken.
Qed.
(** C13: a start-up that succeeds has every record of the files and no other, each as it was saved
    except that a running one is paused, and starts no worker; all promises hold from there. *)
Theorem load_restores σ σ' : files_ok σ → receipts_keyed (pp_creations σ) → pp_trace σ = [] → loadPreparations rt σ = (σ', Ok tt) →
  started σ' ∧ pp_work σ' = ∅
  ∧ (∀ id r, pp_records σ' !! id = Some r → sp_State r ≠ "running" ∧ ∃ completed f, file_in completed σ id = Some f ∧ restarted f r)
  ∧ (∀ completed id f, file_in completed σ id = Some f → is_Some (pp_records σ' !! id)).
Proof.
  intros Hf Hc Ht. assert (Hw := load_spec σ).
  intros E. unfold wp in Hw. rewrite E in Hw. destruct (Hw eq_refl) as (d & w & Hd & Hall & Eσ). cbn [fst] in Eσ. subst σ'.
  split; [by apply loads_started|]. split; [done|]. split; [|intros c id f Hfile; by apply (Hall c id f)]. intros id r Hr. destruct (Hd id r Hr) as ((completed & f & Hfile & Hre) & _).
  split; [by apply (restarted_same f)|]. by exists completed, f.
Qed.
End Load.

(** ** The names that are tried *)

Definition slug_char (c : ascii) : bool := is_alnum c || is_char c "_"%char || is_char c "-"%char.
Lemma all_append p a b : all_chars p a = true → all_chars p b = true → all_chars p (a +:+ b) = true.
Proof. induction a as [|c a IH]; [done|]. rewrite append_cons. cbn [all_chars]. rewrite !andb_true_iff. intros [H1 H2] H. auto. Qed.
Lemma slug_append a b : ValidSlug a = true → all_chars slug_char b = true → ValidSlug (a +:+ b) = true.
Proof. destruct a as [|c a]; [done|]. rewrite append_cons. cbn [ValidSlug]. rewrite !andb_true_iff. intros [H1 H2] H. split; [done|]. by apply all_append. Qed.
Lemma split_chars s : all_chars slug_char s = true → Forall (λ w, all_chars slug_char w = true) (split_at_dashes s).
Proof.
  induction s as [|c s IH]; [by repeat constructor|]. cbn [split_at_dashes all_chars]. rewrite andb_true_iff. intros [Hc Hs].
  specialize (IH Hs). destruct (is_char c "-"%char); [by constructor|].
  destruct (split_at_dashes s) as [|w l]; [by repeat constructor; cbn; rewrite Hc|].
  inversion IH; subst. constructor; [|done]. cbn. by rewrite Hc.
Qed.
Lemma split_first c s : is_alnum c = true → all_chars slug_char s = true →
  ∃ w l, split_at_dashes (String c s) = w :: l ∧ ValidSlug w = true ∧ Forall (λ w, all_chars slug_char w = true) l.
Proof.
  intros Hc Hs. cbn [split_at_dashes]. destruct (is_char c "-"%char) eqn:E.
  { apply is_char_spec in E. by subst c. }
  assert (H := split_chars s Hs). destruct (split_at_dashes s) as [|w l].
  - exists (String c ""), []. split_and!; [done|by cbn; rewrite Hc|constructor].
  - inversion H; subst. exists (String c w), l. split_and!; [done|cbn; by rewrite Hc|done].
Qed.
Lemma bounded_valid limit words result : ValidSlug result = true → strlen result <= limit → Forall (λ w, all_chars slug_char w = true) words →
  ValidSlug (bounded_words limit result words) = true ∧ strlen (bounded_words limit result words) <= limit.
Proof.
  revert result. induction words as [|w words IH]; intros result Hr Hl Hw; [done|]. inversion Hw; subst. cbn [bounded_words].
  rewrite bool_decide_eq_false_2 by (by intros ->). destruct (_ <? _) eqn:E; [done|]. apply IH; [|lia|done].
  apply slug_append; [done|]. by apply (all_append _ "-").
Qed.
Lemma bounded_name base limit : ValidSlug base = true →
  boundedSessionWords base limit = "" ∨ ValidSlug (boundedSessionWords base limit) = true ∧ strlen (boundedSessionWords base limit) <= limit.
Proof.
  destruct base as [|c s]; [done|]. cbn [ValidSlug]. rewrite andb_true_iff. intros [Hc Hs]. unfold boundedSessionWords.
  destruct (split_first c s Hc Hs) as (w & l & -> & Hw & Hl). cbn [bounded_words]. rewrite bool_decide_eq_true_2 by done. cbv zeta.
  destruct (_ <? _) eqn:E; [by left|right]. apply bounded_valid; [done|lia|done].
Qed.
Lemma number_chars n : 1 <= n <= 10001 → all_chars slug_char (pretty n) = true ∧ strlen (pretty n) <= 5.
Proof.
  intros Hn. destruct n as [|p|p]; [lia| |lia]. change (pretty (Zpos p)) with (pretty_N_go (Npos p) "").
  destruct (pretty_go_digits (Npos p) "" eq_refl) as (H & _). split.
  - revert H. generalize (pretty_N_go (Npos p) ""). intros s. induction s as [|c s IH]; [done|]. cbn. rewrite !andb_true_iff. intros [Hc Hs].
    split; [|by apply IH]. unfold slug_char, is_alnum. unfold is_digit in Hc. by rewrite Hc.
  - unfold strlen. pose proof (pretty_go_length 5 (Npos p) "" ltac:(simpl; lia)). simpl String.length in *. lia.
Qed.
(** C15: every name the reservation tries is a session name that is accepted: it starts as a slug
    does, has slug characters only and is at most 48 bytes long, whatever the base, up to the
    last of its 10001 numbers; the number is what distinguishes it. *)
Theorem suffixed_name_valid base number date : ValidSlug base = true → strlen base <= 48 → 1 <= number <= maxPreparationMappings + 1 →
  is_date date = true →
  creationDestination (suffixedSessionName base number) date = Ok (date +:+ "-" +:+ suffixedSessionName base number)
  ∧ (number ≠ 1 → ∃ prefix, suffixedSessionName base number = prefix +:+ "-" +:+ pretty number).
Proof.
  intros Hb Hl Hn Hd. change (maxPreparationMappings + 1) with 10001 in Hn. unfold suffixedSessionName. split.
  - unfold creationDestination. rewrite Hd. destruct (number =? 1); [by rewrite Hb, (proj2 (Z.ltb_ge _ _) Hl)|].
    destruct (number_chars number Hn) as [Hc Hlen]. set (suffix := "-" +:+ pretty number).
    assert (Hs : all_chars slug_char suffix = true) by (by apply (all_append _ "-")).
    assert (Hsl : strlen suffix <= 6) by (unfold suffix; rewrite strlen_append; change (strlen "-") with 1; lia).
    set (prefix := if boundedSessionWords base _ == "" then "session" else _).
    assert (ValidSlug prefix = true ∧ strlen prefix + strlen suffix <= 48) as [Hp Hpl].
    { unfold prefix. destruct (bounded_name base (48 - strlen suffix) Hb) as [->|[H1 H2]].
      - rewrite bool_decide_eq_true_2 by done. split; [done|]. change (strlen "session") with 7. lia.
      - rewrite bool_decide_eq_false_2 by (by intros E; rewrite E in H1). split; [done|lia]. }
    rewrite (slug_append prefix suffix Hp Hs). rewrite (proj2 (Z.ltb_ge 48 _)); [done|]. rewrite strlen_append. lia.
  - intros Hne. rewrite (proj2 (Z.eqb_neq _ _) Hne). by eexists.
Qed.

(** ** A flaw: an error cut inside a character *)

(** Reading back text that is not valid makes it longer. *)
Definition longer (s t : string) (valid : bool) : Prop :=
  (String.length s ≤ String.length t)%nat ∧ (valid = false → (String.length s < String.length t)%nat).
Lemma longer_rune a s t valid : longer s t valid → longer (String a s) (String a t) valid.
Proof. unfold longer. cbn [String.length]. intros [H1 H2]. split; [lia|]. intros E. apply H2 in E. lia. Qed.
Lemma longer_replaced a s t b valid : longer s t b → longer (String a s) (replacement +:+ t) valid.
Proof.
  unfold longer. change (String.length (replacement +:+ t)) with (3 + String.length t)%nat. cbn [String.length]. intros [H1 _].
  split; [lia|intros _; lia].
Qed.
Lemma coerce_longer s : longer s (json_coerce s) (utf8_valid s).
Proof.
  induction s as [s IH] using string_length_ind. destruct s as [|a s1]; [by split|]. cbn [json_coerce utf8_valid].
  assert (IH1 := IH s1 ltac:(simpl; lia)). destruct (code a <? 128); [by apply longer_rune|].
  destruct s1 as [|b s2]; [apply (longer_replaced a "" "" true); by split|].
  destruct (utf8_two _ _); [do 2 apply longer_rune; apply IH; simpl; lia|].
  destruct s2 as [|c s3]; [by eapply longer_replaced|].
  destruct (utf8_three _ _ _); [do 3 apply longer_rune; apply IH; simpl; lia|].
  destruct s3 as [|d s4]; [by eapply longer_replaced|].
  destruct (utf8_four _ _ _ _); [do 4 apply longer_rune; apply IH; simpl; lia|by eapply longer_replaced].
Qed.
Lemma cut_length n s : (n ≤ String.length s)%nat → String.length (String.substring 0 n s) = n.
Proof.
  revert s. induction n as [|n IH]; intros [|c s] H; try done; cbn [String.length] in *; [lia|].
  cbn [String.substring String.length]. rewrite IH; lia.
Qed.
Lemma long_error_refused r workspace : 4096 < strlen (sp_Error r) → validatePreparation r workspace ≠ None.
Proof.
  intros Hl Hv. apply first_refusal_None, Forall_inv in Hv. unfold refuse in Hv. destruct (_ || _) eqn:E; [done|].
  rewrite !orb_false_iff in E. lia.
Qed.
Section Flaw.
Context {W : Type} (rt : PrepRuntime W).

(** C16: when the text of a failed worker's error is longer than 4096 bytes and byte 4096 is inside a
    character, the record that is saved holds exactly 4096 bytes, but no text of it can be read
    back: its publication is never confirmed, and the portal's next start-up fails. *)
Theorem cut_error_unreadable e outcome r0 σ r completed id σ' :
  4096 < strlen (pr_text rt e) → utf8_valid (cut_error 4096 (pr_text rt e)) = false → mark_failed rt e outcome r0 σ = (σ, Ok r) →
  file_in completed σ' id = Some r →
  strlen (sp_Error r) = 4096 ∧ is_ok (readPreparation rt completed id σ').2 = false
  ∧ (pp_unconfirmed σ' !! id = Some completed → is_ok (confirmPreparationLocked rt id σ').2 = false)
  ∧ is_ok (loadPreparations rt σ').2 = false.
Proof.
  intros Hlong Hcut Hm Hf. set (text := cut_error 4096 (pr_text rt e)) in *.
  assert (Hlen : strlen text = 4096).
  { unfold text, cut_error. rewrite (proj2 (Z.ltb_lt _ _) Hlong). unfold strlen in *. rewrite cut_length; lia. }
  assert (Herr : sp_Error r = text) by (unfold mark_failed in Hm; by injection Hm as <-; destruct (_ && _)).
  assert (Hbad : validatePreparation (copy_preparation r) (pr_workspace rt) ≠ None).
  { apply long_error_refused. cbn. rewrite Herr. destruct (coerce_longer text) as [_ H]. specialize (H Hcut). unfold strlen in *. lia. }
  assert (Hread : is_ok (readPreparation rt completed id σ').2 = false).
  { destruct (readPreparation rt completed id σ').2 as [p|] eqn:E; [|done]. destruct (read_valid rt completed id σ') as [_ H].
    destruct (H p E) as [(f & Hf' & ->) Hv]. by simplify_eq. }
  split; [by rewrite Herr|]. split; [done|]. split.
  - intros Hu. unfold confirmPreparationLocked, confirm_published. cbv [mbind SE_bind gets attempt]. rewrite Hu.
    destruct (readPreparation rt completed id σ') as [σ2 [p|x]]; [done|done].
  - assert (H := load_spec rt σ'). unfold wp in H. destruct (loadPreparations rt σ').2 as [[]|]; [|done].
    destruct (H eq_refl) as (d & w & _ & Hall & _). destruct (Hall completed id r Hf) as [_ (f & Hf' & Hv)]. by simplify_eq.
Qed.
End Flaw.

(** ** A request that nothing hinders *)

Section Calm.
Context {W : Type} (rt : PrepRuntime W).

(** Calls succeed, uploads are claimed, nobody interferes. *)
Record calm : Prop := {
  ca_call : ∀ name w, (pr_call rt name w).2 = None;
  ca_random : ∀ w, is_ok (pr_random rt w).2 = true;
  ca_provider : ∀ p w, (pr_provider rt p w).2 = None;
  ca_Validate : ∀ id scope prompt l w, (pr_Validate rt id scope prompt l w).2 = None;
  ca_others : ∀ σ, pr_others rt σ = σ }.
Context (Hcalm : calm).

Lemma calm_pcall name (Q : PrepSys W → result unit → Prop) σ : (∀ w, Q (σ <| pp_world := w |>) (Ok tt)) → wp (pcall rt name) Q σ.
Proof.
  intros H. unfold pcall. apply wp_bind. unfold wp, pask. assert (E := ca_call Hcalm name (pp_world σ)).
  destruct (pr_call rt name (pp_world σ)) as [w e]. cbn in E. subst e. cbn. apply H.
Qed.
Lemma calm_pask {A} (f : W → W * A) (Q : PrepSys W → result A → Prop) σ : (∀ w a, (f (pp_world σ)).2 = a → Q (σ <| pp_world := w |>) (Ok a)) → wp (pask f) Q σ.
Proof. intros H. unfold wp, pask. specialize (H (f (pp_world σ)).1 _ eq_refl). by destruct (f (pp_world σ)). Qed.
Lemma calm_timestamp (Q : PrepSys W → result string → Prop) σ : (∀ w now, Q (σ <| pp_world := w |>) (Ok (rfc3339 now))) → wp (timestamp rt) Q σ.
Proof. intros H. unfold timestamp. apply wp_bind, calm_pask. intros w now _. apply wp_ret, H. Qed.

(** A record that can be saved: valid, within its limit, and all of its text valid. *)
Record fits (r : sessionPreparation) : Prop := {
  ft_open : sp_State r ≠ "terminal";
  ft_valid : validatePreparation r (pr_workspace rt) = None;
  ft_text : copy_preparation r = r;
  ft_size : ∃ data, Preparation_json r = Some data ∧ strlen data <= maxPreparationBytes }.

Lemma calm_read completed id r σ (Q : PrepSys W → result sessionPreparation → Prop) : file_in completed σ id = Some r → fits r →
  (∀ w, Q (σ <| pp_world := w |>) (Ok r)) → wp (readPreparation rt completed id) Q σ.
Proof.
  intros Hf [Ht Hv Hc (data & Hj & Hs)] H. unfold readPreparation. apply wp_bind, calm_pcall. intros w1. apply wp_bind, wp_gets.
  change (file_in completed (σ <| pp_world := w1 |>) id) with (file_in completed σ id). rewrite Hf.
  apply wp_bind, calm_pcall. intros w2. apply wp_bind, calm_pcall. intros w3. rewrite Hj, (proj2 (Z.ltb_ge _ _) Hs), Hc. cbv zeta.
  rewrite bool_decide_eq_false_2 by done. cbn [andb]. apply wp_bind, wp_lift_error. rewrite Hv. apply wp_ret. exact (H w3).
Qed.
Definition confirmed (σ : PrepSys W) (r : sessionPreparation) : Prop :=
  has σ r ∧ pp_unconfirmed σ !! sp_RequestID r = None ∧ pp_unfinished σ !! sp_RequestID r = Some r.
Lemma calm_confirm r σ (Q : PrepSys W → result unit → Prop) : has σ r → pp_unconfirmed σ !! sp_RequestID r = Some false →
  pp_unfinished σ !! sp_RequestID r = Some r → fits r →
  (∀ w, Q (σ <| pp_world := w |> <| pp_unconfirmed ::= delete (sp_RequestID r) |>) (Ok tt)) → wp (confirmPreparationLocked rt (sp_RequestID r)) Q σ.
Proof.
  intros Hh Hu Hf Hfit H. unfold confirmPreparationLocked. apply wp_bind, wp_gets. rewrite Hu. apply wp_bind, wp_gets.
  unfold has in Hh. rewrite Hh. cbn [default]. apply wp_bind, wp_attempt. unfold confirm_published. apply wp_bind.
  apply (calm_read false _ r); [done|done|]. intros w. rewrite bool_decide_eq_true_2 by done. cbn [negb].
  unfold syncPreparationDirectory. apply wp_bind, calm_pcall. intros w1. apply wp_bind, calm_pcall. intros w2.
  rewrite bool_decide_eq_false_2 by apply (ft_open r Hfit). apply wp_ret, wp_modify, H.
Qed.
Lemma calm_idle id σ (Q : PrepSys W → result unit → Prop) : pp_unconfirmed σ !! id = None → Q σ (Ok tt) → wp (confirmPreparationLocked rt id) Q σ.
Proof. intros Hu H. unfold confirmPreparationLocked. apply wp_bind, wp_gets. rewrite Hu. by apply wp_ret. Qed.

(** The record saved: what changed. *)
Definition after_save (r : sessionPreparation) (σ : PrepSys W) (w : W) : PrepSys W :=
  σ <| pp_world := w |> <| pp_unfinished ::= <[sp_RequestID r := r]> |> <| pp_records ::= <[sp_RequestID r := r]> |>
    <| pp_unconfirmed := delete (sp_RequestID r) (<[sp_RequestID r := false]> (pp_unconfirmed σ)) |>.
Lemma calm_save r σ (Q : PrepSys W → result unit → Prop) : pp_unconfirmed σ !! sp_RequestID r = None → fits r →
  match pp_records σ !! sp_RequestID r with Some p => sp_State p ≠ "terminal" | None => True end →
  (∀ w, Q (after_save r σ w) (Ok tt)) → wp (savePreparation rt r) Q σ.
Proof.
  intros Hu Hfit Hp H. unfold savePreparation. apply wp_bind, calm_idle; [done|]. apply wp_bind, wp_lift_error. rewrite (ft_valid r Hfit).
  destruct (ft_size r Hfit) as (data & Hj & Hs). rewrite Hj. rewrite bool_decide_eq_false_2 by apply (ft_open r Hfit).
  rewrite (proj2 (Z.ltb_ge _ _) Hs). apply wp_bind.
  assert (Hdir : wp (save_directory rt r) (λ σ' res, σ' = σ ∧ res = Ok false) σ).
  { unfold save_directory. apply wp_bind, wp_gets. destruct (pp_records σ !! sp_RequestID r) as [p|]; [|by apply wp_ret].
    rewrite bool_decide_eq_false_2 by done. by apply wp_ret. }
  eapply wp_mono; [exact Hdir|]. intros _ _ [-> ->]. apply wp_bind. unfold publish, privatePreparationDirectory, syncPreparationDirectory.
  do 5 (apply wp_bind, calm_pcall; intros ?). apply wp_modify. apply calm_confirm; cbn; rewrite ?lookup_insert_eq; try done.
  unfold has. cbn. by rewrite lookup_insert_eq.
Qed.

(** The work of the record's attempt, waiting. *)
Definition pended (r : sessionPreparation) (σ : PrepSys W) : PrepSys W :=
  if wk_Attempt (work_of (sp_RequestID r) σ) =? sp_Attempt r then σ
  else σ <| pp_work ::= <[sp_RequestID r := mkWork (sp_Attempt r) false false]> |>.
Lemma calm_dispatch_save r σ (Q : PrepSys W → result unit → Prop) : pp_unconfirmed σ !! sp_RequestID r = None → fits r →
  match pp_records σ !! sp_RequestID r with Some p => sp_State p ≠ "terminal" | None => True end →
  one_of (sp_State r) ["accepting"; "running"] = true → (∀ w, Q (pended r (after_save r σ w)) (Ok tt)) →
  wp (savePreparationForDispatchLocked rt r) Q σ.
Proof.
  intros Hu Hfit Hp Hs H. unfold savePreparationForDispatchLocked. apply wp_bind, wp_attempt, calm_save; [done..|]. intros w.
  apply wp_bind, wp_gets. assert (pp_records (after_save r σ w) !! sp_RequestID r = Some r) as -> by apply lookup_insert_eq.
  rewrite Z.eqb_refl, Hs. cbn [andb]. apply wp_bind, wp_modify, wp_lift_result, H.
Qed.

Context (id : string) (i : preparationInput) (preset : option Preset) (goal : string).
Let digest : string := inputPreparationDigest i.
(** The intent and its successor, for the identity and times that are drawn. *)
Definition intent (w w' : W) : sessionPreparation :=
  new_preparation rt id digest (match (pr_random rt w).2 with Ok raw => hex_encode raw | Err _ => "" end) (rfc3339 (pr_now rt w').2) i preset.
Definition running (w w' w'' : W) : sessionPreparation :=
  with_goal (intent w w') goal <| sp_State := "running" |> <| sp_Phase := "naming" |> <| sp_UpdatedAt := rfc3339 (pr_now rt w'').2 |>.
Context (Hclaim : ∀ w, (pr_Claim rt id (pi_UploadScope i) (pi_RawPrompt i) (pi_Attachments i) w).2 = Ok goal).
Context (Hintent : ∀ w w', fits (intent w w')) (Hrunning : ∀ w w' w'', fits (running w w' w'')).

(** A fresh request's state, and the one its acceptance reaches. *)
Definition unknown (σ : PrepSys W) : Prop :=
  pp_closing σ = false ∧ pp_records σ !! id = None ∧ pp_unconfirmed σ !! id = None ∧ pp_work σ !! id = None.
Definition under_way (σ σ' : PrepSys W) : Prop := ∃ w w' w'',
  let r := running w w' w'' in
  pp_records σ' !! id = Some r ∧ pp_unfinished σ' !! id = Some r ∧ pp_unconfirmed σ' !! id = None
  ∧ pp_trace σ' = pp_trace σ ++ [ev_dispatch id 1] ∧ pp_work σ' !! id = Some (mkWork 1 true false).
Lemma after_save_facts r (σ : PrepSys W) w : sp_RequestID r = id →
  pp_records (after_save r σ w) !! id = Some r ∧ pp_unfinished (after_save r σ w) !! id = Some r
  ∧ pp_unconfirmed (after_save r σ w) !! id = None.
Proof. intros <-. cbn. by rewrite !lookup_insert_eq, lookup_delete_eq. Qed.
Lemma launch_run r (σ : PrepSys W) : sp_RequestID r = id → sp_State r = "running" → sp_Attempt r = 1 → pp_closing σ = false →
  pp_unconfirmed σ !! id = None → work_of id σ = mkWork 1 false false →
  launchPreparationLocked r σ = (σ <| pp_work ::= <[id := mkWork 1 true false]> |> <| pp_trace ::= λ l, l ++ [ev_dispatch id 1] |>, Ok tt).
Proof.
  intros Hid Hs Ha Hc Hu Hw. unfold launchPreparationLocked, modify. rewrite Hid, Hs, Ha, Hc, Hu, Hw. reflexivity.
Qed.
Lemma pended_first r (σ : PrepSys W) : sp_RequestID r = id → sp_Attempt r = 1 → pp_work σ !! id = None →
  pended r σ = σ <| pp_work ::= <[id := mkWork 1 false false]> |>.
Proof. intros Hid Ha Hw. unfold pended, work_of. by rewrite Hid, Ha, Hw. Qed.
Lemma pended_again r (σ : PrepSys W) : sp_RequestID r = id → sp_Attempt r = 1 → pp_work σ !! id = Some (mkWork 1 false false) → pended r σ = σ.
Proof. intros Hid Ha Hw. unfold pended, work_of. by rewrite Hid, Ha, Hw. Qed.
Lemma calm_accept σ : unknown σ → wp (accept_request rt id digest i preset) (λ σ' res, res = Ok tt ∧ under_way σ σ') σ.
Proof.
  intros (Hc & Hr & Hu & Hw). unfold accept_request. apply wp_bind, calm_pask. intros w1 raw Hraw. apply wp_bind.
  apply wp_bind, calm_pask. intros w2 now Hnow. apply wp_ret. apply wp_bind, wp_lift_result.
  assert (Hok := ca_random Hcalm (pp_world σ)). rewrite Hraw in Hok. destruct raw as [raw|e]; [|done]. cbv zeta.
  assert (new_preparation rt id digest (hex_encode raw) (rfc3339 now) i preset = intent (pp_world σ) w1) as ->.
  { unfold intent. rewrite Hraw. subst now. reflexivity. }
  set (r1 := intent (pp_world σ) w1). assert (Hf1 : fits r1) by apply Hintent.
  apply wp_bind, wp_lift_error. rewrite (ft_valid r1 Hf1). apply wp_bind, calm_pask. intros w3 e He.
  rewrite (ca_Validate Hcalm) in He. subst e. apply wp_bind, wp_lift_error, wp_bind.
  apply calm_dispatch_save; [exact Hu|done|cbn; by rewrite Hr|done|]. intros w4. apply wp_bind.
  set (σ3 := σ <| pp_world := w1 |> <| pp_world := w2 |> <| pp_world := w3 |>).
  rewrite (pended_first r1 (after_save r1 σ3 w4)) by done. destruct (after_save_facts r1 σ3 w4 eq_refl) as (F1 & F2 & F3).
  set (σ4 := after_save r1 σ3 w4 <| pp_work ::= _ |>). unfold finish_accepting, finishAcceptingPreparationLocked.
  change (sp_RequestID r1) with id. apply wp_bind, wp_bind, wp_attempt, calm_idle; [exact F3|]. cbv zeta.
  apply wp_bind, calm_pask. intros w5 claimed Hcl. rewrite Hclaim in Hcl. subst claimed.
  change (sn_Goal (snapshot_of r1) != "") with false. cbn [andb]. apply wp_bind, wp_bind, calm_pask. intros w6 now' Hnow'.
  apply wp_ret. change (pp_world (σ4 <| pp_world := w5 |>)) with w5 in Hnow'. subst now'.
  change (with_goal r1 goal <| sp_State := _ |> <| sp_Phase := _ |> <| sp_UpdatedAt := _ |>) with (running (pp_world σ) w1 w5).
  assert (Hr2 : ∃ r2, r2 = running (pp_world σ) w1 w5 ∧ sp_RequestID r2 = id ∧ sp_State r2 = "running" ∧ sp_Attempt r2 = 1) by (by eexists).
  destruct Hr2 as (r2 & E2 & Hid2 & Hs2 & Ha2). rewrite <- E2. assert (Hf2 : fits r2) by (rewrite E2; apply Hrunning).
  apply wp_bind, wp_attempt. apply calm_dispatch_save; [by rewrite Hid2|done| |by rewrite Hs2|].
  { rewrite Hid2. change (pp_records _ !! id) with (pp_records (after_save r1 σ3 w4) !! id). by rewrite F1. }
  intros w7. apply wp_ret, wp_bind, wp_lift_error, wp_ret. set (σ6 := σ4 <| pp_world := w5 |> <| pp_world := w6 |>).
  assert (Hw7 : pp_work (after_save r2 σ6 w7) !! id = Some (mkWork 1 false false)) by (apply lookup_insert_eq).
  rewrite (pended_again r2 (after_save r2 σ6 w7) Hid2 Ha2 Hw7). destruct (after_save_facts r2 σ6 w7 Hid2) as (G1 & G2 & G3).
  unfold wp. rewrite (launch_run r2 (after_save r2 σ6 w7)); [|done..|by unfold work_of; rewrite Hw7].
  split; [done|]. exists (pp_world σ), w1, w5. cbv zeta. rewrite <- E2. split_and!; [exact G1|exact G2|exact G3|reflexivity|apply lookup_insert_eq].
Qed.
Context (Hpreset : ∀ σ, (freezePreparationPreset rt i σ).2 = Ok preset).
Lemma calm_answered code σ w w' w'' : pp_records σ !! id = Some (running w w' w'') → pp_work σ !! id = Some (mkWork 1 true false) →
  wp (answered rt id code) (λ σ' res, σ' = σ ∧ ∃ s, res = Ok (an_status code s) ∧ st_State s = "running" ∧ st_RequestID s = id) σ.
Proof.
  intros Hr Hw. unfold answered. apply wp_bind. unfold preparation_status. apply wp_bind, wp_modify. rewrite (ca_others Hcalm).
  apply wp_bind, wp_gets, wp_bind. rewrite Hr. unfold work_of. rewrite Hw. cbn [default]. unfold preparationStatusFromSnapshot.
  cbn [fst snd]. rewrite bool_decide_eq_true_2 by reflexivity. apply wp_ret, wp_ret, wp_ret. split; [done|]. eexists. split; [reflexivity|].
  by split.
Qed.

(** C12: when nothing outside fails and nobody interferes, a new request is answered as running,
    its record is on disk, and its worker has been started, once, by the time of the answer. *)
Theorem accepted_request_started σ : unknown σ → preparationCapacity (pp_records σ) = None →
  wp (createPreparation rt id i) (λ σ' res, under_way σ σ' ∧ ∃ s, res = Ok (an_status 202 s) ∧ st_State s = "running" ∧ st_RequestID s = id) σ.
Proof.
  intros Hun Hcap. unfold createPreparation. apply wp_bind, calm_pask. intros w0 e He. rewrite (ca_provider Hcalm) in He. subst e.
  apply wp_bind, wp_attempt, calm_pcall. intros w1. apply wp_bind, wp_modify. rewrite (ca_others Hcalm). cbv zeta.
  apply wp_bind, wp_gets. destruct Hun as (Hc & Hr & Hu & Hw). set (σ1 := σ <| pp_world := w0 |> <| pp_world := w1 |>).
  change (pp_records σ1 !! id) with (pp_records σ !! id). rewrite Hr. apply wp_bind, wp_attempt, wp_bind, wp_gets, wp_bind.
  change (pp_closing σ1) with (pp_closing σ). rewrite Hc. apply wp_bind, wp_gets, wp_lift_error. change (pp_records σ1) with (pp_records σ). rewrite Hcap.
  destruct (worldly_preset rt i σ1) as [w2 E2]. unfold wp at 1. rewrite (Hpreset σ1), E2. apply wp_bind, wp_attempt.
  eapply wp_mono; [apply calm_accept; by split_and!|]. intros σ3 res [-> (v & v' & v'' & H1 & H2 & H3 & H4 & H5)]. cbv beta iota.
  eapply wp_mono; [exact (calm_answered 202 σ3 v v' v'' H1 H5)|]. intros _ res' [-> Hs]. split; [|done]. exists v, v', v''. by split_and!.
Qed.
End Calm.

(** ** A small portal *)

Definition noon : Time := 1700000000000000000.
Definition World : Type := unit.
Definition epoch_text : string := hex_encode (repeat 17 32).
(** Nothing fails; [absent] is what looking for a file answers. *)
Definition portal (absent : option error) (text : error → string) : PrepRuntime World := {|
  pr_workspace := "/w"; pr_now := λ w : World, (w, noon); pr_random := λ w, (w, Ok (repeat 171 32)); pr_range := λ ks w, (w, ks);
  pr_call := λ name w, (w, if String.prefix "lstat " name then absent else None);
  pr_Validate := λ _ _ _ _ w, (w, None); pr_Claim := λ _ _ prompt _ w, (w, Ok prompt); pr_Bind := λ _ _ _ _ _ w, (w, None);
  pr_BindCreation := λ _ w, (w, None); pr_prove := λ _ w, (w, None); pr_history := λ _ w, (w, Ok epoch_text);
  pr_pending := λ _ w, (w, Ok ""); pr_journal := λ _ w, (w, Ok None); pr_current := λ _ w, (w, None); pr_Find := λ _ w, (w, None);
  pr_name := λ _ _ w, (w, ("fix-the-build", "model", None)); pr_teams := λ w, (w, None); pr_preset := λ _ w, (w, Err ErrNotExist);
  pr_provider := λ _ w, (w, None); pr_retry_creation := λ _ _ _ w, (w, (202, None)); pr_others := λ σ : PrepSys World, σ; pr_text := text |}.
Definition here : PrepRuntime World := portal (Some ErrNotExist) (λ _, "failed").
Definition unset : preparationValue := mkValue false "".
Definition wish : preparationInput := mkInput false "Fix the build" "2024-01-02" "" "" None unset unset unset unset None "".
Definition request_id : string := "00000000-0000-4000-8000-000000000001".
Definition fresh : PrepSys World := mkPrepSys tt ∅ ∅ ∅ false ∅ ∅ ∅ [].
Definition created : PrepSys World := Eval vm_compute in (serve here (op_create request_id wish) fresh).1.
(** The state of a process that found the request's record on disk. *)
Definition resumed : PrepSys World := Eval vm_compute in created <| pp_trace := [] |>.
Definition handed : PrepSys World := Eval vm_compute in (serve here (op_worker request_id 1) resumed).1.
Definition running_record : sessionPreparation := Eval vm_compute in record_of request_id created.
Definition handed_record : sessionPreparation := Eval vm_compute in record_of request_id handed.

Lemma create_run : history here [op_create request_id wish] fresh = created.
Proof. computed. Qed.
Lemma worker_run : history here [op_worker request_id 1] resumed = handed.
Proof. computed. Qed.
Example portal_run :
  pp_trace created = [ev_dispatch request_id 1] ∧ sp_State handed_record = "handed_off" ∧ sp_Slug handed_record = "2024-01-02-fix-the-build"
  ∧ pp_trace handed = [ev_install "2024-01-02-fix-the-build" (sp_ReceiptID running_record)] ∧ pp_unconfirmed handed = ∅.
Proof. by vm_compute. Qed.

Lemma nobody_interferes absent text σ : psteps (portal absent text) σ (pr_others (portal absent text) σ).
Proof. reflexivity. Qed.
Lemma fresh_started : started fresh.
Proof.
  assert (∀ id r, pp_records fresh !! id ≠ Some r) as H by (intros id r; apply lookup_empty_Some).
  split; [split; apply map_Forall_empty|by intros id r []%H|by intros id r id' r' []%H|done].
Qed.
Lemma resumed_records : pp_records resumed = {[request_id := running_record]} ∧ pp_creations resumed = ∅
  ∧ pp_unfinished resumed = {[request_id := running_record]} ∧ pp_mappings resumed = ∅ ∧ copy_preparation running_record = running_record.
Proof. split_and!; computed. Qed.
Lemma resumed_started : started resumed.
Proof.
  destruct resumed_records as (Er & Ec & Ef & _ & Ecopy). split; [split; [rewrite Er; apply map_Forall_singleton|rewrite Ec; apply map_Forall_empty]| | |done].
  - split_and!; [done|done|by eexists|done].
  - intros id r Hr _. rewrite Er in Hr. apply lookup_singleton_Some in Hr as [<- <-]. exists false, running_record. split.
    + unfold file_in. rewrite Ef. apply lookup_singleton_eq.
    + left. unfold holds_text. by rewrite Ecopy.
  - intros id r id' r'. rewrite Er. intros [<- <-]%lookup_singleton_Some [<- <-]%lookup_singleton_Some. done.
Qed.

Lemma preparations_refine_witness : psteps here fresh created.
Proof. rewrite <- create_run. exact (preparations_refine here (nobody_interferes _ _) _ fresh (st_keyed _ fresh_started)). Defined.
Lemma accepted_request_kept_witness : ∃ r', pp_records handed !! request_id = Some r' ∧ identity_of r' = identity_of running_record.
Proof.
  rewrite <- worker_run.
  destruct (accepted_request_kept here (nobody_interferes _ _) [op_worker request_id 1] resumed request_id running_record resumed_started) as (r' & H1 & H2 & _).
  - destruct resumed_records as (-> & _). apply lookup_singleton_eq.
  - exists r'. split; [exact H1|exact H2].
Defined.
Lemma worker_started_once_witness : NoDup (dispatches created) ∧ length (dispatches created) = 1%nat.
Proof.
  split; [|by vm_compute]. rewrite <- create_run. exact (worker_started_once here (nobody_interferes _ _) _ fresh fresh_started).
Defined.
Lemma worker_started_durably_witness :
  ∃ σ1 r, pp_records σ1 !! request_id = Some r ∧ sp_State r = "running" ∧ on_disk σ1 request_id r ∧ psteps here σ1 created.
Proof.
  rewrite <- create_run.
  destruct (worker_started_durably here (nobody_interferes _ _) [op_create request_id wish] fresh request_id 1 fresh_started) as (σ1 & r & _ & H1 & H2 & _ & H3 & H4 & _).
  - rewrite create_run. by apply list_elem_of_singleton.
  - exists σ1, r. split_and!; [exact H2|exact H3|exact H4|exact H1].
Defined.
(** Two requests with the same wish: the second one takes the next name. *)
Definition second_id : string := "00000000-0000-4000-8000-000000000002".
Definition second_record : sessionPreparation := Eval vm_compute in
  running_record <| sp_RequestID := second_id |> <| sp_ReceiptID := hex_encode (repeat 172 32) |>.
Definition resumed_both : PrepSys World := Eval vm_compute in
  resumed <| pp_records ::= <[second_id := second_record]> |> <| pp_unfinished ::= <[second_id := second_record]> |>.
Definition both_workers : list operation := [op_worker request_id 1; op_worker second_id 1].
Definition handed_both : PrepSys World := Eval vm_compute in history here both_workers resumed_both.
Definition second_handed : sessionPreparation := Eval vm_compute in record_of second_id handed_both.
Lemma both_run : history here both_workers resumed_both = handed_both.
Proof. computed. Qed.
Lemma both_records : pp_records resumed_both = {[request_id := running_record; second_id := second_record]} ∧ pp_creations resumed_both = ∅
  ∧ pp_unfinished resumed_both = {[request_id := running_record; second_id := second_record]} ∧ copy_preparation second_record = second_record
  ∧ pp_records handed_both = {[request_id := handed_record; second_id := second_handed]}.
Proof. split_and!; computed. Qed.
Lemma lookup_both (a b r : sessionPreparation) i : ({[request_id := a; second_id := b]} : gmap string sessionPreparation) !! i = Some r →
  i = request_id ∧ r = a ∨ i = second_id ∧ r = b.
Proof. intros [[<- <-]|[_ [<- <-]%lookup_singleton_Some]]%lookup_insert_Some; auto. Qed.
Lemma both_started : started resumed_both.
Proof.
  destruct both_records as (Er & Ec & Ef & Ecopy & _). split; [split; [rewrite Er|rewrite Ec; apply map_Forall_empty]| | |done].
  - intros i r [[-> ->]|[-> ->]]%lookup_both; split_and!; try done; by eexists.
  - intros i r Hr _. rewrite Er in Hr. assert (copy_preparation r = r) as Hc.
    { apply lookup_both in Hr as [[_ ->]|[_ ->]]; [apply resumed_records|exact Ecopy]. }
    exists false, r. split; [unfold file_in; by rewrite Ef|left; unfold holds_text; by rewrite Hc].
  - intros i r j q. rewrite Er. intros [[-> ->]|[-> ->]]%lookup_both [[-> ->]|[-> ->]]%lookup_both [_ Hs]; try done; by destruct Hs.
Qed.
Lemma names_held_once_witness : sp_Slug handed_record = "2024-01-02-fix-the-build" ∧ sp_Slug second_handed = "2024-01-02-fix-the-build-2"
  ∧ sp_Slug handed_record ≠ sp_Slug second_handed.
Proof.
  split; [reflexivity|]. split; [reflexivity|]. destruct both_records as (_ & _ & _ & _ & E).
  apply (names_held_once here (nobody_interferes _ _) both_workers resumed_both request_id handed_record second_id second_handed both_started).
  - intros i p j q. rewrite both_run, E. intros [[-> ->]|[-> ->]]%lookup_both [[-> ->]|[-> ->]]%lookup_both Hr; done.
  - rewrite both_run, E. reflexivity.
  - rewrite both_run, E. reflexivity.
  - discriminate.
  - split; discriminate.
  - split; discriminate.
Defined.
Lemma creation_installed_reserved_witness :
  ∃ (σ1 : PrepSys World) r, pp_records σ1 !! request_id = Some r ∧ sp_Slug r = "2024-01-02-fix-the-build" ∧ pp_creations σ1 !! "2024-01-02-fix-the-build" = None.
Proof.
  destruct (creation_installed_reserved here (nobody_interferes _ _) [op_worker request_id 1] resumed "2024-01-02-fix-the-build"
    (sp_ReceiptID running_record) resumed_started) as (σ1 & σ2 & id & r & c & r' & _ & _ & _ & H1 & H2 & _ & _ & H3 & _ & _ & _ & H4 & _).
  - rewrite worker_run. by apply list_elem_of_singleton.
  - rewrite worker_run in H4. replace (pp_records handed) with ({[request_id := handed_record]} : gmap string sessionPreparation) in H4 by (symmetry; computed).
    apply lookup_singleton_Some in H4 as [<- _]. exists σ1, r. split_and!; [exact H1|exact H2|exact H3].
Defined.

Definition reloaded : PrepSys World := Eval vm_compute in (loadPreparations here resumed).1.
Lemma resumed_file completed id f : file_in completed resumed id = Some f → f = running_record.
Proof.
  destruct resumed_records as (_ & _ & Ef & Em & _). destruct completed; unfold file_in; rewrite ?Ef, ?Em; [by intros H%lookup_empty_Some|].
  by intros [_ <-]%lookup_singleton_Some.
Qed.
Lemma load_restores_witness : started reloaded ∧ ∃ r, pp_records reloaded !! request_id = Some r ∧ sp_State r ≠ "running".
Proof.
  destruct (load_restores here resumed reloaded) as (H1 & _ & H2 & H3).
  - split; [by intros c id f ->%resumed_file|]. by intros c id f c' id' f' ->%resumed_file ->%resumed_file.
  - apply resumed_started.
  - done.
  - computed.
  - split; [done|]. destruct (H3 false request_id running_record) as [r Hr].
    + unfold file_in. destruct resumed_records as (_ & _ & -> & _). apply lookup_singleton_eq.
    + exists r. split; [done|]. by apply (H2 request_id).
Defined.

Lemma suffixed_name_valid_witness : creationDestination (suffixedSessionName "fix-the-build" 12) "2024-01-02" = Ok "2024-01-02-fix-the-build-12".
Proof. apply (suffixed_name_valid "fix-the-build" 12 "2024-01-02"); [done|by apply Z.leb_le|split; by apply Z.leb_le|done]. Defined.

(** An error text whose byte 4096 is the first of two. *)
Definition long_text : string := Eval vm_compute in repeated 4095 "a" +:+ string_of [195; 169] +:+ "!".
Definition wordy : PrepRuntime World := portal (Some ErrNotExist) (λ _, long_text).
Definition failed_record : sessionPreparation := Eval vm_compute in
  match (mark_failed wordy ErrDeadlineExceeded "" running_record created).2 with Ok r => r | Err _ => no_preparation end.
Lemma cut_error_unreadable_witness :
  validatePreparation failed_record "/w" = None
  ∧ is_ok (loadPreparations wordy (created <| pp_unfinished := {[request_id := failed_record]} |>)).2 = false.
Proof.
  split; [computed|].
  apply (cut_error_unreadable wordy ErrDeadlineExceeded "" running_record created failed_record false request_id);
    [by apply Z.ltb_lt; vm_compute|computed|computed|apply lookup_singleton_eq].
Defined.

Definition quiet : PrepRuntime World := portal None (λ _, "failed").
Lemma quiet_calm : calm quiet.
Proof. split; try done. intros name w. cbn. by destruct (String.prefix "lstat " name). Qed.
Lemma fits_here r : (sp_State r != "terminal") = true → validatePreparation r "/w" = None → copy_preparation r = r →
  match Preparation_json r with Some data => strlen data <=? maxPreparationBytes | None => false end = true → fits quiet r.
Proof.
  intros H1 H2 H3 H4. split; [|done|done|].
  - by apply negb_true_iff, bool_decide_eq_false in H1.
  - destruct (Preparation_json r) as [data|]; [|done]. exists data. split; [done|]. by apply Z.leb_le.
Qed.
Lemma accepted_request_started_witness :
  under_way quiet request_id wish None "Fix the build" fresh (createPreparation quiet request_id wish fresh).1.
Proof.
  destruct (accepted_request_started quiet quiet_calm request_id wish None "Fix the build") with (σ := fresh) as [H _].
  - done.
  - intros w w'. apply fits_here; computed.
  - intros w w' w''. apply fits_here; computed.
  - done.
  - by split_and!.
  - computed.
  - exact H.
Defined.
