(* ===== verification/UploadTypes.v ===== *)
(** * Private uploads: data

    The catalog of [uploads/store.go]: scopes that own files, the files with their
    upload progress, the submissions that refer to them, and their JSON text; the
    attachments shown for them; identities and names. *)

From S2P Require Import Prelude GoStrings GoJson GoLibrary GoTime Communication.
From Stdlib Require Import Ascii.

Open Scope Z_scope.

Definition maxCatalogBytes : Z := Z.shiftl 16 20.
Definition maxRecords : Z := 10000.
Definition draftLifetime : Z := 7 * 24 * 3600 * 1000000000.
Definition DefaultPromptFiles : Z := 50.

Definition idPattern (s : string) : bool := match_classes uuid_classes s.

(** [conversation.UploadLimits] *)
Record Limits := mkLimits {
  FileBytes : Z; PromptBytes : Z; SessionBytes : Z; WorkspaceBytes : Z; ChunkBytes : Z; Files : Z }.
Definition DefaultLimits : Limits :=
  mkLimits (Z.shiftl 1 30) (Z.shiftl 2 30) (Z.shiftl 10 30) (Z.shiftl 100 30) (Z.shiftl 4 20) DefaultPromptFiles.

Record Scope := mkScope {
  sc_ID : string; sc_Slug : string; sc_Thread : string; sc_Epoch : string;
  sc_Draft : bool; sc_Deleted : bool; sc_Created : Stamp }.
#[export] Instance eta_Scope : Eta Scope := λ s,
  mkScope (sc_ID s) (sc_Slug s) (sc_Thread s) (sc_Epoch s) (sc_Draft s) (sc_Deleted s) (sc_Created s).

(** A nil slice of checksums is written as an empty one: both are omitted. *)
Record fileRecord := mkFile {
  fr_ID : string; fr_ClientID : string; fr_Scope : string; fr_Name : string; fr_Size : Z; fr_Offset : Z;
  fr_Checksums : list string; fr_State : string; fr_Updated : Stamp }.
#[export] Instance eta_File : Eta fileRecord := λ r,
  mkFile (fr_ID r) (fr_ClientID r) (fr_Scope r) (fr_Name r) (fr_Size r) (fr_Offset r) (fr_Checksums r)
    (fr_State r) (fr_Updated r).

Record submission := mkSubmission {
  sb_Scope : string; sb_Kind : string; sb_Attempt : string; sb_Text : string; sb_Wire : string;
  sb_Files : slice string; sb_State : string; sb_QueueID : string; sb_ItemID : string }.
#[export] Instance eta_Submission : Eta submission := λ s,
  mkSubmission (sb_Scope s) (sb_Kind s) (sb_Attempt s) (sb_Text s) (sb_Wire s) (sb_Files s) (sb_State s)
    (sb_QueueID s) (sb_ItemID s).

Record catalog := mkCatalog {
  ct_Schema : Z; ct_Workspace : string; ct_Scopes : gmap string Scope; ct_Files : gmap string fileRecord;
  ct_Submissions : gmap string submission }.
#[export] Instance eta_Catalog : Eta catalog := λ c,
  mkCatalog (ct_Schema c) (ct_Workspace c) (ct_Scopes c) (ct_Files c) (ct_Submissions c).

#[export] Instance Scope_eq_dec : EqDecision Scope.
Proof. solve_decision. Defined.
#[export] Instance fileRecord_eq_dec : EqDecision fileRecord.
Proof. solve_decision. Defined.
#[export] Instance submission_eq_dec : EqDecision submission.
Proof. solve_decision. Defined.
#[export] Instance catalog_eq_dec : EqDecision catalog.
Proof. solve_decision. Defined.

(** The zero values a Go map gives for a missing key. *)
Definition no_scope : Scope := mkScope "" "" "" "" false false no_stamp.
Definition no_file : fileRecord := mkFile "" "" "" "" 0 0 [] "" no_stamp.
Definition scope_at (c : catalog) (id : string) : Scope := default no_scope (ct_Scopes c !! id).
Definition file_at (c : catalog) (id : string) : fileRecord := default no_file (ct_Files c !! id).

(** ** JSON text *)

Definition optional_string (name value : string) : jfield := omitempty (value == "") name (json_string value).
Definition Scope_json (s : Scope) : json :=
  json_struct [field "id" (json_string (sc_ID s)); optional_string "slug" (sc_Slug s);
               optional_string "thread" (sc_Thread s); optional_string "epoch" (sc_Epoch s);
               field "draft" (json_bool (sc_Draft s)); omitempty (negb (sc_Deleted s)) "deleted" (json_bool (sc_Deleted s));
               field "created" (json_stamp (sc_Created s))].
Definition fileRecord_json (r : fileRecord) : json :=
  json_struct [field "id" (json_string (fr_ID r)); field "clientId" (json_string (fr_ClientID r));
               field "scope" (json_string (fr_Scope r)); field "name" (json_string (fr_Name r));
               field "size" (json_int (fr_Size r)); field "offset" (json_int (fr_Offset r));
               omitempty (bool_decide (fr_Checksums r = [])) "checksums" (json_array (map json_string (fr_Checksums r)));
               field "state" (json_string (fr_State r)); field "updated" (json_stamp (fr_Updated r))].
Definition submission_json (s : submission) : json :=
  json_struct [field "scope" (json_string (sb_Scope s)); field "kind" (json_string (sb_Kind s));
               field "attempt" (json_string (sb_Attempt s)); field "text" (json_string (sb_Text s));
               field "wire" (json_string (sb_Wire s)); field "files" (json_slice json_string (sb_Files s));
               field "state" (json_string (sb_State s)); optional_string "queueId" (sb_QueueID s);
               optional_string "itemId" (sb_ItemID s)].
Definition catalog_json (c : catalog) : json :=
  json_struct [field "schema" (json_int (ct_Schema c)); field "workspace" (json_string (ct_Workspace c));
               field "scopes" (json_map Scope_json (ct_Scopes c)); field "files" (json_map fileRecord_json (ct_Files c));
               field "submissions" (json_map submission_json (ct_Submissions c))].

(** ** Identities and names *)

Definition problem (status : Z) (message : string) : error := ErrUpload status message.

(** [newID] of sixteen random bytes *)
Definition version_bits (i : nat) (b : Z) : Z :=
  if (i =? 6)%nat then Z.lor (Z.land b 15) 64 else if (i =? 8)%nat then Z.lor (Z.land b 63) 128 else b.
Definition id_text (raw : list Z) : string :=
  let encoded := hex_encode (imap version_bits raw) in
  String.substring 0 8 encoded +:+ "-" +:+ String.substring 8 4 encoded +:+ "-" +:+ String.substring 12 4 encoded +:+ "-" +:+
  String.substring 16 4 encoded +:+ "-" +:+ String.substring 20 12 encoded.

(** [filepath.Ext] *)
Fixpoint last_dot (s : string) (found : option string) : option string :=
  match s with
  | EmptyString => found
  | String c t => last_dot t (if is_slash c then None else if is_char c "."%char then Some s else found)
  end.
Definition Ext (path : string) : string := default "" (last_dot path None).

Definition extension_char (c : ascii) : bool :=
  is_char c "."%char || in_range 97 122 (code c) || in_range 65 90 (code c) || in_range 48 57 (code c).
Definition partial_name : string := "partial".
Definition final_name (r : fileRecord) : string :=
  let extension := Ext (fr_Name r) in
  "file" +:+ (if (16 <? strlen extension) || negb (all_chars extension_char extension) then "" else extension).

(** [strings.IndexFunc(name, unicode.IsControl) >= 0] on valid UTF-8: U+0000 to
    U+001F and U+007F to U+009F. *)
Fixpoint has_control (s : string) : bool :=
  match s with
  | EmptyString => false
  | String c t =>
      (code c <? 32) || (code c =? 127)
      || ((code c =? 194) && match t with String d _ => in_range 128 159 (code d) | EmptyString => false end)
      || has_control t
  end.

(** ** What is shown *)

(** [codex.Attachment] and [conversation.Upload] *)
Record Attachment := mkAttachment {
  att_ID : string; att_Name : string; att_Size : Z; att_State : string; att_DownloadURL : string;
  att_DeleteURL : string; att_References : list string }.
#[export] Instance eta_Attachment : Eta Attachment := λ a,
  mkAttachment (att_ID a) (att_Name a) (att_Size a) (att_State a) (att_DownloadURL a) (att_DeleteURL a) (att_References a).
Record Upload := mkUpload { upl_Attachment : Attachment; upl_Offset : Z; upl_Checksums : list string }.
#[export] Instance eta_Upload : Eta Upload := λ u, mkUpload (upl_Attachment u) (upl_Offset u) (upl_Checksums u).

(** Some value of a map satisfies a condition: the order of the search does not matter. *)
Definition any {A} (f : A → bool) (m : gmap string A) : bool := existsb f (map snd (map_to_list m)).
Definition refers (id : string) (s : submission) : bool := bool_decide (id ∈ elems (sb_Files s)).

Definition accessible (c : catalog) (scopeID fileID : string) : bool :=
  match ct_Scopes c !! scopeID, ct_Files c !! fileID with
  | Some scope, Some file =>
      negb (sc_Deleted scope)
      && ((fr_Scope file == scopeID) || any (λ e, (sb_Scope e == scopeID) && refers fileID e) (ct_Submissions c))
  | _, _ => false
  end.

(** The slugs of the sessions whose submissions refer to the file, as the keys of a set, sorted. *)
Definition references (c : catalog) (id : string) : list string :=
  let slug (e : submission) : option string :=
    let scope := scope_at c (sb_Scope e) in
    if refers id e && (sb_State e != "cancelled") && negb (sc_Deleted scope) && (sc_Slug scope != "")
    then Some (sc_Slug scope) else None in
  sort_slugs (elements (list_to_set (omap slug (map snd (map_to_list (ct_Submissions c)))) : gset string)).

Definition view (c : catalog) (r : fileRecord) (baseURL : string) : Upload :=
  let ready := fr_State r == "ready" in
  mkUpload (mkAttachment (fr_ID r) (fr_Name r) (fr_Size r) (fr_State r)
              (if ready then baseURL +:+ "/" +:+ fr_ID r +:+ "/content" else "")
              (if ready then baseURL +:+ "/" +:+ fr_ID r else "")
              (references c (fr_ID r)))
    (fr_Offset r) (fr_Checksums r).

Example upload_names :
  map final_name [no_file <| fr_Name := "a/b.tar.gz" |>; no_file <| fr_Name := "x.p/n" |>; no_file <| fr_Name := "n.a-b" |>]
  = ["file.gz"; "file"; "file"]
  ∧ idPattern (id_text [1; 2; 3; 4; 5; 6; 255; 8; 255; 10; 11; 12; 13; 14; 15; 16]) = true.
Proof. vm_compute. split; reflexivity. Qed.
