(* ===== verification/UploadStore.v ===== *)
(** * Private uploads: the catalog and its transactions

    [Store] of [uploads/store.go]: the catalog file, the directories of uploaded
    bytes, and [transaction], which locks, loads, checks and compacts the catalog,
    runs an operation on it and saves what changed.  Operations are procedures over
    [UpSys]; the operating system is a [UpRuntime], every call of which may fail. *)

From S2P Require Import Prelude Effects GoStrings GoJson GoLibrary GoTime RetrySys UploadTypes.

Open Scope Z_scope.

(** A file of an upload's directory. *)
Record blob := mkBlob { bl_Data : list Z; bl_Regular : bool }.

(** The catalog file: the members of its JSON object, with its size and whether more
    follows; or text that does not decode. *)
Inductive member (A : Type) := mb_absent | mb_null | mb_value (a : A).
Arguments mb_absent {A}. Arguments mb_null {A}. Arguments mb_value {A} a.
Record payload := mkPayload {
  pl_Schema : member Z; pl_Workspace : member string; pl_Scopes : member (gmap string Scope);
  pl_Files : member (gmap string fileRecord); pl_Submissions : member (gmap string submission) }.
Inductive catalog_file :=
  | cf_text (size : Z) (p : payload) (trailing : bool)
  | cf_broken (size : Z) (e : error).

(** [up_durable] is the catalog file that survives a crash of the machine. *)
Record UpSys (W : Type) := mkUp {
  up_world : W;
  up_file : option catalog_file;
  up_durable : option catalog_file;
  up_unconfirmed : bool;
  up_blobs : gmap string (gmap string blob) }.
#[export] Instance eta_Blob : Eta blob := λ b, mkBlob (bl_Data b) (bl_Regular b).
Arguments mkUp {W}. Arguments up_world {W}. Arguments up_file {W}. Arguments up_durable {W}.
Arguments up_unconfirmed {W}. Arguments up_blobs {W}.
#[export] Instance eta_Up {W} : Eta (UpSys W) := λ σ,
  mkUp (up_world σ) (up_file σ) (up_durable σ) (up_unconfirmed σ) (up_blobs σ).

(** The clock, randomness, the order a Go map is visited in and what the operating
    system answers.  [ur_call] is any call that only succeeds or fails, [ur_write] a
    write that may stop after some bytes, [ur_remove] a removal that may leave some
    files, [ur_others] what other processes do while no lock is held. *)
Record UpRuntime (W : Type) := mkUpRuntime {
  ur_now : W → W * Stamp;
  ur_random : W → W * result (list Z);
  ur_range : list string → W → W * list string;
  ur_lstat : W → W * result (bool * bool * Z);
  ur_lock : W → W * option error;
  ur_statfs : W → W * result (Z * Z);
  ur_call : string → W → W * option error;
  ur_write : W → W * option (nat * error);
  ur_remove : list string → W → W * option (list string * error);
  ur_entries : W → W * result (list string);
  ur_others : UpSys W → UpSys W }.
Arguments ur_now {W}. Arguments ur_random {W}. Arguments ur_range {W}. Arguments ur_lstat {W}. Arguments ur_lock {W}.
Arguments ur_statfs {W}. Arguments ur_call {W}. Arguments ur_write {W}. Arguments ur_remove {W}.
Arguments ur_entries {W}. Arguments ur_others {W}.

Record Store := mkStore { Directory : string; Workspace : string; UploadLimits : Limits; MinFreeBytes : Z }.

Definition New (directory workspace : string) : result Store :=
  let directory := Clean directory in
  if negb (IsAbs directory) || negb (IsAbs workspace) || (directory == workspace)
     || String.prefix (workspace +:+ "/") directory
  then Err (ErrorsNew "upload storage must be an absolute private path outside the workspace")
  else Ok (mkStore directory workspace DefaultLimits (Z.shiftl 1 30)).

(** ** Conditions on the catalog *)

(** [preparationMutation] *)
Definition accepted_request (scopeID : string) (e : submission) : bool :=
  (sb_Scope e == scopeID) && (sb_Kind e == "initial") && String.prefix "preparation:" (sb_Attempt e)
  && (sb_State e == "pending").
Definition preparationMutation (c : catalog) (scopeID : string) : option error :=
  if negb (sc_Draft (scope_at c scopeID)) then None
  else if any (accepted_request scopeID) (ct_Submissions c)
  then Some (problem 409 "Initial files belong to an accepted session request") else None.

(** [preparationClaimConflict] *)
Definition competes (scopeID ownerKey : string) (kv : string * submission) : bool :=
  (kv.1 != ownerKey) && (sb_Scope kv.2 == scopeID) && (sb_State kv.2 != "cancelled").
Definition preparationClaimConflict (c : catalog) (scopeID ownerKey : string) : option error :=
  match ct_Scopes c !! scopeID with
  | None => Some (problem 409 "Initial attachment ownership changed")
  | Some scope =>
      if sc_Deleted scope then Some (problem 409 "Initial attachment ownership changed")
      else if sc_Draft scope && existsb (competes scopeID ownerKey) (map_to_list (ct_Submissions c))
      then Some (problem 409 "Initial files have a competing submission") else None
  end.

(** [catalogSize] *)
Definition catalogSize (c : catalog) : Z * Z :=
  (Z.of_nat (size (ct_Files c)) + Z.of_nat (size (ct_Scopes c)) + Z.of_nat (size (ct_Submissions c)),
   foldr (λ r n, Z.of_nat (length (fr_Checksums r)) + n) 0 (map snd (map_to_list (ct_Files c)))).

(** A submission whose retry and history obligations have ended. *)
Definition obsolete (c : catalog) (s : submission) : bool :=
  if (sb_State s == "prepared") || (sb_State s == "cancelled")
  then forallb (λ id, match ct_Files c !! id with Some f => fr_State f == "deleted" | None => true end) (elems (sb_Files s))
  else sc_Deleted (scope_at c (sb_Scope s)).
Definition drop_obsolete (c : catalog) : catalog :=
  c <| ct_Submissions := filter (λ kv, obsolete c kv.2 = false) (ct_Submissions c) |>.
Definition referenced (c : catalog) (id : string) : bool := any (refers id) (ct_Submissions c).
Definition occupied (c : catalog) (scopeID : string) : bool :=
  any (λ s, sb_Scope s == scopeID) (ct_Submissions c) || any (λ r, fr_Scope r == scopeID) (ct_Files c).

(** ** What a transaction checks of the catalog it loads *)

Definition record_invalid (kv : string * fileRecord) : bool :=
  let '(id, r) := kv in
  negb (idPattern id) || (fr_ID r != id) || (fr_Size r <? 0) || (fr_Offset r <? 0) || (fr_Size r <? fr_Offset r)
  || (4096 <? Z.of_nat (length (fr_Checksums r))).
Definition check_records (c : catalog) : option error :=
  if (maxRecords <? Z.of_nat (size (ct_Files c))) || (maxRecords <? Z.of_nat (size (ct_Scopes c)))
     || (maxRecords <? Z.of_nat (size (ct_Submissions c)))
  then Some (ErrorsNew "upload catalog exceeds its record limit")
  else if existsb record_invalid (map_to_list (ct_Files c)) then Some (ErrorsNew "invalid upload record") else None.

(** Decoding into a catalog with the given members: an absent or null number or
    string keeps it, a null map becomes nil. *)
Definition keep_member {A} (a : A) (m : member A) : A := match m with mb_value b => b | _ => a end.
Definition map_member {A} (m : member (gmap string A)) : option (gmap string A) :=
  match m with mb_absent => Some ∅ | mb_null => None | mb_value b => Some b end.
Definition wrong_identity : error := ErrorsNew "upload catalog has the wrong identity".

Section Catalog.
Context (st : Store).

Definition empty_catalog : catalog := mkCatalog 1 (Workspace st) ∅ ∅ ∅.
Definition decode_payload (p : payload) : result catalog :=
  let schema := keep_member 1 (pl_Schema p) in
  let workspace := keep_member (Workspace st) (pl_Workspace p) in
  match map_member (pl_Scopes p), map_member (pl_Files p), map_member (pl_Submissions p) with
  | Some scopes, Some files, Some submissions =>
      if (schema != 1) || (workspace != Workspace st) then Err wrong_identity
      else Ok (mkCatalog schema workspace scopes files submissions)
  | _, _, _ => Err wrong_identity
  end.
Definition decode_catalog (f : option catalog_file) : result catalog :=
  match f with
  | None => Ok empty_catalog
  | Some (cf_broken size e) => if maxCatalogBytes <? size then Err (ErrorsNew "upload catalog is too large") else Err e
  | Some (cf_text size p trailing) =>
      if maxCatalogBytes <? size then Err (ErrorsNew "upload catalog is too large")
      else if trailing then Err (ErrorsNew "upload catalog has trailing data")
      else decode_payload p
  end.
Definition load_catalog (f : option catalog_file) : result catalog :=
  c ← decode_catalog f;
  match check_records c with Some e => Err e | None => Ok c end.

Definition payload_of (c : catalog) : payload :=
  mkPayload (mb_value (ct_Schema c)) (mb_value (ct_Workspace c)) (mb_value (ct_Scopes c)) (mb_value (ct_Files c))
    (mb_value (ct_Submissions c)).
End Catalog.

Abbreviation Up W := (SE (UpSys W)).

Section Store.
Context {W : Type} (rt : UpRuntime W) (st : Store).

Definition uask {A} (f : W → W * A) : Up W A :=
  λ σ, let '(w, a) := f (up_world σ) in (σ <| up_world := w |>, Ok a).
Definition call (name : string) : Up W unit := e ← uask (ur_call rt name); lift_error e.

(** [for key, value := range m]; a body changes no other key of the map it visits. *)
Definition range {A} (m : gmap string A) : Up W (list (string * A)) :=
  ks ← uask (ur_range rt (map fst (map_to_list m)));
  mret (omap (λ k, a ← m !! k; Some (k, a)) ks).
Fixpoint for_each {A D} (body : A → D → Up W D) (l : list A) (d : D) : Up W D :=
  match l with [] => mret d | a :: l => d ← body a d; for_each body l d end.

Definition expired (t : Stamp) : Up W bool := now ← uask (ur_now rt); mret (draftLifetime <=? Sub now t).

(** [newID] *)
Definition newID : Up W string := raw ← uask (ur_random rt); raw ← lift_result raw; mret (id_text raw).

(** ** Durability *)

Definition confirmCatalog : Up W unit :=
  r ← attempt (call "sync catalog";; call "sync directory");
  match r with
  | Err e =>
      modify (λ σ, σ <| up_unconfirmed := true |>);;
      fail (ErrWrap ErrPersistenceUnconfirmed "upload catalog persistence is unconfirmed")
  | Ok _ => modify (λ σ, σ <| up_unconfirmed := false |> <| up_durable := up_file σ |>)
  end.

(** ** Compaction *)

Definition compact_file (kv : string * fileRecord) (d : catalog * bool) : Up W (catalog * bool) :=
  let '(id, r) := kv in
  let '(c, changed) := d in
  let cleared := (fr_State r != "uploading") && negb (bool_decide (fr_Checksums r = [])) in
  let c := when cleared (λ c, c <| ct_Files ::= <[id := r <| fr_Checksums := [] |>]> |>) c in
  remove ← (if (fr_State r == "deleted") && negb (referenced c id) then
              (if sc_Deleted (scope_at c (fr_Scope r)) then mret true else expired (fr_Updated r))
            else mret false);
  mret (if remove : bool then (c <| ct_Files ::= delete id |>, true) else (c, changed || cleared)).

Definition compact_scope (kv : string * Scope) (d : catalog * bool) : Up W (catalog * bool) :=
  let '(id, s) := kv in
  let '(c, changed) := d in
  remove ← (if negb (occupied c id) then (if sc_Deleted s then mret true else expired (sc_Created s)) else mret false);
  mret (if remove : bool then (c <| ct_Scopes ::= delete id |>, true) else (c, changed)).

Definition compact (c : catalog) : Up W (catalog * bool) :=
  let changed := any (obsolete c) (ct_Submissions c) in
  let c := drop_obsolete c in
  files ← range (ct_Files c);
  '(c, changed) ← for_each compact_file files (c, changed);
  scopes ← range (ct_Scopes c);
  for_each compact_scope scopes (c, changed).

(** ** Transactions *)

Definition directory_refused (i : bool * bool * Z) : bool :=
  let '(is_dir, symlink, perm) := i in negb is_dir || symlink || (Z.land perm 63 != 0).

Definition lock_catalog : Up W unit :=
  call "mkdir";;
  i ← uask (ur_lstat rt); i ← lift_result i;
  (if directory_refused i then fail (ErrorsNew "upload directory must be private") else mret tt);;
  call "open lock";;
  e ← uask (ur_lock rt); lift_error e.

Definition history_full : error :=
  problem 507 "Upload history is full; delete unused sessions or wait for unused drafts to expire".
Definition save_catalog (original : Z * Z) (c : catalog) : Up W unit :=
  match catalog_json c with
  | None => fail (ErrorsNew "json: error calling MarshalJSON")
  | Some encoded =>
      let '(records, chunks) := catalogSize c in
      if (maxCatalogBytes <? strlen encoded)
         || ((maxCatalogBytes - Z.shiftl 1 20 <? strlen encoded) && ((original.1 <? records) || (original.2 <? chunks)))
      then fail history_full else
      call "write catalog";;
      modify (λ σ, σ <| up_file := Some (cf_text (strlen encoded) (payload_of c) false) |> <| up_unconfirmed := true |>);;
      confirmCatalog
  end.

(** The part before [fn]: the sizes of the catalog that was loaded, and the compacted one. *)
Definition begin_transaction : Up W (Z * Z * (catalog * bool)) :=
  lock_catalog;;
  f ← gets up_file;
  (if bool_decide (f = None) then mret tt else call "read catalog");;
  c ← lift_result (load_catalog st f);
  u ← gets up_unconfirmed;
  (if u : bool then confirmCatalog else mret tt);;
  compacted ← compact c;
  mret (catalogSize c, compacted).

(** [fn] is given the compacted catalog and answers with the changed one, whether it
    changed it and its result, which is that of the transaction when all succeeds. *)
Definition transaction {A} (fn : catalog → Up W (catalog * bool * A)) : Up W A :=
  '(original, (c, compacted)) ← begin_transaction;
  '(c, changed, a) ← fn c;
  if negb changed && negb compacted then mret a else
  save_catalog original c;;
  mret a.

(** ** Scopes *)

Definition NewDraft : Up W Scope :=
  transaction (λ c,
    if maxRecords <=? Z.of_nat (size (ct_Scopes c)) then fail (problem 507 "Too many upload drafts") else
    id ← newID;
    now ← uask (ur_now rt);
    let s := mkScope id "" "" "" true false now in
    mret (c <| ct_Scopes ::= <[id := s]> |>, true, s)).

Definition session_scope (slug thread epoch : string) (kv : string * Scope) : bool :=
  let s := kv.2 in
  negb (sc_Deleted s) && negb (sc_Draft s) && (sc_Slug s == slug) && (sc_Thread s == thread) && (sc_Epoch s == epoch).
Definition SessionScope (slug thread epoch : string) : Up W Scope :=
  transaction (λ c,
    scopes ← range (ct_Scopes c);
    match List.find (session_scope slug thread epoch) scopes with
    | Some (_, s) => mret (c, false, s)
    | None =>
        if maxRecords <=? Z.of_nat (size (ct_Scopes c)) then fail (problem 507 "Too many upload scopes") else
        id ← newID;
        now ← uask (ur_now rt);
        let s := mkScope id slug thread epoch false false now in
        mret (c <| ct_Scopes ::= <[id := s]> |>, true, s)
    end).

Definition unavailable_scope : error := problem 404 "Upload scope is unavailable".
(** [Store.Scope] *)
Definition find_scope (id : string) : Up W Scope :=
  transaction (λ c,
    match ct_Scopes c !! id with
    | Some s => if sc_Deleted s then fail unavailable_scope else mret (c, false, s)
    | None => fail unavailable_scope
    end).

Definition Scopes : Up W (list Scope) :=
  transaction (λ c, scopes ← range (ct_Scopes c); mret (c, false, map snd scopes)).

Definition HasThread (thread : string) : Up W bool :=
  transaction (λ c, mret (c, false, any (λ s, sc_Thread (scope_at c (sb_Scope s)) == thread) (ct_Submissions c))).

End Store.
