(* ===== verification/UploadBackend.v ===== *)
(** * Private uploads: the uploaded files

    [Backend] of [uploads/store.go] as far as it moves bytes: an upload is created,
    appended to in checksummed chunks, completed, opened and deleted; [reclaim]
    unlinks what the catalog no longer knows. *)

From S2P Require Import Prelude Effects GoStrings GoTime GoLibrary Sha256 Communication UploadTypes UploadStore.

Open Scope Z_scope.

(** ** Bytes and files *)

Definition checksum (bytes : list Z) : string := hex_encode (Sum256 bytes).

(** [File.Truncate] and [File.WriteAt]; a gap is filled with zeros. *)
Definition truncate_bytes (n : nat) (data : list Z) : list Z := take n data ++ repeat 0 (n - length data).
Definition write_at (n : nat) (bytes data : list Z) : list Z :=
  truncate_bytes n data ++ bytes ++ drop (n + length bytes) data.

(** A scope's backend.  [LockReferences] answers with the function that releases the locks. *)
Record Backend (W : Type) := mkBackend {
  b_ScopeID : string; b_BaseURL : string; b_ReadOnly : bool;
  b_CheckIdle : option (list Scope → W → W * option error);
  b_LockReferences : option (list Scope → W → W * result (W → W)) }.
Arguments mkBackend {W}. Arguments b_ScopeID {W}. Arguments b_BaseURL {W}. Arguments b_ReadOnly {W}.
Arguments b_CheckIdle {W}. Arguments b_LockReferences {W}.

(** [conversation.UploadRequest] and [conversation.UploadContent] *)
Record UploadRequest := mkRequest { rq_ClientID : string; rq_Name : string; rq_Size : Z }.
Record UploadContent := mkContent { uc_Data : list Z; uc_Name : string; uc_Modified : Stamp }.

Definition unavailable : error := problem 404 "File is unavailable".

(** The sums of [Create] over the files that are not deleted. *)
Record usage := mkUsage { us_Workspace : Z; us_Scope : Z; us_Count : Z }.

Section Backend.
Context {W : Type} (rt : UpRuntime W) (st : Store).

Definition blob_at (id name : string) (σ : UpSys W) : option blob := d ← up_blobs σ !! id; d !! name.
Definition put_blob (id name : string) (b : blob) : Up W unit :=
  modify (λ σ, σ <| up_blobs ::= λ m, <[id := <[name := b]> (default ∅ (m !! id))]> m |>).
Definition open_blob (id name : string) : Up W blob :=
  b ← gets (blob_at id name);
  match b with None => fail ErrNotExist | Some b => call rt "open";; mret b end.

(** [os.RemoveAll] of an upload's directory *)
Definition remove_all (id : string) : Up W unit :=
  d ← gets (λ σ, default ∅ (up_blobs σ !! id));
  o ← uask (ur_remove rt (map fst (map_to_list d)));
  match o with
  | None => modify (λ σ, σ <| up_blobs ::= delete id |>)
  | Some (left_, e) =>
      modify (λ σ, σ <| up_blobs ::= alter (filter (λ kv, kv.1 ∈ left_)) id |>);;
      fail e
  end.

(** [reclaim] *)
Definition reclaim_entry (c : catalog) (id : string) : Up W unit :=
  if bool_decide (ct_Files c !! id = None) && idPattern id then remove_all id else mret tt.
Definition reclaim_record (kv : string * fileRecord) : Up W unit :=
  if fr_State kv.2 == "deleted" then remove_all (fr_ID kv.2) else mret tt.
Definition reclaim : Up W unit :=
  transaction rt st (λ c,
    listed ← uask (ur_entries rt);
    entries ← (match listed with
               | Ok other => known ← gets (λ σ, map fst (map_to_list (up_blobs σ))); mret (sort_slugs (known ++ other))
               | Err e => if errors_Is e ErrNotExist then mret [] else fail e
               end);
    for_each (λ id _, reclaim_entry c id) entries tt;;
    files ← range rt (ct_Files c);
    for_each (λ kv _, reclaim_record kv) files tt;;
    mret (c, false, tt)).

Context (b : Backend W).

Definition show (c : catalog) (r : fileRecord) : Upload := view c r (b_BaseURL b).
(** What a read-only backend shows. *)
Definition show_read (c : catalog) (r : fileRecord) : Upload :=
  when (b_ReadOnly b) (λ u, u <| upl_Attachment ::= λ a, a <| att_DeleteURL := "" |> |>) (show c r).

(** ** Listing *)

Definition List : Up W (list Upload) :=
  transaction rt st (λ c,
    let visible := List.filter (λ kv, accessible c (b_ScopeID b) kv.1) (map_to_list (ct_Files c)) in
    mret (c, false, map (λ kv, show_read c kv.2) (GoJson.sort_keys visible))).

Definition Status (id : string) : Up W Upload :=
  transaction rt st (λ c,
    if negb (accessible c (b_ScopeID b) id) then fail unavailable
    else mret (c, false, show_read c (file_at c id))).

(** ** Creating an upload *)

(** The scan for the client's identity, which sums what other files use. *)
Fixpoint scan_files (scopeID : string) (q : UploadRequest) (l : list (string * fileRecord)) (u : usage)
    : result (fileRecord + usage) :=
  match l with
  | [] => Ok (inr u)
  | (_, r) :: l =>
      if (fr_Scope r == scopeID) && (fr_ClientID r == rq_ClientID q) then
        if (fr_Name r != rq_Name q) || negb (fr_Size r =? rq_Size q)
        then Err (problem 409 "Upload identity was reused for a different file") else Ok (inl r)
      else if fr_State r == "deleted" then scan_files scopeID q l u
      else
        let own := fr_Scope r == scopeID in
        scan_files scopeID q l
          (mkUsage (i64 (us_Workspace u + fr_Size r)) (if own then i64 (us_Scope u + fr_Size r) else us_Scope u)
             (if own then us_Count u + 1 else us_Count u))
  end.

Definition name_refused (q : UploadRequest) : option error :=
  if rq_Name q == "" then Some (problem 400 "Filename must not be empty")
  else if negb (utf8_valid (rq_Name q)) then Some (problem 400 "Filename must be valid UTF-8")
  else if 255 <? strlen (rq_Name q)
  then Some (problem 400 "Filename exceeds 255 UTF-8 bytes; shorten it and select the file again")
  else if has_control (rq_Name q)
  then Some (problem 400 "Filename contains control characters; rename the file and select it again") else None.

Definition size_refused (scope : Scope) (records : Z) (u : usage) (q : UploadRequest) : option error :=
  let limits := UploadLimits st in
  let limit := if sc_Draft scope then PromptBytes limits else SessionBytes limits in
  if rq_Size q <? 0 then Some (problem 400 "File size must not be negative")
  else if FileBytes limits <? rq_Size q then Some (problem 413 "File exceeds the upload size limit")
  else if (i64 (limit - us_Scope u) <? rq_Size q) || (i64 (WorkspaceBytes limits - us_Workspace u) <? rq_Size q)
          || (1000 <=? us_Count u) || (maxRecords <=? records)
  then Some (problem 413 "Upload storage limit reached; remove unused files") else None.

(** Bytes accepted but not received yet. *)
Definition reserved (c : catalog) : Z :=
  foldr (λ r n, if fr_State r == "uploading" then u64 (n + u64 (i64 (fr_Size r - fr_Offset r))) else n) 0
    (map snd (map_to_list (ct_Files c))).

Definition create_partial (id : string) : Up W unit :=
  call rt "mkdir upload";;
  modify (λ σ, σ <| up_blobs ::= λ m, <[id := default ∅ (m !! id)]> m |>);;
  present ← gets (blob_at id partial_name);
  (if bool_decide (present = None) then mret tt else fail (ErrorsNew "file exists"));;
  call rt "create partial";;
  put_blob id partial_name (mkBlob [] true);;
  call rt "sync partial".

Definition admit_upload (q : UploadRequest) (c : catalog) (scope : Scope) (u : usage) : Up W (catalog * bool * Upload) :=
  lift_error (preparationMutation c (b_ScopeID b));;
  lift_error (name_refused q);;
  lift_error (size_refused scope (Z.of_nat (size (ct_Files c))) u q);;
  disk ← uask (ur_statfs rt); disk ← lift_result disk;
  let free := u64 (disk.1 * u64 disk.2) in
  let needed := u64 (u64 (MinFreeBytes st + reserved c) + u64 (rq_Size q)) in
  (if free <? needed then fail (problem 507 "Not enough free disk space for this upload") else mret tt);;
  id ← newID rt;
  now ← uask (ur_now rt);
  let r := mkFile id (rq_ClientID q) (b_ScopeID b) (rq_Name q) (rq_Size q) 0 [] "uploading" now in
  create_partial id;;
  let c := c <| ct_Files ::= <[id := r]> |> in
  mret (c, true, show c r).

Definition Create (q : UploadRequest) : Up W Upload :=
  if negb (idPattern (rq_ClientID q))
  then fail (problem 400 "Invalid upload identity; remove the file and select it again") else
  transaction rt st (λ c,
    match ct_Scopes c !! b_ScopeID b with
    | None => fail unavailable_scope
    | Some scope =>
        if sc_Deleted scope then fail unavailable_scope else
        files ← range rt (ct_Files c);
        scanned ← lift_result (scan_files (b_ScopeID b) q files (mkUsage 0 0 0));
        match scanned with
        | inl r => mret (c, false, show c r)
        | inr u => admit_upload q c scope u
        end
    end).

(** ** Receiving bytes *)

(** [io.ReadAll] of a reader that gives [body] and then fails or ends, up to a limit. *)
Definition read_chunk (body : list Z) (failure : option error) : result (list Z) :=
  let limit := Z.to_nat (ChunkBytes (UploadLimits st) + 1) in
  match failure with
  | Some e => if (length body <? limit)%nat then Err e else Ok (take limit body)
  | None => Ok (take limit body)
  end.

(** The scope's own record, which is not one it only refers to. *)
Definition own_file (c : catalog) (id : string) : Up W fileRecord :=
  match ct_Files c !! id with
  | Some r => if fr_Scope r != b_ScopeID b then fail unavailable else mret r
  | None => fail unavailable
  end.

Definition write_chunk (id : string) (offset : Z) (bytes : list Z) : Up W unit :=
  f ← open_blob id partial_name;
  let n := Z.to_nat offset in
  call rt "truncate";;
  let kept := truncate_bytes n (bl_Data f) in
  put_blob id partial_name (f <| bl_Data := kept |>);;
  failed ← uask (ur_write rt);
  match failed with
  | Some (written, e) => put_blob id partial_name (f <| bl_Data := write_at n (take written bytes) kept |>);; fail e
  | None => put_blob id partial_name (f <| bl_Data := write_at n bytes kept |>)
  end;;
  call rt "sync partial".

Definition Append (id : string) (offset : Z) (sum : string) (body : list Z) (failure : option error) : Up W Upload :=
  bytes ← lift_result (read_chunk body failure);
  let len := Z.of_nat (length bytes) in
  if (len =? 0) || (ChunkBytes (UploadLimits st) <? len) || (checksum bytes != sum)
  then fail (problem 400 "Upload chunk size or checksum is invalid") else
  transaction rt st (λ c,
    lift_error (preparationMutation c (b_ScopeID b));;
    r ← own_file c id;
    if (fr_State r != "uploading") || negb (fr_Offset r =? offset)
    then fail (problem 409 "Upload progress changed; check its current offset") else
    if negb (len =? Z.min (ChunkBytes (UploadLimits st)) (i64 (fr_Size r - offset)))
    then fail (problem 400 "Upload chunk has the wrong length") else
    write_chunk id offset bytes;;
    now ← uask (ur_now rt);
    let r := r <| fr_Offset := i64 (fr_Offset r + len) |> <| fr_Checksums ::= λ l, l ++ [sum] |> <| fr_Updated := now |> in
    let c := c <| ct_Files ::= <[id := r]> |> in
    mret (c, true, show c r)).

(** ** Completing *)

Definition rename_final (r : fileRecord) : Up W unit :=
  f ← gets (blob_at (fr_ID r) partial_name);
  match f with
  | None => fail ErrNotExist
  | Some f =>
      call rt "rename";;
      put_blob (fr_ID r) (final_name r) f;;
      modify (λ σ, σ <| up_blobs ::= alter (delete partial_name) (fr_ID r) |>)
  end.

Definition publish (r : fileRecord) : Up W unit :=
  renamed ← attempt (rename_final r);
  match renamed with
  | Ok _ => mret tt
  | Err e =>
      if negb (errors_Is e ErrNotExist) then fail e else
      found ← gets (blob_at (fr_ID r) (final_name r));
      stat ← attempt (call rt "stat");
      match found, stat with
      | Some f, Ok _ => if negb (Z.of_nat (length (bl_Data f)) =? fr_Size r) then fail e else mret tt
      | _, _ => fail e
      end
  end;;
  call rt "chmod";;
  call rt "open directory";;
  call rt "sync directory".

Definition Complete (id : string) : Up W Upload :=
  transaction rt st (λ c,
    lift_error (preparationMutation c (b_ScopeID b));;
    r ← own_file c id;
    if (fr_State r == "deleted") || negb (fr_Offset r =? fr_Size r)
    then fail (problem 409 "Upload is incomplete or removed") else
    if fr_State r == "ready" then mret (c, false, show c r) else
    publish r;;
    now ← uask (ur_now rt);
    let r := r <| fr_State := "ready" |> <| fr_Checksums := [] |> <| fr_Updated := now |> in
    let c := c <| ct_Files ::= <[id := r]> |> in
    mret (c, true, show c r)).

(** ** Opening *)

Definition Open (id : string) : Up W UploadContent :=
  transaction rt st (λ c,
    match ct_Files c !! id with
    | None => fail unavailable
    | Some r =>
        if negb (accessible c (b_ScopeID b) id) || (fr_State r != "ready") then fail unavailable else
        f ← open_blob (fr_ID r) (final_name r);
        stat ← attempt (call rt "stat");
        if negb (is_ok stat) || negb (bl_Regular f) || negb (Z.of_nat (length (bl_Data f)) =? fr_Size r)
        then fail (ErrorsNew "uploaded file changed")
        else mret (c, false, mkContent (bl_Data f) (fr_Name r) (fr_Updated r))
    end).

(** ** Deleting *)

Definition settled (s : submission) : bool := (sb_State s == "cancelled") || (sb_State s == "prepared").

(** The scopes a deletion needs locked, and the release of their locks. *)
Definition lock_references (id : string) : Up W (gset string * option (W → W)) :=
  match b_LockReferences b with
  | None => mret (∅, None)
  | Some lock =>
      scopes ← transaction rt st (λ c,
        if negb (accessible c (b_ScopeID b) id) then fail unavailable else
        let users := filter (λ kv, refers id kv.2 = true ∧ settled kv.2 = false) (ct_Submissions c) in
        mret (c, false, foldr (λ s m, <[s := scope_at c s]> m) ∅ (b_ScopeID b :: map (λ kv, sb_Scope kv.2) (map_to_list users))));
      refs ← range rt scopes;
      release ← uask (lock (map snd refs));
      release ← lift_result release;
      mret (dom scopes, Some release)
  end.

(** One submission seen by a deletion. *)
Definition check_reference (c : catalog) (locked : gset string) (id : string) (kv : string * submission)
    (scopes : gmap string Scope) : Up W (gmap string Scope) :=
  let s := kv.2 in
  if negb (refers id s) || settled s then mret scopes
  else if (sb_State s == "pending") || (sb_State s == "queued")
  then fail (problem 409 "This file is referenced by a queued or unresolved submission")
  else if bool_decide (is_Some (b_LockReferences b)) && negb (bool_decide (sb_Scope s ∈ locked))
  then fail (problem 409 "File references changed; retry deletion")
  else mret (<[sb_Scope s := scope_at c (sb_Scope s)]> scopes).

Definition check_idle (scopes : gmap string Scope) : Up W unit :=
  refs ← range rt scopes;
  match b_CheckIdle b with
  | None => fail (problem 409 "Unable to verify that referencing sessions are idle")
  | Some check => e ← uask (check (List.filter (λ s, negb (sc_Deleted s)) (map snd refs))); lift_error e
  end.

Definition mark_deleted (id : string) (confirmed : bool) (locked : gset string) : Up W unit :=
  transaction rt st (λ c,
    lift_error (preparationMutation c (b_ScopeID b));;
    match ct_Files c !! id with
    | None => fail unavailable
    | Some r =>
        if negb (accessible c (b_ScopeID b) id) then fail unavailable else
        if fr_State r == "deleted" then mret (c, false, tt) else
        submissions ← range rt (ct_Submissions c);
        scopes ← for_each (check_reference c locked id) submissions ∅;
        (if bool_decide (scopes = ∅) then mret tt
         else if negb confirmed then fail (problem 409 "Confirm deletion of the submitted file")
         else check_idle scopes);;
        now ← uask (ur_now rt);
        mret (c <| ct_Files ::= <[id := r <| fr_State := "deleted" |> <| fr_Checksums := [] |> <| fr_Updated := now |>]> |>,
              true, tt)
    end).

(** Other processes run between the transactions. *)
Definition others : Up W unit := modify (ur_others rt).

Definition Delete (id : string) (confirmed : bool) : Up W unit :=
  '(locked, release) ← lock_references id;
  others;;
  r ← attempt (mark_deleted id confirmed locked;; others;; reclaim);
  (match release with Some f => modify (λ σ, σ <| up_world ::= f |>) | None => mret tt end);;
  lift_result r.

End Backend.
