(* ===== verification/UploadClaims.v ===== *)
(** * Private uploads: submissions and their claims

    The rest of [uploads/store.go]: prompts that refer to files are prepared and
    claimed, bound to the session their creation gives, observed in transcripts and
    queues, inherited by forks, expired and removed. *)

From S2P Require Import Prelude Effects GoStrings GoJson GoLibrary GoTime Sha256 Communication.
From S2P Require Import UploadTypes UploadStore UploadBackend.

Open Scope Z_scope.

(** [codex.TranscriptEntry] and [codex.QueueEntry] as far as they are read and changed. *)
Record TranscriptEntry := mkEntry {
  te_Kind : string; te_Text : string; te_ClientUserMessageID : string; te_ItemID : string;
  te_DisplayText : option string; te_Attachments : list Attachment }.
#[export] Instance eta_Entry : Eta TranscriptEntry := λ e,
  mkEntry (te_Kind e) (te_Text e) (te_ClientUserMessageID e) (te_ItemID e) (te_DisplayText e) (te_Attachments e).
Record QueueEntry := mkQueue {
  qe_ID : string; qe_Text : string; qe_ClientUserMessageID : string; qe_DisplayText : option string;
  qe_Attachments : list Attachment }.
#[export] Instance eta_Queue : Eta QueueEntry := λ e,
  mkQueue (qe_ID e) (qe_Text e) (qe_ClientUserMessageID e) (qe_DisplayText e) (qe_Attachments e).

Definition preparation_attempt (requestID : string) : string := "preparation:" +:+ requestID.
Definition submission_key (scopeID kind attempt : string) : string := scopeID +:+ "/" +:+ kind +:+ "/" +:+ attempt.
Definition ownership_changed : error := problem 409 "Initial attachment ownership changed".

(** The files of a prompt as they are checked: their descriptions, their total size and
    the identities seen. *)
Record described := mkDescribed { ds_files : list fileRecord; ds_total : Z; ds_seen : list string }.

Section Claims.
Context {W : Type} (rt : UpRuntime W) (st : Store).

Definition file_path (r : fileRecord) : string := Join [Directory st; "files"; fr_ID r; final_name r].
Definition description_json (r : fileRecord) : json :=
  json_struct [field "name" (json_string (fr_Name r)); field "size" (json_int (fr_Size r));
               field "path" (json_string (file_path r))].
Definition attached_text (text : string) (files : list fileRecord) : string :=
  TrimSpace (text +:+ new_line 0 +:+ new_line 0
             +:+ "Attached local files (inputs; keep these files outside version control):" +:+ new_line 0
             +:+ default "" (json_indent (json_array (map description_json files)))).

(** ** Preparing a submission *)

Definition describe_file (c : catalog) (scopeID : string) (id : string) (d : described) : Up W described :=
  let r := file_at c id in
  if bool_decide (ct_Files c !! id = None) || negb (accessible c scopeID id) || (fr_State r != "ready")
     || bool_decide (id ∈ ds_seen d)
  then fail (problem 400 "An attachment is unavailable, incomplete or repeated") else
  let total := i64 (ds_total d + fr_Size r) in
  if PromptBytes (UploadLimits st) <? total then fail (problem 413 "Attachments exceed the prompt size limit") else
  f ← gets (blob_at (fr_ID r) (final_name r));
  stat ← attempt (call rt "lstat");
  match f with
  | Some f =>
      if negb (is_ok stat) || negb (bl_Regular f) || negb (Z.of_nat (length (bl_Data f)) =? fr_Size r)
      then fail (problem 409 "An uploaded file is unavailable")
      else mret (mkDescribed (ds_files d ++ [r]) total (id :: ds_seen d))
  | None => fail (problem 409 "An uploaded file is unavailable")
  end.

Definition touch (id : string) (c : catalog) : Up W catalog :=
  now ← uask (ur_now rt);
  mret (c <| ct_Files ::= <[id := file_at c id <| fr_Updated := now |>]> |>).

(** What an earlier submission of the same identity answers. *)
Definition replayed (c : catalog) (key text : string) (ids : list string) : result (option string) :=
  match ct_Submissions c !! key with
  | None => Ok None
  | Some previous =>
      if (sb_Text previous != text) || (elems (sb_Files previous) != ids)
      then Err (problem 409 "Submission identity was reused with different attachments or text")
      else if (sb_State previous != "prepared") && (sb_State previous != "cancelled") then Ok (Some (sb_Wire previous))
      else Ok None
  end.

Definition prepareSubmission (c : catalog) (scopeID kind attempt text : string) (ids : list string) (pending : bool)
    : Up W (catalog * bool * string) :=
  if Files (UploadLimits st) <? Z.of_nat (length ids) then fail (problem 400 "Too many files for one prompt") else
  let key := submission_key scopeID kind attempt in
  previous ← lift_result (replayed c key text ids);
  match previous with
  | Some wire => mret (c, false, wire)
  | None =>
      if bool_decide (ids = []) then mret (c, false, TrimSpace text) else
      if maxRecords <=? Z.of_nat (size (ct_Submissions c))
      then fail (problem 507 "Too many stored attachment submissions") else
      d ← for_each (describe_file c scopeID) ids (mkDescribed [] 0 []);
      let wire := attached_text text (ds_files d) in
      if MaxMessageBytes <? strlen wire
      then fail (problem 413 "Message and attachment references exceed the prompt limit") else
      let state := if (kind == "initial") && negb pending then "prepared" else "pending" in
      let c := c <| ct_Submissions ::= <[key := mkSubmission scopeID kind attempt text wire (Some ids) state "" ""]> |> in
      c ← for_each touch ids c;
      mret (c, true, wire)
  end.

Definition Prepare (scopeID kind attempt text : string) (ids : list string) : Up W string :=
  transaction rt st (λ c,
    lift_error (preparationMutation c scopeID);;
    prepareSubmission c scopeID kind attempt (TrimSpace text) ids false).

(** ** Claims of an accepted session request *)

Definition preparePreparation (c : catalog) (requestID scopeID text : string) (ids : list string)
    : Up W (catalog * bool * string) :=
  let key := submission_key scopeID "initial" (preparation_attempt requestID) in
  match ct_Submissions c !! key with
  | Some previous =>
      lift_error (preparationClaimConflict c scopeID key);;
      if (sb_Text previous != text) || (elems (sb_Files previous) != ids)
         || ((sb_State previous != "pending") && (sb_State previous != "observed"))
      then fail (problem 409 "Initial attachment request changed")
      else mret (c, false, sb_Wire previous)
  | None =>
      let unusable :=
        match ct_Scopes c !! scopeID with
        | Some s => sc_Deleted s || negb (sc_Draft s) || (sc_Slug s != "")
        | None => true
        end in
      if unusable then fail (problem 409 "Initial attachment scope is unavailable") else
      lift_error (preparationMutation c scopeID);;
      if any (λ s, (sb_Scope s == scopeID) && (sb_State s != "cancelled")) (ct_Submissions c)
      then fail (problem 409 "Initial files already belong to another submission")
      else prepareSubmission c scopeID "initial" (preparation_attempt requestID) text ids true
  end.

Definition ClaimPreparation (requestID scopeID text : string) (ids : list string) : Up W string :=
  if bool_decide (ids = []) then mret (TrimSpace text) else
  if negb (idPattern requestID) then fail (problem 400 "Invalid session request identity") else
  transaction rt st (λ c,
    '(c, changed, wire) ← preparePreparation c requestID scopeID text ids;
    (if negb changed then confirmCatalog rt else mret tt);;
    mret (c, changed, wire)).

(** The candidate catalog is dropped. *)
Definition ValidatePreparation (requestID scopeID text : string) (ids : list string) : Up W unit :=
  if bool_decide (ids = []) then mret tt else
  transaction rt st (λ c, preparePreparation c requestID scopeID text ids;; mret (c, false, tt)).

Definition BindPreparation (requestID scopeID wire slug epoch : string) : Up W unit :=
  transaction rt st (λ c,
    let key := submission_key scopeID "initial" (preparation_attempt requestID) in
    lift_error (preparationClaimConflict c scopeID key);;
    let s := scope_at c scopeID in
    let changed :=
      match ct_Submissions c !! key with
      | Some e =>
          (sb_Wire e != wire) || ((sb_State e != "pending") && (sb_State e != "observed")) || sc_Deleted s
          || ((sc_Slug s != "") && ((sc_Slug s != slug) || (sc_Epoch s != epoch)))
      | None => true
      end in
    if changed then fail ownership_changed
    else mret (c <| ct_Scopes ::= <[scopeID := s <| sc_Slug := slug |> <| sc_Epoch := epoch |>]> |>, true, tt)).

(** ** Adoption by the created session *)

Definition adopt (digest slug thread epoch : string) (kv : string * submission) (d : catalog * bool) : Up W (catalog * bool) :=
  let '(key, e) := kv in
  let c := d.1 in
  if (sb_Kind e != "initial") || (hash (sb_Wire e) != digest) then mret d
  else if negb (forallb (λ id, fr_Scope (file_at c id) == sb_Scope e) (elems (sb_Files e))) then mret d
  else
    let s := scope_at c (sb_Scope e) in
    (if String.prefix "preparation:" (sb_Attempt e) then lift_error (preparationClaimConflict c (sb_Scope e) key) else mret tt);;
    if sc_Deleted s || ((sc_Slug s != "") && ((sc_Slug s != slug) || (sc_Epoch s != epoch)))
       || (negb (sc_Draft s) && (sc_Thread s != thread))
    then fail ownership_changed
    else mret (c <| ct_Scopes ::= <[sc_ID s := s <| sc_Draft := false |> <| sc_Slug := slug |> <| sc_Thread := thread |>
                                                <| sc_Epoch := epoch |>]> |>
                 <| ct_Submissions ::= <[key := e <| sb_State := "observed" |>]> |>, true).
Definition AdoptInitial (digest slug thread epoch : string) : Up W unit :=
  transaction rt st (λ c,
    submissions ← range rt (ct_Submissions c);
    d ← for_each (adopt digest slug thread epoch) submissions (c, false);
    mret (d.1, d.2, tt)).
Definition BindCreation (wire slug thread epoch : string) : Up W unit := AdoptInitial (hash wire) slug thread epoch.

(** [RetainCreations]: [goals] are the accepted creations by their wire text. *)
Definition retain (goals : gmap string Scope) (kv : string * submission) (d : catalog * bool) : Up W (catalog * bool) :=
  let '(key, e) := kv in
  let c := d.1 in
  let s := scope_at c (sb_Scope e) in
  match goals !! sb_Wire e with
  | None => mret d
  | Some owner =>
      if sc_Deleted owner && (sb_Kind e == "initial") && sc_Draft s
      then mret (c <| ct_Scopes ::= <[sc_ID s := s <| sc_Slug := "" |> <| sc_Epoch := "" |>]> |>
                   <| ct_Submissions ::= <[key := e <| sb_State := "cancelled" |>]> |>, true)
      else if (sb_Kind e == "initial") && (sb_State e == "prepared") then
        if (sc_Slug s != "") && ((sc_Slug s != sc_Slug owner) || (sc_Epoch s != sc_Epoch owner))
        then fail (problem 409 "Initial files belong to another creation")
        else mret (c <| ct_Scopes ::= <[sc_ID s := s <| sc_Slug := sc_Slug owner |> <| sc_Epoch := sc_Epoch owner |>]> |>
                     <| ct_Submissions ::= <[key := e <| sb_State := "pending" |>]> |>, true)
      else mret d
  end.
Definition RetainCreations (goals : gmap string Scope) : Up W unit :=
  transaction rt st (λ c,
    submissions ← range rt (ct_Submissions c);
    d ← for_each (retain goals) submissions (c, false);
    mret (d.1, d.2, tt)).

(** ** Observation *)

Definition shows (scopeID : string) (e : TranscriptEntry) (s : submission) : bool :=
  (sb_Scope s == scopeID) && (sb_Wire s == te_Text e)
  && ((sb_Kind s == "initial") || (sb_Attempt s == te_ClientUserMessageID e) || (sb_ItemID s == te_ItemID e))
  && negb ((sb_Kind s == "initial") && (sb_ItemID s != "") && (sb_ItemID s != te_ItemID e)).

Definition observe_entry (b : Backend W) (e : TranscriptEntry) (d : catalog * bool * list TranscriptEntry)
    : Up W (catalog * bool * list TranscriptEntry) :=
  let '(c, changed, done) := d in
  if te_Kind e != "userMessage" then mret (c, changed, done ++ [e]) else
  submissions ← range rt (ct_Submissions c);
  match List.find (λ kv, shows (b_ScopeID b) e kv.2) submissions with
  | None => mret (c, changed, done ++ [e])
  | Some (key, s) =>
      let attachments := map (λ id, upl_Attachment (show_read b c (file_at c id))) (elems (sb_Files s)) in
      let e := e <| te_DisplayText := Some (sb_Text s) |> <| te_Attachments ::= λ l, l ++ attachments |> in
      if (sb_State s != "observed") || (sb_ItemID s != te_ItemID e)
      then mret (c <| ct_Submissions ::= <[key := s <| sb_State := "observed" |> <| sb_ItemID := te_ItemID e |>]> |>,
                 true, done ++ [e])
      else mret (c, changed, done ++ [e])
  end.
Definition ObserveTranscript (b : Backend W) (transcript : list TranscriptEntry) : Up W (list TranscriptEntry) :=
  transaction rt st (λ c, for_each (observe_entry b) transcript (c, false, [])).

Definition queues (scopeID : string) (e : QueueEntry) (s : submission) : bool :=
  (sb_Scope s == scopeID) && (sb_Kind s == "queue") && (sb_Attempt s == qe_ClientUserMessageID e) && (sb_Wire s == qe_Text e).
Definition observe_queued (b : Backend W) (e : QueueEntry) (d : catalog * bool * list QueueEntry)
    : Up W (catalog * bool * list QueueEntry) :=
  let '(c, changed, done) := d in
  submissions ← range rt (ct_Submissions c);
  match List.find (λ kv, queues (b_ScopeID b) e kv.2) submissions with
  | None => mret (c, changed, done ++ [e])
  | Some (key, s) =>
      let attachments := map (λ id, upl_Attachment (show b c (file_at c id))) (elems (sb_Files s)) in
      let e := e <| qe_DisplayText := Some (sb_Text s) |> <| qe_Attachments ::= λ l, l ++ attachments |> in
      if ((sb_State s == "pending") || (sb_State s == "queued")) && ((sb_State s != "queued") || (sb_QueueID s != qe_ID e))
      then mret (c <| ct_Submissions ::= <[key := s <| sb_State := "queued" |> <| sb_QueueID := qe_ID e |>]> |>,
                 true, done ++ [e])
      else mret (c, changed, done ++ [e])
  end.
Definition ObserveQueue (b : Backend W) (queue : list QueueEntry) : Up W (list QueueEntry) :=
  transaction rt st (λ c, for_each (observe_queued b) queue (c, false, [])).

Definition unqueue (scopeID id : string) (kv : string * submission) (d : catalog * bool) : Up W (catalog * bool) :=
  let '(key, e) := kv in
  if (sb_Scope e == scopeID) && (sb_QueueID e == id) && (sb_State e != "observed")
  then mret (d.1 <| ct_Submissions ::= <[key := e <| sb_State := "cancelled" |>]> |>, true) else mret d.
Definition QueueDeleted (scopeID id : string) : Up W unit :=
  transaction rt st (λ c,
    submissions ← range rt (ct_Submissions c);
    d ← for_each (unqueue scopeID id) submissions (c, false);
    mret (d.1, d.2, tt)).

(** ** Expiry and removal *)

(** A submission that may still be sent or was sent keeps its files. *)
Definition pinned (c : catalog) (id : string) : bool := any (λ e, negb (settled e) && refers id e) (ct_Submissions c).
Definition collect_file (kv : string * fileRecord) (d : catalog * bool) : Up W (catalog * bool) :=
  let '(id, r) := kv in
  let c := d.1 in
  remove ← (if (fr_State r != "deleted") && negb (pinned c id) then expired rt (fr_Updated r) else mret false);
  mret (if remove : bool
        then (c <| ct_Files ::= <[id := r <| fr_State := "deleted" |> <| fr_Checksums := [] |>]> |>, true) else d).
Definition collect_expired : Up W unit :=
  transaction rt st (λ c,
    files ← range rt (ct_Files c);
    d ← for_each collect_file files (c, false);
    mret (d.1, d.2, tt)).
Definition Collect : Up W unit := collect_expired;; others rt;; reclaim rt st.

Definition retire_scope (slug thread epoch : string) (kv : string * Scope) (d : catalog * gset string)
    : Up W (catalog * gset string) :=
  let '(id, s) := kv in
  if (sc_Slug s == slug) && (sc_Epoch s == epoch) && negb (sc_Deleted s) && negb (sc_Draft s) && (thread == "")
  then fail (ErrorsNew "retired thread identity is required to remove session uploads")
  else if (sc_Slug s == slug) && (((sc_Thread s == thread) || sc_Draft s) && (sc_Epoch s == epoch)) && negb (sc_Deleted s)
  then mret (d.1 <| ct_Scopes ::= <[id := s <| sc_Deleted := true |>]> |>, {[id]} ∪ d.2)
  else mret d.
Definition retire_files (owned : gset string) (r : fileRecord) : fileRecord :=
  if bool_decide (fr_Scope r ∈ owned) then r <| fr_State := "deleted" |> <| fr_Checksums := [] |> else r.
Definition remove_scopes (slug thread epoch : string) : Up W unit :=
  transaction rt st (λ c,
    scopes ← range rt (ct_Scopes c);
    '(c, owned) ← for_each (retire_scope slug thread epoch) scopes (c, ∅);
    let c := c <| ct_Files ::= λ m, retire_files owned <$> m |>
               <| ct_Submissions ::= filter (λ kv, sb_Scope kv.2 ∉ owned) |> in
    '(c, _) ← compact rt c;
    mret (c, negb (bool_decide (owned = ∅)), tt)).
Definition RemoveSession (slug thread epoch : string) : Up W unit :=
  remove_scopes slug thread epoch;; others rt;; reclaim rt st.

(** [Fork]: a key added while the submissions are visited is one of the target. *)
Definition fork_submission (sourceThread : string) (target : Scope) (entries : list TranscriptEntry)
    (kv : string * submission) (d : catalog * bool) : Up W (catalog * bool) :=
  let s := kv.2 in
  let c := d.1 in
  if (sc_Thread (scope_at c (sb_Scope s)) != sourceThread) || (sb_State s == "cancelled") then mret d else
  match List.find (λ e, (te_Kind e == "userMessage") && (te_Text e == sb_Wire s)) entries with
  | None => mret d
  | Some e =>
      let key := submission_key (sc_ID target) (sb_Kind s) (sb_Attempt s) in
      if bool_decide (ct_Submissions c !! key = None)
      then mret (c <| ct_Submissions ::= <[key := s <| sb_Scope := sc_ID target |> <| sb_State := "observed" |>
                                                   <| sb_ItemID := te_ItemID e |>]> |>, true)
      else mret d
  end.
Definition Fork (sourceThread : string) (target : Scope) (entries : list TranscriptEntry) : Up W unit :=
  transaction rt st (λ c,
    submissions ← range rt (ct_Submissions c);
    d ← for_each (fork_submission sourceThread target entries) submissions (c, false);
    mret (d.1, d.2, tt)).

End Claims.
