(* ===== verification/UploadWp.v ===== *)
(** * Private uploads: reasoning about transactions

    What the parts of a transaction leave alone, loops over a catalog's maps, what
    compaction drops, and the rule that proves a transaction from its operation. *)

From S2P Require Import Prelude Effects GoStrings GoJson GoTime GoLibrary RetrySys UploadTypes UploadStore.
From Stdlib Require Import Permutation.

Open Scope Z_scope.

Lemma any_spec {A} (f : A → bool) (m : gmap string A) : any f m = true ↔ ∃ k a, m !! k = Some a ∧ f a = true.
Proof.
  unfold any. rewrite existsb_exists. split.
  - intros (a & Hin & Hf). apply in_map_iff in Hin as ([k x] & <- & Hin).
    apply list_elem_of_In, elem_of_map_to_list in Hin. eauto.
  - intros (k & a & Hk & Hf). exists a. split; [|done]. apply in_map_iff. exists (k, a). split; [done|].
    by apply list_elem_of_In, elem_of_map_to_list.
Qed.
Lemma any_false {A} (f : A → bool) (m : gmap string A) k a : any f m = false → m !! k = Some a → f a = false.
Proof. intros H Hk. apply not_true_is_false. intros Hf. apply not_true_iff_false in H. apply H, any_spec. eauto. Qed.

(** The files and their bytes are untouched. *)
Definition quiet {W} (σ σ' : UpSys W) : Prop := up_file σ' = up_file σ ∧ up_blobs σ' = up_blobs σ.
#[export] Instance quiet_preorder {W} : PreOrder (@quiet W).
Proof. split; [by split|]. intros σ1 σ2 σ3 [? ?] [? ?]. split; congruence. Qed.

(** A catalog and what compaction leaves of it. *)
Definition cleared (r : fileRecord) : fileRecord := r <| fr_Checksums := [] |>.
Record compacted (clock : Stamp → Prop) (c c' : catalog) : Prop := {
  comp_schema : ct_Schema c' = ct_Schema c ∧ ct_Workspace c' = ct_Workspace c;
  comp_submissions : ct_Submissions c' = ct_Submissions (drop_obsolete c);
  comp_files : ∀ id r', ct_Files c' !! id = Some r' →
    ∃ r, ct_Files c !! id = Some r ∧ (r' = r ∨ fr_State r ≠ "uploading" ∧ r' = cleared r);
  comp_dropped : ∀ id r, ct_Files c !! id = Some r → ct_Files c' !! id = None →
    fr_State r = "deleted" ∧ referenced c' id = false
    ∧ (sc_Deleted (scope_at c (fr_Scope r)) = true ∨ ∃ now, clock now ∧ draftLifetime <= Sub now (fr_Updated r));
  comp_scopes : ∀ id s, ct_Scopes c' !! id = Some s → ct_Scopes c !! id = Some s;
  comp_retired : ∀ id s, ct_Scopes c !! id = Some s → ct_Scopes c' !! id = None →
    occupied c' id = false ∧ (sc_Deleted s = true ∨ ∃ now, clock now ∧ draftLifetime <= Sub now (sc_Created s)) }.

Section Rules.
Context {W : Type} (rt : UpRuntime W) (st : Store).

(** The clock's readings. *)
Definition reads_clock (now : Stamp) : Prop := ∃ w, (ur_now rt w).2 = now.

Lemma wp_uask {A} (f : W → W * A) (Q : UpSys W → result A → Prop) σ :
  (∀ w a, f (up_world σ) = (w, a) → Q (σ <| up_world := w |>) (Ok a)) → wp (uask f) Q σ.
Proof. intros H. unfold wp, uask. destruct (f (up_world σ)) as [w a] eqn:E. simpl. by apply H. Qed.
Lemma quiet_uask {A} (f : W → W * A) : rel_steps quiet (uask f).
Proof. intros σ. unfold uask. by destruct (f (up_world σ)). Qed.
Lemma quiet_call name : rel_steps quiet (call rt name).
Proof. apply rel_bind; [typeclasses eauto|apply quiet_uask|]. intros e. apply rel_lift_error. typeclasses eauto. Qed.
Hint Resolve quiet_uask quiet_call : proc.
Lemma quiet_range {A} (m : gmap string A) : rel_steps quiet (range rt m).
Proof. unfold range. procs. Qed.
Lemma quiet_expired t : rel_steps quiet (expired rt t).
Proof. unfold expired. procs. Qed.
Lemma quiet_newID : rel_steps quiet (newID rt).
Proof. unfold newID. procs. Qed.
Lemma quiet_lock : rel_steps quiet (lock_catalog rt).
Proof. unfold lock_catalog. procs. Qed.
Lemma quiet_for_each {A D} (body : A → D → Up W D) l d :
  (∀ a d, rel_steps quiet (body a d)) → rel_steps quiet (for_each body l d).
Proof.
  intros H. revert d. induction l as [|a l IH]; intros d; simpl; [apply rel_ret; typeclasses eauto|].
  apply rel_bind; [typeclasses eauto|auto..].
Qed.
Hint Resolve quiet_range quiet_expired quiet_newID quiet_lock quiet_for_each : proc.
Lemma quiet_confirm : rel_steps quiet (confirmCatalog rt).
Proof.
  unfold confirmCatalog. apply rel_bind; [typeclasses eauto|procs|]. intros [[]|e].
  - apply rel_modify. by split.
  - apply rel_bind; [typeclasses eauto|apply rel_modify; by split|]. intros _. procs.
Qed.
Hint Resolve quiet_confirm : proc.

(** A quiet procedure is whatever it answers. *)
Lemma wp_quiet {A} (m : Up W A) (Q : UpSys W → result A → Prop) σ :
  rel_steps quiet m → (∀ σ' r, quiet σ σ' → Q σ' r) → wp m Q σ.
Proof. intros Hm H. unfold wp. apply H. apply Hm. Qed.

(** Visiting a map: the pairs are the map's. *)
Lemma wp_range {A} (m : gmap string A) (Q : UpSys W → result (list (string * A)) → Prop) σ :
  (∀ σ' l, quiet σ σ' → (∀ k a, (k, a) ∈ l → m !! k = Some a) → Q σ' (Ok l)) → wp (range rt m) Q σ.
Proof.
  intros H. unfold range. apply wp_bind, wp_uask. intros w ks _. apply wp_ret. apply H; [by split|].
  intros k a. rewrite list_elem_of_omap. intros (k' & _ & E).
  destruct (m !! k') eqn:Em; simpl in E; [|done]. by injection E as -> ->.
Qed.

Lemma wp_range_world {A} (m : gmap string A) σ :
  wp (range rt m) (λ σ' _, up_world σ' = (ur_range rt (map fst (map_to_list m)) (up_world σ)).1) σ.
Proof. unfold range. apply wp_bind, wp_uask. intros w ks E. apply wp_ret. by rewrite E. Qed.

(** A map is visited whole, each key once. *)
Definition range_law : Prop := ∀ ks w, (ur_range rt ks w).2 ≡ₚ ks.

Lemma visit_pairs {A} (m : gmap string A) l :
  (∀ k a, (k, a) ∈ l → m !! k = Some a) → omap (λ k, a ← m !! k; Some (k, a)) (map fst l) = l.
Proof.
  induction l as [|[k a] l IH]; intros Hl; [done|]. cbn. rewrite (Hl k a) by set_solver. cbn. f_equal. apply IH. set_solver.
Qed.
Lemma wp_range_all {A} (m : gmap string A) (Q : UpSys W → result (list (string * A)) → Prop) σ :
  range_law → (∀ σ' l, quiet σ σ' → l ≡ₚ map_to_list m → Q σ' (Ok l)) → wp (range rt m) Q σ.
Proof.
  intros Hlaw H. unfold range. apply wp_bind, wp_uask. intros w ks E. apply wp_ret, H; [by split|].
  pose proof (Hlaw (map fst (map_to_list m)) (up_world σ)) as Hp. rewrite E in Hp. cbn in Hp.
  transitivity (omap (λ k, a ← m !! k; Some (k, a)) (map fst (map_to_list m))).
  - by apply omap_Permutation.
  - rewrite visit_pairs; [done|]. intros k a. apply elem_of_map_to_list.
Qed.

(** Loops, by an invariant of what is left to visit. *)
Lemma wp_for_each {A D} (I : list A → D → UpSys W → Prop) (Q : UpSys W → result D → Prop) (body : A → D → Up W D) l d σ :
  (∀ a l d σ, I (a :: l) d σ → wp (body a d) (λ σ' r, match r with Ok d' => I l d' σ' | Err e => Q σ' (Err e) end) σ) →
  (∀ d σ, I [] d σ → Q σ (Ok d)) → I l d σ → wp (for_each body l d) Q σ.
Proof.
  intros Hb Hq. revert d σ. induction l as [|a l IH]; intros d σ Hi; simpl; [by apply wp_ret, Hq|].
  apply wp_bind. eapply wp_mono; [by apply Hb|]. intros σ' [d'|e] H; [by apply IH|done].
Qed.

(** The common case: the state is only asked, and the data keeps a property. *)
Lemma wp_for_each_quiet {A D} (J : D → Prop) (body : A → D → Up W D) l d (Q : UpSys W → result D → Prop) σ :
  (∀ a d σ, a ∈ l → J d → wp (body a d) (λ σ' r, quiet σ σ' ∧ match r with Ok d' => J d' | Err _ => True end) σ) →
  (∀ σ' r, quiet σ σ' → match r with Ok d' => J d' | Err _ => True end → Q σ' r) → J d → wp (for_each body l d) Q σ.
Proof.
  intros Hb Hq Hd.
  apply (wp_for_each (λ l' d' σ', quiet σ σ' ∧ J d' ∧ ∀ a, a ∈ l' → a ∈ l)).
  - intros a l' d' σ' (Hσ & Hj & Hl). eapply wp_mono; [apply (Hb a d' σ'); [apply Hl; set_solver|done]|].
    intros σ2 [d2|e] [H1 H2].
    + split; [by etrans|]. split; [done|]. intros x Hx. apply Hl. set_solver.
    + apply Hq; [by etrans|done].
  - intros d' σ' (Hσ & Hj & _). by apply Hq.
  - split; [done|]. by split.
Qed.

(** ** Compaction *)

(** What compaction's first two loops leave: its scopes are those of the start. *)
Definition pruned (c c' : catalog) : Prop := compacted reads_clock c (c' <| ct_Scopes := ct_Scopes c |>) ∧ ct_Scopes c' = ct_Scopes c.

Lemma pruned_intro c c' :
  ct_Schema c' = ct_Schema c ∧ ct_Workspace c' = ct_Workspace c →
  ct_Submissions c' = ct_Submissions (drop_obsolete c) → ct_Scopes c' = ct_Scopes c →
  (∀ id r', ct_Files c' !! id = Some r' →
     ∃ r, ct_Files c !! id = Some r ∧ (r' = r ∨ fr_State r ≠ "uploading" ∧ r' = cleared r)) →
  (∀ id r, ct_Files c !! id = Some r → ct_Files c' !! id = None →
     fr_State r = "deleted" ∧ referenced (drop_obsolete c) id = false
     ∧ (sc_Deleted (scope_at c (fr_Scope r)) = true ∨ ∃ now, reads_clock now ∧ draftLifetime <= Sub now (fr_Updated r))) →
  pruned c c'.
Proof.
  intros ? Hs Hsc Hf Hd. split; [|done]. split; cbn; [done|done|done| |done|congruence].
  intros id r H1 H2. destruct (Hd id r H1 H2) as (H3 & H4 & H5). split; [done|]. split; [|done].
  revert H4. unfold referenced. cbn. by rewrite Hs.
Qed.
Lemma pruned_dropped c c' id r :
  pruned c c' → ct_Files c !! id = Some r → ct_Files c' !! id = None →
  fr_State r = "deleted" ∧ referenced (drop_obsolete c) id = false
  ∧ (sc_Deleted (scope_at c (fr_Scope r)) = true ∨ ∃ now, reads_clock now ∧ draftLifetime <= Sub now (fr_Updated r)).
Proof.
  intros [[_ Hs _ Hd _ _] _] H1 H2. destruct (Hd id r H1 H2) as (H3 & H4 & H5). split; [done|]. split; [|done].
  revert H4. unfold referenced. cbn in Hs |- *. by rewrite Hs.
Qed.
Lemma pruned_start c : pruned c (drop_obsolete c).
Proof. apply pruned_intro; [done|done|done|naive_solver|]. unfold drop_obsolete. cbn. congruence. Qed.

Lemma wp_expired t (Q : UpSys W → result bool → Prop) σ :
  (∀ σ' b, quiet σ σ' → (b = true → ∃ now, reads_clock now ∧ draftLifetime <= Sub now t) → Q σ' (Ok b)) →
  wp (expired rt t) Q σ.
Proof.
  intros H. unfold expired. apply wp_bind, wp_uask. intros w now E. apply wp_ret. apply H; [by split|].
  intros Hb%Z.leb_le. exists now. split; [|done]. eexists. by rewrite E.
Qed.

(** The decision a compaction takes of one file or scope. *)
Lemma wp_decide_remove (guard deleted : bool) t (Q : UpSys W → result bool → Prop) σ :
  (∀ σ' b, quiet σ σ' →
     (b = true → guard = true ∧ (deleted = true ∨ ∃ now, reads_clock now ∧ draftLifetime <= Sub now t)) → Q σ' (Ok b)) →
  wp (if guard then (if deleted then mret true else expired rt t) else mret false) Q σ.
Proof.
  intros H. destruct guard; [destruct deleted|].
  - apply wp_ret, H; [done|]. auto.
  - apply wp_expired. intros σ' b Hσ Hb. apply H; auto.
  - apply wp_ret, H; [done|]. intros [=].
Qed.

Lemma pruned_clear c0 c id r :
  ct_Files c0 !! id = Some r → fr_State r ≠ "uploading" → pruned c0 c → pruned c0 (c <| ct_Files ::= <[id := cleared r]> |>).
Proof.
  intros Hr Hst Hp. pose proof (λ id r, pruned_dropped c0 c id r Hp) as Hd. destruct Hp as [[Hf Hs Hfiles _ _ _] Hsc].
  cbn in Hf, Hs, Hfiles. apply pruned_intro; cbn; [done..| |].
  - intros i r'. intros [[<- <-]|[_ H]]%lookup_insert_Some; [|by apply Hfiles]. exists r. auto.
  - intros i x H1 [H2 _]%lookup_insert_None. by apply Hd.
Qed.
Lemma pruned_remove c0 c id r :
  ct_Files c0 !! id = Some r → pruned c0 c → fr_State r = "deleted" → referenced c id = false →
  (sc_Deleted (scope_at c (fr_Scope r)) = true ∨ ∃ now, reads_clock now ∧ draftLifetime <= Sub now (fr_Updated r)) →
  pruned c0 (c <| ct_Files ::= delete id |>).
Proof.
  intros Hr Hp Hst Hre Hx. pose proof (λ id r, pruned_dropped c0 c id r Hp) as Hd. destruct Hp as [[Hf Hs Hfiles _ _ _] Hsc].
  cbn in Hf, Hs, Hfiles. apply pruned_intro; cbn; [done..| |].
  - intros i x [_ H]%lookup_delete_Some. by apply Hfiles.
  - intros i x H1 H2. destruct (decide (i = id)) as [->|Hne].
    + assert (x = r) as -> by congruence. split; [done|]. split.
      * revert Hre. unfold referenced. by rewrite Hs.
      * revert Hx. unfold scope_at. by rewrite Hsc.
    + rewrite lookup_delete_ne in H2 by done. by apply Hd.
Qed.

Lemma compact_file_spec c0 kv d σ :
  ct_Files c0 !! kv.1 = Some kv.2 → pruned c0 d.1 →
  wp (compact_file rt kv d) (λ σ' r, quiet σ σ' ∧ match r with Ok d => pruned c0 d.1 | Err _ => True end) σ.
Proof.
  destruct kv as [id r], d as [c changed]. cbn [fst snd]. intros Hr Hp. unfold compact_file. set (clear := _ && _).
  set (c1 := when clear _ c). assert (pruned c0 c1) as Hc1.
  { unfold c1, when. destruct clear eqn:Ec; [|done].
    apply andb_true_iff in Ec as [Ec _]. apply negb_true_iff, bool_decide_eq_false_1 in Ec. by apply (pruned_clear c0 c). }
  clearbody c1. apply wp_bind, wp_decide_remove. intros σ' b Hσ Hb. apply wp_ret. split; [done|]. destruct b; [|exact Hc1].
  destruct (Hb eq_refl) as [[Hst Hre]%andb_true_iff Hx].
  apply (pruned_remove c0 c1 id r Hr Hc1); [by apply bool_decide_eq_true_1 in Hst|by apply negb_true_iff|done].
Qed.

Lemma occupied_same c c' id :
  ct_Submissions c' = ct_Submissions c → ct_Files c' = ct_Files c → occupied c' id = occupied c id.
Proof. unfold occupied. by intros -> ->. Qed.

Lemma compact_scope_spec c0 kv d σ :
  ct_Scopes c0 !! kv.1 = Some kv.2 → compacted reads_clock c0 d.1 →
  wp (compact_scope rt kv d) (λ σ' r, quiet σ σ' ∧ match r with Ok d => compacted reads_clock c0 d.1 | Err _ => True end) σ.
Proof.
  destruct kv as [id s], d as [c changed]. cbn [fst snd]. intros Hid Hc. unfold compact_scope.
  apply wp_bind, wp_decide_remove. intros σ' b Hσ Hb. apply wp_ret. split; [done|].
  destruct b; cbn [fst]; [|exact Hc]. destruct (Hb eq_refl) as [Ho%negb_true_iff Hx], Hc as [Hf Hs Hfiles Hd Hsc Hre].
  split; cbn; [done|done|done|done| |].
  - intros i x [_ H]%lookup_delete_Some. by apply Hsc.
  - intros i x H1 H2. rewrite (occupied_same c) by done. destruct (decide (i = id)) as [->|Hne].
    + split; [done|]. by assert (x = s) as -> by congruence.
    + rewrite lookup_delete_ne in H2 by done. by apply Hre.
Qed.

Lemma compact_spec c (Q : UpSys W → result (catalog * bool) → Prop) σ :
  (∀ σ' d, quiet σ σ' → compacted reads_clock c d.1 → Q σ' (Ok d)) → (∀ σ' e, quiet σ σ' → Q σ' (Err e)) →
  wp (compact rt c) Q σ.
Proof.
  intros Hok Herr. unfold compact. cbv zeta. apply wp_bind, wp_range. intros σ1 files H1 Hfiles.
  apply wp_bind. apply (wp_for_each_quiet (λ d, pruned c d.1)); [| |apply pruned_start].
  - intros [id r] d σ2 Hin Hd. apply compact_file_spec; [by apply Hfiles|done].
  - intros σ2 [[c2 ch]|e] H2 Hd; [|apply Herr; by etrans]. cbn in Hd. apply wp_bind, wp_range. intros σ3 scopes H3 Hscopes.
    assert (compacted reads_clock c c2) as Hc2.
    { destruct Hd as [Hd Hsc]. replace c2 with (c2 <| ct_Scopes := ct_Scopes c |>); [done|]. rewrite <- Hsc. by destruct c2. }
    apply (wp_for_each_quiet (λ d, compacted reads_clock c d.1)); [| |done].
    + intros [id s] d σ4 Hin Hd'. apply compact_scope_spec; [|done]. destruct Hd as [_ <-]. by apply Hscopes.
    + intros σ4 [d|e] H4 Hd'; [apply Hok|apply Herr]; try done; by (do 3 (etrans; [eassumption|])).
Qed.
Lemma quiet_compact c : rel_steps quiet (compact rt c).
Proof. intros σ. apply (compact_spec c (λ σ' _, quiet σ σ')); auto. Qed.

(** ** Transactions *)

Lemma confirm_spec (Q : UpSys W → result unit → Prop) σ :
  (∀ σ', quiet σ σ' → up_durable σ' = up_file σ' → up_unconfirmed σ' = false → Q σ' (Ok tt)) →
  (∀ σ' e, quiet σ σ' → up_durable σ' = up_durable σ → up_unconfirmed σ' = true → Q σ' (Err e)) →
  wp (confirmCatalog rt) Q σ.
Proof.
  intros Hok Herr. unfold confirmCatalog. apply wp_bind, wp_attempt.
  assert (∀ P : UpSys W → result unit → Prop,
    (∀ σ' r, quiet σ σ' → up_durable σ' = up_durable σ → P σ' r) → wp (call rt "sync catalog";; call rt "sync directory") P σ) as H.
  { intros P HP. apply wp_bind, wp_bind, wp_uask. intros w a _. apply wp_lift_error.
    destruct a; [by apply HP|]. apply wp_bind, wp_uask. intros w2 a2 _. apply wp_lift_error. by apply HP. }
  apply H. intros σ' [[]|e] Hσ Hd.
  - apply wp_modify, Hok; [by destruct Hσ|done|done].
  - apply wp_bind, wp_modify, wp_fail, Herr; [by destruct Hσ|done|done].
Qed.

(** What a catalog that was saved is on disk, and whether the save was confirmed. *)
Definition saved_as (c : catalog) (σ' : UpSys W) (confirmed : bool) : Prop :=
  ∃ text, catalog_json c = Some text ∧ strlen text <= maxCatalogBytes
    ∧ up_file σ' = Some (cf_text (strlen text) (payload_of c) false)
    ∧ (if confirmed then up_durable σ' = up_file σ' ∧ up_unconfirmed σ' = false else up_unconfirmed σ' = true).

Lemma catalog_saved_spec original c (Q : UpSys W → result unit → Prop) σ :
  (∀ σ' e, quiet σ σ' → Q σ' (Err e)) →
  (∀ σ' r, up_blobs σ' = up_blobs σ → saved_as c σ' (is_ok r) → Q σ' r) →
  wp (save_catalog rt original c) Q σ.
Proof.
  intros Herr Hok. unfold save_catalog. destruct (catalog_json c) as [text|] eqn:Ec; [|by apply wp_fail, Herr].
  destruct (catalogSize c) as [records chunks]. destruct (_ || _) eqn:Ef; [by apply wp_fail, Herr|].
  apply orb_false_iff in Ef as [Hl%Z.ltb_ge _].
  apply wp_bind, wp_bind, wp_uask. intros w [e|] _; apply wp_lift_error; [by apply Herr|].
  apply wp_bind, wp_modify. apply confirm_spec; intros σ' *; intros [Hf Hb]; cbn in Hf, Hb; intros Hd Hu;
    (apply Hok; [done|]); exists text; cbn; rewrite ?Hd, ?Hf; split_and!; done.
Qed.

(** A transaction that has loaded the catalog and compacted it. *)
Definition entered (σ σ1 : UpSys W) (c1 : catalog) : Prop := ∃ original b, begin_transaction rt st σ = (σ1, Ok (original, (c1, b))).

Lemma begin_spec σ c : load_catalog st (up_file σ) = Ok c →
  wp (begin_transaction rt st) (λ σ' r, quiet σ σ' ∧ match r with Ok (_, (c1, _)) => compacted reads_clock c c1 | Err _ => True end) σ.
Proof.
  intros Hl. unfold begin_transaction.
  apply wp_bind, wp_quiet; [procs|]. intros σ1 [[]|e] H1; [|done].
  apply wp_bind, wp_gets, wp_bind, wp_quiet; [procs|]. intros σ2 [[]|e] H2; [|split; [by etrans|done]].
  apply wp_bind, wp_lift_result. destruct H1 as [Hf1 Hb1] eqn:E; clear E. rewrite Hf1, Hl. assert (quiet σ σ2) as H02 by (by etrans; [split|]).
  apply wp_bind, wp_gets, wp_bind, wp_quiet; [procs|]. intros σ3 [[]|e] H3; [|split; [by etrans|done]].
  apply wp_bind, compact_spec; [|intros σ4 e H4; split; [|done]; by do 2 (etrans; [eassumption|])].
  intros σ4 [c1 cc] H4 Hc. apply wp_ret. split; [by do 2 (etrans; [eassumption|])|done].
Qed.

Lemma wp_transaction {A} (fn : catalog → Up W (catalog * bool * A)) (Q : UpSys W → result A → Prop) σ c :
  load_catalog st (up_file σ) = Ok c →
  (∀ σ' e, quiet σ σ' → Q σ' (Err e)) →
  (∀ σ1 c1, quiet σ σ1 → compacted reads_clock c c1 → entered σ σ1 c1 →
     wp (fn c1) (λ σ2 r, match r with
       | Err e => Q σ2 (Err e)
       | Ok (c2, changed, a) =>
           (changed = false → Q σ2 (Ok a)) ∧
           (∀ σ3 e, quiet σ2 σ3 → Q σ3 (Err e)) ∧
           (∀ σ3 r, up_blobs σ3 = up_blobs σ2 → saved_as c2 σ3 (is_ok r) → (∀ b, r = Ok b → b = a) → Q σ3 r)
       end) σ1) →
  wp (transaction rt st fn) Q σ.
Proof.
  intros Hl Herr Hfn. unfold transaction. apply wp_bind. pose proof (begin_spec σ c Hl) as Hb. unfold wp in Hb |- *.
  destruct (begin_transaction rt st σ) as [σ1 [[original [c1 cc]]|e]] eqn:E; destruct Hb as [H1 Hc]; [|by apply Herr].
  apply wp_bind. eapply wp_mono; [apply Hfn; [exact H1|exact Hc|by exists original, cc]|].
  intros σ5 [[[c2 changed] a]|e]; [|done]. intros (Hq & He & Hs).
  destruct (negb changed && negb cc) eqn:Eq.
  - apply wp_ret, Hq. apply andb_true_iff in Eq as [Eq _]. by apply negb_true_iff in Eq.
  - apply wp_bind, catalog_saved_spec; [done|]. intros σ6 [[]|e] Hb Hv; [apply wp_ret|]; (apply Hs; [done|done|]).
    + by intros b [= ->].
    + intros b [=].
Qed.

(** Saving is loading back, for a catalog that passes the loader's checks. *)
Lemma load_saved c n :
  ct_Schema c = 1 → ct_Workspace c = Workspace st → check_records c = None → n <= maxCatalogBytes →
  load_catalog st (Some (cf_text n (payload_of c) false)) = Ok c.
Proof.
  intros H1 H2 H3 Hn. unfold load_catalog, decode_catalog. assert ((maxCatalogBytes <? n) = false) as -> by lia.
  unfold decode_payload, payload_of. cbn. rewrite H1, H2, !bool_decide_true by done. cbn.
  assert (mkCatalog 1 (Workspace st) (ct_Scopes c) (ct_Files c) (ct_Submissions c) = c) as ->; [|by rewrite H3].
  destruct c; cbn in *. by subst.
Qed.
End Rules.

#[export] Hint Resolve quiet_uask quiet_call quiet_range quiet_expired quiet_newID quiet_lock quiet_for_each quiet_confirm quiet_compact : proc.
