(* ===== verification/UploadInv.v ===== *)
(** * Private uploads: the invariant

    A catalog is consistent, stays within its limits and agrees with the files on
    disk; [evolves] is what may happen to uploads over time.  A transaction keeps
    both when its operation does. *)

From S2P Require Import Prelude Effects GoStrings GoJson GoTime GoLibrary UploadTypes UploadStore UploadBackend UploadWp.
From Stdlib Require Import Permutation.

Open Scope Z_scope.

(** ** Sums over a catalog's files *)

Definition add_size (p : fileRecord → bool) (r : fileRecord) (n : Z) : Z := if p r then fr_Size r + n else n.
Definition usage_of (p : fileRecord → bool) (l : list fileRecord) : Z := foldr (add_size p) 0 l.
Definition files_of (c : catalog) : list fileRecord := map snd (map_to_list (ct_Files c)).
Definition is_live (r : fileRecord) : bool := fr_State r != "deleted".
Definition live_in (scopeID : string) (r : fileRecord) : bool := is_live r && (fr_Scope r == scopeID).

Lemma usage_perm p l l' : l ≡ₚ l' → usage_of p l = usage_of p l'.
Proof. induction 1; simpl; [done|unfold add_size in *; destruct (p x); lia|unfold add_size; destruct (p x), (p y); lia|lia]. Qed.
Lemma usage_insert p (m : gmap string fileRecord) id r :
  m !! id = None → usage_of p (map snd (map_to_list (<[id := r]> m))) = add_size p r (usage_of p (map snd (map_to_list m))).
Proof.
  intros H. transitivity (usage_of p (map snd ((id, r) :: map_to_list m))); [|done].
  apply usage_perm, Permutation_map. by apply map_to_list_insert.
Qed.

(** Fewer and no larger files use no more. *)
Lemma usage_le p q (m m' : gmap string fileRecord) :
  (∀ id r, m !! id = Some r → 0 <= fr_Size r) →
  (∀ id r', m' !! id = Some r' → p r' = true → ∃ r, m !! id = Some r ∧ q r = true ∧ fr_Size r' = fr_Size r) →
  usage_of p (map snd (map_to_list m')) <= usage_of q (map snd (map_to_list m)).
Proof.
  revert m. induction m' as [|id r' m' Hn IH] using map_ind; intros m Hp Hd.
  - rewrite map_to_list_empty. simpl. clear Hd. revert Hp. induction m as [|i r m Hi IH] using map_ind; intros Hp.
    + by rewrite map_to_list_empty.
    + rewrite usage_insert by done. unfold add_size. pose proof (Hp i r (lookup_insert_eq _ _ _)).
      assert (0 <= usage_of q (map snd (map_to_list m))); [|destruct (q r); lia].
      apply IH. intros j x Hj. apply (Hp j). rewrite lookup_insert_ne; [done|congruence].
  - rewrite usage_insert by done. unfold add_size at 1. destruct (p r') eqn:Er.
    + destruct (Hd id r' (lookup_insert_eq _ _ _) Er) as (r & Hr & Hq & ->).
      rewrite <- (insert_delete_id m id r) by done. rewrite usage_insert by apply lookup_delete_eq.
      unfold add_size. rewrite Hq. apply Z.add_le_mono_l, IH.
      * intros j x [_ Hj]%lookup_delete_Some. by apply (Hp j).
      * intros j x Hj Hx. assert (j ≠ id) by congruence. rewrite lookup_delete_ne by done.
        apply Hd; [by rewrite lookup_insert_ne|done].
    + apply IH; [done|]. intros j x Hj Hx. apply Hd; [|done]. rewrite lookup_insert_ne; [done|congruence].
Qed.

(** ** The invariant *)

Record limits_ok (l : Limits) : Prop := {
  l_chunk : 0 < ChunkBytes l < 2^62;
  l_file : 0 <= FileBytes l <= 4096 * ChunkBytes l;
  l_file_width : FileBytes l < 2^62;
  l_prompt : 0 <= PromptBytes l <= SessionBytes l;
  l_session : SessionBytes l < 2^62;
  l_workspace : 0 <= WorkspaceBytes l < 2^62 }.

Definition quota (l : Limits) (s : Scope) : Z := if sc_Draft s then PromptBytes l else SessionBytes l.

Definition received (r : fileRecord) : nat := Z.to_nat (fr_Offset r).
Definition chunks_of (r : fileRecord) : Z := Z.of_nat (length (fr_Checksums r)).

Record file_ok (l : Limits) (c : catalog) (id : string) (r : fileRecord) : Prop := {
  f_id : fr_ID r = id;
  f_pattern : idPattern id = true;
  f_offset : 0 <= fr_Offset r <= fr_Size r;
  f_size : fr_Size r <= FileBytes l;
  f_state : fr_State r ∈ ["uploading"; "ready"; "deleted"];
  f_checksums : chunks_of r <= 4096;
  f_progress : fr_State r = "uploading" →
    fr_Offset r = Z.min (chunks_of r * ChunkBytes l) (fr_Size r) ∧ chunks_of r * ChunkBytes l < fr_Size r + ChunkBytes l;
  f_scope : is_Some (ct_Scopes c !! fr_Scope r) }.

Definition submission_ok (c : catalog) (s : submission) : Prop :=
  is_Some (ct_Scopes c !! sb_Scope s) ∧ ∀ id, id ∈ elems (sb_Files s) → is_Some (ct_Files c !! id).

Record catalog_ok (st : Store) (c : catalog) : Prop := {
  c_identity : ct_Schema c = 1 ∧ ct_Workspace c = Workspace st;
  c_counts : Z.of_nat (size (ct_Files c)) <= maxRecords ∧ Z.of_nat (size (ct_Scopes c)) <= maxRecords
             ∧ Z.of_nat (size (ct_Submissions c)) <= maxRecords;
  c_scopes : ∀ id s, ct_Scopes c !! id = Some s → sc_ID s = id;
  c_files : ∀ id r, ct_Files c !! id = Some r → file_ok (UploadLimits st) c id r;
  c_submissions : ∀ k s, ct_Submissions c !! k = Some s → submission_ok c s;
  c_usage : usage_of is_live (files_of c) <= WorkspaceBytes (UploadLimits st);
  c_quota : ∀ id s, ct_Scopes c !! id = Some s → usage_of (live_in id) (files_of c) <= quota (UploadLimits st) s }.

(** The bytes of an upload: those received while it is uploading, then its file. *)
Abbreviation Blobs := (gmap string (gmap string blob)).
Definition blob_in (B : Blobs) (id name : string) : option blob := d ← B !! id; d !! name.
Definition held (B : Blobs) (r : fileRecord) : list Z :=
  let final := match blob_in B (fr_ID r) (final_name r) with Some b => bl_Data b | None => [] end in
  if fr_State r == "uploading" then
    match blob_in B (fr_ID r) partial_name with Some b => take (received r) (bl_Data b) | None => final end
  else final.

Definition has_final (B : Blobs) (r : fileRecord) : Prop :=
  ∃ b, blob_in B (fr_ID r) (final_name r) = Some b ∧ bl_Regular b = true ∧ Z.of_nat (length (bl_Data b)) = fr_Size r.
Definition has_partial (B : Blobs) (r : fileRecord) : Prop :=
  ∃ b, blob_in B (fr_ID r) partial_name = Some b ∧ bl_Regular b = true ∧ fr_Offset r <= Z.of_nat (length (bl_Data b))
    ∧ (fr_Offset r = fr_Size r → Z.of_nat (length (bl_Data b)) = fr_Size r) ∧ blob_in B (fr_ID r) (final_name r) = None.
(** A renamed file is complete even before the catalog says so. *)
Record bytes_ok (B : Blobs) (r : fileRecord) : Prop := {
  b_ready : fr_State r = "ready" → has_final B r;
  b_uploading : fr_State r = "uploading" →
    has_partial B r ∨ (blob_in B (fr_ID r) partial_name = None ∧ fr_Offset r = fr_Size r ∧ has_final B r);
  b_checksums : fr_State r = "uploading" → ∃ chunks, concat chunks = held B r ∧ map checksum chunks = fr_Checksums r }.
Definition bytes_all (c : catalog) (B : Blobs) : Prop := ∀ id r, ct_Files c !! id = Some r → bytes_ok B r.

Definition good (st : Store) (c : catalog) (B : Blobs) : Prop := catalog_ok st c ∧ bytes_all c B.

(** ** What may happen to an upload

    Unless it is [dead], a live upload stays, for the same client, scope and file; it
    goes from uploading to ready only, and keeps the bytes it holds. *)

Record same_upload (r r' : fileRecord) : Prop := {
  su_id : fr_ID r' = fr_ID r; su_client : fr_ClientID r' = fr_ClientID r; su_scope : fr_Scope r' = fr_Scope r;
  su_name : fr_Name r' = fr_Name r; su_size : fr_Size r' = fr_Size r }.
Record later (B B' : Blobs) (r r' : fileRecord) : Prop := {
  lt_same : same_upload r r';
  lt_live : is_live r' = true;
  lt_ready : fr_State r = "ready" → fr_State r' = "ready";
  lt_offset : fr_Offset r <= fr_Offset r';
  lt_bytes : held B r `prefix_of` held B' r' }.
Definition evolves (dead : string → Prop) (c : catalog) (B : Blobs) (c' : catalog) (B' : Blobs) : Prop :=
  ∀ id r, ct_Files c !! id = Some r → is_live r = true → ¬ dead id → ∃ r', ct_Files c' !! id = Some r' ∧ later B B' r r'.
Definition never (_ : string) : Prop := False.

Lemma same_upload_refl r : same_upload r r.
Proof. by split. Qed.
Lemma later_refl B r : is_live r = true → later B B r r.
Proof. by split. Qed.
Lemma later_trans B1 B2 B3 r1 r2 r3 : later B1 B2 r1 r2 → later B2 B3 r2 r3 → later B1 B3 r1 r3.
Proof.
  intros [[] ? ? ? ?] [[] ? ? ? ?]. split; [split; congruence|done|auto|lia|by etrans].
Qed.
Lemma evolves_refl dead c B : evolves dead c B c B.
Proof. intros id r Hr Hl _. eauto using later_refl. Qed.
Lemma evolves_trans dead c1 B1 c2 B2 c3 B3 :
  evolves dead c1 B1 c2 B2 → evolves dead c2 B2 c3 B3 → evolves dead c1 B1 c3 B3.
Proof.
  intros H1 H2 id r Hr Hl Hd. destruct (H1 id r Hr Hl Hd) as (r2 & Hr2 & L2).
  destruct (H2 id r2 Hr2 (lt_live _ _ _ _ L2) Hd) as (r3 & Hr3 & L3). eauto using later_trans.
Qed.
Lemma evolves_weaken (dead dead' : string → Prop) c B c' B' :
  (∀ id, dead id → dead' id) → evolves dead c B c' B' → evolves dead' c B c' B'.
Proof. intros Hi H id r Hr Hl Hd. apply (H id r Hr Hl). eauto. Qed.
Lemma evolves_never dead c B c' B' : evolves never c B c' B' → evolves dead c B c' B'.
Proof. apply evolves_weaken. intros id []. Qed.

(** A file's bytes are those of its own directory. *)
Lemma held_same B B' r : B' !! fr_ID r = B !! fr_ID r → held B' r = held B r.
Proof. intros H. unfold held, blob_in. by rewrite H. Qed.
Lemma bytes_ok_same B B' r : B' !! fr_ID r = B !! fr_ID r → bytes_ok B r → bytes_ok B' r.
Proof.
  intros H [H1 H2 H3]. unfold has_final, has_partial, blob_in in *.
  split; unfold has_final, has_partial, blob_in; [rewrite H|rewrite H|rewrite (held_same B B' r H)]; done.
Qed.

Section Keep.
Context {W : Type} (rt : UpRuntime W) (st : Store).

Definition catalog_of (σ : UpSys W) : result catalog := load_catalog st (up_file σ).
(** The store's files are consistent. *)
Definition Inv (σ : UpSys W) : Prop := ∃ c, catalog_of σ = Ok c ∧ good st c (up_blobs σ).
(** They were, are, and the uploads evolved. *)
Definition step (dead : string → Prop) (σ σ' : UpSys W) : Prop :=
  ∃ c c', catalog_of σ = Ok c ∧ catalog_of σ' = Ok c' ∧ good st c' (up_blobs σ')
    ∧ evolves dead c (up_blobs σ) c' (up_blobs σ').

Lemma checks_pass c : catalog_ok st c → check_records c = None.
Proof.
  intros [_ (H1 & H2 & H3) _ Hf _ _ _]. unfold check_records.
  assert ((maxRecords <? _) = false) as -> by by apply Z.ltb_ge. assert ((maxRecords <? _) = false) as -> by by apply Z.ltb_ge.
  assert ((maxRecords <? _) = false) as -> by by apply Z.ltb_ge. cbn [orb].
  assert (existsb record_invalid (map_to_list (ct_Files c)) = false) as ->; [|done].
  apply not_true_is_false. intros ([id r] & Hin & Hb)%existsb_exists.
  apply list_elem_of_In, elem_of_map_to_list in Hin. destruct (Hf id r Hin) as [E1 E2 E3 _ _ E4 _ _].
  revert Hb. unfold record_invalid. rewrite E1, E2, bool_decide_true by done. unfold chunks_of in E4. cbn. lia.
Qed.

Lemma compacted_files clock c c' id r :
  compacted clock c c' → ct_Files c !! id = Some r → is_live r = true →
  ∃ r', ct_Files c' !! id = Some r' ∧ (r' = r ∨ fr_State r ≠ "uploading" ∧ r' = cleared r).
Proof.
  intros [_ _ Hf Hd _ _] Hr Hl. destruct (ct_Files c' !! id) as [r'|] eqn:E.
  - destruct (Hf id r' E) as (x & Hx & H). assert (x = r) as -> by congruence. eauto.
  - destruct (Hd id r Hr E) as [Hs _]. revert Hl. unfold is_live. by rewrite Hs.
Qed.
Lemma held_cleared B r : held B (cleared r) = held B r.
Proof. done. Qed.
Lemma bytes_ok_cleared B r : fr_State r ≠ "uploading" → bytes_ok B r ↔ bytes_ok B (cleared r).
Proof. intros H. split; intros [H1 H2 H3]; split; intros Hs; try done; by apply H1. Qed.

Lemma compacted_evolves clock c c' B : compacted clock c c' → evolves never c B c' B.
Proof.
  intros Hc id r Hr Hl _. destruct (compacted_files _ _ _ _ _ Hc Hr Hl) as (r' & Hr' & [->|[Hs ->]]); [eauto using later_refl|].
  exists (cleared r). split; [done|]. by split.
Qed.

(** ** Compaction keeps the invariant *)

Lemma file_ok_cleared l c id r : fr_State r ≠ "uploading" → file_ok l c id r → file_ok l c id (cleared r).
Proof. intros Hs []. by split. Qed.
Lemma file_ok_scopes l c c' id r :
  (is_Some (ct_Scopes c !! fr_Scope r) → is_Some (ct_Scopes c' !! fr_Scope r)) → file_ok l c id r → file_ok l c' id r.
Proof. intros H []. split; auto. Qed.

Lemma size_le {A B} (m : gmap string A) (m' : gmap string B) :
  (∀ k, is_Some (m' !! k) → is_Some (m !! k)) → Z.of_nat (size m') <= Z.of_nat (size m).
Proof.
  intros H. rewrite <- !size_dom. apply inj_le, subseteq_size. intros k. rewrite !elem_of_dom. apply H.
Qed.

Lemma unoccupied c id : occupied c id = false →
  (∀ k s, ct_Submissions c !! k = Some s → sb_Scope s ≠ id) ∧ (∀ k r, ct_Files c !! k = Some r → fr_Scope r ≠ id).
Proof.
  intros [H1 H2]%orb_false_iff. split; intros k x Hk E.
  - pose proof (any_false _ _ _ _ H1 Hk) as H. by apply bool_decide_eq_false_1 in H.
  - pose proof (any_false _ _ _ _ H2 Hk) as H. by apply bool_decide_eq_false_1 in H.
Qed.
Lemma scope_remains clock c c' id :
  compacted clock c c' → is_Some (ct_Scopes c !! id) → occupied c' id = true → is_Some (ct_Scopes c' !! id).
Proof.
  intros [_ _ _ _ _ Hr] [s Hs] Ho. destruct (ct_Scopes c' !! id) eqn:E; [eauto|].
  destruct (Hr id s Hs E) as [H _]. congruence.
Qed.

(** A catalog whose files are some of another's, live ones unchanged in size and scope. *)
Lemma usage_smaller l p c c' :
  (∀ id r, ct_Files c !! id = Some r → file_ok l c id r) →
  (∀ id r', ct_Files c' !! id = Some r' → p r' = true → ∃ r, ct_Files c !! id = Some r ∧ p r = true ∧ fr_Size r' = fr_Size r) →
  usage_of p (files_of c') <= usage_of p (files_of c).
Proof. intros Hf Hd. apply usage_le; [|done]. intros id r Hr. destruct (Hf id r Hr) as [_ _ Ho _ _ _ _ _]. lia. Qed.

Lemma compacted_ok clock c c' : compacted clock c c' → catalog_ok st c → catalog_ok st c'.
Proof.
  intros Hc [Hi Hn Hs Hf Hb Hu Hq]. pose proof (λ id, scope_remains _ _ _ id Hc) as Hrem.
  destruct Hc as [Hi' Hs' Hf' Hd Hsc Hr]. assert (∀ k s, ct_Submissions c' !! k = Some s → ct_Submissions c !! k = Some s) as Hsub.
  { intros k s. rewrite Hs'. by intros [? _]%map_lookup_filter_Some. }
  split.
  - destruct Hi, Hi'. split; congruence.
  - destruct Hn as (H1 & H2 & H3). split_and!.
    + etrans; [|exact H1]. apply size_le. intros k [x Hx]. destruct (Hf' k x Hx) as (r & -> & _). eauto.
    + etrans; [|exact H2]. apply size_le. intros k [x Hx]. eauto.
    + etrans; [|exact H3]. apply size_le. intros k [x Hx]. eauto.
  - eauto.
  - intros id r' Hr'. destruct (Hf' id r' Hr') as (r & Hr0 & H). pose proof (Hf id r Hr0) as Hok.
    assert (is_Some (ct_Scopes c' !! fr_Scope r)) as Hsome.
    { apply Hrem; [apply Hok|]. apply orb_true_iff. right. apply any_spec. exists id, r'. split; [done|].
      apply bool_decide_eq_true_2. by destruct H as [->|[_ ->]]. }
    destruct H as [->|[Hst ->]]; [|apply file_ok_cleared; [done|]]; by apply (file_ok_scopes _ c).
  - intros k s Hk. destruct (Hb k s (Hsub k s Hk)) as [H1 H2]. split.
    + apply Hrem; [done|]. apply orb_true_iff. left. apply any_spec. exists k, s. split; [done|]. by apply bool_decide_eq_true_2.
    + intros id Hid. destruct (H2 id Hid) as [r Hr0]. destruct (ct_Files c' !! id) eqn:E; [eauto|].
      destruct (Hd id r Hr0 E) as (_ & Hre & _). pose proof (any_false _ _ _ _ Hre Hk) as Hx.
      by apply bool_decide_eq_false_1 in Hx.
  - etrans; [|exact Hu]. apply (usage_smaller (UploadLimits st)); [done|]. intros id r' Hr' Hp.
    destruct (Hf' id r' Hr') as (r & Hr0 & [->|[_ ->]]); eauto.
  - intros id s Hid. etrans; [|exact (Hq id s (Hsc id s Hid))]. apply (usage_smaller (UploadLimits st)); [done|]. intros i r' Hr' Hp.
    destruct (Hf' i r' Hr') as (r & Hr0 & [->|[_ ->]]); eauto.
Qed.
Lemma compacted_good clock c c' B : compacted clock c c' → good st c B → good st c' B.
Proof.
  intros Hc [Hok Hb]. split; [by eapply compacted_ok|]. intros id r' Hr'.
  destruct (comp_files _ _ _ Hc id r' Hr') as (r & Hr & [->|[Hs ->]]); [by eapply Hb|].
  apply (proj1 (bytes_ok_cleared B r Hs)). by eapply Hb.
Qed.
(** What holds of the files a compacted catalog knows holds of those the saved one knows. *)
Lemma compacted_back clock c c1 B B' :
  compacted clock c c1 → bytes_all c1 B' → evolves never c1 B c1 B' → bytes_all c B' ∧ evolves never c B c B'.
Proof.
  intros Hc Hb He.
  assert (∀ id r, ct_Files c !! id = Some r → is_live r = true → bytes_ok B' r ∧ held B r `prefix_of` held B' r) as Hlive.
  { intros id r Hr Hl. destruct (compacted_files _ _ _ _ _ Hc Hr Hl) as (r1 & Hr1 & H).
    destruct (He id r1 Hr1) as (r2 & Hr2 & [_ _ _ _ Hp]); [by destruct H as [->|[_ ->]]|intros []|].
    assert (r2 = r1) as -> by congruence. specialize (Hb id r1 Hr1). destruct H as [->|[Hs ->]]; [done|].
    split; [by apply (proj2 (bytes_ok_cleared B' r Hs))|done]. }
  split.
  - intros id r Hr. destruct (is_live r) eqn:Hl; [by apply (Hlive id)|].
    apply negb_false_iff, bool_decide_eq_true_1 in Hl. split; rewrite Hl; discriminate.
  - intros id r Hr Hl _. exists r. split; [done|]. split; [apply same_upload_refl|done|done|done|by apply (Hlive id)].
Qed.

(** ** The rule for transactions

    An operation keeps the invariant when whatever it does to the files agrees with the
    catalog it was given, and with the one it answers. *)

Definition keeps {A} (dead : string → Prop) (c : catalog) (B : Blobs) (σ' : UpSys W) (r : result (catalog * bool * A)) : Prop :=
  bytes_all c (up_blobs σ') ∧ evolves never c B c (up_blobs σ') ∧
  match r with
  | Ok (c', _, _) => good st c' (up_blobs σ') ∧ evolves dead c (up_blobs σ') c' (up_blobs σ')
  | Err _ => True
  end.

(** With a relation [R] between the operation's catalog and its answer, which holds of
    the answer of a transaction that succeeds. *)
Lemma transaction_result_from {A} (fn : catalog → Up W (catalog * bool * A)) dead
    (R : catalog → UpSys W → catalog → bool → A → Prop) σ c :
  catalog_of σ = Ok c → good st c (up_blobs σ) →
  (∀ c1 σ1, entered rt st σ σ1 c1 → compacted (reads_clock rt) c c1 → good st c1 (up_blobs σ1) → up_blobs σ1 = up_blobs σ →
     wp (fn c1) (λ σ2 r, up_file σ2 = up_file σ1 ∧ keeps dead c1 (up_blobs σ1) σ2 r
                         ∧ match r with Ok (c2, ch, a) => R c1 σ2 c2 ch a | Err _ => True end) σ1) →
  wp (transaction rt st fn) (λ σ' x, step dead σ σ' ∧ match x with
    | Ok a => ∃ c1 σ2 c2 ch, compacted (reads_clock rt) c c1 ∧ R c1 σ2 c2 ch a ∧ up_blobs σ' = up_blobs σ2
                             ∧ (ch = true → catalog_of σ' = Ok c2)
    | Err _ => True end) σ.
Proof.
  intros Hl Hg Hfn.
  assert (∀ σ', quiet σ σ' → step dead σ σ') as Hquiet.
  { intros σ' [Hf Hb]. exists c, c. unfold catalog_of. rewrite Hf, Hb. repeat (split; [done|]). apply evolves_refl. }
  apply (wp_transaction rt st _ _ _ c); [done|intros σ' e Hσ; split; [by apply Hquiet|done]|].
  intros σ1 c1 [Hf1 Hb1] Hc Hen. assert (good st c1 (up_blobs σ1)) as Hg1 by (rewrite Hb1; by eapply compacted_good).
  eapply wp_mono; [by apply (Hfn c1 σ1)|]. intros σ2 r (Hf2 & (Hball & Hev & Hr) & HR).
  destruct (compacted_back _ _ _ _ _ Hc Hball Hev) as [Hball' Hev']. destruct Hg as [Hok Hbytes].
  assert (∀ σ3, up_file σ3 = up_file σ2 → up_blobs σ3 = up_blobs σ2 → step dead σ σ3) as Hkept.
  { intros σ3 Hf Hb. exists c, c. unfold catalog_of. rewrite Hf, Hf2, Hf1, Hb. repeat (split; [done|]).
    rewrite <- Hb1. by apply evolves_never. }
  destruct r as [[[c2 changed] a]|e]; [|by split; [apply Hkept|]]. destruct Hr as [Hg2 He2]. split_and!.
  - intros ->. split; [by apply Hkept|]. exists c1, σ2, c2, false. repeat (split; [done|]). done.
  - intros σ3 e [H1 H2]. split; [by apply Hkept|done].
  - intros σ3 r Hb (text & _ & Hn & Hf & _) Hans.
    assert (catalog_of σ3 = Ok c2) as Hl3.
    { unfold catalog_of. rewrite Hf. destruct Hg2 as [Hok2 _]. apply load_saved; [apply Hok2|apply Hok2|by apply checks_pass|done]. }
    split.
    + exists c, c2. rewrite Hb. split; [done|]. split; [done|]. split; [done|]. eapply evolves_trans; [|exact He2].
      eapply evolves_trans; [apply evolves_never, (compacted_evolves _ _ _ _ Hc)|]. rewrite <- Hb1. by apply evolves_never.
    + destruct r as [b|e]; [|done]. rewrite (Hans b eq_refl). exists c1, σ2, c2, changed. done.
Qed.
Lemma transaction_result {A} (fn : catalog → Up W (catalog * bool * A)) dead
    (R : catalog → UpSys W → catalog → bool → A → Prop) σ c :
  catalog_of σ = Ok c → good st c (up_blobs σ) →
  (∀ c1 σ1, compacted (reads_clock rt) c c1 → good st c1 (up_blobs σ1) → up_blobs σ1 = up_blobs σ →
     wp (fn c1) (λ σ2 r, up_file σ2 = up_file σ1 ∧ keeps dead c1 (up_blobs σ1) σ2 r
                         ∧ match r with Ok (c2, ch, a) => R c1 σ2 c2 ch a | Err _ => True end) σ1) →
  wp (transaction rt st fn) (λ σ' x, step dead σ σ' ∧ match x with
    | Ok a => ∃ c1 σ2 c2 ch, compacted (reads_clock rt) c c1 ∧ R c1 σ2 c2 ch a ∧ up_blobs σ' = up_blobs σ2
                             ∧ (ch = true → catalog_of σ' = Ok c2)
    | Err _ => True end) σ.
Proof. intros Hl Hg Hfn. apply transaction_result_from; auto. Qed.
Lemma transaction_step_from {A} (fn : catalog → Up W (catalog * bool * A)) dead σ c :
  catalog_of σ = Ok c → good st c (up_blobs σ) →
  (∀ c1 σ1, entered rt st σ σ1 c1 → compacted (reads_clock rt) c c1 → good st c1 (up_blobs σ1) → up_blobs σ1 = up_blobs σ →
     wp (fn c1) (λ σ2 r, up_file σ2 = up_file σ1 ∧ keeps dead c1 (up_blobs σ1) σ2 r) σ1) →
  wp (transaction rt st fn) (λ σ' _, step dead σ σ') σ.
Proof.
  intros Hl Hg Hfn. eapply wp_mono; [apply (transaction_result_from fn dead (λ _ _ _ _ _, True) σ c); [done|done|]|].
  - intros c1 σ1 H0 H1 H2 H3. eapply wp_mono; [by apply (Hfn c1 σ1)|]. intros σ2 r [H4 H5]. split; [done|]. split; [done|].
    by destruct r as [[[]]|].
  - by intros σ' x [H _].
Qed.
Lemma transaction_step {A} (fn : catalog → Up W (catalog * bool * A)) dead σ c :
  catalog_of σ = Ok c → good st c (up_blobs σ) →
  (∀ c1 σ1, compacted (reads_clock rt) c c1 → good st c1 (up_blobs σ1) → up_blobs σ1 = up_blobs σ →
     wp (fn c1) (λ σ2 r, up_file σ2 = up_file σ1 ∧ keeps dead c1 (up_blobs σ1) σ2 r) σ1) →
  wp (transaction rt st fn) (λ σ' _, step dead σ σ') σ.
Proof. intros Hl Hg Hfn. eapply transaction_step_from; eauto. Qed.
End Keep.
