(* ===== verification/UploadScopeFacts.v ===== *)
(** * Private uploads: operations on scopes and submissions

    The operations that leave the uploaded files alone keep the invariant. *)

From S2P Require Import Prelude Effects GoStrings GoJson GoTime GoLibrary UploadTypes UploadStore UploadBackend UploadClaims UploadWp UploadInv.

Open Scope Z_scope.

Section Facts.
Context {W : Type} (rt : UpRuntime W) (st : Store).
Context (Hlimits : limits_ok (UploadLimits st)).

(** ** Changes of a catalog that keep it consistent *)

Lemma usage_nobody p c : (∀ id r, ct_Files c !! id = Some r → p r = false) → usage_of p (files_of c) <= 0.
Proof.
  intros H. unfold files_of. etrans; [apply (usage_le p p ∅)|].
  - intros id r. by rewrite lookup_empty.
  - intros id r Hr Hp. rewrite (H id r Hr) in Hp. discriminate.
  - by rewrite map_to_list_empty.
Qed.

Lemma quota_nonneg s : 0 <= quota (UploadLimits st) s.
Proof. unfold quota. pose proof (l_prompt _ Hlimits). case_match; lia. Qed.

Lemma change_scopes c c' :
  catalog_ok st c →
  ct_Schema c' = ct_Schema c ∧ ct_Workspace c' = ct_Workspace c ∧ ct_Files c' = ct_Files c ∧ ct_Submissions c' = ct_Submissions c →
  Z.of_nat (size (ct_Scopes c')) <= maxRecords →
  (∀ id, is_Some (ct_Scopes c !! id) → is_Some (ct_Scopes c' !! id)) →
  (∀ id s', ct_Scopes c' !! id = Some s' → sc_ID s' = id ∧
     (ct_Scopes c !! id = None ∨ ∃ s, ct_Scopes c !! id = Some s ∧ (sc_Draft s' = true → sc_Draft s = true))) →
  catalog_ok st c'.
Proof.
  intros [Hi Hn Hs Hf Hb Hu Hq] (E1 & E2 & E3 & E4) Hsize Hkeep Hnew. split.
  - by rewrite E1, E2.
  - rewrite E3, E4. tauto.
  - intros id s H. by apply Hnew.
  - rewrite E3. intros id r Hr. apply (file_ok_scopes _ c); [apply Hkeep|by apply Hf].
  - rewrite E4. intros k s Hk. destruct (Hb k s Hk) as [H1 H2]. split; [by apply Hkeep|]. by rewrite E3.
  - unfold files_of. by rewrite E3.
  - intros id s' H. unfold files_of. rewrite E3. destruct (Hnew id s' H) as [_ [Hnone|(s & Hsome & Hd)]].
    + etrans; [|apply quota_nonneg]. apply usage_nobody. intros j r Hr. destruct (Hf j r Hr) as [_ _ _ _ _ _ _ [x Hx]].
      unfold live_in. apply andb_false_iff. right. apply bool_decide_eq_false_2. congruence.
    + etrans; [exact (Hq id s Hsome)|]. pose proof (l_prompt _ Hlimits). unfold quota.
      destruct (sc_Draft s'); [rewrite (Hd eq_refl)|case_match]; lia.
Qed.
(** Replacing a scope under its own name. *)
Lemma change_scope c id s s' :
  catalog_ok st c → ct_Scopes c !! id = Some s → sc_ID s' = id → (sc_Draft s' = true → sc_Draft s = true) →
  catalog_ok st (c <| ct_Scopes ::= <[id := s']> |>).
Proof.
  intros Hc Hs Hid Hd. apply (change_scopes c); [done|done| | |]; cbn.
  - rewrite map_size_insert, Hs. apply Hc.
  - intros j Hj. destruct (decide (j = id)) as [->|]; [rewrite lookup_insert_eq|rewrite lookup_insert_ne by done]; eauto.
  - intros j x [[<- <-]|[_ H]]%lookup_insert_Some; [eauto|]. split; [by apply (c_scopes _ _ Hc)|]. eauto.
Qed.
Lemma add_scope c id s :
  catalog_ok st c → ct_Scopes c !! id = None → sc_ID s = id → Z.of_nat (size (ct_Scopes c)) < maxRecords →
  catalog_ok st (c <| ct_Scopes ::= <[id := s]> |>).
Proof.
  intros Hc Hn Hid Hs. apply (change_scopes c); [done|done| | |]; cbn.
  - rewrite map_size_insert, Hn. lia.
  - intros j Hj. destruct (decide (j = id)) as [->|]; [rewrite lookup_insert_eq|rewrite lookup_insert_ne by done]; eauto.
  - intros j x [[<- <-]|[_ H]]%lookup_insert_Some; [auto|]. split; [by apply (c_scopes _ _ Hc)|]. eauto.
Qed.

Lemma change_submissions c c' :
  catalog_ok st c →
  ct_Schema c' = ct_Schema c ∧ ct_Workspace c' = ct_Workspace c ∧ ct_Files c' = ct_Files c ∧ ct_Scopes c' = ct_Scopes c →
  Z.of_nat (size (ct_Submissions c')) <= maxRecords →
  (∀ k s, ct_Submissions c' !! k = Some s → submission_ok c s) → catalog_ok st c'.
Proof.
  intros [Hi Hn Hs Hf Hb Hu Hq] (E1 & E2 & E3 & E4) Hsize Hnew. split.
  - by rewrite E1, E2.
  - rewrite E3, E4. tauto.
  - by rewrite E4.
  - rewrite E3. intros id r Hr. apply (file_ok_scopes _ c); [by rewrite E4|by apply Hf].
  - intros k s Hk. destruct (Hnew k s Hk) as [H1 H2]. split; [by rewrite E4|by rewrite E3].
  - unfold files_of. by rewrite E3.
  - unfold files_of. rewrite E3, E4. done.
Qed.
Lemma change_submission c k s s' :
  catalog_ok st c → ct_Submissions c !! k = Some s → sb_Scope s' = sb_Scope s → sb_Files s' = sb_Files s →
  catalog_ok st (c <| ct_Submissions ::= <[k := s']> |>).
Proof.
  intros Hc Hk E1 E2. apply (change_submissions c); [done|done| |]; cbn.
  - rewrite map_size_insert, Hk. apply Hc.
  - intros j x [[<- <-]|[_ H]]%lookup_insert_Some; [|by eapply c_submissions].
    destruct (c_submissions _ _ Hc k s Hk). split; [by rewrite E1|by rewrite E2].
Qed.
Lemma add_submission c k s :
  catalog_ok st c → submission_ok c s → Z.of_nat (size (ct_Submissions c)) < maxRecords →
  catalog_ok st (c <| ct_Submissions ::= <[k := s]> |>).
Proof.
  intros Hc Hs Hn. apply (change_submissions c); [done|done| |]; cbn.
  - rewrite map_size_insert. case_match; cbn; lia.
  - intros j x [[<- <-]|[_ H]]%lookup_insert_Some; [done|by eapply c_submissions].
Qed.
Lemma submission_ok_frame c c' s :
  ct_Scopes c' = ct_Scopes c → ct_Files c' = ct_Files c → submission_ok c s → submission_ok c' s.
Proof. intros E1 E2 [H1 H2]. split; [by rewrite E1|by rewrite E2]. Qed.

(** Files that change in nothing the quotas or the submissions look at. *)
Lemma change_file c id r r' :
  catalog_ok st c → ct_Files c !! id = Some r → file_ok (UploadLimits st) c id r' → fr_Size r' = fr_Size r →
  fr_Scope r' = fr_Scope r → (is_live r' = true → is_live r = true) → catalog_ok st (c <| ct_Files ::= <[id := r']> |>).
Proof.
  intros [Hi Hn Hs Hf Hb Hu Hq] Hr Hok E1 E2 Hl.
  assert (∀ p, (p r' = true → p r = true) → usage_of p (files_of (c <| ct_Files ::= <[id := r']> |>)) <= usage_of p (files_of c)) as Hle.
  { intros p Hp. apply (usage_smaller (UploadLimits st)); [done|]. cbn.
    intros j x [[<- <-]|[_ H]]%lookup_insert_Some Hx; eauto. }
  split; cbn.
  - done.
  - rewrite map_size_insert, Hr. tauto.
  - done.
  - intros j x [[<- <-]|[_ H]]%lookup_insert_Some; (apply (file_ok_scopes _ c); [done|auto]).
  - intros k s Hk. destruct (Hb k s Hk) as [H1 H2]. split; [done|]. cbn. intros j Hj.
    destruct (decide (j = id)) as [->|]; [rewrite lookup_insert_eq|rewrite lookup_insert_ne by done]; eauto.
  - etrans; [apply Hle, Hl|done].
  - intros i s His. etrans; [apply Hle|by apply Hq]. unfold live_in. rewrite E2, !andb_true_iff. tauto.
Qed.

(** ** Operations that leave the files alone *)

(** Files of which only the date of their last use may have changed. *)
Definition used (t : Stamp) (r : fileRecord) : fileRecord := r <| fr_Updated := t |>.
Definition touched (c c' : catalog) : Prop :=
  (∀ id r, ct_Files c !! id = Some r → ∃ t, ct_Files c' !! id = Some (used t r)) ∧
  (∀ id r', ct_Files c' !! id = Some r' → ∃ r t, ct_Files c !! id = Some r ∧ r' = used t r).
Lemma used_self r : used (fr_Updated r) r = r.
Proof. by destruct r. Qed.
Lemma touched_eq c c' : ct_Files c' = ct_Files c → touched c c'.
Proof.
  intros E. split; rewrite E; intros id r Hr; [exists (fr_Updated r); by rewrite used_self|].
  exists r, (fr_Updated r). by rewrite used_self.
Qed.
Lemma bytes_ok_used B t r : bytes_ok B r → bytes_ok B (used t r).
Proof. by intros [H1 H2 H3]. Qed.

Lemma keeps_files {A} dead c (σ σ' : UpSys W) (r : result (catalog * bool * A)) :
  quiet σ σ' → good st c (up_blobs σ) →
  (match r with Ok (c', _, _) => catalog_ok st c' ∧ touched c c' | Err _ => True end) →
  up_file σ' = up_file σ ∧ keeps st dead c (up_blobs σ) σ' r.
Proof.
  intros [Hf Hb] [Hok Hbytes] H. split; [done|]. unfold keeps. rewrite Hb. split; [done|]. split; [apply evolves_refl|].
  destruct r as [[[c' ch] a]|e]; [|done]. destruct H as [Hc' [E1 E2]]. split.
  - split; [done|]. intros id r' Hr'. destruct (E2 id r' Hr') as (r & t & Hr & ->). by eapply bytes_ok_used, Hbytes.
  - intros id x Hx Hl _. destruct (E1 id x Hx) as [t Ht]. exists (used t x). split; [done|]. by split.
Qed.

(** A procedure that only asks, and answers a catalog with the same files. *)
Definition plain {A} (c : catalog) (m : Up W (catalog * bool * A)) : Prop :=
  ∀ σ, wp m (λ σ' r, quiet σ σ' ∧ match r with Ok (c', _, _) => catalog_ok st c' ∧ touched c c' | Err _ => True end) σ.
Lemma plain_step_from {A} (fn : catalog → Up W (catalog * bool * A)) σ c :
  catalog_of st σ = Ok c → good st c (up_blobs σ) →
  (∀ c1 σ1, entered rt st σ σ1 c1 → up_blobs σ1 = up_blobs σ → compacted (reads_clock rt) c c1 → catalog_ok st c1 →
     wp (fn c1) (λ σ' r, quiet σ1 σ' ∧ match r with Ok (c', _, _) => catalog_ok st c' ∧ touched c1 c' | Err _ => True end) σ1) →
  wp (transaction rt st fn) (λ σ' _, step st never σ σ') σ.
Proof.
  intros Hl Hg Hfn. eapply transaction_step_from; [done|done|]. intros c1 σ1 Hen Hc Hg1 Hb.
  eapply wp_mono; [by apply Hfn; [| | |destruct Hg1]|]. intros σ2 r [Hσ Hr]. by apply keeps_files.
Qed.
Lemma plain_step {A} (fn : catalog → Up W (catalog * bool * A)) σ c :
  catalog_of st σ = Ok c → good st c (up_blobs σ) →
  (∀ c1, compacted (reads_clock rt) c c1 → catalog_ok st c1 → plain c1 (fn c1)) →
  wp (transaction rt st fn) (λ σ' _, step st never σ σ') σ.
Proof. intros Hl Hg Hfn. eapply plain_step_from; [done|done|]. intros c1 σ1 _ _ Hc Hok. by apply Hfn. Qed.

(** ** Visiting submissions

    What a loop has made of a catalog: still consistent, with the same files, and with
    the scopes and submissions it started with, perhaps changed. *)

Record grown (c d : catalog) : Prop := {
  g_ok : catalog_ok st d;
  g_files : ct_Files d = ct_Files c;
  g_scopes : ∀ id, is_Some (ct_Scopes c !! id) → is_Some (ct_Scopes d !! id);
  g_submissions : ∀ k, is_Some (ct_Submissions c !! k) → is_Some (ct_Submissions d !! k) }.
Lemma grown_refl c : catalog_ok st c → grown c c.
Proof. by split. Qed.

Lemma is_Some_insert {A} (m : gmap string A) k j a : is_Some (m !! j) → is_Some (<[k := a]> m !! j).
Proof. intros H. destruct (decide (k = j)) as [->|]; [rewrite lookup_insert_eq|rewrite lookup_insert_ne]; eauto. Qed.

Lemma grown_submission c d k s s' :
  grown c d → submission_ok c s → is_Some (ct_Submissions c !! k) → sb_Scope s' = sb_Scope s → sb_Files s' = sb_Files s →
  grown c (d <| ct_Submissions ::= <[k := s']> |>).
Proof.
  intros [Hok Hf Hs Hk] [H1 H2] Hin E1 E2. split; [|done|done|intros j Hj; cbn; auto using is_Some_insert].
  apply (change_submissions d); [done|done| |]; cbn.
  - rewrite map_size_insert. destruct (Hk k Hin) as [x ->]. apply Hok.
  - intros j x [[<- <-]|[_ H]]%lookup_insert_Some; [|by eapply c_submissions]. split.
    + rewrite E1. by apply Hs.
    + rewrite E2, Hf. done.
Qed.
Lemma grown_scope c d id s s' :
  grown c d → ct_Scopes d !! id = Some s → sc_ID s' = sc_ID s → (sc_Draft s' = true → sc_Draft s = true) →
  grown c (d <| ct_Scopes ::= <[sc_ID s := s']> |>).
Proof.
  intros [Hok Hf Hs Hk] Hid E Hd. assert (sc_ID s = id) as Eid by by eapply c_scopes.
  split; [|done|intros j Hj; cbn; auto using is_Some_insert|done]. rewrite Eid. apply (change_scope d id s s'); [done|done|congruence|done].
Qed.
(** The scope of a submission. *)
Lemma grown_scope_at c d s : grown c d → submission_ok c s → ct_Scopes d !! sb_Scope s = Some (scope_at d (sb_Scope s)).
Proof. intros [_ _ Hs _] [H _]. unfold scope_at. destruct (Hs _ H) as [x Hx]. by rewrite Hx. Qed.

(** The post-condition of a procedure that only asks. *)
Definition asks {A} (c : catalog) (σ0 σ' : UpSys W) (r : result (catalog * bool * A)) : Prop :=
  quiet σ0 σ' ∧ match r with Ok (c', _, _) => catalog_ok st c' ∧ touched c c' | Err _ => True end.

Lemma asks_bind {A B} c σ0 σ (m : Up W A) (f : A → Up W (catalog * bool * B)) :
  quiet σ0 σ → rel_steps quiet m → (∀ a σ', quiet σ0 σ' → wp (f a) (asks c σ0) σ') → wp (m ≫= f) (asks c σ0) σ.
Proof.
  intros Hσ Hm Hf. apply wp_bind, wp_quiet; [done|]. intros σ' [a|e] H; [apply Hf|split; [|done]]; by etrans.
Qed.
Lemma asks_ret {A} c σ0 σ c' ch (a : A) : quiet σ0 σ → catalog_ok st c' → ct_Files c' = ct_Files c → wp (mret (c', ch, a)) (asks c σ0) σ.
Proof. intros. apply wp_ret. split; [done|]. split; [done|by apply touched_eq]. Qed.
Lemma asks_fail {A} c σ0 σ e : quiet σ0 σ → wp (fail e : Up W (catalog * bool * A)) (asks c σ0) σ.
Proof. intros. by apply wp_fail. Qed.

Lemma asks_range {A B} c σ0 σ (m : gmap string A) (f : list (string * A) → Up W (catalog * bool * B)) :
  quiet σ0 σ → (∀ l σ', quiet σ0 σ' → (∀ k a, (k, a) ∈ l → m !! k = Some a) → wp (f l) (asks c σ0) σ') →
  wp (range rt m ≫= f) (asks c σ0) σ.
Proof. intros Hσ Hf. apply wp_bind, wp_range. intros σ' l H Hl. apply Hf; [by etrans|done]. Qed.

(** A loop whose bodies only ask. *)
Lemma asks_loop {A D B} c σ0 σ (J : D → Prop) (body : A → D → Up W D) l d (f : D → Up W (catalog * bool * B)) :
  quiet σ0 σ → J d →
  (∀ a d σ, a ∈ l → J d → wp (body a d) (λ σ' r, quiet σ σ' ∧ match r with Ok d' => J d' | Err _ => True end) σ) →
  (∀ d σ', quiet σ0 σ' → J d → wp (f d) (asks c σ0) σ') →
  wp (for_each body l d ≫= f) (asks c σ0) σ.
Proof.
  intros Hσ Hd Hb Hf. apply wp_bind, (wp_for_each_quiet J); [done| |done].
  intros σ' [d'|e] H Hj; [apply Hf; [by etrans|done]|split; [by etrans|done]].
Qed.

(** ** Scopes *)

Lemma draft_plain c slug thread epoch draft σ0 σ :
  (∀ w' raw, ur_random rt (up_world σ) = (w', Ok raw) → ct_Scopes c !! id_text raw = None) →
  catalog_ok st c → Z.of_nat (size (ct_Scopes c)) < maxRecords → quiet σ0 σ →
  wp (id ← newID rt; now ← uask (ur_now rt);
      let s := mkScope id slug thread epoch draft false now in mret (c <| ct_Scopes ::= <[id := s]> |>, true, s))
     (asks c σ0) σ.
Proof.
  intros Hid Hc Hn Hσ. unfold newID. apply wp_bind, wp_bind, wp_uask. intros w [raw|e] E.
  - apply wp_bind, wp_lift_result, wp_ret. apply asks_bind; [done|apply quiet_uask|]. intros now σ' Hσ'.
    apply asks_ret; [done| |done]. apply add_scope; [done|by eapply Hid|done|done].
  - apply wp_bind, wp_lift_result. by split.
Qed.

(** What an operation asks before it draws an identity. *)
Inductive asked (w : W) : W → Prop :=
  | asked_range ks : asked w (ur_range rt ks w).1
  | asked_statfs : asked w (ur_statfs rt w).1.
(** The identity an operation may draw is not in use. *)
Definition fresh_ids (σ : UpSys W) : Prop := ∀ σ1 c1 w w' raw,
  entered rt st σ σ1 c1 → rtc asked (up_world σ1) w → ur_random rt w = (w', Ok raw) →
  ct_Scopes c1 !! id_text raw = None ∧ ct_Files c1 !! id_text raw = None ∧ idPattern (id_text raw) = true
  ∧ up_blobs σ !! id_text raw = None.

Lemma NewDraft_step σ c : catalog_of st σ = Ok c → good st c (up_blobs σ) → fresh_ids σ →
  wp (NewDraft rt st) (λ σ' _, step st never σ σ') σ.
Proof.
  intros Hl Hg Hf. eapply plain_step_from; [done|done|]. intros c1 σ1 Hen _ Hc Hok. destruct (maxRecords <=? _) eqn:E; [by apply wp_fail|].
  apply (draft_plain c1); [|done|lia|done]. intros w' raw Hr. by destruct (Hf _ _ _ _ _ Hen (rtc_refl _ _) Hr).
Qed.
Lemma SessionScope_step slug thread epoch σ c : catalog_of st σ = Ok c → good st c (up_blobs σ) → fresh_ids σ →
  wp (SessionScope rt st slug thread epoch) (λ σ' _, step st never σ σ') σ.
Proof.
  intros Hl Hg Hf. eapply plain_step_from; [done|done|]. intros c1 σ1 Hen _ Hc Hok. unfold range.
  apply wp_bind, wp_bind, wp_uask. intros w ks Hw. apply wp_ret. destruct (List.find _ _) as [[id s]|]; [by apply asks_ret|].
  destruct (maxRecords <=? _) eqn:E; [by apply wp_fail|].
  apply (draft_plain c1 _ _ _ _ σ1); [|done|lia|by split]. intros w' raw Hr.
  destruct (Hf σ1 c1 w w' raw Hen) as [H _]; [|done|done]. apply rtc_once.
  replace w with (ur_range rt (map fst (map_to_list (ct_Scopes c1))) (up_world σ1)).1 by (by rewrite Hw). constructor.
Qed.

End Facts.
