(* ===== verification/UploadClaimFacts.v ===== *)
(** * Private uploads: operations on submissions keep the invariant *)

From S2P Require Import Prelude Effects GoStrings GoJson GoTime GoLibrary Sha256 UploadTypes UploadStore UploadBackend UploadClaims.
From S2P Require Import UploadWp UploadInv UploadScopeFacts.
From Stdlib Require Import Permutation.

Open Scope Z_scope.

Section Facts.
Context {W : Type} (rt : UpRuntime W) (st : Store).
Context (Hlimits : limits_ok (UploadLimits st)).

Abbreviation asks := (asks st).
Abbreviation grown := (grown st).

(** A submission of the catalog a loop started with. *)
Lemma visited c k s : catalog_ok st c → ct_Submissions c !! k = Some s → submission_ok c s ∧ is_Some (ct_Submissions c !! k).
Proof. intros Hc Hk. split; [by eapply c_submissions|eauto]. Qed.

(** A loop over the submissions whose bodies keep what they started with. *)
Lemma submissions_loop {B} c σ0 σ (D := (catalog * bool)%type) (body : string * submission → D → Up W D)
    (f : D → Up W (catalog * bool * B)) :
  catalog_ok st c → quiet σ0 σ →
  (∀ k s d σ, ct_Submissions c !! k = Some s → submission_ok c s → grown c d.1 →
     wp (body (k, s) d) (λ σ' r, quiet σ σ' ∧ match r with Ok d' => grown c d'.1 | Err _ => True end) σ) →
  (∀ d σ', quiet σ0 σ' → grown c d.1 → wp (f d) (asks c σ0) σ') →
  wp (submissions ← range rt (ct_Submissions c); d ← for_each body submissions (c, false); f d) (asks c σ0) σ.
Proof.
  intros Hc Hσ Hb Hf. apply asks_range; [done|]. intros l σ1 H1 Hl.
  apply (asks_loop _ _ _ _ (λ d, grown c d.1)); [done|by apply grown_refl| |done].
  intros [k s] d σ2 Hin Hd. apply Hb; [by apply Hl| |done]. eapply c_submissions; [done|by apply Hl].
Qed.
Lemma asks_grown {A} c (σ0 σ : UpSys W) d ch (a : A) : quiet σ0 σ → grown c d → wp (mret (d, ch, a)) (asks c σ0) σ.
Proof. intros Hσ [Hok Hf _ _]. by apply asks_ret. Qed.

(** Bodies that answer at once. *)
Abbreviation visits c σ := (λ (σ' : UpSys W) (r : result (catalog * bool)),
  quiet σ σ' ∧ match r with Ok d' => grown c d'.1 | Err _ => True end).
Lemma visit_ret c σ d : grown c d.1 → wp (mret d) (visits c σ) σ.
Proof. intros H. apply wp_ret. by split. Qed.
Lemma visit_fail c σ e : wp (fail e : Up W (catalog * bool)) (visits c σ) σ.
Proof. by apply wp_fail. Qed.

(** ** Adoption and retention *)

Lemma adopt_visits digest slug thread epoch c k s d σ :
  ct_Submissions c !! k = Some s → submission_ok c s → grown c d.1 →
  wp (adopt digest slug thread epoch (k, s) d) (visits c σ) σ.
Proof.
  intros Hk Hs Hd. unfold adopt. cbv zeta. case_match; [by apply visit_ret|]. case_match; [by apply visit_ret|].
  apply wp_bind, wp_quiet; [case_match; procs|]. intros σ1 [[]|e] Hσ; [|by split].
  pose proof (grown_scope_at _ _ _ _ Hd Hs) as Hsc. case_match; [by apply wp_fail|]. apply wp_ret. split; [done|]. cbn [fst].
  apply (grown_submission st c _ k s); [|done|eauto|done|done].
  by apply (grown_scope st Hlimits c d.1 (sb_Scope s)).
Qed.
Lemma AdoptInitial_step digest slug thread epoch σ c : catalog_of st σ = Ok c → good st c (up_blobs σ) →
  wp (AdoptInitial rt st digest slug thread epoch) (λ σ' _, step st never σ σ') σ.
Proof.
  intros Hl Hg. eapply plain_step; [done|done|]. intros c1 Hc Hok σ1.
  apply submissions_loop; [done|done|intros; by apply adopt_visits|]. intros d σ2 Hσ Hd. by apply asks_grown.
Qed.

Lemma retain_visits goals c k s d σ :
  ct_Submissions c !! k = Some s → submission_ok c s → grown c d.1 → wp (retain goals (k, s) d) (visits c σ) σ.
Proof.
  intros Hk Hs Hd. unfold retain. cbv zeta. destruct (goals !! _) as [owner|]; [|by apply visit_ret].
  pose proof (grown_scope_at _ _ _ _ Hd Hs) as Hsc.
  assert (∀ s' e', sc_ID s' = sc_ID (scope_at d.1 (sb_Scope s)) → sc_Draft s' = sc_Draft (scope_at d.1 (sb_Scope s)) →
            sb_Scope e' = sb_Scope s → sb_Files e' = sb_Files s →
            grown c (d.1 <| ct_Scopes ::= <[sc_ID (scope_at d.1 (sb_Scope s)) := s']> |> <| ct_Submissions ::= <[k := e']> |>)) as H.
  { intros s' e' E1 E2 E3 E4. apply (grown_submission st c _ k s); [|done|eauto|done|done].
    apply (grown_scope st Hlimits c d.1 (sb_Scope s)); [done|done|done|congruence]. }
  case_match; [by apply visit_ret, H|]. case_match; [|by apply visit_ret]. case_match; [apply visit_fail|by apply visit_ret, H].
Qed.
Lemma RetainCreations_step goals σ c : catalog_of st σ = Ok c → good st c (up_blobs σ) →
  wp (RetainCreations rt st goals) (λ σ' _, step st never σ σ') σ.
Proof.
  intros Hl Hg. eapply plain_step; [done|done|]. intros c1 Hc Hok σ1.
  apply submissions_loop; [done|done|intros; by apply retain_visits|]. intros d σ2 Hσ Hd. by apply asks_grown.
Qed.

Lemma asks_error {A} c (σ0 σ : UpSys W) e (m : Up W (catalog * bool * A)) :
  quiet σ0 σ → (∀ σ', quiet σ0 σ' → wp m (asks c σ0) σ') → wp (lift_error e;; m) (asks c σ0) σ.
Proof. intros Hσ Hm. apply asks_bind; [done|procs|]. auto. Qed.

Lemma BindPreparation_step requestID scopeID wire slug epoch σ c : catalog_of st σ = Ok c → good st c (up_blobs σ) →
  wp (BindPreparation rt st requestID scopeID wire slug epoch) (λ σ' _, step st never σ σ') σ.
Proof.
  intros Hl Hg. eapply plain_step; [done|done|]. intros c1 Hc Hok σ1. cbv zeta.
  destruct (preparationClaimConflict c1 scopeID _) eqn:Ec.
  { apply wp_bind, wp_lift_error. by split. }
  apply asks_error; [done|]. intros σ2 Hσ. case_match; [by apply asks_fail|]. apply asks_ret; [done| |done].
  unfold preparationClaimConflict in Ec. destruct (ct_Scopes c1 !! scopeID) as [s|] eqn:Es; [|discriminate].
  unfold scope_at. rewrite Es. apply (change_scope st Hlimits c1 scopeID s); [done|done|by cbn; eapply c_scopes|done].
Qed.

(** ** Observation *)

Lemma find_visited (c d : catalog) p l k s :
  (∀ k s, (k, s) ∈ l → ct_Submissions d !! k = Some s) → List.find p l = Some (k, s) → ct_Submissions d !! k = Some s.
Proof. intros Hl [Hin _]%find_some. apply Hl. by apply list_elem_of_In. Qed.

Lemma observed_submission c d k s s' :
  grown c d → ct_Submissions d !! k = Some s → sb_Scope s' = sb_Scope s → sb_Files s' = sb_Files s →
  grown c (d <| ct_Submissions ::= <[k := s']> |>).
Proof.
  intros [Hok Hf Hs Hk] Hin E1 E2. split; [by eapply change_submission|done|done|intros j Hj; cbn; auto using is_Some_insert].
Qed.

(** A loop over observed entries: each looks through the submissions. *)
Lemma observe_step {E} (body : E → catalog * bool * list E → Up W (catalog * bool * list E)) l σ c :
  catalog_of st σ = Ok c → good st c (up_blobs σ) →
  (∀ c0 e d σ, grown c0 d.1.1 → wp (body e d) (λ σ' r, quiet σ σ' ∧ match r with Ok d' => grown c0 d'.1.1 | Err _ => True end) σ) →
  wp (transaction rt st (λ c, for_each body l (c, false, []))) (λ σ' _, step st never σ σ') σ.
Proof.
  intros Hl Hg Hb. eapply plain_step; [done|done|]. intros c1 Hc Hok σ1.
  apply (wp_for_each_quiet (λ d, grown c1 d.1.1)); [auto| |by apply grown_refl].
  intros σ2 [[[d ch] a]|e] Hσ Hd; split; try done. cbn in Hd. destruct Hd as [Hd Hf _ _]. split; [done|by apply touched_eq].
Qed.

Lemma ObserveTranscript_step b l σ c : catalog_of st σ = Ok c → good st c (up_blobs σ) →
  wp (ObserveTranscript rt st b l) (λ σ' _, step st never σ σ') σ.
Proof.
  intros Hl Hg. eapply observe_step; [done|done|]. intros c0 e [[d ch] done] σ0 Hd. unfold observe_entry.
  case_match; [by apply wp_ret|]. apply wp_bind, wp_range. intros σ1 l' Hσ Hl'.
  destruct (List.find _ l') as [[k s]|] eqn:Ef; [|by apply wp_ret]. apply find_visited with (d := d) in Ef; [|done|done].
  cbv zeta. case_match; (apply wp_ret; split; [done|]); [|done]. by eapply observed_submission.
Qed.
Lemma ObserveQueue_step b l σ c : catalog_of st σ = Ok c → good st c (up_blobs σ) →
  wp (ObserveQueue rt st b l) (λ σ' _, step st never σ σ') σ.
Proof.
  intros Hl Hg. eapply observe_step; [done|done|]. intros c0 e [[d ch] done] σ0 Hd. unfold observe_queued.
  apply wp_bind, wp_range. intros σ1 l' Hσ Hl'.
  destruct (List.find _ l') as [[k s]|] eqn:Ef; [|by apply wp_ret]. apply find_visited with (d := d) in Ef; [|done|done].
  cbv zeta. case_match; (apply wp_ret; split; [done|]); [|done]. by eapply observed_submission.
Qed.
Lemma QueueDeleted_step scopeID id σ c : catalog_of st σ = Ok c → good st c (up_blobs σ) →
  wp (QueueDeleted rt st scopeID id) (λ σ' _, step st never σ σ') σ.
Proof.
  intros Hl Hg. eapply plain_step; [done|done|]. intros c1 Hc Hok σ1.
  apply submissions_loop; [done|done| |intros d σ2 Hσ Hd; by apply asks_grown]. intros k s d σ2 Hk Hs Hd. unfold unqueue.
  case_match; apply visit_ret; [|done]. by apply (grown_submission st c1 d.1 k s); eauto.
Qed.

(** ** Preparing submissions *)

Lemma touched_trans c1 c2 c3 : touched c1 c2 → touched c2 c3 → touched c1 c3.
Proof.
  intros [H1 H2] [H3 H4]. split.
  - intros id r Hr. destruct (H1 id r Hr) as [t Ht]. destruct (H3 id _ Ht) as [t' Ht']. by exists t'.
  - intros id r Hr. destruct (H4 id r Hr) as (r2 & t & Hr2 & ->). destruct (H2 id r2 Hr2) as (r1 & t1 & Hr1 & ->). by exists r1, t.
Qed.
Lemma touch_ok c id now :
  catalog_ok st c → is_Some (ct_Files c !! id) →
  let c' := c <| ct_Files ::= <[id := file_at c id <| fr_Updated := now |>]> |> in catalog_ok st c' ∧ touched c c'.
Proof.
  intros Hc [r Hr] c'. unfold c', file_at. rewrite Hr. change (default no_file (Some r)) with r. split.
  - apply (change_file st c id r); try done. by destruct (c_files _ _ Hc id r Hr).
  - split; cbn; intros j x.
    + intros Hx. destruct (decide (j = id)) as [->|Hn].
      * rewrite lookup_insert_eq. exists now. by assert (x = r) as -> by congruence.
      * rewrite lookup_insert_ne by done. exists (fr_Updated x). by rewrite used_self.
    + intros [[<- <-]|[_ Hx]]%lookup_insert_Some; [by exists r, now|]. exists x, (fr_Updated x). by rewrite used_self.
Qed.

Lemma describe_spec c scopeID ids (Q : UpSys W → result described → Prop) σ :
  (∀ σ' d, quiet σ σ' → (∀ id, id ∈ ids → accessible c scopeID id = true ∧ fr_State (file_at c id) = "ready") → Q σ' (Ok d)) →
  (∀ σ' e, quiet σ σ' → Q σ' (Err e)) →
  wp (for_each (describe_file rt st c scopeID) ids (mkDescribed [] 0 [])) Q σ.
Proof.
  intros Hok Herr.
  apply (wp_for_each (λ l d σ', quiet σ σ' ∧ ∀ id, id ∈ ids → id ∈ l ∨ (accessible c scopeID id = true ∧ fr_State (file_at c id) = "ready"))).
  - intros id l d σ' [Hσ Hl]. unfold describe_file. cbv zeta. case_match eqn:E; [by apply wp_fail, Herr|].
    apply orb_false_iff in E as [[[_ Ha%negb_false_iff]%orb_false_iff Hr]%orb_false_iff _].
    apply negb_false_iff, bool_decide_eq_true_1 in Hr. case_match; [by apply wp_fail, Herr|].
    apply wp_bind, wp_gets, wp_bind, wp_quiet; [procs|]. intros σ2 [stat|e] H2; [|apply Herr; by etrans].
    destruct (blob_at _ _ σ') as [f|]; [|apply wp_fail, Herr; by etrans].
    case_match; [apply wp_fail, Herr; by etrans|]. apply wp_ret. split; [by etrans|].
    intros j Hj. destruct (Hl j Hj) as [[->|?]%elem_of_cons|?]; auto.
  - intros d σ' [Hσ Hl]. apply Hok; [done|]. intros id Hid. destruct (Hl id Hid) as [H|H]; [set_solver|done].
  - split; [done|]. auto.
Qed.

Lemma accessible_known c scopeID id : accessible c scopeID id = true → is_Some (ct_Scopes c !! scopeID) ∧ is_Some (ct_Files c !! id).
Proof. unfold accessible. destruct (ct_Scopes c !! scopeID), (ct_Files c !! id); try discriminate. eauto. Qed.

Lemma prepare_asks c scopeID kind attempt text ids pending σ0 σ :
  catalog_ok st c → quiet σ0 σ → wp (prepareSubmission rt st c scopeID kind attempt text ids pending) (asks c σ0) σ.
Proof.
  intros Hc Hσ. unfold prepareSubmission. case_match; [by apply asks_fail|]. cbv zeta.
  apply asks_bind; [done|procs|]. intros [wire|] σ1 H1; [by apply asks_ret|].
  case_match eqn:Eids; [by apply asks_ret|]. apply bool_decide_eq_false_1 in Eids. case_match eqn:En; [by apply asks_fail|].
  apply Z.leb_gt in En. apply wp_bind, describe_spec; [|intros σ2 e H2; split; [by etrans|done]].
  intros σ2 d H2 Hids. case_match; [split; [by etrans|done]|].
  set (c2 := c <| ct_Submissions ::= _ |>).
  assert (catalog_ok st c2) as Hc2.
  { apply add_submission; [done| |done]. destruct ids as [|i ids]; [done|]. split.
    - by destruct (accessible_known c scopeID i) as [? _]; [apply Hids; set_solver|].
    - intros id Hid. by destruct (accessible_known c scopeID id) as [_ ?]; [apply Hids|]. }
  apply (asks_loop _ _ _ _ (λ d, catalog_ok st d ∧ touched c d)).
  - by etrans.
  - split; [done|]. by apply touched_eq.
  - intros id d' σ3 Hid [Hd Ht]. unfold touch. apply wp_bind, wp_uask. intros w now _. apply wp_ret. split; [done|].
    destruct (accessible_known c scopeID id) as [_ [r Hr]]; [by apply Hids|]. destruct (proj1 Ht id r Hr) as [t Hr'].
    destruct (touch_ok d' id now Hd) as [Hk1 Hk2]; [eauto|]. split; [done|]. by eapply touched_trans.
  - intros d' σ3 H3 Hd. apply wp_ret. by split.
Qed.

Lemma Prepare_step scopeID kind attempt text ids σ c : catalog_of st σ = Ok c → good st c (up_blobs σ) →
  wp (Prepare rt st scopeID kind attempt text ids) (λ σ' _, step st never σ σ') σ.
Proof.
  intros Hl Hg. eapply plain_step; [done|done|]. intros c1 Hc Hok σ1. apply asks_error; [done|]. intros σ2 Hσ.
  by apply prepare_asks.
Qed.

Lemma claim_asks c requestID scopeID text ids σ0 σ :
  catalog_ok st c → quiet σ0 σ → wp (preparePreparation rt st c requestID scopeID text ids) (asks c σ0) σ.
Proof.
  intros Hc Hσ. unfold preparePreparation. cbv zeta. destruct (ct_Submissions c !! _) as [previous|].
  - apply asks_error; [done|]. intros σ1 H1. case_match; [by apply asks_fail|by apply asks_ret].
  - case_match; case_match; try (by apply asks_fail); (apply asks_error; [done|]; intros σ1 H1;
      case_match; [by apply asks_fail|by apply prepare_asks]).
Qed.
Lemma ClaimPreparation_step requestID scopeID text ids σ c : catalog_of st σ = Ok c → good st c (up_blobs σ) →
  wp (ClaimPreparation rt st requestID scopeID text ids) (λ σ' _, step st never σ σ') σ.
Proof.
  intros Hl Hg.
  assert (step st never σ σ) as Hself by (exists c, c; repeat (split; [done|]); apply evolves_refl).
  unfold ClaimPreparation. case_match; [by apply wp_ret|]. case_match; [by apply wp_fail|].
  eapply plain_step; [done|done|]. intros c1 Hc Hok σ1. apply wp_bind. eapply wp_mono; [by apply claim_asks|].
  intros σ2 [[[c2 changed] wire]|e]; [|done]. intros [Hσ Hr]. apply wp_bind, wp_quiet; [case_match; procs|].
  intros σ3 [[]|e] H3; [apply wp_ret|]; (split; [by etrans|done]).
Qed.
Lemma ValidatePreparation_step requestID scopeID text ids σ c : catalog_of st σ = Ok c → good st c (up_blobs σ) →
  wp (ValidatePreparation rt st requestID scopeID text ids) (λ σ' _, step st never σ σ') σ.
Proof.
  intros Hl Hg.
  assert (step st never σ σ) as Hself by (exists c, c; repeat (split; [done|]); apply evolves_refl).
  unfold ValidatePreparation. case_match; [by apply wp_ret|].
  eapply plain_step; [done|done|]. intros c1 Hc Hok σ1. apply wp_bind. eapply wp_mono; [by apply claim_asks|].
  intros σ2 [[[c2 changed] wire]|e]; [|done]. intros [Hσ Hr]. by apply asks_ret.
Qed.

(** ** Operations that only look *)

Lemma find_scope_step id σ c : catalog_of st σ = Ok c → good st c (up_blobs σ) →
  wp (find_scope rt st id) (λ σ' _, step st never σ σ') σ.
Proof.
  intros Hl Hg. eapply plain_step; [done|done|]. intros c1 Hc Hok σ1.
  case_match; [case_match|]; try (by apply asks_fail); by apply asks_ret.
Qed.
Lemma Scopes_step σ c : catalog_of st σ = Ok c → good st c (up_blobs σ) →
  wp (Scopes rt st) (λ σ' _, step st never σ σ') σ.
Proof.
  intros Hl Hg. eapply plain_step; [done|done|]. intros c1 Hc Hok σ1. apply asks_range; [done|]. intros l σ2 Hσ _. by apply asks_ret.
Qed.
Lemma HasThread_step thread σ c : catalog_of st σ = Ok c → good st c (up_blobs σ) →
  wp (HasThread rt st thread) (λ σ' _, step st never σ σ') σ.
Proof. intros Hl Hg. eapply plain_step; [done|done|]. intros c1 Hc Hok σ1. by apply asks_ret. Qed.
Lemma List_step b σ c : catalog_of st σ = Ok c → good st c (up_blobs σ) →
  wp (UploadBackend.List rt st b) (λ σ' _, step st never σ σ') σ.
Proof. intros Hl Hg. eapply plain_step; [done|done|]. intros c1 Hc Hok σ1. by apply asks_ret. Qed.
Lemma Status_step b id σ c : catalog_of st σ = Ok c → good st c (up_blobs σ) →
  wp (Status rt st b id) (λ σ' _, step st never σ σ') σ.
Proof.
  intros Hl Hg. eapply plain_step; [done|done|]. intros c1 Hc Hok σ1. case_match; [by apply asks_fail|by apply asks_ret].
Qed.
Lemma quiet_open id name : rel_steps quiet (open_blob rt id name).
Proof. unfold open_blob. procs. Qed.
Hint Resolve quiet_open : proc.
Lemma Open_step b id σ c : catalog_of st σ = Ok c → good st c (up_blobs σ) →
  wp (Open rt st b id) (λ σ' _, step st never σ σ') σ.
Proof.
  intros Hl Hg. eapply plain_step; [done|done|]. intros c1 Hc Hok σ1. case_match; [|by apply asks_fail].
  case_match; [by apply asks_fail|]. apply asks_bind; [done|procs|]. intros bl σ2 H2.
  apply asks_bind; [done|procs|]. intros stat σ3 H3. case_match; [by apply asks_fail|by apply asks_ret].
Qed.

End Facts.
