(* ===== verification/UploadDeleteFacts.v ===== *)
(** * Private uploads: deletion, expiry, removal and forks keep the invariant

    And which uploads each of them may delete. *)

From S2P Require Import Prelude Effects GoStrings GoJson GoTime GoLibrary UploadTypes UploadStore UploadBackend UploadClaims.
From S2P Require Import UploadWp UploadInv UploadScopeFacts UploadClaimFacts.
From Stdlib Require Import Permutation.

Open Scope Z_scope.

Definition bury (t : Stamp) (r : fileRecord) : fileRecord :=
  r <| fr_State := "deleted" |> <| fr_Checksums := [] |> <| fr_Updated := t |>.
Lemma bury_now r : bury (fr_Updated r) r = r <| fr_State := "deleted" |> <| fr_Checksums := [] |>.
Proof. by destruct r. Qed.

(** A catalog some of whose dead files are marked deleted. *)
Definition buries (dead : string → Prop) (c c' : catalog) : Prop :=
  (∀ id r, ct_Files c !! id = Some r → ∃ r', ct_Files c' !! id = Some r' ∧ (r' = r ∨ dead id ∧ ∃ t, r' = bury t r)) ∧
  (∀ id, is_Some (ct_Files c' !! id) → is_Some (ct_Files c !! id)).

Lemma buries_same dead c c' : ct_Files c' = ct_Files c → buries dead c c'.
Proof. intros E. split; rewrite E; eauto. Qed.
Lemma not_live r : is_live r = false → fr_State r = "deleted".
Proof. by intros H%negb_false_iff%bool_decide_eq_true_1. Qed.
Lemma bytes_ok_dead B r : is_live r = false → bytes_ok B r.
Proof. intros H%not_live. split; rewrite H; discriminate. Qed.
Lemma buries_back dead c c' id r' : buries dead c c' → ct_Files c' !! id = Some r' →
  ∃ r, ct_Files c !! id = Some r ∧ (r' = r ∨ dead id ∧ ∃ t, r' = bury t r).
Proof.
  intros [H1 H2] Hr'. destruct (H2 id) as [r Hr]; [eauto|]. destruct (H1 id r Hr) as (x & Hx & H). exists r.
  by assert (x = r') as -> by congruence.
Qed.
Lemma buries_good st dead c c' B : buries dead c c' → catalog_ok st c' → good st c B → good st c' B ∧ evolves dead c B c' B.
Proof.
  intros Hbu Hc' [Hc Hb]. split; [split; [done|]|].
  - intros id r' Hr'. destruct (buries_back _ _ _ _ _ Hbu Hr') as (r & Hr & [->|[_ [t ->]]]); [by eapply Hb|by apply bytes_ok_dead].
  - intros id r Hr Hl Hd. destruct (proj1 Hbu id r Hr) as (r' & Hr' & [->|[H _]]); [|done]. exists r. split; [done|by apply later_refl].
Qed.
Lemma bury_bury t t' r : bury t (bury t' r) = bury t r.
Proof. done. Qed.
(** Burying a file of the catalog a loop started with. *)
Lemma buries_insert dead c d id r t :
  dead id → ct_Files c !! id = Some r → buries dead c d → buries dead c (d <| ct_Files ::= <[id := bury t r]> |>).
Proof.
  intros Hd Hr [H1 H2]. split; cbn; intros j.
  - intros x Hx. destruct (decide (j = id)) as [->|Hn].
    + rewrite lookup_insert_eq. assert (x = r) as -> by congruence. eauto 6.
    + rewrite lookup_insert_ne by done. by apply H1.
  - intros [x [[<- _]|[_ Hx]]%lookup_insert_Some]; eauto.
Qed.

Section Facts.
Context {W : Type} (rt : UpRuntime W) (st : Store).
Context (Hlimits : limits_ok (UploadLimits st)).

Lemma buried_file l c id r t : file_ok l c id r → file_ok l c id (r <| fr_State := "deleted" |> <| fr_Checksums := [] |> <| fr_Updated := t |>).
Proof. intros [H1 H2 H3 H4 H5 H6 H7 H8]. split; cbn; try done; set_solver. Qed.
Lemma bury_ok dead c d id r t :
  catalog_ok st d → ct_Files c !! id = Some r → buries dead c d → catalog_ok st (d <| ct_Files ::= <[id := bury t r]> |>).
Proof.
  intros Hd Hr [Hb _]. destruct (Hb id r Hr) as (x & Hx & H). assert (bury t r = bury t x) as -> by by destruct H as [->|[_ [t' ->]]].
  apply (change_file st d id x); try done. by apply buried_file, (c_files _ _ Hd).
Qed.

(** The files that a catalog knows as live keep their directories. *)
Definition live_kept (c : catalog) (B B' : Blobs) : Prop :=
  ∀ id r, ct_Files c !! id = Some r → is_live r = true → B' !! id = B !! id.
Lemma live_kept_good c B B' : good st c B → live_kept c B B' → bytes_all c B' ∧ evolves never c B c B'.
Proof.
  intros [Hc Hb] Hk.
  assert (∀ id r, ct_Files c !! id = Some r → is_live r = true → B' !! fr_ID r = B !! fr_ID r) as H.
  { intros id r Hr Hl. rewrite (f_id _ _ _ _ (c_files _ _ Hc id r Hr)). by eapply Hk. }
  split.
  - intros id r Hr. destruct (is_live r) eqn:Hl; [|by apply bytes_ok_dead]. eapply bytes_ok_same; [by eapply H|by eapply Hb].
  - intros id r Hr Hl _. exists r. split; [done|]. split; [apply same_upload_refl|done|done|done|].
    rewrite (held_same B B' r) by by eapply H. done.
Qed.

(** ** Expiry *)

(** What a collection may delete: files nothing unsettled refers to, unused for a draft's lifetime. *)
Definition collectable (c : catalog) (id : string) : Prop :=
  pinned (drop_obsolete c) id = false ∧
  ∃ r now, ct_Files c !! id = Some r ∧ reads_clock rt now ∧ draftLifetime <= Sub now (fr_Updated r).

Lemma pinned_same c c' id : ct_Submissions c' = ct_Submissions c → pinned c' id = pinned c id.
Proof. unfold pinned. by intros ->. Qed.

Lemma collect_file_spec c0 c id r d σ :
  compacted (reads_clock rt) c0 c → ct_Files c !! id = Some r →
  catalog_ok st d.1 ∧ buries (collectable c0) c d.1 ∧ ct_Submissions d.1 = ct_Submissions c →
  wp (collect_file rt (id, r) d) (λ σ' x, quiet σ σ' ∧ match x with
    | Ok d' => catalog_ok st d'.1 ∧ buries (collectable c0) c d'.1 ∧ ct_Submissions d'.1 = ct_Submissions c
    | Err _ => True end) σ.
Proof.
  intros Hco Hr (Hd & Hb & Hs). unfold collect_file. cbv zeta.
  set (go := (fr_State r != "deleted") && negb (pinned d.1 id)).
  destruct go eqn:Eg; [|by apply wp_bind, wp_ret, wp_ret].
  apply wp_bind, wp_expired. intros σ2 b Hσ Hx. destruct b; [|by apply wp_ret]. apply wp_ret. split; [done|]. cbn [fst].
  apply andb_true_iff in Eg as [_ Ep%negb_true_iff]. destruct (Hx eq_refl) as (now & Hnow & Hage).
  destruct (comp_files _ _ _ Hco id r Hr) as (r0 & Hr0 & Hrr). rewrite <- bury_now.
  split; [by eapply bury_ok|]. split; [|done]. apply buries_insert; [|done|done]. split.
  - rewrite <- Ep. apply pinned_same. rewrite Hs. symmetry. apply Hco.
  - exists r0, now. split; [done|]. split; [done|]. by destruct Hrr as [->|[_ ->]].
Qed.

(** An operation that only buries. *)
Lemma bury_step {A} (fn : catalog → Up W (catalog * bool * A)) dead σ c :
  catalog_of st σ = Ok c → good st c (up_blobs σ) →
  (∀ c1 σ1, compacted (reads_clock rt) c c1 → catalog_ok st c1 →
     wp (fn c1) (λ σ2 r, quiet σ1 σ2 ∧ match r with Ok (c', _, _) => catalog_ok st c' ∧ buries dead c1 c' | Err _ => True end) σ1) →
  wp (transaction rt st fn) (λ σ' _, step st dead σ σ') σ.
Proof.
  intros Hl Hg Hfn. eapply transaction_step; [done|done|]. intros c1 σ1 Hc Hg1 _.
  eapply wp_mono; [apply Hfn; [done|apply Hg1]|]. intros σ2 r [[Hf Hb] Hr]. split; [done|]. unfold keeps. rewrite Hb.
  split; [apply Hg1|]. split; [apply evolves_refl|]. destruct r as [[[c' ch] a]|e]; [|done]. destruct Hr. by eapply buries_good.
Qed.

Lemma collect_expired_step σ c : catalog_of st σ = Ok c → good st c (up_blobs σ) →
  wp (collect_expired rt st) (λ σ' _, step st (collectable c) σ σ') σ.
Proof.
  intros Hl Hg. eapply bury_step; [done|done|]. intros c1 σ1 Hc Hok.
  apply wp_bind, wp_range. intros σ2 files H2 Hfiles.
  apply wp_bind, (wp_for_each_quiet (λ d, catalog_ok st d.1 ∧ buries (collectable c) c1 d.1 ∧ ct_Submissions d.1 = ct_Submissions c1)).
  - intros [id r] d σ3 Hin Hd. apply collect_file_spec; [done|by apply Hfiles|done].
  - intros σ3 [[d ch]|e] H3 Hd; [apply wp_ret|]; (split; [by etrans|]); [|done]. by destruct Hd as (? & ? & _).
  - split; [done|]. split; [by apply buries_same|done].
Qed.

(** ** Deletion of one file *)

Lemma quiet_check_reference b c locked id kv scopes : rel_steps quiet (check_reference b c locked id kv scopes : Up W _).
Proof. unfold check_reference. procs. Qed.
Lemma quiet_check_idle b scopes : rel_steps quiet (check_idle rt b scopes).
Proof. unfold check_idle. procs. Qed.
Hint Resolve quiet_check_reference quiet_check_idle : proc.

Lemma mark_deleted_step b id confirmed locked σ c : catalog_of st σ = Ok c → good st c (up_blobs σ) →
  wp (mark_deleted rt st b id confirmed locked) (λ σ' _, step st (λ j, j = id) σ σ') σ.
Proof.
  intros Hl Hg. eapply bury_step; [done|done|]. intros c1 σ1 Hc Hok.
  apply wp_bind, wp_quiet; [procs|]. intros σ2 [[]|e] H2; [|by split].
  destruct (ct_Files c1 !! id) as [r|] eqn:Er; [|by apply wp_fail]. case_match; [by apply wp_fail|].
  case_match; [apply wp_ret; split; [done|]; split; [done|by apply buries_same]|].
  apply wp_bind, wp_quiet; [procs|]. intros σ3 [l|e] H3; [|split; [by etrans|done]].
  apply wp_bind, wp_quiet; [procs|]. intros σ4 [scopes|e] H4; [|split; [by do 2 (etrans; [eassumption|])|done]].
  apply wp_bind, wp_quiet; [case_match; procs|]. intros σ5 [[]|e] H5; [|split; [by do 3 (etrans; [eassumption|])|done]].
  apply wp_bind, wp_uask. intros w now _. apply wp_ret. split; [by do 3 (etrans; [eassumption|])|].
  assert (buries (λ j, j = id) c1 c1) as Hsame by by apply buries_same.
  split; [by apply (bury_ok (λ j, j = id) c1 c1)|by apply (buries_insert (λ j, j = id) c1 c1)].
Qed.

(** ** Removal of a session *)

(** The files of the scopes a removal retires. *)
Definition retired_scope (slug thread epoch : string) (s : Scope) : Prop :=
  sc_Slug s = slug ∧ sc_Epoch s = epoch ∧ sc_Deleted s = false ∧ (sc_Thread s = thread ∨ sc_Draft s = true).
Definition removable (c : catalog) (slug thread epoch id : string) : Prop :=
  ∃ r s, ct_Files c !! id = Some r ∧ ct_Scopes c !! fr_Scope r = Some s ∧ retired_scope slug thread epoch s.

Definition retiring (slug thread epoch : string) (c : catalog) (d : catalog * gset string) : Prop :=
  catalog_ok st d.1 ∧ ct_Files d.1 = ct_Files c ∧
  (∀ id s, ct_Scopes c !! id = Some s → ∃ s', ct_Scopes d.1 !! id = Some s' ∧ sc_Draft s' = sc_Draft s) ∧
  ct_Submissions d.1 = ct_Submissions c ∧
  (∀ id, id ∈ d.2 → ∃ s, ct_Scopes c !! id = Some s ∧ retired_scope slug thread epoch s).

Lemma retire_scope_spec slug thread epoch c id s d (σ : UpSys W) :
  catalog_ok st c → ct_Scopes c !! id = Some s → retiring slug thread epoch c d →
  wp (retire_scope slug thread epoch (id, s) d)
     (λ σ' r, quiet σ σ' ∧ match r with Ok d' => retiring slug thread epoch c d' | Err _ => True end) σ.
Proof.
  intros Hc Hid Hd. unfold retire_scope. case_match; [by apply wp_fail|]. case_match eqn:E; [|by apply wp_ret].
  apply wp_ret. split; [done|]. destruct Hd as (Hok & Hf & Hs & Hsub & Ho).
  apply andb_true_iff in E as [[E1%bool_decide_eq_true_1 [E2 E3%bool_decide_eq_true_1]%andb_true_iff]%andb_true_iff E4%negb_true_iff].
  destruct (Hs id s Hid) as (y & Hy & Ey). split; [|split; [done|split; [|split; [done|]]]].
  - apply (change_scope st Hlimits d.1 id y); [done|done|by cbn; apply (c_scopes _ _ Hc)|]. cbn. congruence.
  - cbn. intros j x Hj. destruct (decide (j = id)) as [->|Hn].
    + rewrite lookup_insert_eq. eexists. split; [done|]. cbn. congruence.
    + rewrite lookup_insert_ne by done. by apply Hs.
  - cbn. intros j [->%elem_of_singleton|Hj]%elem_of_union; [|by apply Ho].
    exists s. split; [done|]. apply orb_true_iff in E2. rewrite bool_decide_eq_true in E2. done.
Qed.

Lemma retire_files_ok c owned :
  catalog_ok st c →
  let c' := c <| ct_Files ::= λ m, retire_files owned <$> m |> <| ct_Submissions ::= filter (λ kv, sb_Scope kv.2 ∉ owned) |> in
  catalog_ok st c'.
Proof.
  intros [Hi Hn Hs Hf Hb Hu Hq] c'.
  assert (∀ p, (∀ r, p (retire_files owned r) = true → p r = true) → usage_of p (files_of c') <= usage_of p (files_of c)) as Hle.
  { intros p Hp. apply (usage_smaller (UploadLimits st)); [done|]. cbn. intros id x.
    rewrite lookup_fmap. intros (r & Hr & ->)%fmap_Some_1 Hx. exists r. split; [done|]. split; [by apply Hp|].
    unfold retire_files. by case_match. }
  split; cbn.
  - done.
  - rewrite map_size_fmap. destruct Hn as (H1 & H2 & H3). split; [done|]. split; [done|]. etrans; [|exact H3].
    apply size_le. intros k [x [Hx _]%map_lookup_filter_Some]. eauto.
  - done.
  - intros id x. rewrite lookup_fmap. intros (r & Hr & ->)%fmap_Some_1. apply (file_ok_scopes _ c); [done|].
    unfold retire_files. case_match; [|by apply Hf]. rewrite <- bury_now. by apply buried_file, Hf.
  - intros k s [Hk _]%map_lookup_filter_Some. destruct (Hb k s Hk) as [H1 H2]. split; [done|]. intros id Hid. cbn.
    rewrite lookup_fmap. destruct (H2 id Hid) as [r ->]. eauto.
  - etrans; [apply Hle|done]. intros r. unfold retire_files. case_match; [discriminate|done].
  - intros id s Hid. etrans; [apply Hle|by apply Hq]. intros r. unfold retire_files. case_match; [discriminate|done].
Qed.

Lemma evolves_removable clock c0 c slug thread epoch B c' B' :
  compacted clock c0 c → evolves (removable c slug thread epoch) c B c' B' → evolves (removable c0 slug thread epoch) c B c' B'.
Proof.
  intros Hco. apply evolves_weaken. intros id (r & s & Hr & Hs & Hx).
  destruct (comp_files _ _ _ Hco id r Hr) as (r0 & Hr0 & H). exists r0, s. split; [done|]. split; [|done].
  apply (comp_scopes _ _ _ Hco). by destruct H as [->|[_ ->]].
Qed.

Lemma remove_scopes_step slug thread epoch σ c : catalog_of st σ = Ok c → good st c (up_blobs σ) →
  wp (remove_scopes rt st slug thread epoch) (λ σ' _, step st (removable c slug thread epoch) σ σ') σ.
Proof.
  intros Hl Hg. eapply transaction_step; [done|done|]. intros c1 σ1 Hc Hg1 _.
  assert (∀ (σ2 : UpSys W) e, quiet σ1 σ2 → up_file σ2 = up_file σ1 ∧
    keeps st (removable c slug thread epoch) c1 (up_blobs σ1) σ2 (Err e : result (catalog * bool * unit))) as Herr.
  { intros σ2 e [Hf Hb]. split; [done|]. unfold keeps. rewrite Hb. split; [apply Hg1|]. split; [apply evolves_refl|done]. }
  apply wp_bind, wp_range. intros σ2 scopes H2 Hscopes.
  apply wp_bind, (wp_for_each_quiet (retiring slug thread epoch c1)).
  - intros [id s] d σ3 Hin Hd. apply retire_scope_spec; [apply Hg1|by apply Hscopes|done].
  - intros σ3 [[c2 owned]|e] H3 Hd; [|apply Herr; by etrans]. cbv zeta. destruct Hd as (Hok & Hf & Hs & Hsub & Ho). cbn in Hok, Hf, Hs, Ho.
    pose proof (retire_files_ok c2 owned Hok) as Hok3. cbv zeta in Hok3.
    set (c3 := c2 <| ct_Files ::= _ |> <| ct_Submissions ::= _ |>) in *.
    assert (buries (removable c1 slug thread epoch) c1 c3) as Hbu.
    { unfold c3. split; cbn; intros id; rewrite lookup_fmap, Hf.
      - intros r Hr. rewrite Hr. eexists. split; [done|]. unfold retire_files. case_match eqn:E; [|by left]. right.
        apply bool_decide_eq_true_1 in E. destruct (Ho _ E) as (s & Hs1 & Hs2). split; [by exists r, s|].
        exists (fr_Updated r). by rewrite bury_now.
      - by rewrite fmap_is_Some. }
    destruct (buries_good st _ c1 c3 (up_blobs σ1) Hbu Hok3 Hg1) as [Hg3 He3].
    apply wp_bind, compact_spec; [|intros σ4 e H4; apply Herr; by do 2 (etrans; [eassumption|])].
    intros σ4 [c4 cc] H4 Hc4. apply wp_ret. cbn [fst] in Hc4.
    assert (quiet σ1 σ4) as [Hqf Hqb] by by do 2 (etrans; [eassumption|]).
    split; [done|]. unfold keeps. rewrite Hqb. split; [apply Hg1|]. split; [apply evolves_refl|].
    split; [by eapply compacted_good|]. eapply evolves_removable; [done|]. eapply evolves_trans; [exact He3|].
    apply evolves_never. by eapply compacted_evolves.
  - split; [apply Hg1|]. split; [done|]. split; [eauto|]. split; [done|]. set_solver.
Qed.

(** ** Reclaiming bytes *)

Lemma remove_all_spec id c B σ :
  (∀ r, ct_Files c !! id = Some r → is_live r = false) → live_kept c B (up_blobs σ) →
  wp (remove_all rt id) (λ σ' _, up_file σ' = up_file σ ∧ live_kept c B (up_blobs σ')) σ.
Proof.
  intros Hid Hk. unfold remove_all. apply wp_bind, wp_gets, wp_bind, wp_uask. intros w a _.
  assert (∀ f, live_kept c B (alter f id (up_blobs σ)) ∧ live_kept c B (delete id (up_blobs σ))) as H.
  { intros f. split; intros j r Hr Hl; (assert (j ≠ id) by (intros ->; rewrite (Hid r Hr) in Hl; discriminate)).
    - rewrite lookup_alter_ne by done. by eapply Hk.
    - rewrite lookup_delete_ne by done. by eapply Hk. }
  destruct a as [[names e]|]; [apply wp_bind|]; apply wp_modify; [apply wp_fail|]; (split; [done|]); by apply H.
Qed.

Lemma reclaim_step σ c : catalog_of st σ = Ok c → good st c (up_blobs σ) →
  wp (reclaim rt st) (λ σ' _, step st never σ σ') σ.
Proof.
  intros Hl Hg. eapply transaction_step; [done|done|]. intros c1 σ1 Hc Hg1 _.
  assert (∀ (σ2 : UpSys W) r, up_file σ2 = up_file σ1 → live_kept c1 (up_blobs σ1) (up_blobs σ2) →
    (match r with Ok (c', _, _) => c' = c1 | Err _ => True end) →
    up_file σ2 = up_file σ1 ∧ keeps st never c1 (up_blobs σ1) σ2 (r : result (catalog * bool * unit))) as Hend.
  { intros σ2 r Hf Hk Hr. split; [done|]. destruct (live_kept_good _ _ _ Hg1 Hk) as [H1 H2].
    split; [done|]. split; [done|]. destruct r as [[[c' ch] a]|e]; [|done]. subst c'. split; [split; [apply Hg1|done]|].
    intros id r Hr Hlr _. exists r. split; [done|by apply later_refl]. }
  set (I := λ σ' : UpSys W, up_file σ' = up_file σ1 ∧ live_kept c1 (up_blobs σ1) (up_blobs σ')).
  assert (∀ σ2 σ3, I σ2 → quiet σ2 σ3 → I σ3) as Hq.
  { intros σ2 σ3 [H1 H2] [H3 H4]. unfold I. by rewrite H3, H4. }
  assert (∀ id σ2, I σ2 → (∀ r, ct_Files c1 !! id = Some r → is_live r = false) → wp (remove_all rt id) (λ σ' _, I σ') σ2) as Hrm.
  { intros id σ2 [H1 H2] Hid. eapply wp_mono; [by apply (remove_all_spec id c1 (up_blobs σ1))|]. intros σ3 r [H3 H4]. split; [by rewrite H3|done]. }
  assert (I σ1) as HI by by split.
  apply wp_bind, wp_quiet; [procs|]. intros σ2 [listed|e] H2; [|by apply Hend; [apply H2|apply (Hq _ _ HI H2)|]].
  pose proof (Hq _ _ HI H2) as HI2. apply wp_bind, wp_quiet; [case_match; [|case_match]; procs|].
  intros σ3 [entries|e] H3; [|by apply Hend; [apply (Hq _ _ HI2 H3)|apply (Hq _ _ HI2 H3)|]].
  pose proof (Hq _ _ HI2 H3) as HI3.
  apply wp_bind, (wp_for_each (λ _ _ σ', I σ')); [| |done].
  - intros id l d σ4 HI4. unfold reclaim_entry. case_match eqn:E.
    + apply andb_true_iff in E as [E%bool_decide_eq_true_1 _].
      eapply wp_mono; [apply (Hrm id σ4 HI4); congruence|]. intros σ5 [[]|e] HI5; [done|]. by apply Hend; [apply HI5|apply HI5|].
    + by apply wp_ret.
  - intros [] σ4 HI4. apply wp_bind, wp_range. intros σ5 files H5 Hfiles. pose proof (Hq _ _ HI4 H5) as HI5.
    apply wp_bind, (wp_for_each (λ l _ σ', I σ' ∧ ∀ kv, kv ∈ l → ct_Files c1 !! kv.1 = Some kv.2)).
    + intros [id r] l d σ6 [HI6 Hin]. unfold reclaim_record. cbn [snd].
      assert (ct_Files c1 !! id = Some r) as Hr by (apply (Hin (id, r)); set_solver).
      case_match eqn:E; [|apply wp_ret; split; [done|]; set_solver]. apply bool_decide_eq_true_1 in E.
      eapply wp_mono; [apply (Hrm (fr_ID r) σ6 HI6)|].
      * intros x Hx. rewrite (f_id _ _ _ _ (c_files _ _ (proj1 Hg1) id r Hr)) in Hx.
        assert (x = r) as -> by congruence. unfold is_live. by rewrite E.
      * intros σ7 [[]|e] HI7; [split; [done|]; set_solver|]. by apply Hend; [apply HI7|apply HI7|].
    + intros [] σ6 [HI6 _]. apply wp_ret. by apply Hend; [apply HI6|apply HI6|].
    + split; [done|]. intros [k r] Hin. by apply Hfiles.
Qed.

(** ** Forks *)

(** The scope outlives the compaction, and there is room for what a fork may add. *)
Definition survives (σ : UpSys W) (id : string) : Prop := ∀ σ1 c1, entered rt st σ σ1 c1 → is_Some (ct_Scopes c1 !! id).
Definition fork_fits (σ : UpSys W) : Prop := ∀ c, catalog_of st σ = Ok c → 2 * Z.of_nat (size (ct_Submissions c)) <= maxRecords.

Lemma fork_visits sourceThread target entries c k s (l : list (string * submission)) n d σ :
  ct_Submissions c !! k = Some s → is_Some (ct_Scopes c !! sc_ID target) → catalog_ok st c →
  grown st c d.1 → Z.of_nat (size (ct_Submissions d.1)) + Z.of_nat (length ((k, s) :: l)) <= n → n <= maxRecords →
  wp (fork_submission sourceThread target entries (k, s) d)
     (λ (σ' : UpSys W) r, quiet σ σ' ∧ match r with
        | Ok d' => grown st c d'.1 ∧ Z.of_nat (size (ct_Submissions d'.1)) + Z.of_nat (length l) <= n
        | Err _ => True end) σ.
Proof.
  intros Hk Ht Hc Hd Hn Hm. cbn [length] in Hn. unfold fork_submission. cbv zeta. cbn [snd].
  case_match; [apply wp_ret; split; [done|split; [done|lia]]|].
  destruct (List.find _ entries) as [e|]; [|apply wp_ret; split; [done|split; [done|lia]]].
  set (key := submission_key _ _ _). case_match eqn:E; [|apply wp_ret; split; [done|split; [done|lia]]].
  apply bool_decide_eq_true_1 in E. apply wp_ret. split; [done|]. cbn. rewrite map_size_insert, E.
  destruct Hd as [Hok Hf Hs Hsub]. split; [|lia]. split; [|done|done|intros j Hj; cbn; auto using is_Some_insert].
  apply add_submission; [done| |lia]. destruct (c_submissions _ _ Hc k s Hk) as [_ Hfiles]. split; cbn.
  - by apply Hs.
  - by rewrite Hf.
Qed.
Lemma Fork_step sourceThread target entries σ c : catalog_of st σ = Ok c → good st c (up_blobs σ) →
  range_law rt → survives σ (sc_ID target) → fork_fits σ →
  wp (Fork rt st sourceThread target entries) (λ σ' _, step st never σ σ') σ.
Proof.
  intros Hl Hg Hlaw Hsv Hfit. eapply plain_step_from; [done|done|]. intros c1 σ1 Hen _ Hc Hok. pose proof (Hsv _ _ Hen) as Ht.
  assert (2 * Z.of_nat (size (ct_Submissions c1)) <= maxRecords) as Hn.
  { specialize (Hfit c Hl). rewrite (comp_submissions _ _ _ Hc). etrans; [|exact Hfit]. apply Z.mul_le_mono_nonneg_l; [lia|].
    apply size_le. intros k [x [Hx _]%map_lookup_filter_Some]. eauto. }
  apply wp_bind, wp_range_all; [done|]. intros σ2 l H2 Hp.
  apply wp_bind, (wp_for_each (λ l' d σ', quiet σ1 σ' ∧ grown st c1 d.1 ∧ (∀ kv, kv ∈ l' → ct_Submissions c1 !! kv.1 = Some kv.2)
    ∧ Z.of_nat (size (ct_Submissions d.1)) + Z.of_nat (length l') <= maxRecords)).
  - intros [k x] l' d σ3 (H3 & Hd & Hin & Hlen). eapply wp_mono; [apply (fork_visits _ _ _ c1 k x l' maxRecords)|]; try done.
    + apply (Hin (k, x)). set_solver.
    + intros σ4 [d'|e] [H4 H]; [|split; [by etrans|done]]. split; [by etrans|]. destruct H as [Hd' Hsz]. split; [done|]. split; [set_solver|done].
  - intros d σ3 (H3 & Hd & _ & _). by apply asks_grown.
  - split; [done|]. split; [by apply grown_refl|]. split.
    + intros [k x]. rewrite Hp. apply elem_of_map_to_list.
    + rewrite Hp, length_map_to_list. cbn. lia.
Qed.

(** ** Operations of several transactions *)

(** Other processes keep the invariant too. *)
Context (gone : string → Prop) (Hothers : ∀ σ, Inv st σ → step st gone σ (ur_others rt σ)).

Lemma step_inv dead (σ σ' : UpSys W) : step st dead σ σ' → Inv st σ'.
Proof. intros (c & c' & _ & Hc' & Hg & _). by exists c'. Qed.
Lemma step_trans dead (σ1 σ2 σ3 : UpSys W) : step st dead σ1 σ2 → step st dead σ2 σ3 → step st dead σ1 σ3.
Proof.
  intros (c1 & c2 & H1 & H2 & H3 & H4) (c2' & c3 & H5 & H6 & H7 & H8). assert (c2' = c2) as -> by congruence.
  exists c1, c3. repeat (split; [done|]). by eapply evolves_trans.
Qed.
Lemma step_weaken (dead dead' : string → Prop) (σ σ' : UpSys W) : (∀ id, dead id → dead' id) → step st dead σ σ' → step st dead' σ σ'.
Proof.
  intros H (c & c' & H1 & H2 & H3 & H4). exists c, c'. repeat (split; [done|]). by eapply evolves_weaken.
Qed.
Lemma wp_others dead σ (Q : UpSys W → result unit → Prop) σ0 :
  step st (λ id, dead id ∨ gone id) σ0 σ →
  (∀ σ', step st (λ id, dead id ∨ gone id) σ0 σ' → Q σ' (Ok tt)) → wp (others rt) Q σ.
Proof.
  intros Hs H. apply wp_modify, H. eapply step_trans; [exact Hs|]. eapply step_weaken; [|by eapply Hothers, step_inv]. auto.
Qed.
(** A transaction that takes a step takes it after the others. *)
Lemma wp_then_step {A} (m : Up W A) (Q : UpSys W → result A → Prop) dead σ0 σ :
  step st dead σ0 σ → (∀ c, catalog_of st σ = Ok c → good st c (up_blobs σ) → wp m (λ σ' _, step st dead σ σ') σ) →
  (∀ σ' r, step st dead σ0 σ' → Q σ' r) → wp m Q σ.
Proof.
  intros Hs Hm H. destruct (step_inv _ _ _ Hs) as (c & Hc & Hg). eapply wp_mono; [by apply (Hm c)|].
  intros σ' r Hs'. apply H. by eapply step_trans.
Qed.
Lemma wp_reclaim dead σ0 σ (Q : UpSys W → result unit → Prop) :
  step st dead σ0 σ → (∀ σ' r, step st dead σ0 σ' → Q σ' r) → wp (reclaim rt st) Q σ.
Proof.
  intros Hs. apply wp_then_step with (dead := dead); [done|]. intros c Hc Hg. eapply wp_mono; [by apply (reclaim_step _ c)|].
  intros σ' r. by apply step_weaken.
Qed.

Lemma Collect_step σ c : catalog_of st σ = Ok c → good st c (up_blobs σ) →
  wp (Collect rt st) (λ σ' _, step st (λ id, collectable c id ∨ gone id) σ σ') σ.
Proof.
  intros Hl Hg. unfold Collect. apply wp_bind. eapply wp_mono; [by apply (collect_expired_step _ c)|].
  intros σ1 r H1. assert (step st (λ id, collectable c id ∨ gone id) σ σ1) as H1' by (eapply step_weaken; [|exact H1]; auto).
  destruct r as [[]|e]; [|done]. apply wp_bind, (wp_others _ _ _ _ H1'). intros σ2 H2. apply (wp_reclaim _ _ _ _ H2). auto.
Qed.
Lemma RemoveSession_step slug thread epoch σ c : catalog_of st σ = Ok c → good st c (up_blobs σ) →
  wp (RemoveSession rt st slug thread epoch) (λ σ' _, step st (λ id, removable c slug thread epoch id ∨ gone id) σ σ') σ.
Proof.
  intros Hl Hg. unfold RemoveSession. apply wp_bind. eapply wp_mono; [by apply (remove_scopes_step _ _ _ _ c)|].
  intros σ1 r H1. assert (step st (λ id, removable c slug thread epoch id ∨ gone id) σ σ1) as H1' by (eapply step_weaken; [|exact H1]; auto).
  destruct r as [[]|e]; [|done]. apply wp_bind, (wp_others _ _ _ _ H1'). intros σ2 H2. apply (wp_reclaim _ _ _ _ H2). auto.
Qed.

Lemma lock_references_step b id σ c : catalog_of st σ = Ok c → good st c (up_blobs σ) →
  wp (lock_references rt st b id) (λ σ' _, step st never σ σ') σ.
Proof.
  intros Hl Hg. assert (step st never σ σ) as Hself by (exists c, c; repeat (split; [done|]); apply evolves_refl).
  unfold lock_references. destruct (b_LockReferences b) as [lock|]; [|by apply wp_ret].
  apply wp_bind. eapply wp_mono.
  - eapply (plain_step rt st _ σ c); [done|done|]. intros c1 Hc Hok σ1. cbv zeta. case_match; [by apply asks_fail|by apply asks_ret].
  - intros σ1 [scopes|e] H1; [|done]. assert (∀ σ2, quiet σ1 σ2 → step st never σ σ2) as Hq.
    { intros σ2 [H3 H4]. destruct H1 as (x & y & ?). exists x, y. unfold catalog_of in *. by rewrite H3, H4. }
    apply wp_bind, wp_quiet; [procs|]. intros σ2 [refs|e] H2; [|by apply Hq].
    apply wp_bind, wp_quiet; [procs|]. intros σ3 [release|e] H3; [|apply Hq; by etrans].
    apply wp_bind, wp_lift_result. destruct release; [apply wp_ret|]; apply Hq; by etrans.
Qed.
Lemma Delete_step b id confirmed σ c : catalog_of st σ = Ok c → good st c (up_blobs σ) →
  wp (Delete rt st b id confirmed) (λ σ' _, step st (λ j, j = id ∨ gone j) σ σ') σ.
Proof.
  intros Hl Hg. set (dead := λ j, j = id ∨ gone j). unfold Delete. apply wp_bind. eapply wp_mono; [by apply (lock_references_step _ _ _ c)|].
  intros σ1 r H1. assert (step st dead σ σ1) as H1' by (eapply step_weaken; [|exact H1]; intros ? []).
  destruct r as [[locked release]|e]; [|done]. apply wp_bind, (wp_others (λ j, j = id) _ _ _ H1'). intros σ2 H2.
  apply wp_bind, wp_attempt, wp_bind.
  assert (∀ σ3 (r : result unit), step st dead σ σ3 →
    wp ((match release with Some f => modify (λ σ, σ <| up_world ::= f |>) | None => mret tt end : Up W unit);; lift_result r)
       (λ σ' _, step st dead σ σ') σ3) as Hend.
  { intros σ3 r H3. apply wp_bind. destruct release; [apply wp_modify|apply wp_ret]; by apply wp_lift_result. }
  apply (wp_then_step _ _ dead σ σ2 H2).
  - intros c2 Hc2 Hg2. eapply wp_mono; [by apply (mark_deleted_step _ _ _ _ _ c2)|]. intros σ3 r. apply step_weaken. unfold dead. auto.
  - intros σ3 [[]|e] H3; [|by apply Hend]. apply wp_bind, (wp_others (λ j, j = id) _ _ _ H3). intros σ4 H4.
    apply (wp_reclaim _ _ _ _ H4). intros σ5 r H5. by apply Hend.
Qed.

End Facts.
