(* ===== verification/UploadFileFacts.v ===== *)
(** * Private uploads: creating, appending and completing

    The operations that write uploaded bytes keep the invariant; what each of them
    does when it succeeds. *)

From S2P Require Import Prelude Effects GoStrings GoJson GoTime GoLibrary UploadTypes UploadStore UploadBackend.
From S2P Require Import UploadWp UploadInv UploadScopeFacts.
From Stdlib Require Import Permutation.

Open Scope Z_scope.

Section Facts.
Context {W : Type} (rt : UpRuntime W) (st : Store).
Context (Hlimits : limits_ok (UploadLimits st)).

(** ** One upload's directory *)

Definition away (id : string) (B B' : Blobs) : Prop := ∀ j, j ≠ id → B' !! j = B !! j.
Definition put (id name : string) (b : blob) (B : Blobs) : Blobs := <[id := <[name := b]> (default ∅ (B !! id))]> B.

Lemma away_put id name b B : away id B (put id name b B).
Proof. intros j Hj. by apply lookup_insert_ne. Qed.
Lemma away_trans id B1 B2 B3 : away id B1 B2 → away id B2 B3 → away id B1 B3.
Proof. intros H1 H2 j Hj. rewrite H2 by done. by apply H1. Qed.
Lemma blob_put id name b B : blob_in (put id name b B) id name = Some b.
Proof. unfold blob_in, put. rewrite lookup_insert_eq. cbn. apply lookup_insert_eq. Qed.
Lemma blob_put_ne id name name' b B : name' ≠ name → blob_in (put id name b B) id name' = blob_in B id name'.
Proof.
  intros Hn. unfold blob_in, put. rewrite lookup_insert_eq. cbn. rewrite lookup_insert_ne by done.
  by destruct (B !! id).
Qed.
Lemma partial_not_final r : partial_name ≠ final_name r.
Proof. done. Qed.

Lemma one_kept c B B' id r :
  good st c B → ct_Files c !! id = Some r → away id B B' → bytes_ok B' r → held B r `prefix_of` held B' r →
  bytes_all c B' ∧ evolves never c B c B'.
Proof.
  intros [Hc Hb] Hr Ha Hok Hp.
  assert (∀ j x, ct_Files c !! j = Some x → j ≠ id → B' !! fr_ID x = B !! fr_ID x) as Hother.
  { intros j x Hx Hn. rewrite (f_id _ _ _ _ (c_files _ _ Hc j x Hx)). by apply Ha. }
  split.
  - intros j x Hx. destruct (decide (j = id)) as [->|Hn]; [by assert (x = r) as -> by congruence|].
    eapply bytes_ok_same; [by eapply Hother|by eapply Hb].
  - intros j x Hx Hl _. exists x. split; [done|]. split; [apply same_upload_refl|done|done|done|].
    destruct (decide (j = id)) as [->|Hn]; [by assert (x = r) as -> by congruence|].
    rewrite (held_same B B' x) by by eapply Hother. done.
Qed.
Lemma one_replaced c B id r r' :
  catalog_ok st c → bytes_all c B → ct_Files c !! id = Some r →
  catalog_ok st (c <| ct_Files ::= <[id := r']> |>) → bytes_ok B r' → later B B r r' →
  good st (c <| ct_Files ::= <[id := r']> |>) B ∧ evolves never c B (c <| ct_Files ::= <[id := r']> |>) B.
Proof.
  intros Hc Hb Hr Hc' Hok Hlt. split; [split; [done|]|]; intros j x; cbn.
  - intros [[<- <-]|[_ Hx]]%lookup_insert_Some; [done|by eapply Hb].
  - intros Hx Hl _. destruct (decide (j = id)) as [->|Hn].
    + rewrite lookup_insert_eq. assert (x = r) as -> by congruence. eauto.
    + rewrite lookup_insert_ne by done. eauto using later_refl.
Qed.

Lemma wp_call_any name (Q : UpSys W → result unit → Prop) σ :
  (∀ σ' r, quiet σ σ' → Q σ' r) → wp (call rt name) Q σ.
Proof. intros H. apply wp_quiet; [procs|done]. Qed.

(** ** Appending *)

Lemma truncate_short n (data : list Z) : (n <= length data)%nat → truncate_bytes n data = take n data.
Proof. intros H. unfold truncate_bytes. replace (n - length data)%nat with 0%nat by lia. apply app_nil_r. Qed.

(** The partial file after a write that may have stopped: the bytes before the offset stay. *)
Definition written (id : string) (n : nat) (bytes : list Z) (all : bool) (B B' : Blobs) : Prop :=
  ∃ f data, blob_in B id partial_name = Some f ∧ B' !! id = put id partial_name (f <| bl_Data := data |>) B !! id
    ∧ take n data = take n (bl_Data f) ∧ (all = true → data = take n (bl_Data f) ++ bytes) ∧ (n <= length data)%nat.

Lemma write_chunk_spec id offset bytes (Q : UpSys W → result unit → Prop) σ :
  (∀ f, blob_in (up_blobs σ) id partial_name = Some f → (Z.to_nat offset <= length (bl_Data f))%nat) →
  (∀ σ' r, up_file σ' = up_file σ → away id (up_blobs σ) (up_blobs σ') →
     (is_ok r = true → written id (Z.to_nat offset) bytes true (up_blobs σ) (up_blobs σ')) →
     up_blobs σ' = up_blobs σ ∨ written id (Z.to_nat offset) bytes false (up_blobs σ) (up_blobs σ') → Q σ' r) →
  wp (write_chunk rt id offset bytes) Q σ.
Proof.
  intros Hlen HQ. set (n := Z.to_nat offset) in *.
  assert (∀ σ' e, quiet σ σ' → Q σ' (Err e)) as Herr.
  { intros σ' e [Hf Hb]. apply HQ; [done|by intros j _; rewrite Hb|discriminate|by left]. }
  unfold write_chunk. cbv zeta. apply wp_bind. unfold open_blob. apply wp_bind, wp_gets.
  change (blob_at id partial_name σ) with (blob_in (up_blobs σ) id partial_name).
  destruct (blob_in (up_blobs σ) id partial_name) as [f|] eqn:Ef; [|by apply wp_fail, Herr].
  specialize (Hlen f eq_refl). apply wp_bind, wp_call_any. intros σ1 [[]|e] H1; [|by apply Herr]. apply wp_ret.
  apply wp_bind, wp_call_any. intros σ2 [[]|e] H2; [|apply Herr; by etrans].
  assert (quiet σ σ2) as [Hf2 Hb2] by by etrans.
  fold n. rewrite truncate_short by done. set (kept := take n (bl_Data f)).
  assert (length kept = n) as Hk by (unfold kept; rewrite length_take; lia).
  assert (∀ b b' B, put id partial_name b' (put id partial_name b B) = put id partial_name b' B) as Hpp.
  { intros b b' B. unfold put. rewrite lookup_insert_eq. cbn. by rewrite !insert_insert_eq. }
  assert (∀ σ' r data, up_file σ' = up_file σ → up_blobs σ' = put id partial_name (f <| bl_Data := data |>) (up_blobs σ) →
            take n data = kept → (is_ok r = true → data = kept ++ bytes) → (n <= length data)%nat → Q σ' r) as Hend.
  { intros σ' r data H3 H4 H5 H6 H7. apply HQ; [done|rewrite H4; apply away_put| |].
    - intros Hr. exists f, data. rewrite H4. split_and!; [done|done|done|auto|done].
    - right. exists f, data. rewrite H4. split_and!; [done|done|done|discriminate|done]. }
  assert (∀ l, write_at n l kept = kept ++ l) as Hw.
  { intros l. unfold write_at. rewrite truncate_short by lia. rewrite (take_ge kept n) by lia.
    rewrite drop_ge by lia. by rewrite app_nil_r. }
  apply wp_bind, wp_modify, wp_bind, wp_uask. intros w a _. apply wp_bind.
  assert (∀ l σ', up_file σ' = up_file σ → up_blobs σ' = put id partial_name (f <| bl_Data := kept ++ l |>) (up_blobs σ) →
            ∀ r, (is_ok r = true → l = bytes) → Q σ' r) as Hdone.
  { intros l σ' H3 H4 r Hr. apply (Hend σ' r (kept ++ l)); [done|done| | |].
    - rewrite <- Hk. by rewrite take_app_length.
    - intros Hx. by rewrite (Hr Hx).
    - rewrite length_app. lia. }
  destruct a as [[m e]|]; [apply wp_bind|]; apply wp_modify; rewrite Hw.
  - apply wp_fail, (Hdone (take m bytes)); cbn; [done| |discriminate].
    change (put id partial_name (f <| bl_Data := kept ++ take m bytes |>) (put id partial_name (f <| bl_Data := kept |>) (up_blobs σ2))
            = put id partial_name (f <| bl_Data := kept ++ take m bytes |>) (up_blobs σ)). by rewrite Hpp, Hb2.
  - apply wp_call_any. intros σ3 r [Hf3 Hb3]. apply (Hdone bytes); [by rewrite Hf3| |done]. rewrite Hb3.
    change (put id partial_name (f <| bl_Data := kept ++ bytes |>) (put id partial_name (f <| bl_Data := kept |>) (up_blobs σ2))
            = put id partial_name (f <| bl_Data := kept ++ bytes |>) (up_blobs σ)). by rewrite Hpp, Hb2.
Qed.

(** A record still uploading is the one the catalog had before compaction. *)
Lemma uploading_before clock c c1 id r :
  compacted clock c c1 → ct_Files c1 !! id = Some r → fr_State r = "uploading" → ct_Files c !! id = Some r.
Proof.
  intros Hc Hr Hs. destruct (comp_files _ _ _ Hc id r Hr) as (r0 & Hr0 & [->|[Hn E]]); [done|]. subst r. by destruct Hn.
Qed.

Lemma own_file_spec b c id (Q : UpSys W → result fileRecord → Prop) σ :
  (∀ r, ct_Files c !! id = Some r → fr_Scope r = b_ScopeID b → Q σ (Ok r)) → (∀ e, Q σ (Err e)) →
  wp (own_file b c id) Q σ.
Proof.
  intros Hok Herr. unfold own_file. destruct (ct_Files c !! id) as [r|] eqn:E; [|by apply wp_fail].
  case_match eqn:Es; [by apply wp_fail|]. apply wp_ret, Hok; [done|]. by apply negb_false_iff, bool_decide_eq_true_1 in Es.
Qed.

(** The record after a chunk. *)
Definition grow (r : fileRecord) (len : Z) (sum : string) (now : Stamp) : fileRecord :=
  r <| fr_Offset := i64 (fr_Offset r + len) |> <| fr_Checksums ::= λ l, l ++ [sum] |> <| fr_Updated := now |>.
Lemma grow_ok c id r len sum now :
  let l := UploadLimits st in
  file_ok l c id r → fr_State r = "uploading" → 0 < len → len = Z.min (ChunkBytes l) (fr_Size r - fr_Offset r) →
  file_ok l c id (grow r len sum now) ∧ fr_Offset (grow r len sum now) = fr_Offset r + len ∧ fr_Offset r + len <= fr_Size r.
Proof.
  intros l [H1 H2 H3 H4 H5 H6 H7 H8] Hs Hpos Hlen. destruct (H7 Hs) as [Ho Hc].
  pose proof (l_chunk _ Hlimits) as Lc. pose proof (l_file _ Hlimits) as Lf. pose proof (l_file_width _ Hlimits) as Lw. fold l in Lc, Lf, Lw.
  assert (fr_Offset r + len <= fr_Size r) as Hle by lia.
  assert (i64 (fr_Offset r + len) = fr_Offset r + len) as Ei by (apply i64_id; unfold is_i64; lia).
  assert (chunks_of (grow r len sum now) = chunks_of r + 1) as Ek by (unfold chunks_of, grow; cbn; rewrite length_app; cbn; lia).
  assert ((chunks_of r + 1) * ChunkBytes l = chunks_of r * ChunkBytes l + ChunkBytes l) as Em by ring.
  split; [|unfold grow; cbn; by rewrite Ei]. split; rewrite ?Ek, ?Em; unfold grow; cbn; rewrite ?Ei; try done; try lia.
  assert ((chunks_of r + 1) * ChunkBytes l < 4097 * ChunkBytes l); nia.
Qed.

Lemma take_take_le {A} n m (l : list A) : (n <= m)%nat → take n (take m l) = take n l.
Proof. intros H. rewrite take_take. by rewrite Nat.min_l. Qed.

(** What an upload holds, its partial file being there. *)
Lemma held_partial B r f : fr_State r = "uploading" → blob_in B (fr_ID r) partial_name = Some f →
  held B r = take (received r) (bl_Data f).
Proof. intros Hs Hf. unfold held. by rewrite Hs, Hf. Qed.

(** Rewriting an unfinished upload's partial file beyond what it received. *)
Lemma written_kept c B B' id r bytes all :
  good st c B → ct_Files c !! id = Some r → fr_State r = "uploading" → fr_Offset r < fr_Size r →
  away id B B' → written id (received r) bytes all B B' →
  bytes_all c B' ∧ evolves never c B c B' ∧ held B' r = held B r
  ∧ (all = true → ∃ f, blob_in B' id partial_name = Some f ∧ bl_Regular f = true ∧ bl_Data f = held B r ++ bytes
                   ∧ blob_in B' id (final_name r) = None).
Proof.
  intros Hg Hr Hs Hlt Ha (f & data & Hf & Hd & Ht & Hall & Hn).
  pose proof (c_files _ _ (proj1 Hg) id r Hr) as Hok. pose proof (f_id _ _ _ _ Hok) as Eid.
  destruct (proj2 Hg id r Hr) as [_ Hup Hsum]. specialize (Hup Hs). specialize (Hsum Hs).
  assert (blob_in B' id partial_name = Some (f <| bl_Data := data |>)) as Hf'.
  { unfold blob_in. rewrite Hd. apply blob_put. }
  assert (held B r = take (received r) (bl_Data f)) as Hh by (apply held_partial; [done|by rewrite Eid]).
  assert (held B' r = take (received r) data) as Hh' by (etrans; [apply (held_partial B' r (f <| bl_Data := data |>)); [done|by rewrite Eid]|done]).
  assert (held B' r = held B r) as E by congruence.
  destruct Hup as [(g & Hg1 & Hg2 & Hg3 & Hg4 & Hg5)|(_ & ? & _)]; [|lia]. rewrite Eid in Hg1, Hg5. assert (g = f) as -> by congruence.
  pose proof (f_offset _ _ _ _ Hok) as Ho.
  destruct (one_kept c B B' id r Hg Hr Ha) as [H1 H2].
  - split; rewrite ?Hs; try done.
    + intros _. left. exists (f <| bl_Data := data |>). rewrite Eid. split; [done|]. split; [done|]. cbn.
      split; [unfold received in Hn; lia|]. split; [lia|]. unfold blob_in. rewrite Hd.
      by rewrite <- Hg5, <- (blob_put_ne id partial_name (final_name r) (f <| bl_Data := data |>) B).
    + intros _. by rewrite E.
  - by rewrite E.
  - split; [done|]. split; [done|]. split; [done|]. intros Hx. exists (f <| bl_Data := data |>). split; [done|]. split; [done|].
    cbn. split; [by rewrite (Hall Hx), Hh|]. unfold blob_in. rewrite Hd.
    by rewrite <- Hg5, <- (blob_put_ne id partial_name (final_name r) (f <| bl_Data := data |>) B).
Qed.

(** What a chunk that is acknowledged has done. *)
Definition appended (id : string) (offset : Z) (bytes : list Z) (σ σ' : UpSys W) : Prop :=
  ∃ c c' r r', catalog_of st σ = Ok c ∧ catalog_of st σ' = Ok c' ∧ ct_Files c !! id = Some r ∧ ct_Files c' !! id = Some r'
    ∧ same_upload r r' ∧ fr_State r = "uploading" ∧ fr_State r' = "uploading" ∧ fr_Offset r = offset
    ∧ fr_Offset r' = offset + Z.of_nat (length bytes) ∧ held (up_blobs σ') r' = held (up_blobs σ) r ++ bytes.

Lemma appended_bytes_ok c B id r f bytes sum now :
  catalog_ok st c → ct_Files c !! id = Some r → fr_State r = "uploading" → bytes_ok B r → 0 < Z.of_nat (length bytes) →
  Z.of_nat (length bytes) = Z.min (ChunkBytes (UploadLimits st)) (fr_Size r - fr_Offset r) →
  Z.of_nat (length (held B r)) = fr_Offset r → checksum bytes = sum →
  blob_in B id partial_name = Some f → bl_Regular f = true → bl_Data f = held B r ++ bytes → blob_in B id (final_name r) = None →
  let r' := grow r (Z.of_nat (length bytes)) sum now in
  bytes_ok B r' ∧ later B B r r' ∧ held B r' = held B r ++ bytes.
Proof.
  intros Hc Hr Hs Hb Hpos Hlen Hheld Hsum Hf Hreg Hdata Hnf r'.
  destruct (grow_ok c id r (Z.of_nat (length bytes)) sum now) as (Hok' & Ho & Hle); [by apply Hc|done..|]. fold r' in Hok', Ho.
  pose proof (f_id _ _ _ _ (c_files _ _ Hc id r Hr)) as Eid.
  assert (received r' = length (held B r ++ bytes)) as Erec.
  { unfold received. rewrite Ho, length_app. lia. }
  assert (held B r' = held B r ++ bytes) as Eh.
  { rewrite (held_partial B r' f); [|done|change (fr_ID r') with (fr_ID r); by rewrite Eid].
    rewrite Erec, Hdata. by apply take_ge. }
  assert (fr_State r' = "uploading") as Hs' by done.
  split; [|split; [|done]].
  - split; rewrite ?Hs'; try done.
    + intros _. left. exists f. change (fr_ID r') with (fr_ID r). change (fr_Size r') with (fr_Size r). change (final_name r') with (final_name r).
      rewrite Eid, Hdata, Ho, length_app. split; [done|]. split; [done|]. split; [lia|]. split; [lia|done].
    + intros _. destruct Hb as [_ _ Hsums]. destruct (Hsums Hs) as (chunks & H1 & H2). exists (chunks ++ [bytes]).
      split; [by rewrite concat_app, Eh, H1; cbn; rewrite app_nil_r|]. rewrite map_app, H2. cbn. by rewrite Hsum.
  - split; [by split| |by intros E; rewrite Hs in E| |].
    + unfold is_live, r', grow. cbn. by rewrite Hs.
    + rewrite Ho. lia.
    + rewrite Eh. by apply prefix_app_r.
Qed.
Lemma Append_spec b id offset sum body failure σ c : catalog_of st σ = Ok c → good st c (up_blobs σ) →
  wp (Append rt st b id offset sum body failure) (λ σ' x, step st never σ σ' ∧ match x with
    | Ok _ => ∃ bytes, read_chunk st body failure = Ok bytes ∧ checksum bytes = sum ∧ bytes ≠ [] ∧ appended id offset bytes σ σ'
    | Err _ => True end) σ.
Proof.
  intros Hl Hg. assert (step st never σ σ) as Hself by (exists c, c; repeat (split; [done|]); apply evolves_refl).
  unfold Append. apply wp_bind, wp_lift_result. destruct (read_chunk st body failure) as [bytes|e]; [|done]. cbv zeta.
  case_match eqn:Eg; [by apply wp_fail|].
  apply orb_false_iff in Eg as [[E1%Z.eqb_neq _]%orb_false_iff E3%negb_false_iff%bool_decide_eq_true_1].
  assert (bytes ≠ []) as Hne by (intros ->; apply E1; reflexivity).
  set (len := Z.of_nat (length bytes)) in *.
  eapply wp_mono; [eapply (transaction_result rt st _ never
    (λ c1 σ2 c2 ch _, ch = true ∧ ∃ r r', ct_Files c1 !! id = Some r ∧ ct_Files c2 !! id = Some r' ∧ same_upload r r'
       ∧ fr_State r = "uploading" ∧ fr_State r' = "uploading" ∧ fr_Offset r = offset ∧ fr_Offset r' = offset + len
       ∧ held (up_blobs σ2) r' = held (up_blobs σ) r ++ bytes) σ c Hl Hg)|].
  2:{ intros σ' [u|e] [Hst Hx]; [|done]. split; [done|]. exists bytes. split; [done|]. split; [done|].
      split; [exact Hne|]. destruct Hx as (c1 & σ2 & c2 & ch & Hc & (-> & r & r' & Hr & Hr' & Hsame & Hs & Hs' & Ho & Ho' & Hh) & Hb & Hl').
      exists c, c2, r, r'. rewrite Hb. split; [done|]. split; [by apply Hl'|]. split; [by eapply uploading_before|]. done. }
  intros c1 σ1 Hc Hg1 Hb1. pose proof Hg1 as [Hok1 Hbytes1].
  assert (∀ (σ2 : UpSys W) e, quiet σ1 σ2 → up_file σ2 = up_file σ1 ∧
    keeps st never c1 (up_blobs σ1) σ2 (Err e : result (catalog * bool * Upload)) ∧ True) as Herr.
  { intros σ2 e [Hf Hb]. split; [done|]. unfold keeps. rewrite Hb. split; [|done]. split; [done|]. split; [apply evolves_refl|done]. }
  apply wp_bind, wp_quiet; [procs|]. intros σ2 [[]|e] H2; [|by apply Herr].
  apply wp_bind, own_file_spec; [|intros e; by apply Herr]. intros r Hr _.
  case_match eqn:Eg1; [by apply wp_fail, Herr|]. case_match eqn:Eg2; [by apply wp_fail, Herr|].
  apply orb_false_iff in Eg1 as [Hs%negb_false_iff%bool_decide_eq_true_1 Ho%negb_false_iff%Z.eqb_eq].
  apply negb_false_iff, Z.eqb_eq in Eg2. pose proof (c_files _ _ Hok1 id r Hr) as Hfok.
  pose proof (f_offset _ _ _ _ Hfok) as Hoff. pose proof (f_size _ _ _ _ Hfok) as Hsz. pose proof (l_file_width _ Hlimits) as Lw.
  rewrite i64_id in Eg2 by (unfold is_i64; lia). assert (0 < len) as Hpos by lia. assert (fr_Offset r < fr_Size r) as Hlt by lia.
  assert (Z.to_nat offset = received r) as Erec by (unfold received; by rewrite Ho).
  destruct (Hbytes1 id r Hr) as [_ Hup _]. specialize (Hup Hs). rewrite (f_id _ _ _ _ Hfok) in Hup.
  destruct Hup as [(f & Hf1 & Hf2 & Hf3 & _)|(_ & ? & _)]; [|lia]. rewrite (f_id _ _ _ _ Hfok) in Hf1.
  destruct H2 as [Hf21 Hb21].
  apply wp_bind, write_chunk_spec.
  { rewrite Hb21. intros g Hgf. assert (g = f) as -> by congruence. lia. }
  intros σ3 w Hf3' Haway Hdone Hpart. rewrite Hb21, Erec in *.
  assert (bytes_all c1 (up_blobs σ3) ∧ evolves never c1 (up_blobs σ1) c1 (up_blobs σ3)) as [Hall Hev].
  { destruct Hpart as [->|Hw]; [split; [done|apply evolves_refl]|].
    destruct (written_kept c1 (up_blobs σ1) (up_blobs σ3) id r bytes false) as (? & ? & _); done. }
  assert (up_file σ3 = up_file σ1) as Hfile by congruence.
  destruct w as [[]|e]; [|by split; [|split; [split; [|split]|]]].
  destruct (written_kept c1 (up_blobs σ1) (up_blobs σ3) id r bytes true Hg1 Hr Hs Hlt Haway (Hdone eq_refl))
    as (_ & _ & Hheld & Hfull). destruct (Hfull eq_refl) as (g & Hg2 & Hg3 & Hg4 & Hg5).
  apply wp_bind, wp_uask. intros w now _. apply wp_ret. cbv zeta. fold (grow r len sum now). set (r' := grow r len sum now).
  assert (Z.of_nat (length (held (up_blobs σ3) r)) = fr_Offset r) as Hlen3.
  { rewrite Hheld, (held_partial _ _ f) by (by rewrite ?(f_id _ _ _ _ Hfok)). rewrite length_take. unfold received. lia. }
  destruct (appended_bytes_ok c1 (up_blobs σ3) id r g bytes sum now) as (Hbok & Hlat & Hh'); try done; [by eapply Hall|fold len; by rewrite Ho|by rewrite Hheld|].
  fold len r' in Hbok, Hlat, Hh'. destruct (grow_ok c1 id r len sum now) as (Hok' & Ho' & Hle); [done|done|done|by rewrite Ho|]. fold r' in Hok', Ho'.
  destruct (one_replaced c1 (up_blobs σ3) id r r') as [Hgood Hev2]; [done|done|done| |done|done|].
  { apply (change_file st c1 id r); [done|done|done|done|done|]. intros _. unfold is_live. by rewrite Hs. }
  split; [done|]. split; [by split; [|split; [|split]]|]. split; [done|]. exists r, r'.
  split; [done|]. split; [apply lookup_insert_eq|]. split; [apply Hlat|]. split; [done|]. split; [done|]. split; [done|].
  split; [by rewrite Ho', Ho|]. rewrite <- Hb1. etrans; [exact Hh'|]. by rewrite Hheld.
Qed.

(** ** Completing *)

Lemma still_kept c B : good st c B → bytes_all c B ∧ evolves never c B c B.
Proof. intros [_ Hb]. split; [done|apply evolves_refl]. Qed.

(** Renaming the partial file of a finished upload publishes what it held. *)
Definition published (r : fileRecord) (B : Blobs) : Prop := has_final B r ∧ blob_in B (fr_ID r) partial_name = None.
Definition renamed_blobs (r : fileRecord) (f : blob) (B : Blobs) : Blobs :=
  alter (delete partial_name) (fr_ID r) (put (fr_ID r) (final_name r) f B).
Lemma renamed_published B r f :
  has_partial B r → fr_Offset r = fr_Size r → fr_State r = "uploading" → blob_in B (fr_ID r) partial_name = Some f →
  published r (renamed_blobs r f B) ∧ held (renamed_blobs r f B) r = held B r ∧ away (fr_ID r) B (renamed_blobs r f B).
Proof.
  intros (g & Hg & Hreg & Hge & Heq & _) Ho Hs Hf. assert (g = f) as -> by congruence. specialize (Heq Ho).
  assert (renamed_blobs r f B !! fr_ID r = Some (delete partial_name (<[final_name r := f]> (default ∅ (B !! fr_ID r))))) as E.
  { unfold renamed_blobs, put. rewrite lookup_alter_eq, lookup_insert_eq. done. }
  assert (blob_in (renamed_blobs r f B) (fr_ID r) partial_name = None) as Hp.
  { unfold blob_in. rewrite E. cbn. apply lookup_delete_eq. }
  assert (blob_in (renamed_blobs r f B) (fr_ID r) (final_name r) = Some f) as Hfin.
  { unfold blob_in. rewrite E. cbn. rewrite lookup_delete_ne by done. apply lookup_insert_eq. }
  split; [split; [by exists f|done]|]. split.
  - rewrite (held_partial B r f) by done. unfold held. rewrite Hs, Hp, Hfin. cbn. rewrite take_ge; [done|]. unfold received. lia.
  - intros j Hj. unfold renamed_blobs, put. rewrite lookup_alter_ne, lookup_insert_ne; done.
Qed.
Lemma published_ok B r : published r B → fr_Offset r = fr_Size r → fr_State r = "uploading" →
  (∃ chunks, concat chunks = held B r ∧ map checksum chunks = fr_Checksums r) → bytes_ok B r.
Proof. intros [H1 H2] Ho Hs Hc. split; rewrite Hs; [done| |done]. intros _. by right. Qed.

Lemma publish_upload_spec c r σ (Q : UpSys W → result unit → Prop) :
  good st c (up_blobs σ) → ct_Files c !! fr_ID r = Some r → fr_Offset r = fr_Size r → fr_State r = "uploading" →
  (∀ σ' x, up_file σ' = up_file σ → bytes_all c (up_blobs σ') → evolves never c (up_blobs σ) c (up_blobs σ') →
     (is_ok x = true → published r (up_blobs σ') ∧ held (up_blobs σ') r = held (up_blobs σ) r) → Q σ' x) →
  wp (publish rt r) Q σ.
Proof.
  intros Hg Hr Ho Hs HQ. destruct (proj2 Hg (fr_ID r) r Hr) as [_ Hup Hsum]. specialize (Hup Hs). specialize (Hsum Hs).
  assert (∀ σ' e, quiet σ σ' → Q σ' (Err e)) as Herr.
  { intros σ' e [Hf Hb]. destruct (still_kept c (up_blobs σ) Hg). apply HQ; rewrite ?Hb; done. }
  set (good_end := λ σ' : UpSys W, up_file σ' = up_file σ ∧ bytes_all c (up_blobs σ') ∧ evolves never c (up_blobs σ) c (up_blobs σ')
    ∧ published r (up_blobs σ') ∧ held (up_blobs σ') r = held (up_blobs σ) r).
  assert (∀ σ1 σ2, good_end σ1 → quiet σ1 σ2 → good_end σ2) as Hq.
  { intros σ1 σ2 (H1 & H2 & H3 & H4 & H5) [Hf Hb]. unfold good_end. rewrite Hf, Hb. done. }
  assert (∀ σ1 x, good_end σ1 → Q σ1 x) as Hend.
  { intros σ1 x (H1 & H2 & H3 & H4 & H5). by apply HQ. }
  assert (∀ σ1, good_end σ1 → wp (call rt "chmod";; call rt "open directory";; call rt "sync directory") Q σ1) as Htail.
  { intros σ1 H1. apply wp_bind, wp_call_any. intros σ2 [[]|e] H2; [|apply Hend; by eapply Hq].
    apply wp_bind, wp_call_any. intros σ3 [[]|e] H3; [|apply Hend; eapply Hq; [|exact H3]; by eapply Hq].
    apply wp_call_any. intros σ4 x H4. apply Hend. eapply Hq; [|exact H4]. eapply Hq; [|exact H3]. by eapply Hq. }
  unfold publish. apply wp_bind, wp_attempt. unfold rename_final. apply wp_bind, wp_gets.
  change (blob_at (fr_ID r) partial_name σ) with (blob_in (up_blobs σ) (fr_ID r) partial_name).
  (* what follows a rename that failed: only a file already published will do *)
  assert (∀ σ1 e, quiet σ σ1 → wp
    ((if negb (errors_Is e ErrNotExist) then fail e else
        found ← gets (blob_at (fr_ID r) (final_name r)); stat ← attempt (call rt "stat");
        match found, stat with
        | Some f, Ok _ => if negb (Z.of_nat (length (bl_Data f)) =? fr_Size r) then fail e else mret tt
        | _, _ => fail e end);; call rt "chmod";; call rt "open directory";; call rt "sync directory") Q σ1) as Hfailed.
  { intros σ1 e Hσ1. apply wp_bind. case_match; [by apply wp_fail, Herr|].
    apply wp_bind, wp_gets, wp_bind, wp_attempt, wp_call_any. intros σ2 x H2. assert (quiet σ σ2) as H12 by by etrans.
    destruct (blob_at _ _ σ1) as [f|] eqn:Ef; [|by apply wp_fail, Herr]. destruct x as [[]|e']; [|by apply wp_fail, Herr].
    case_match; [by apply wp_fail, Herr|]. apply wp_ret, Htail.
    assert (blob_in (up_blobs σ) (fr_ID r) (final_name r) = Some f) as Hfin by (rewrite <- (proj2 Hσ1); exact Ef).
    destruct Hup as [(g & _ & _ & _ & _ & Hn)|(Hp & _ & Hf)]; [congruence|]. destruct H12 as [H12f H12b].
    unfold good_end. rewrite H12b. destruct (still_kept c (up_blobs σ) Hg). split; [done|]. split; [done|]. split; [done|]. by split. }
  destruct (blob_in (up_blobs σ) (fr_ID r) partial_name) as [f|] eqn:Ef.
  - apply wp_bind, wp_call_any. intros σ1 [[]|e] H1; [|exact (Hfailed σ1 e H1)].
    apply wp_bind, wp_modify, wp_modify. apply wp_bind, wp_ret. apply Htail. destruct H1 as [H1f H1b].
    destruct Hup as [Hup|(? & _)]; [|congruence]. destruct (renamed_published _ _ _ Hup Ho Hs Ef) as (Hpub & Hheld & Haway).
    assert (bytes_ok (renamed_blobs r f (up_blobs σ)) r) as Hbok by (apply published_ok; [done..|]; by rewrite Hheld).
    destruct (one_kept c (up_blobs σ) (renamed_blobs r f (up_blobs σ)) (fr_ID r) r) as [H2 H3]; [done|done|done|done|by rewrite Hheld|].
    unfold good_end. cbn. rewrite H1f, H1b. split; [done|]. split; [exact H2|]. split; [exact H3|]. split; [exact Hpub|exact Hheld].
  - apply wp_fail. by apply (Hfailed σ ErrNotExist).
Qed.

Lemma Complete_step b id σ c : catalog_of st σ = Ok c → good st c (up_blobs σ) →
  wp (Complete rt st b id) (λ σ' _, step st never σ σ') σ.
Proof.
  intros Hl Hg. eapply transaction_step; [done|done|]. intros c1 σ1 Hc Hg1 Hb1. pose proof Hg1 as [Hok1 Hbytes1].
  assert (∀ (σ2 : UpSys W) (x : result (catalog * bool * Upload)), quiet σ1 σ2 → match x with Ok (c2, _, _) => c2 = c1 | Err _ => True end →
    up_file σ2 = up_file σ1 ∧ keeps st never c1 (up_blobs σ1) σ2 x) as Hsame.
  { intros σ2 x [Hf Hb] Hx. split; [done|]. unfold keeps. rewrite Hb. destruct (still_kept _ _ Hg1). split; [done|]. split; [done|].
    destruct x as [[[c2 ch] a]|e]; [|done]. by subst c2. }
  apply wp_bind, wp_quiet; [procs|]. intros σ2 [[]|e] H2; [|by apply Hsame].
  apply wp_bind, own_file_spec; [|intros e; by apply Hsame]. intros r Hr _.
  case_match eqn:Eg; [by apply wp_fail, Hsame|]. case_match eqn:Er; [by apply wp_ret, Hsame|].
  apply orb_false_iff in Eg as [Ed%bool_decide_eq_false_1 Eo%negb_false_iff%Z.eqb_eq]. apply bool_decide_eq_false_1 in Er.
  pose proof (c_files _ _ Hok1 id r Hr) as Hfok. pose proof (f_id _ _ _ _ Hfok) as Eid.
  assert (fr_State r = "uploading") as Hs by (pose proof (f_state _ _ _ _ Hfok); set_solver).
  destruct H2 as [H2f H2b]. apply wp_bind, (publish_upload_spec c1 r); [by rewrite H2b|by rewrite Eid|done|done|].
  intros σ3 x H3f Hall Hev Hpub. rewrite H2b in Hev. assert (up_file σ3 = up_file σ1) as Hfile by congruence.
  destruct x as [[]|e]; [|by split; [|split; [|split]]]. destruct (Hpub eq_refl) as [[Hfin Hnone] Hheld].
  apply wp_bind, wp_uask. intros w now _. apply wp_ret. cbv zeta. set (r' := r <| fr_State := _ |> <| fr_Checksums := _ |> <| fr_Updated := _ |>).
  assert (held (up_blobs σ3) r' = held (up_blobs σ3) r) as Hheld'.
  { unfold held. change (fr_State r') with "ready". rewrite Hs, Hnone. done. }
  destruct (one_replaced c1 (up_blobs σ3) id r r') as [Hgood Hev2]; [done|done|done| | | |].
  - apply (change_file st c1 id r); try done.
    + by destruct Hfok; split; cbn; try done; set_solver.
    + intros _. unfold is_live. by rewrite Hs.
  - split; try done.
  - split; try done. by rewrite Hheld'.
  - split; [done|]. split; [done|]. split; [done|]. by split.
Qed.

(** ** Opening *)

Lemma Open_spec b id σ c : catalog_of st σ = Ok c → good st c (up_blobs σ) →
  wp (Open rt st b id) (λ _ x, match x with
    | Ok ct => ∃ r, ct_Files c !! id = Some r ∧ fr_State r = "ready" ∧ uc_Data ct = held (up_blobs σ) r ∧ uc_Name ct = fr_Name r
                    ∧ Z.of_nat (length (uc_Data ct)) = fr_Size r
    | Err _ => True end) σ.
Proof.
  intros Hl Hg. eapply wp_mono; [eapply (transaction_result rt st _ never (λ c1 σ2 c2 ch ct, ∃ r,
    ct_Files c1 !! id = Some r ∧ fr_State r = "ready" ∧ uc_Data ct = held (up_blobs σ) r ∧ uc_Name ct = fr_Name r
    ∧ Z.of_nat (length (uc_Data ct)) = fr_Size r) σ c Hl Hg)|].
  2:{ intros σ' [ct|e] [_ Hx]; [|done]. destruct Hx as (c1 & σ2 & c2 & ch & Hc & (r & Hr & Hs & Hd & Hn & Hsz) & _).
      destruct (comp_files _ _ _ Hc id r Hr) as (r0 & Hr0 & [->|[_ ->]]); by exists r0. }
  intros c1 σ1 Hc Hg1 Hb1. destruct (still_kept _ _ Hg1) as [Hs1 Hs2].
  assert (∀ (σ2 : UpSys W) e, quiet σ1 σ2 → up_file σ2 = up_file σ1 ∧
    keeps st never c1 (up_blobs σ1) σ2 (Err e : result (catalog * bool * UploadContent)) ∧ True) as Herr.
  { intros σ2 e [Hf Hb]. split; [done|]. unfold keeps. by rewrite Hb. }
  destruct (ct_Files c1 !! id) as [r|] eqn:Er; [|by apply wp_fail, Herr]. case_match eqn:Es; [by apply wp_fail, Herr|].
  apply orb_false_iff in Es as [_ Es%negb_false_iff%bool_decide_eq_true_1].
  apply wp_bind. unfold open_blob. apply wp_bind, wp_gets.
  change (blob_at (fr_ID r) (final_name r) σ1) with (blob_in (up_blobs σ1) (fr_ID r) (final_name r)).
  destruct (blob_in (up_blobs σ1) (fr_ID r) (final_name r)) as [f|] eqn:Ef; [|by apply wp_fail, Herr].
  apply wp_bind, wp_call_any. intros σ2 [[]|e] H2; [|by apply Herr]. apply wp_ret, wp_bind, wp_attempt, wp_call_any.
  intros σ3 stat H3. assert (quiet σ1 σ3) as [H13f H13b] by by etrans. case_match eqn:Eg; [by apply wp_fail, Herr|]. apply wp_ret.
  apply orb_false_iff in Eg as [_ Eg%negb_false_iff%Z.eqb_eq].
  split; [done|]. unfold keeps. rewrite H13b. split; [by split; [|split; [|split]]|]. exists r. split; [done|]. split; [done|].
  split; [|done]. unfold held. rewrite Es, <- Hb1, Ef. done.
Qed.

End Facts.
