(* ===== verification/UploadCreateFacts.v ===== *)
(** * Private uploads: admission

    A new upload is admitted within the limits of its file, its scope and the
    workspace, and keeps the invariant. *)

From S2P Require Import Prelude Effects GoStrings GoJson GoTime GoLibrary UploadTypes UploadStore UploadBackend.
From S2P Require Import UploadWp UploadInv UploadScopeFacts UploadDeleteFacts UploadFileFacts.
From Stdlib Require Import Permutation.

Open Scope Z_scope.

(** ** The scan of a catalog's files *)

Lemma usage_cons p r l : usage_of p (r :: l) = if p r then fr_Size r + usage_of p l else usage_of p l.
Proof. done. Qed.
Lemma live_in_cons scopeID r : live_in scopeID r = is_live r && (fr_Scope r == scopeID).
Proof. done. Qed.
Lemma usage_nonneg p l : Forall (λ r, 0 <= fr_Size r) l → 0 <= usage_of p l.
Proof. induction 1 as [|r l Hr _ IH]; [done|]. rewrite usage_cons. case_match; lia. Qed.

(** What a scan that finds nobody's identity adds up. *)
Record scanned (scopeID : string) (l : list fileRecord) (u u' : usage) : Prop := {
  sn_workspace : us_Workspace u' = us_Workspace u + usage_of is_live l;
  sn_scope : us_Scope u' = us_Scope u + usage_of (live_in scopeID) l;
  sn_count : us_Count u <= us_Count u' }.

Lemma scan_spec scopeID q l u u' :
  Forall (λ r, 0 <= fr_Size r) (map snd l) → 0 <= us_Workspace u → 0 <= us_Scope u ->
  us_Workspace u + usage_of is_live (map snd l) < 2^63 → us_Scope u + usage_of (live_in scopeID) (map snd l) < 2^63 →
  scan_files scopeID q l u = Ok (inr u') →
  scanned scopeID (map snd l) u u' ∧
  Forall (λ r, ¬ (fr_Scope r = scopeID ∧ fr_ClientID r = rq_ClientID q)) (map snd l).
Proof.
  revert u. induction l as [|[id r] l IH]; intros u Hf Hw Hs Hw2 Hs2 H.
  - injection H as <-. split; [|constructor]. split; cbn; lia.
  - cbn [map snd] in *. apply Forall_cons in Hf as [Hr Hf]. pose proof (usage_nonneg is_live _ Hf) as N1.
    pose proof (usage_nonneg (live_in scopeID) _ Hf) as N2. cbn [scan_files] in H. destruct (_ && _) eqn:E in H; [by case_match|].
    rewrite usage_cons in Hw2, Hs2. rewrite live_in_cons in Hs2.
    assert (¬ (fr_Scope r = scopeID ∧ fr_ClientID r = rq_ClientID q)) as Hn.
    { intros [E1 E2]. rewrite !bool_decide_true in E by done. discriminate. }
    destruct (fr_State r == "deleted") eqn:Ed.
    + assert (is_live r = false) as El by (unfold is_live; by rewrite Ed). rewrite El in Hw2, Hs2. cbn [andb] in Hs2.
      destruct (IH u Hf Hw Hs Hw2 Hs2 H) as [[H1 H2 H3] Hall]. split; [|by constructor].
      split; rewrite ?usage_cons, ?live_in_cons, ?El; done.
    + assert (is_live r = true) as El by (unfold is_live; by rewrite Ed). rewrite El in Hw2, Hs2. cbn [andb] in Hs2.
      assert (i64 (us_Workspace u + fr_Size r) = us_Workspace u + fr_Size r) as Ew by (apply i64_id; unfold is_i64; lia).
      destruct (fr_Scope r == scopeID) eqn:Es.
      * assert (i64 (us_Scope u + fr_Size r) = us_Scope u + fr_Size r) as Ew2 by (apply i64_id; unfold is_i64; lia).
        rewrite Ew, Ew2 in H. apply IH in H as [[H1 H2 H3] Hall]; cbn in *; [|done|lia..].
        split; [|by constructor]. split; rewrite ?usage_cons, ?live_in_cons, ?El, ?Es; cbn; lia.
      * rewrite Ew in H. apply IH in H as [[H1 H2 H3] Hall]; cbn in *; [|done|lia..].
        split; [|by constructor]. split; rewrite ?usage_cons, ?live_in_cons, ?El, ?Es; cbn; lia.
Qed.

Section Facts.
Context {W : Type} (rt : UpRuntime W) (st : Store).
Context (Hlimits : limits_ok (UploadLimits st)) (Hrange : range_law rt).

(** ** The new upload *)

Lemma add_file c id r scope :
  catalog_ok st c → ct_Files c !! id = None → ct_Scopes c !! fr_Scope r = Some scope → file_ok (UploadLimits st) c id r → is_live r = true →
  Z.of_nat (size (ct_Files c)) < maxRecords →
  fr_Size r + usage_of is_live (files_of c) <= WorkspaceBytes (UploadLimits st) →
  fr_Size r + usage_of (live_in (fr_Scope r)) (files_of c) <= quota (UploadLimits st) scope →
  catalog_ok st (c <| ct_Files ::= <[id := r]> |>).
Proof.
  intros [Hi Hn Hs Hf Hb Hu Hq] Hid Hsc Hok Hl Hsize Hw Hquota. split; cbn.
  - done.
  - rewrite map_size_insert, Hid. cbn. lia.
  - done.
  - intros j x [[<- <-]|[_ Hx]]%lookup_insert_Some; (apply (file_ok_scopes _ c); [done|auto]).
  - intros k s Hk. destruct (Hb k s Hk) as [H1 H2]. split; [done|]. intros j Hj. cbn. apply is_Some_insert. auto.
  - unfold files_of. cbn. rewrite usage_insert by done. unfold add_size. rewrite Hl. exact Hw.
  - intros j s Hj. unfold files_of. cbn. rewrite usage_insert by done. unfold add_size. unfold live_in at 1. rewrite Hl. cbn [andb].
    destruct (fr_Scope r == j) eqn:E; [|by apply Hq]. apply bool_decide_eq_true_1 in E. subst j.
    assert (s = scope) as -> by congruence. exact Hquota.
Qed.

Lemma create_partial_spec id σ (Q : UpSys W → result unit → Prop) :
  up_blobs σ !! id = None →
  (∀ σ' x, up_file σ' = up_file σ → away id (up_blobs σ) (up_blobs σ') →
     (is_ok x = true → up_blobs σ' = put id partial_name (mkBlob [] true) (up_blobs σ)) → Q σ' x) →
  wp (create_partial rt id) Q σ.
Proof.
  intros Hid HQ. unfold create_partial. apply wp_bind, wp_call_any. intros σ1 [[]|e] [H1f H1b].
  2:{ apply HQ; [done|by intros j _; rewrite H1b|discriminate]. }
  apply wp_bind, wp_modify, wp_bind, wp_gets.
  assert (away id (up_blobs σ) (<[id := default ∅ (up_blobs σ1 !! id)]> (up_blobs σ1))) as Ha.
  { intros j Hj. rewrite lookup_insert_ne by done. by rewrite H1b. }
  assert (blob_at id partial_name (σ1 <| up_blobs ::= λ m, <[id := default ∅ (m !! id)]> m |>) = None) as En.
  { unfold blob_at. cbn. rewrite lookup_insert_eq, H1b, Hid. done. }
  rewrite En. rewrite bool_decide_true by done. apply wp_bind, wp_ret, wp_bind, wp_call_any. intros σ2 [[]|e] [H2f H2b]; cbn in H2f, H2b.
  2:{ apply HQ; [congruence|by rewrite H2b|discriminate]. }
  apply wp_bind, wp_modify, wp_call_any. intros σ3 x [H3f H3b]. cbn in H3f, H3b.
  assert (up_blobs σ3 = put id partial_name (mkBlob [] true) (up_blobs σ)) as E.
  { rewrite H3b, H2b, H1b, lookup_insert_eq, Hid. unfold put. rewrite Hid. cbn. by rewrite insert_insert_eq. }
  apply HQ; [congruence|rewrite E; apply away_put|done].
Qed.

(** The bounds that admission leaves, as quantities that do not wrap. *)
Lemma size_admitted scope records u q :
  0 <= us_Scope u <= quota (UploadLimits st) scope → 0 <= us_Workspace u <= WorkspaceBytes (UploadLimits st) →
  size_refused st scope records u q = None →
  0 <= rq_Size q <= FileBytes (UploadLimits st) ∧ rq_Size q + us_Scope u <= quota (UploadLimits st) scope
  ∧ rq_Size q + us_Workspace u <= WorkspaceBytes (UploadLimits st) ∧ us_Count u < 1000 ∧ records < maxRecords.
Proof.
  pose proof (l_prompt _ Hlimits) as Lp. pose proof (l_session _ Hlimits) as Ls. pose proof (l_workspace _ Hlimits) as Lw.
  unfold size_refused. cbv zeta. fold (quota (UploadLimits st) scope). intros Hs Hw.
  assert (quota (UploadLimits st) scope < 2^62) as Lq by (unfold quota; case_match; lia).
  destruct (rq_Size q <? 0) eqn:E1; [discriminate|]. destruct (FileBytes _ <? _) eqn:E2; [discriminate|].
  destruct (_ || (maxRecords <=? records)) eqn:E3; [discriminate|]. intros _.
  rewrite !i64_id in E3 by (unfold is_i64; lia). lia.
Qed.

(** What an upload that is admitted adds to a catalog. *)
Definition admitted (scopeID : string) (q : UploadRequest) (c c' : catalog) (id : string) : Prop :=
  ct_Files c !! id = None ∧ c' = c <| ct_Files ::= <[id := file_at c' id]> |> ∧
  (let r := file_at c' id in fr_State r = "uploading" ∧ fr_Offset r = 0 ∧ fr_Size r = rq_Size q ∧ fr_Scope r = scopeID
     ∧ fr_ClientID r = rq_ClientID q ∧ fr_Name r = rq_Name q).

Lemma admit_spec b q scope u c B0 σ :
  good st c (up_blobs σ) → up_blobs σ = B0 → ct_Scopes c !! b_ScopeID b = Some scope →
  scanned (b_ScopeID b) (files_of c) (mkUsage 0 0 0) u →
  (∀ w' raw, ur_random rt (ur_statfs rt (up_world σ)).1 = (w', Ok raw) →
     ct_Files c !! id_text raw = None ∧ idPattern (id_text raw) = true ∧ B0 !! id_text raw = None) →
  wp (admit_upload rt st b q c scope u) (λ σ' x, up_file σ' = up_file σ ∧ keeps st never c B0 σ' x ∧ match x with
    | Ok (c', ch, _) => ch = true ∧ ∃ id, admitted (b_ScopeID b) q c c' id
    | Err _ => True end) σ.
Proof.
  intros Hg HB Hsc [Hsw Hss _] Hfresh. pose proof Hg as [Hok Hbytes]. rewrite HB in Hg, Hbytes.
  assert (∀ (σ' : UpSys W) e, quiet σ σ' → up_file σ' = up_file σ ∧
    keeps st never c B0 σ' (Err e : result (catalog * bool * Upload)) ∧ True) as Herr.
  { intros σ' e [Hf Hb]. split; [done|]. unfold keeps. rewrite Hb, HB. destruct (still_kept st _ _ Hg). done. }
  assert (Forall (λ r, 0 <= fr_Size r) (files_of c)) as Hsizes.
  { apply Forall_forall. intros r Hin. unfold files_of in Hin. apply list_elem_of_fmap in Hin as ([k x] & -> & Hin).
    apply elem_of_map_to_list in Hin. pose proof (f_offset _ _ _ _ (c_files _ _ Hok k x Hin)). cbn. lia. }
  unfold admit_upload. cbn in Hsw, Hss.
  apply wp_bind, wp_lift_error. destruct (preparationMutation _ _); [by apply Herr|].
  apply wp_bind, wp_lift_error. destruct (name_refused _); [by apply Herr|].
  apply wp_bind, wp_lift_error. destruct (size_refused _ _ _ _ _) eqn:Esize; [by apply Herr|].
  apply size_admitted in Esize as (Hq1 & Hq2 & Hq3 & Hq4 & Hq5).
  2:{ rewrite Hss, Z.add_0_l. split; [by apply usage_nonneg|]. by apply (c_quota _ _ Hok). }
  2:{ rewrite Hsw, Z.add_0_l. split; [by apply usage_nonneg|]. apply (c_usage _ _ Hok). }
  apply wp_bind, wp_uask. intros w3 d Hd. set (σ4 := σ <| up_world := w3 |>). assert (quiet σ σ4) as H04 by by split.
  apply wp_bind, wp_lift_result. destruct d as [d|e]; [|by apply Herr]. cbv zeta.
  apply wp_bind. case_match; [by apply wp_fail, Herr|]. apply wp_ret. unfold newID. apply wp_bind, wp_bind, wp_uask. intros w [raw|e] Eraw.
  2:{ apply wp_bind, wp_lift_result. by apply Herr. }
  apply wp_bind, wp_lift_result, wp_ret. destruct (Hfresh w raw) as (Hn1 & Hn2 & Hn3); [by rewrite Hd|]. set (id := id_text raw) in *.
  apply wp_bind, wp_uask. intros w2 now _. set (r := mkFile id _ _ _ _ _ _ _ _). destruct H04 as [H04f H04b].
  apply wp_bind, create_partial_spec; [cbn; by rewrite HB|]. cbn. intros σ5 x H5f Haway Hput. rewrite HB in Haway, Hput.
  assert (up_file σ5 = up_file σ) as Hfile by congruence.
  destruct (live_kept_good st c B0 (up_blobs σ5)) as [Hall Hev]; [done| |].
  { intros j y Hy _. apply Haway. congruence. }
  destruct x as [[]|e]; [|done]. specialize (Hput eq_refl). apply wp_ret.
  set (c' := c <| ct_Files ::= <[id := r]> |>).
  assert (blob_in (up_blobs σ5) id partial_name = Some (mkBlob [] true)) as Hpart by (rewrite Hput; apply blob_put).
  assert (blob_in (up_blobs σ5) id (final_name r) = None) as Hfin.
  { rewrite Hput, blob_put_ne by done. unfold blob_in. by rewrite Hn3. }
  assert (file_ok (UploadLimits st) c id r) as Hfok.
  { pose proof (l_chunk _ Hlimits). unfold r. split; cbn; try done; try lia; [set_solver|unfold chunks_of; cbn; lia]. }
  assert (catalog_ok st c') as Hok'.
  { apply (add_file c id r scope); [done|done|done|done|done|exact Hq5| |];
      change (fr_Size r) with (rq_Size q); [lia|]. change (fr_Scope r) with (b_ScopeID b). lia. }
  split; [exact Hfile|]. split; [split; [exact Hall|split; [exact Hev|split; [split; [exact Hok'|]|]]]|].
  - intros j y. unfold c'. cbn. intros [[<- <-]|[_ Hy]]%lookup_insert_Some; [|by eapply Hall]. split; cbn; try discriminate.
    + intros _. left. exists (mkBlob [] true). split; [exact Hpart|]. split; [done|]. split; [cbn; lia|]. split; [cbn; lia|exact Hfin].
    + intros _. exists []. split; [|done]. unfold held. cbn. rewrite Hpart. done.
  - intros j y Hy Hly _. exists y. split; [|by apply later_refl]. unfold c'. cbn. rewrite lookup_insert_ne; [done|]. congruence.
  - split; [done|]. exists id. split; [done|]. assert (file_at c' id = r) as ->; [|done].
    unfold file_at, c'. cbn. by rewrite lookup_insert_eq.
Qed.

Lemma Create_spec b q σ c : catalog_of st σ = Ok c → good st c (up_blobs σ) → fresh_ids rt st σ →
  wp (Create rt st b q) (λ σ' x, step st never σ σ') σ.
Proof.
  intros Hl Hg Hfresh. assert (step st never σ σ) as Hself by (exists c, c; repeat (split; [done|]); apply evolves_refl).
  unfold Create. case_match; [by apply wp_fail|]. eapply transaction_step_from; [done|done|]. intros c1 σ1 Hen Hc Hg1 Hb1.
  assert (∀ (σ2 : UpSys W) (x : result (catalog * bool * Upload)), quiet σ1 σ2 → match x with Ok (c2, _, _) => c2 = c1 | Err _ => True end →
    up_file σ2 = up_file σ1 ∧ keeps st never c1 (up_blobs σ1) σ2 x) as Hsame.
  { intros σ2 x [Hf Hb] Hx. split; [done|]. unfold keeps. rewrite Hb. destruct (still_kept st _ _ Hg1). split; [done|]. split; [done|].
    destruct x as [[[c2 ch] a]|e]; [|done]. by subst c2. }
  destruct (ct_Scopes c1 !! b_ScopeID b) as [scope|] eqn:Esc; [|by apply wp_fail, Hsame]. case_match; [by apply wp_fail, Hsame|].
  apply wp_bind. eapply wp_mono; [apply wp_and; [apply (wp_range_world rt)|apply (wp_range_all rt _ (λ σ2 x, quiet σ1 σ2 ∧ match x with Ok l => l ≡ₚ map_to_list (ct_Files c1) | Err _ => False end)); [done|]]|].
  { intros σ2 l H2 Hp. by split. }
  intros σ2 [l|e] [Hw2 [H2 Hp]]; [|done]. apply wp_bind, wp_lift_result.
  destruct (scan_files _ _ _ _) as [[r|u]|e] eqn:Escan; [by apply wp_ret, Hsame| |by apply Hsame].
  pose proof Hg1 as [Hok1 Hbytes1]. assert (map snd l ≡ₚ files_of c1) as Hpf by (unfold files_of; by apply Permutation_map).
  pose proof (l_workspace _ Hlimits) as Lw. pose proof (l_prompt _ Hlimits) as Lp. pose proof (l_session _ Hlimits) as Ls.
  pose proof (c_usage _ _ Hok1) as Hu. pose proof (c_quota _ _ Hok1 _ _ Esc) as Hq.
  apply scan_spec in Escan as [[Hs1 Hs2 Hs3] _]; [|cbn; try done..].
  2:{ rewrite Hpf. apply Forall_forall. intros r Hin. unfold files_of in Hin. apply list_elem_of_fmap in Hin as ([k x] & -> & Hin).
    apply elem_of_map_to_list in Hin. pose proof (f_offset _ _ _ _ (c_files _ _ Hok1 k x Hin)). cbn. lia. }
  2:{ rewrite (usage_perm _ _ _ Hpf). lia. }
  2:{ rewrite (usage_perm _ _ _ Hpf). unfold quota in Hq. case_match; lia. }
  rewrite (usage_perm _ _ _ Hpf) in Hs1. rewrite (usage_perm _ _ _ Hpf) in Hs2. destruct H2 as [H2f H2b].
  eapply wp_mono; [apply (admit_spec b q scope u c1 (up_blobs σ1))|]; [by rewrite H2b|done|done|by split| |].
  - intros w' raw Hraw. rewrite Hb1. rewrite Hw2 in Hraw.
    destruct (Hfresh σ1 c1 _ w' raw Hen (rtc_l _ _ _ _ (asked_range rt _ _) (rtc_once _ _ (asked_statfs rt _))) Hraw) as (_ & ? & ? & ?). done.
  - intros σ3 x (H3f & Hk & _). by rewrite H3f.
Qed.
End Facts.
