(* ===== verification/UploadFacts.v ===== *)
(** * Private uploads: the store's theorems

    Every operation of the store keeps it consistent and within its limits, and no
    acknowledged byte of an upload changes until the upload is deleted. *)

From S2P Require Import Prelude Effects GoStrings GoJson GoTime GoLibrary UploadTypes UploadStore UploadBackend UploadClaims UploadWp UploadInv UploadScopeFacts UploadClaimFacts UploadDeleteFacts UploadFileFacts UploadCreateFacts.
From Stdlib Require Import Permutation.

Open Scope Z_scope.

(** The operations of [Store] and [Backend]. *)
Inductive op (W : Type) :=
  | op_NewDraft
  | op_SessionScope (slug thread epoch : string)
  | op_Scope (id : string)
  | op_Scopes
  | op_HasThread (thread : string)
  | op_AdoptInitial (digest slug thread epoch : string)
  | op_BindCreation (wire slug thread epoch : string)
  | op_RetainCreations (goals : gmap string Scope)
  | op_ClaimPreparation (requestID scopeID text : string) (ids : list string)
  | op_ValidatePreparation (requestID scopeID text : string) (ids : list string)
  | op_BindPreparation (requestID scopeID wire slug epoch : string)
  | op_Collect
  | op_RemoveSession (slug thread epoch : string)
  | op_Fork (sourceThread : string) (target : Scope) (entries : list TranscriptEntry)
  | op_List (b : Backend W)
  | op_Status (b : Backend W) (id : string)
  | op_Create (b : Backend W) (q : UploadRequest)
  | op_Append (b : Backend W) (id : string) (offset : Z) (sum : string) (body : list Z) (failure : option error)
  | op_Complete (b : Backend W) (id : string)
  | op_Open (b : Backend W) (id : string)
  | op_Delete (b : Backend W) (id : string) (confirmed : bool)
  | op_Prepare (b : Backend W) (kind attempt text : string) (ids : list string)
  | op_ObserveTranscript (b : Backend W) (transcript : list TranscriptEntry)
  | op_ObserveQueue (b : Backend W) (queue : list QueueEntry)
  | op_QueueDeleted (b : Backend W) (id : string).
Arguments op_NewDraft {W}. Arguments op_SessionScope {W}. Arguments op_Scope {W}. Arguments op_Scopes {W}.
Arguments op_HasThread {W}. Arguments op_AdoptInitial {W}. Arguments op_BindCreation {W}. Arguments op_RetainCreations {W}.
Arguments op_ClaimPreparation {W}. Arguments op_ValidatePreparation {W}. Arguments op_BindPreparation {W}.
Arguments op_Collect {W}. Arguments op_RemoveSession {W}. Arguments op_Fork {W}. Arguments op_List {W}.
Arguments op_Status {W}. Arguments op_Create {W}. Arguments op_Append {W}. Arguments op_Complete {W}.
Arguments op_Open {W}. Arguments op_Delete {W}. Arguments op_Prepare {W}. Arguments op_ObserveTranscript {W}.
Arguments op_ObserveQueue {W}. Arguments op_QueueDeleted {W}.

Section Facts.
Context {W : Type} (rt : UpRuntime W) (st : Store).

Definition run_op (o : op W) : Up W unit :=
  let run {A} (m : Up W A) : Up W unit := m;; mret tt in
  match o with
  | op_NewDraft => run (NewDraft rt st)
  | op_SessionScope slug thread epoch => run (SessionScope rt st slug thread epoch)
  | op_Scope id => run (find_scope rt st id)
  | op_Scopes => run (Scopes rt st)
  | op_HasThread thread => run (HasThread rt st thread)
  | op_AdoptInitial digest slug thread epoch => run (AdoptInitial rt st digest slug thread epoch)
  | op_BindCreation wire slug thread epoch => run (BindCreation rt st wire slug thread epoch)
  | op_RetainCreations goals => run (RetainCreations rt st goals)
  | op_ClaimPreparation r s t ids => run (ClaimPreparation rt st r s t ids)
  | op_ValidatePreparation r s t ids => run (ValidatePreparation rt st r s t ids)
  | op_BindPreparation r s wire slug epoch => run (BindPreparation rt st r s wire slug epoch)
  | op_Collect => run (Collect rt st)
  | op_RemoveSession slug thread epoch => run (RemoveSession rt st slug thread epoch)
  | op_Fork thread target entries => run (Fork rt st thread target entries)
  | op_List b => run (UploadBackend.List rt st b)
  | op_Status b id => run (Status rt st b id)
  | op_Create b q => run (Create rt st b q)
  | op_Append b id offset sum body failure => run (Append rt st b id offset sum body failure)
  | op_Complete b id => run (Complete rt st b id)
  | op_Open b id => run (Open rt st b id)
  | op_Delete b id confirmed => run (Delete rt st b id confirmed)
  | op_Prepare b kind attempt text ids => run (Prepare rt st (b_ScopeID b) kind attempt text ids)
  | op_ObserveTranscript b transcript => run (ObserveTranscript rt st b transcript)
  | op_ObserveQueue b queue => run (ObserveQueue rt st b queue)
  | op_QueueDeleted b id => run (QueueDeleted rt st (b_ScopeID b) id)
  end.

(** The uploads an operation may delete. *)
Definition may_delete (c : catalog) (o : op W) (id : string) : Prop :=
  match o with
  | op_Delete _ i _ => id = i
  | op_Collect => collectable rt c id
  | op_RemoveSession slug thread epoch => removable c slug thread epoch id
  | _ => False
  end.

(** What an operation relies on: identities drawn are unused; the target of a fork is
    there and has room. *)
Definition ready (o : op W) (σ : UpSys W) : Prop :=
  match o with
  | op_NewDraft | op_SessionScope _ _ _ | op_Create _ _ => fresh_ids rt st σ
  | op_Fork _ target _ => survives rt st σ (sc_ID target) ∧ fork_fits st σ
  | _ => True
  end.

Context (Hlimits : limits_ok (UploadLimits st)) (Hrange : range_law rt).
Context (gone : string → Prop) (Hothers : ∀ σ, Inv st σ → step st gone σ (ur_others rt σ)).

(** Answers are dropped. *)
Lemma wp_run {A} (m : Up W A) (Q : UpSys W → Prop) σ : wp m (λ σ' _, Q σ') σ → wp (m;; mret tt) (λ σ' _, Q σ') σ.
Proof. intros H. apply wp_bind. eapply wp_mono; [exact H|]. by intros σ' [a|e] Hq. Qed.

Lemma wp_run_plain {A} dead (m : Up W A) σ : wp m (λ σ' _, step st never σ σ') σ → wp (m;; mret tt) (λ σ' _, step st dead σ σ') σ.
Proof. intros H. apply wp_run. eapply wp_mono; [exact H|]. intros σ' r. apply step_weaken. intros id []. Qed.

Lemma run_op_step o σ c :
  catalog_of st σ = Ok c → good st c (up_blobs σ) → ready o σ →
  step st (λ id, may_delete c o id ∨ gone id) σ (run_op o σ).1.
Proof.
  intros Hl Hg Hr. change (wp (run_op o) (λ σ' _, step st (λ id, may_delete c o id ∨ gone id) σ σ') σ).
  destruct o; cbn [run_op may_delete ready] in *;
    lazymatch goal with |- context [False ∨ _] => apply wp_run_plain | _ => apply wp_run end.
  - by eapply NewDraft_step.
  - by eapply SessionScope_step.
  - by eapply find_scope_step.
  - by eapply Scopes_step.
  - by eapply HasThread_step.
  - by eapply AdoptInitial_step.
  - by eapply AdoptInitial_step.
  - by eapply RetainCreations_step.
  - by eapply ClaimPreparation_step.
  - by eapply ValidatePreparation_step.
  - by eapply BindPreparation_step.
  - by eapply Collect_step.
  - by eapply RemoveSession_step.
  - destruct Hr as [Hr1 Hr2]. by eapply Fork_step.
  - by eapply List_step.
  - by eapply Status_step.
  - by eapply Create_spec.
  - eapply wp_mono; [by eapply Append_spec|]. by intros σ' x [H _].
  - by eapply Complete_step.
  - by eapply Open_step.
  - by eapply Delete_step.
  - by eapply Prepare_step.
  - by eapply ObserveTranscript_step.
  - by eapply ObserveQueue_step.
  - by eapply QueueDeleted_step.
Qed.
End Facts.

(** ** Private uploads: properties of the store *)

Lemma wp_out {S A} (m : SE S A) Q σ σ' r : wp m Q σ → m σ = (σ', r) → Q σ' r.
Proof. unfold wp. intros H E. by rewrite E in H. Qed.

Section Safety.
Context {W : Type} (rt : UpRuntime W) (st : Store).
Context (Hlimits : limits_ok (UploadLimits st)) (Hrange : range_law rt).
Context (gone : string → Prop) (Hothers : ∀ σ, Inv st σ → step st gone σ (ur_others rt σ)).

(** C19: whatever the operating system and other processes do, every operation of the store that is
    [ready] leaves a catalog that loads, is consistent and within its limits, agrees with the files
    on disk, and has every upload the operation may not delete still there with the bytes it held.
    [ready] asks nothing of most operations; of those that create a draft, a scope or an upload, that
    the random identity they draw is unused; of a fork, that its target outlives the compaction and
    that the catalog has room for twice its submissions.  (A fork into a full catalog leaves one
    that does not load: [fork_over_limit].) *)
Theorem uploads_consistent o σ : Inv st σ → ready rt st o σ →
  Inv st (run_op rt st o σ).1 ∧
  ∃ c, catalog_of st σ = Ok c ∧ step st (λ id, may_delete rt c o id ∨ gone id) σ (run_op rt st o σ).1.
Proof.
  intros (c & Hc & Hg) Hr. pose proof (run_op_step rt st Hlimits Hrange gone Hothers o σ c Hc Hg Hr) as H.
  split; [by eapply step_inv|eauto].
Qed.

(** ** Limits *)

(** The states of a store that starts without a catalog. *)
Inductive reachable : UpSys W → Prop :=
  | r_empty σ : up_file σ = None → reachable σ
  | r_op o σ : reachable σ → ready rt st o σ → reachable (run_op rt st o σ).1
  | r_others σ : reachable σ → reachable (ur_others rt σ).

Lemma empty_inv (σ : UpSys W) : up_file σ = None → Inv st σ.
Proof.
  intros Hf. exists (empty_catalog st). unfold catalog_of. rewrite Hf. split; [done|]. split.
  - split; cbn; try done.
    all: try by intros ? ?; rewrite lookup_empty.
    etrans; [|apply (l_workspace _ Hlimits)]. apply usage_nobody. intros id r. cbn. by rewrite lookup_empty.
  - intros id r. cbn. by rewrite lookup_empty.
Qed.
Lemma reachable_inv σ : reachable σ → Inv st σ.
Proof.
  induction 1 as [σ H|o σ _ [c [Hc Hg]] Hr|σ _ IH]; [by apply empty_inv| |].
  - eapply step_inv. by eapply (run_op_step rt st Hlimits Hrange gone Hothers).
  - eapply step_inv. by apply Hothers.
Qed.

(** C21: in every state a store can reach, the sizes of the uploads that are not deleted sum to
    at most the workspace's limit, and those of each scope to the draft's or session's; no
    upload is larger than a file may be or has received more than its size. *)
Theorem uploads_within_limits σ : reachable σ → ∃ c, catalog_of st σ = Ok c ∧
  usage_of is_live (files_of c) <= WorkspaceBytes (UploadLimits st) ∧
  (∀ id s, ct_Scopes c !! id = Some s → usage_of (live_in id) (files_of c) <= quota (UploadLimits st) s) ∧
  (∀ id r, ct_Files c !! id = Some r → 0 <= fr_Offset r <= fr_Size r ∧ fr_Size r <= FileBytes (UploadLimits st)).
Proof.
  intros (c & Hc & Hok & _)%reachable_inv. exists c. split; [done|]. split; [apply Hok|]. split; [apply Hok|].
  intros id r Hr. by destruct (c_files _ _ Hok id r Hr).
Qed.

(** ** Acknowledged bytes *)

(** Operations that may not delete an upload, in any order and number. *)
Inductive undisturbed (id : string) : UpSys W → UpSys W → Prop :=
  | u_refl σ : undisturbed id σ σ
  | u_op o σ σ' : ready rt st o σ → (∀ c, catalog_of st σ = Ok c → ¬ may_delete rt c o id) →
      undisturbed id (run_op rt st o σ).1 σ' → undisturbed id σ σ'
  | u_others σ σ' : undisturbed id (ur_others rt σ) σ' → undisturbed id σ σ'.

Lemma undisturbed_step id σ σ' : ¬ gone id → Inv st σ → undisturbed id σ σ' → step st (λ j, j ≠ id) σ σ'.
Proof.
  intros Hgone Hi H. induction H as [σ|o σ σ' Hr Hn _ IH|σ σ' _ IH].
  - destruct Hi as (c & Hc & Hg). exists c, c. repeat (split; [done|]). apply evolves_refl.
  - destruct Hi as (c & Hc & Hg). pose proof (run_op_step rt st Hlimits Hrange gone Hothers o σ c Hc Hg Hr) as Hs.
    eapply step_trans; [|by eapply IH, step_inv]. eapply step_weaken; [|exact Hs]. intros j [Hj|Hj] ->; [by apply (Hn c)|done].
  - pose proof (Hothers σ Hi) as Hs. eapply step_trans; [|by eapply IH, step_inv]. eapply step_weaken; [|exact Hs]. by intros j Hj ->.
Qed.

Lemma held_length c B id r : good st c B → ct_Files c !! id = Some r → fr_State r = "uploading" →
  Z.of_nat (length (held B r)) = fr_Offset r.
Proof.
  intros [Hok Hb] Hr Hs. destruct (Hb id r Hr) as [_ Hup _]. pose proof (f_offset _ _ _ _ (c_files _ _ Hok id r Hr)) as Ho.
  unfold held. rewrite bool_decide_true by done. destruct (Hup Hs) as [(f & -> & _ & Hl & _)|(-> & He & f & -> & _ & Hl)].
  - rewrite length_take. unfold received. lia.
  - congruence.
Qed.

(** C20: the bytes of a chunk the store acknowledged are the bytes at that offset of the file
    that is downloaded later, whatever happens in between short of deleting the upload. *)
Theorem acknowledged_bytes b id offset sum body failure u σ0 σ1 σ2 b' ct σ3 :
  Inv st σ0 → Append rt st b id offset sum body failure σ0 = (σ1, Ok u) →
  ¬ gone id → undisturbed id σ1 σ2 → Open rt st b' id σ2 = (σ3, Ok ct) →
  ∃ bytes, read_chunk st body failure = Ok bytes ∧ checksum bytes = sum ∧ bytes ≠ [] ∧
    take (length bytes) (drop (Z.to_nat offset) (uc_Data ct)) = bytes.
Proof.
  intros (c & Hc & Hg) HA Hgone Hu HO.
  apply (wp_out _ _ _ _ _ (Append_spec rt st Hlimits b id offset sum body failure σ0 c Hc Hg)) in HA
    as [Hs01 (bytes & Hread & Hsum & Hne & (c0 & c1 & r & r' & H0 & H1 & Hr & Hr' & _ & Hst & Hst' & Ho & Ho' & Hh))].
  assert (c0 = c) as -> by congruence. exists bytes. split; [done|]. split; [done|]. split; [done|].
  assert (Inv st σ1) as Hi1 by by eapply step_inv.
  pose proof (undisturbed_step id σ1 σ2 Hgone Hi1 Hu) as Hs12. destruct Hs12 as (x & c2 & Hx & Hc2 & Hg2 & Hev).
  assert (x = c1) as -> by congruence.
  destruct (Hev id r' Hr') as (r2 & Hr2 & Hlat); [unfold is_live; by rewrite Hst'|auto|].
  apply (wp_out _ _ _ _ _ (Open_spec rt st b' id σ2 c2 Hc2 Hg2)) in HO as (y & Hy & _ & Hd & _).
  assert (y = r2) as -> by congruence. destruct (lt_bytes _ _ _ _ Hlat) as [k Hk].
  rewrite Hd, Hk, Hh, <- app_assoc. rewrite drop_app_length'; [by rewrite take_app_length|].
  pose proof (held_length c _ id r Hg Hr Hst). lia.
Qed.

End Safety.

(** ** Deletion *)

Section Deletion.
Context {W : Type} (rt : UpRuntime W) (st : Store) (Hrange : range_law rt).





Context (gone : string → Prop) (Hothers : ∀ σ, Inv st σ → step st gone σ (ur_others rt σ)).

End Deletion.
