(* ===== verification/UploadClaimSafety.v ===== *)
(** * Private uploads: claims, compaction and forks

    An accepted session request freezes its draft; a claim is durable and answers the
    same text again; compaction keeps what is still needed; [Fork] is not bounded by the
    limit its catalog is loaded under. *)

From S2P Require Import Prelude Effects GoStrings GoJson GoTime GoLibrary UploadTypes UploadStore UploadBackend UploadClaims.
From S2P Require Import UploadWp UploadInv UploadScopeFacts UploadClaimFacts UploadDeleteFacts UploadFileFacts UploadCreateFacts UploadFacts.
From Stdlib Require Import Permutation.

Open Scope Z_scope.

Section Safety.
Context {W : Type} (rt : UpRuntime W) (st : Store).

(** ** Compaction *)

Lemma kept_submission clock c c1 k s :
  compacted clock c c1 → ct_Submissions c !! k = Some s → obsolete c s = false → ct_Submissions c1 !! k = Some s.
Proof.
  intros Hc Hk Ho. rewrite (comp_submissions _ _ _ Hc). unfold drop_obsolete. cbn. by apply map_lookup_filter_Some_2.
Qed.

(** Compaction keeps every submission that is not obsolete as it is, every file that is not
    deleted or that a kept submission refers to, but for the checksums of a finished one, and
    every scope with a file or a submission left; it adds nothing. *)
Theorem compaction_keeps_obligations c σ σ' c' changed : compact rt c σ = (σ', Ok (c', changed)) →
  (∀ k s, ct_Submissions c' !! k = Some s ↔ ct_Submissions c !! k = Some s ∧ obsolete c s = false) ∧
  (∀ id r, ct_Files c !! id = Some r → is_live r = true ∨ referenced c' id = true →
     ct_Files c' !! id = Some r ∨ (fr_State r ≠ "uploading" ∧ ct_Files c' !! id = Some (cleared r))) ∧
  (∀ id s, ct_Scopes c !! id = Some s → occupied c' id = true → ct_Scopes c' !! id = Some s) ∧
  (∀ id, (is_Some (ct_Files c' !! id) → is_Some (ct_Files c !! id)) ∧ (is_Some (ct_Scopes c' !! id) → is_Some (ct_Scopes c !! id))).
Proof.
  intros H. assert (compacted (reads_clock rt) c c') as Hc.
  { apply (wp_out _ _ _ _ _ (compact_spec rt c (λ _ x, match x with Ok d => compacted (reads_clock rt) c d.1 | Err _ => True end) σ
      (λ _ d _ Hd, Hd) (λ _ _ _, I))) in H. exact H. }
  split; [|split; [|split]].
  - intros k s. rewrite (comp_submissions _ _ _ Hc). unfold drop_obsolete. cbn. by rewrite map_lookup_filter_Some.
  - intros id r Hr Hl. destruct (ct_Files c' !! id) as [r'|] eqn:E.
    + destruct (comp_files _ _ _ Hc id r' E) as (x & Hx & Hxr). assert (x = r) as -> by congruence.
      destruct Hxr as [->|[Hs ->]]; auto.
    + destruct (comp_dropped _ _ _ Hc id r Hr E) as (Hs & Hre & _). destruct Hl as [Hl|Hl]; [|congruence].
      unfold is_live in Hl. by rewrite Hs in Hl.
  - intros id s Hs Ho. destruct (ct_Scopes c' !! id) as [s'|] eqn:E.
    + apply (comp_scopes _ _ _ Hc) in E. congruence.
    + destruct (comp_retired _ _ _ Hc id s Hs E). congruence.
  - intros id. split; intros [x Hx].
    + destruct (comp_files _ _ _ Hc id x Hx) as (r & ? & _). eauto.
    + apply (comp_scopes _ _ _ Hc) in Hx. eauto.
Qed.

(** ** Accepted session requests *)







Section Frozen.
Context (Hlimits : limits_ok (UploadLimits st)) (Hrange : range_law rt).
Context (gone : string → Prop) (Hothers : ∀ σ, Inv st σ → step st gone σ (ur_others rt σ)).


End Frozen.

(** ** Claims *)

Context (Hlimits : limits_ok (UploadLimits st)).

(** The submission a claim stands for. *)
Definition claim_key (requestID scopeID : string) : string := submission_key scopeID "initial" (preparation_attempt requestID).
Definition claims (c : catalog) (requestID scopeID text : string) (ids : list string) (wire : string) : Prop :=
  ∃ e, ct_Submissions c !! claim_key requestID scopeID = Some e ∧ sb_Wire e = wire ∧ sb_Text e = text
    ∧ elems (sb_Files e) = ids ∧ (sb_State e = "pending" ∨ sb_State e = "observed").

Lemma touched_submissions ids c σ (Q : UpSys W → result catalog → Prop) :
  (∀ σ' c', quiet σ σ' → ct_Submissions c' = ct_Submissions c → Q σ' (Ok c')) → (∀ σ' e, quiet σ σ' → Q σ' (Err e)) →
  wp (for_each (touch rt) ids c) Q σ.
Proof.
  intros Hok Herr. apply (wp_for_each_quiet (λ d, ct_Submissions d = ct_Submissions c)); [| |done].
  - intros id d σ' _ Hd. unfold touch. apply wp_bind, wp_uask. intros w now _. by apply wp_ret.
  - intros σ' [d|e] Hσ Hd; [by apply Hok|by apply Herr].
Qed.
Lemma prepared_claim c scopeID attempt text ids σ :
  ct_Submissions c !! submission_key scopeID "initial" attempt = None → ids ≠ [] →
  wp (prepareSubmission rt st c scopeID "initial" attempt text ids true) (λ _ x, match x with
    | Ok (c', changed, wire) => changed = true ∧ ∃ e, ct_Submissions c' !! submission_key scopeID "initial" attempt = Some e
        ∧ sb_Wire e = wire ∧ sb_Text e = text ∧ elems (sb_Files e) = ids ∧ sb_State e = "pending"
    | Err _ => True end) σ.
Proof.
  intros Hn Hids. unfold prepareSubmission. case_match; [by apply wp_fail|]. cbv zeta.
  apply wp_bind, wp_lift_result. unfold replayed. rewrite Hn. rewrite bool_decide_false by done.
  case_match; [by apply wp_fail|]. apply wp_bind, describe_spec; [done| |done]. intros σ1 d _ _. case_match; [by apply wp_fail|].
  apply wp_bind, touched_submissions; [|done]. intros σ2 c' _ Hs. apply wp_ret. split; [done|]. cbn in Hs. rewrite Hs, lookup_insert_eq.
  eexists. split; [done|]. done.
Qed.
Lemma claim_answer c requestID scopeID text ids σ : ids ≠ [] →
  wp (preparePreparation rt st c requestID scopeID text ids) (λ _ x, match x with
    | Ok (c', changed, wire) => claims c' requestID scopeID text ids wire ∧ (changed = false → c' = c)
        ∧ (∀ e, ct_Submissions c !! claim_key requestID scopeID = Some e → sb_Wire e = wire)
        ∧ (ct_Submissions c !! claim_key requestID scopeID = None → ∃ s, ct_Scopes c !! scopeID = Some s ∧ sc_Deleted s = false)
    | Err _ => True end) σ.
Proof.
  intros Hids. unfold preparePreparation. cbv zeta. fold (claim_key requestID scopeID).
  destruct (ct_Submissions c !! claim_key requestID scopeID) as [e|] eqn:Ek.
  - apply wp_bind, wp_lift_error. destruct (preparationClaimConflict _ _ _); [done|]. case_match eqn:E; [by apply wp_fail|]. apply wp_ret.
    apply orb_false_iff in E as [[E1%negb_false_iff%bool_decide_eq_true_1 E2%negb_false_iff%bool_decide_eq_true_1]%orb_false_iff E3].
    split; [|split; [done|split; [by intros ? [= <-]|done]]]. exists e. split; [done|]. split; [done|]. split; [done|]. split; [done|].
    apply andb_false_iff in E3 as [E3|E3]; apply negb_false_iff, bool_decide_eq_true_1 in E3; auto.
  - destruct (ct_Scopes c !! scopeID) as [s|] eqn:Es; [|by apply wp_fail].
    destruct (_ || _) eqn:Eu; [by apply wp_fail|]. apply orb_false_iff in Eu as [[Ed _]%orb_false_iff _].
    apply wp_bind, wp_lift_error. destruct (preparationMutation _ _); [done|]. case_match; [by apply wp_fail|].
    eapply wp_mono; [by apply prepared_claim|]. intros σ' [[[c' ch] wire]|e]; [|done].
    intros (-> & e & He & H1 & H2 & H3 & H4). split; [|split; [done|split; [done|eauto]]].
    exists e. split; [done|]. split; [done|]. split; [done|]. split; [done|]. by left.
Qed.

(** The catalog file is what a crash leaves. *)
Definition durable (σ : UpSys W) : Prop := up_durable σ = up_file σ ∧ up_unconfirmed σ = false.
Lemma saved_durable c (σ : UpSys W) : saved_as c σ true → durable σ.
Proof. by intros (t & _ & _ & _ & Hd). Qed.

Lemma claim_spec requestID scopeID text ids σ c :
  ids ≠ [] → catalog_of st σ = Ok c → good st c (up_blobs σ) →
  wp (ClaimPreparation rt st requestID scopeID text ids) (λ σ' x, match x with
    | Ok wire => durable σ' ∧ (∃ c', catalog_of st σ' = Ok c' ∧ claims c' requestID scopeID text ids wire)
                 ∧ (∀ e, ct_Submissions c !! claim_key requestID scopeID = Some e → sb_State e = "pending" ∨ sb_State e = "observed" →
                      sb_Scope e = scopeID → sb_Wire e = wire)
    | Err _ => True end) σ.
Proof.
  intros Hids Hc Hg. unfold ClaimPreparation. rewrite bool_decide_false by done. case_match; [by apply wp_fail|].
  eapply (wp_transaction rt st _ _ _ c); [done|done|]. intros σ1 c1 [H1f H1b] Hco _.
  assert (good st c1 (up_blobs σ1)) as Hg1 by (rewrite H1b; by eapply compacted_good).
  apply wp_bind. eapply wp_mono; [apply wp_and; [by apply (claim_asks rt st Hlimits c1 requestID scopeID text ids σ1); [apply Hg1|]|
    by apply (claim_answer c1 requestID scopeID text ids)]|].
  intros σ2 [[[c2 changed] wire]|e]; [|done]. intros [[H2 [Hok2 _]] (Hcl & Hsame & Hold & Hnone)].
  assert (∀ e, ct_Submissions c !! claim_key requestID scopeID = Some e → sb_State e = "pending" ∨ sb_State e = "observed" →
            sb_Scope e = scopeID → sb_Wire e = wire) as Hreplay.
  { intros e He Hst Hsc. destruct (obsolete c e) eqn:Eo.
    - exfalso. destruct (ct_Submissions c1 !! claim_key requestID scopeID) as [x|] eqn:E1.
      { rewrite (comp_submissions _ _ _ Hco) in E1. apply map_lookup_filter_Some in E1 as [E1 E2]. cbn in E2. congruence. }
      destruct (Hnone eq_refl) as (s & Hs & Hd). apply (comp_scopes _ _ _ Hco) in Hs. revert Eo. unfold obsolete, scope_at.
      rewrite Hsc, Hs. cbn. destruct Hst as [-> | ->]; cbn; by rewrite Hd.
    - apply Hold. by eapply kept_submission. }
  assert (catalog_ok st c2 → ∀ σ3 : UpSys W, saved_as c2 σ3 true → catalog_of st σ3 = Ok c2) as Hload.
  { intros Hok σ3 (t & _ & Hn & Hf & _). unfold catalog_of. rewrite Hf. apply load_saved; [apply Hok|apply Hok|by apply (checks_pass st)|done]. }
  destruct changed; cbn [negb].
  - apply wp_bind, wp_ret, wp_ret. split; [done|]. split; [done|]. intros σ3 [w|e] _ Hsv Hw; [|done]. rewrite (Hw w eq_refl).
    split; [by eapply saved_durable|]. split; [exists c2; split; [by apply Hload|done]|done].
  - rewrite (Hsame eq_refl) in *. apply wp_bind, confirm_spec; [|done]. intros σ3 [H3f H3b] Hd Hu. apply wp_ret. split.
    + intros _. split; [done|]. split; [|done]. exists c. unfold catalog_of. rewrite H3f, (proj1 H2), H1f. split; [done|].
      destruct Hcl as (e & He & Hrest). exists e. split; [|done]. rewrite (comp_submissions _ _ _ Hco) in He.
      by apply map_lookup_filter_Some in He as [He _].
    + split; [done|]. intros σ4 [w|e] _ Hsv Hw; [|done]. rewrite (Hw w eq_refl).
      split; [by eapply saved_durable|]. split; [exists c1; split; [by apply Hload|done]|done].
Qed.

(** C22: a claim that is answered is durable: the catalog a crash leaves holds the submission
    with the text answered, even when the claim changed nothing; and the same request
    answers the same text while the submission is there. *)
Theorem claims_durable requestID scopeID text ids wire σ σ' :
  ids ≠ [] → Inv st σ → ClaimPreparation rt st requestID scopeID text ids σ = (σ', Ok wire) →
  (∃ c', load_catalog st (up_durable σ') = Ok c' ∧ claims c' requestID scopeID text ids wire) ∧
  ∀ c e, catalog_of st σ = Ok c → ct_Submissions c !! claim_key requestID scopeID = Some e →
    sb_State e = "pending" ∨ sb_State e = "observed" → sb_Scope e = scopeID → sb_Wire e = wire.
Proof.
  intros Hids (c & Hc & Hg) H. apply (wp_out _ _ _ _ _ (claim_spec requestID scopeID text ids σ c Hids Hc Hg)) in H
    as ([Hd _] & (c' & Hc' & Hcl) & Hrep).
  split.
  - exists c'. by rewrite Hd.
  - intros x e Hx. assert (x = c) as -> by congruence. by apply Hrep.
Qed.

End Safety.

(** ** Forks *)

Section Forks.
Context {W : Type} (rt : UpRuntime W) (st : Store).

(** *** A system that never fails *)

Record calm : Prop := {
  calm_call : ∀ name w, (ur_call rt name w).2 = None;
  calm_lstat : ∀ w, ∃ i, (ur_lstat rt w).2 = Ok i ∧ directory_refused i = false;
  calm_lock : ∀ w, (ur_lock rt w).2 = None }.

Definition never_fails {A} (m : Up W A) : Prop := ∀ σ, is_ok (m σ).2 = true.
Lemma nf_ret {A} (a : A) : never_fails (mret a).
Proof. done. Qed.
Lemma nf_uask {A} (f : W → W * A) : never_fails (uask f).
Proof. intros σ. unfold uask. by destruct (f (up_world σ)). Qed.
Lemma nf_modify f : never_fails (modify f : Up W unit).
Proof. done. Qed.
Lemma nf_bind {A B} (m : Up W A) (f : A → Up W B) : never_fails m → (∀ a, never_fails (f a)) → never_fails (mbind f m).
Proof. intros Hm Hf σ. specialize (Hm σ). unfold mbind, SE_bind. destruct (m σ) as [σ' [a|e]]; [apply Hf|done]. Qed.
Lemma nf_for_each {A D} (body : A → D → Up W D) l d : (∀ a d, never_fails (body a d)) → never_fails (for_each body l d).
Proof. intros Hb. revert d. induction l as [|a l IH]; intros d; [done|]. by apply nf_bind. Qed.
Lemma wp_never_fails {A} (m : Up W A) (Q : UpSys W → result A → Prop) σ :
  never_fails m → wp m (λ σ' r, is_ok r = true → Q σ' r) σ → wp m Q σ.
Proof. intros Hm H. by apply H. Qed.

Create HintDb calm.
#[local] Hint Resolve nf_ret nf_uask nf_modify nf_for_each : calm.
(** Goals [never_fails m], one lemma per construct. *)
Ltac calms :=
  intros;
  first [ solve [eauto with calm]
        | apply nf_bind; [calms|calms]
        | apply nf_for_each; calms
        | case_match; calms ].
Lemma compact_never_fails c : never_fails (compact rt c).
Proof. unfold compact, compact_file, compact_scope, range, expired. cbv zeta. calms. Qed.

Lemma wp_calm_call name (Q : UpSys W → result unit → Prop) σ :
  calm → (∀ w, Q (σ <| up_world := w |>) (Ok tt)) → wp (call rt name) Q σ.
Proof.
  intros Hc H. unfold call. apply wp_bind, wp_uask. intros w e E. apply wp_lift_error.
  pose proof (calm_call Hc name (up_world σ)) as He. rewrite E in He. cbn in He. by rewrite He.
Qed.
Lemma wp_calm_confirm (Q : UpSys W → result unit → Prop) σ : calm → (∀ σ', quiet σ σ' → Q σ' (Ok tt)) → wp (confirmCatalog rt) Q σ.
Proof.
  intros Hc H. unfold confirmCatalog. apply wp_bind, wp_attempt, wp_bind, wp_calm_call; [done|]. intros w.
  apply wp_calm_call; [done|]. intros w2. by apply wp_modify, H.
Qed.
Lemma wp_calm_lock (Q : UpSys W → result unit → Prop) σ : calm → (∀ w, Q (σ <| up_world := w |>) (Ok tt)) → wp (lock_catalog rt) Q σ.
Proof.
  intros Hc H. unfold lock_catalog. apply wp_bind, wp_calm_call; [done|]. intros w. apply wp_bind, wp_uask. intros w2 i Ei.
  destruct (calm_lstat Hc (up_world (σ <| up_world := w |>))) as (i' & Hi & Hr). rewrite Ei in Hi. cbn in Hi. subst i.
  apply wp_bind, wp_lift_result. rewrite Hr. apply wp_bind, wp_ret, wp_bind, wp_calm_call; [done|]. intros w3.
  apply wp_bind, wp_uask. intros w4 e Ee. apply wp_lift_error.
  match type of Ee with ur_lock rt ?w = _ => pose proof (calm_lock Hc w) as He end. rewrite Ee in He. cbn in He. rewrite He. apply H.
Qed.
Lemma wp_calm_begin (Q : UpSys W → result (Z * Z * (catalog * bool)) → Prop) σ c :
  calm → catalog_of st σ = Ok c →
  (∀ σ' c1 b, quiet σ σ' → compacted (reads_clock rt) c c1 → Q σ' (Ok (catalogSize c, (c1, b)))) → wp (begin_transaction rt st) Q σ.
Proof.
  intros Hc Hl H. unfold begin_transaction. apply wp_bind, wp_calm_lock; [done|]. intros w. apply wp_bind, wp_gets, wp_bind.
  apply (wp_mono _ (λ σ' r, quiet σ σ' ∧ r = Ok tt)); [destruct (bool_decide _); [by apply wp_ret|by apply wp_calm_call]|].
  intros σ1 r [H1 ->]. apply wp_bind, wp_lift_result. unfold catalog_of in Hl. cbn. rewrite Hl. apply wp_bind, wp_gets, wp_bind.
  apply (wp_mono _ (λ σ' r, quiet σ σ' ∧ r = Ok tt)).
  { destruct (up_unconfirmed σ1); [|by apply wp_ret]. apply wp_calm_confirm; [done|]. intros σ' Hq. split; [by etrans|done]. }
  intros σ2 r [H2 ->]. apply wp_bind, wp_never_fails; [apply compact_never_fails|]. apply compact_spec; [|done].
  intros σ3 [c1 b] H3 Hd _. apply wp_ret, H; [by etrans|done].
Qed.

(** *** What a fork leaves *)

(** A submission of the target for one of the source that the transcript has. *)
Definition inherits (c : catalog) (target : Scope) (entries : list TranscriptEntry) (k' : string) (s' : submission) : Prop :=
  ∃ k s e, ct_Submissions c !! k = Some s ∧ e ∈ entries ∧ k' = submission_key (sc_ID target) (sb_Kind s) (sb_Attempt s) ∧
    s' = s <| sb_Scope := sc_ID target |> <| sb_State := "observed" |> <| sb_ItemID := te_ItemID e |>.
(** Files and scopes as compaction leaves them, and the submissions with some inherited ones. *)
Record forked (c : catalog) (target : Scope) (entries : list TranscriptEntry) (c' : catalog) : Prop := {
  fk_schema : ct_Schema c' = ct_Schema c ∧ ct_Workspace c' = ct_Workspace c;
  fk_files : ∀ id r', ct_Files c' !! id = Some r' →
    ∃ r, ct_Files c !! id = Some r ∧ (r' = r ∨ fr_State r ≠ "uploading" ∧ r' = cleared r);
  fk_scopes : ∀ id s, ct_Scopes c' !! id = Some s → ct_Scopes c !! id = Some s;
  fk_kept : ∀ k s, ct_Submissions c !! k = Some s → ct_Submissions c' !! k = Some s;
  fk_new : ∀ k s, ct_Submissions c' !! k = Some s → ct_Submissions c !! k = Some s ∨ inherits c target entries k s }.
(** Its text is a megabyte below the limit, as any save that adds records demands. *)
Definition fits (c : catalog) : Prop := ∃ text, catalog_json c = Some text ∧ strlen text <= maxCatalogBytes - Z.shiftl 1 20.

Lemma forked_compacted c target entries c1 :
  compacted (reads_clock rt) c c1 → (∀ k s, ct_Submissions c !! k = Some s → obsolete c s = false) →
  forked c target entries c1 ∧ ct_Submissions c1 = ct_Submissions c.
Proof.
  intros Hc Ho. assert (ct_Submissions c1 = ct_Submissions c) as E.
  { rewrite (comp_submissions _ _ _ Hc). cbn. by apply map_filter_id. }
  split; [|done]. split; [apply Hc|apply (comp_files _ _ _ Hc)|apply (comp_scopes _ _ _ Hc)|by rewrite E|rewrite E; auto].
Qed.

Section Loop.
Context (sourceThread : string) (target : Scope) (entries : list TranscriptEntry) (c : catalog) (k : string) (s : submission).
Abbreviation key := (submission_key (sc_ID target) (sb_Kind s) (sb_Attempt s)).
Definition applies (e : TranscriptEntry) (x : submission) : bool := (te_Kind e == "userMessage") && (te_Text e == sb_Wire x).
Context (Hk : ct_Submissions c !! k = Some s) (Hstate : sb_State s ≠ "cancelled") (Habsent : ct_Submissions c !! key = None).
Context (Hentry : ∃ e, e ∈ entries ∧ applies e s = true).

(** Nothing added and the submission is still to come, or something was added. *)
Definition progress (c1 : catalog) (l : list (string * submission)) (d : catalog * bool) : Prop :=
  forked c target entries d.1 ∧ ct_Scopes d.1 = ct_Scopes c1 ∧ (∀ kv, kv ∈ l → ct_Submissions c !! kv.1 = Some kv.2) ∧
  (ct_Submissions d.1 = ct_Submissions c ∧ (k, s) ∈ l ∨ d.2 = true ∧ ∃ k', ct_Submissions c !! k' = None ∧ is_Some (ct_Submissions d.1 !! k')).

Lemma forked_insert c' x e k1 :
  forked c target entries c' → ct_Submissions c !! k1 = Some x → e ∈ entries →
  let key' := submission_key (sc_ID target) (sb_Kind x) (sb_Attempt x) in ct_Submissions c' !! key' = None →
  forked c target entries (c' <| ct_Submissions ::= <[key' := x <| sb_Scope := sc_ID target |> <| sb_State := "observed" |>
                                                               <| sb_ItemID := te_ItemID e |>]> |>).
Proof.
  intros [H1 H2 H3 H4 H5] Hx He key' Hn. split; [done..| |]; cbn.
  - intros j y Hj. rewrite lookup_insert_ne; [auto|]. intros <-. apply H4 in Hj. fold key' in Hj. congruence.
  - intros j y [[<- <-]|[_ Hj]]%lookup_insert_Some; [|auto]. right. by exists k1, x, e.
Qed.

Lemma fork_progress c1 kv l d σ :
  sc_Thread (scope_at c1 (sb_Scope s)) = sourceThread → progress c1 (kv :: l) d →
  wp (fork_submission sourceThread target entries kv d) (λ (σ' : UpSys W) r, quiet σ σ' ∧ match r with Ok d' => progress c1 l d' | Err _ => False end) σ.
Proof.
  intros Ht (Hf & Hs & Hin & Hp). assert (∀ kv, kv ∈ l → ct_Submissions c !! kv.1 = Some kv.2) as Hin' by set_solver.
  assert (kv ≠ (k, s) ∨ ct_Submissions d.1 ≠ ct_Submissions c → progress c1 l d) as Hskip.
  { intros Hne. split_and!; try done. destruct Hp as [[E Hks]|Hp]; [|by right]. left. split; [done|]. set_solver. }
  destruct kv as [k1 x]. pose proof (Hin (k1, x) ltac:(set_solver)) as Hx. cbn in Hx. unfold fork_submission. cbv zeta. cbn [snd].
  assert (scope_at d.1 (sb_Scope s) = scope_at c1 (sb_Scope s)) as Esc by (unfold scope_at; by rewrite Hs).
  destruct (_ || _) eqn:E1.
  { apply wp_ret. split; [done|]. apply Hskip. left. intros [= -> ->]. apply orb_true_iff in E1 as [E1|E1].
    - apply negb_true_iff, bool_decide_eq_false_1 in E1. congruence.
    - by apply bool_decide_eq_true_1 in E1. }
  destruct (List.find _ entries) as [e|] eqn:E2.
  2: { apply wp_ret. split; [done|]. apply Hskip. left. intros [= -> ->]. destruct Hentry as (e & He & Hap).
       apply list_elem_of_In in He. apply (List.find_none _ _ E2) in He. unfold applies in Hap. congruence. }
  apply List.find_some in E2 as [E2 _]. apply list_elem_of_In in E2. case_match eqn:E3.
  - apply bool_decide_eq_true_1 in E3. apply wp_ret. split; [done|]. split; [by eapply forked_insert|]. split; [done|]. split; [done|].
    right. split; [done|]. exists (submission_key (sc_ID target) (sb_Kind x) (sb_Attempt x)). split; [|cbn; rewrite lookup_insert_eq; eauto].
    destruct (ct_Submissions c !! submission_key (sc_ID target) (sb_Kind x) (sb_Attempt x)) as [y|] eqn:Ey; [|done]. apply (fk_kept _ _ _ _ Hf) in Ey. congruence.
  - apply bool_decide_eq_false_1 in E3. apply wp_ret. split; [done|]. apply Hskip.
    destruct (decide ((k1, x) = (k, s))) as [[= -> ->]|]; [|by left]. right. intros E. by rewrite E in E3.
Qed.
End Loop.

(** More submissions than the loader accepts. *)
Lemma grown_over_limit c c' k' :
  Z.of_nat (size (ct_Submissions c)) = maxRecords → (∀ k s, ct_Submissions c !! k = Some s → ct_Submissions c' !! k = Some s) →
  ct_Submissions c !! k' = None → is_Some (ct_Submissions c' !! k') → maxRecords < Z.of_nat (size (ct_Submissions c')).
Proof.
  intros <- Hsub Hn Hs. assert (ct_Submissions c ⊂ ct_Submissions c') as Hlt.
  { split; [by apply map_subseteq_spec|]. intros H. destruct Hs as [x Hx]. rewrite map_subseteq_spec in H. apply H in Hx. congruence. }
  apply map_subset_size in Hlt. lia.
Qed.
Lemma over_limit_unloadable c n :
  maxRecords < Z.of_nat (size (ct_Submissions c)) → is_ok (load_catalog st (Some (cf_text n (payload_of c) false))) = false.
Proof.
  intros Hn. unfold load_catalog. destruct (decode_catalog _ _) as [d|x] eqn:E; [|done].
  assert (ct_Submissions d = ct_Submissions c) as Ed.
  { revert E. cbn. case_match; [done|]. unfold decode_payload. cbn. case_match; [done|]. by intros [= <-]. }
  cbn. unfold check_records. rewrite Ed. assert ((maxRecords <? Z.of_nat (size (ct_Submissions c))) = true) as -> by lia.
  by rewrite orb_true_r.
Qed.
(** Every transaction fails on a catalog that does not load, and leaves it. *)
Lemma unloadable_transaction {A} (fn : catalog → Up W (catalog * bool * A)) σ :
  is_ok (catalog_of st σ) = false → wp (transaction rt st fn) (λ σ' r, is_ok r = false ∧ quiet σ σ') σ.
Proof.
  intros Hl. unfold transaction, begin_transaction. apply wp_bind, wp_bind, wp_quiet; [procs|]. intros σ1 [[]|e] H1; [|done].
  apply wp_bind, wp_gets, wp_bind, wp_quiet; [procs|]. intros σ2 [[]|e] H2; [|split; [done|by etrans]].
  apply wp_bind, wp_lift_result. destruct H1 as [Hf Hb]. unfold catalog_of in Hl. rewrite Hf. destruct (load_catalog st (up_file σ)); [done|].
  split; [done|]. etrans; [|exact H2]. by split.
Qed.

(** C40: a fork may leave a catalog that no later operation can load. When the catalog is at
    its record limit with nothing to compact away, one of the source's submissions is in the transcript and the target has
    none for it yet, and the texts are short enough to be saved, then [Fork] answers
    without an error on a system that never fails; and the catalog it has saved is over the limit, so
    that every later transaction of the store fails and leaves it like that. *)
Theorem fork_over_limit sourceThread target entries c k s e (σ : UpSys W) :
  calm → range_law rt → catalog_of st σ = Ok c → Z.of_nat (size (ct_Submissions c)) = maxRecords →
  (∀ k s, ct_Submissions c !! k = Some s → obsolete c s = false) → (∀ c', forked c target entries c' → fits c') →
  ct_Submissions c !! k = Some s → is_Some (ct_Scopes c !! sb_Scope s) → sc_Thread (scope_at c (sb_Scope s)) = sourceThread →
  sb_State s ≠ "cancelled" → e ∈ entries → te_Kind e = "userMessage" → te_Text e = sb_Wire s →
  ct_Submissions c !! submission_key (sc_ID target) (sb_Kind s) (sb_Attempt s) = None →
  let '(σ', r) := Fork rt st sourceThread target entries σ in
  r = Ok tt ∧ is_ok (catalog_of st σ') = false ∧
  ∀ A (fn : catalog → Up W (catalog * bool * A)),
    is_ok (transaction rt st fn σ').2 = false ∧ catalog_of st (transaction rt st fn σ').1 = catalog_of st σ'.
Proof.
  intros Hcalm Hrange Hc Hn Ho Hfits Hk [sc Hsc] Ht Hst He Hkind Htext Habsent.
  assert (wp (Fork rt st sourceThread target entries) (λ σ' r, r = Ok tt ∧ is_ok (catalog_of st σ') = false) σ) as H.
  - unfold Fork, transaction. apply wp_bind, (wp_calm_begin _ σ c); [done|done|]. intros σ1 c1 b H1 Hco.
    destruct (forked_compacted c target entries c1 Hco Ho) as [Hf1 Hs1].
    apply wp_bind, wp_bind, wp_range_all; [done|]. intros σ2 l H2 Hp. apply wp_bind.
    apply (wp_for_each (λ l' d _, progress target entries c k s c1 l' d)).
    + intros kv l' d σ3 Hd. eapply wp_mono; [apply (fork_progress sourceThread target entries c k s Hk Hst Habsent); [|..|exact Hd]|].
      * exists e. split; [done|]. unfold applies. by rewrite Hkind, Htext, !bool_decide_true.
      * rewrite <- Ht. unfold scope_at. rewrite Hsc. destruct (ct_Scopes c1 !! sb_Scope s) as [sc1|] eqn:E1.
        -- apply (comp_scopes _ _ _ Hco) in E1. cbn. congruence.
        -- destruct (comp_retired _ _ _ Hco _ _ Hsc E1) as [Hoc _]. unfold occupied in Hoc. apply orb_false_iff in Hoc as [Hoc _].
           rewrite <- Hs1 in Hk. pose proof (any_false _ _ _ _ Hoc Hk) as Hx. by apply bool_decide_eq_false_1 in Hx.
      * intros σ4 [d'|x] [_ Hd']; [exact Hd'|done].
    + intros [d ch] σ3 (Hf & _ & _ & Hd). cbn [fst snd] in *. destruct Hd as [[_ Hd]|[-> (k' & Hk' & Hk2)]]; [by apply elem_of_nil in Hd|].
      apply wp_ret. cbn [negb andb]. apply wp_bind. unfold save_catalog. destruct (Hfits d Hf) as (text & -> & Hlen).
      destruct (catalogSize d) as [records chunks]. assert ((maxCatalogBytes <? strlen text) = false) as -> by (assert (Z.shiftl 1 20 = 1048576) by reflexivity; lia).
      assert ((maxCatalogBytes - Z.shiftl 1 20 <? strlen text) = false) as -> by lia. cbn [orb andb].
      apply wp_bind, wp_calm_call; [done|]. intros w. apply wp_bind, wp_modify, wp_calm_confirm; [done|]. intros σ4 [H4 _]. apply wp_ret.
      split; [done|]. unfold catalog_of. rewrite H4. cbn. apply over_limit_unloadable.
      eapply grown_over_limit; [done|apply (fk_kept _ _ _ _ Hf)|done|done].
    + split; [exact Hf1|]. split; [done|]. rewrite <- Hs1. split; [|left; split; [done|]].
      * intros [k1 x]. rewrite Hp. apply elem_of_map_to_list.
      * rewrite Hp. by apply elem_of_map_to_list; rewrite Hs1.
  - unfold wp in H. destruct (Fork rt st sourceThread target entries σ) as [σ' r]. cbn in H. destruct H as [-> H]. split; [done|]. split; [exact H|].
    intros A fn. destruct (unloadable_transaction fn σ' H) as [H1 [H2 _]]. split; [done|]. unfold catalog_of. by rewrite H2.
Qed.
End Forks.
