(* ===== verification/UploadSample.v ===== *)
(** * Private uploads: concrete runs

    A draft receives a file of six bytes in two chunks, an accepted session request
    claims it, and the theorems about the store are applied along the way; a session with ten
    thousand observed prompts, too large to write down, is forked. *)

From S2P Require Import Prelude Effects GoStrings GoDecimal GoJson GoTime GoLibrary UploadTypes UploadStore UploadBackend UploadClaims.
From S2P Require Import UploadWp UploadInv UploadScopeFacts UploadClaimFacts UploadDeleteFacts UploadFileFacts UploadCreateFacts UploadFacts UploadClaimSafety.
From Stdlib Require Import Ascii.

Open Scope Z_scope.

(** The world counts the identities drawn; the system never fails and the clock stands still. *)
Definition noon : Stamp := mkStamp (1700000000 * 1000000000) 0.
Definition sample_system : UpRuntime nat := {|
  ur_now := λ w, (w, noon); ur_random := λ w, (S w, Ok (repeat (Z.of_nat w) 16)); ur_range := λ ks w, (w, ks);
  ur_lstat := λ w, (w, Ok (true, false, 448)); ur_lock := λ w, (w, None); ur_statfs := λ w, (w, Ok (1000000, 4096));
  ur_call := λ _ w, (w, None); ur_write := λ w, (w, None); ur_remove := λ _ w, (w, None); ur_entries := λ w, (w, Ok []);
  ur_others := λ σ, σ |}.
Definition sample_store : Store := mkStore "/state/uploads" "/w" (mkLimits 64 100 200 1000 4 50) 1000.
Definition empty_store : UpSys nat := mkUp 0%nat None None false ∅.

Definition out {A} (m : Up nat A) (σ : UpSys nat) (d : A) : A := match (m σ).2 with Ok a => a | Err _ => d end.
Definition drafted : UpSys nat := Eval vm_compute in (NewDraft sample_system sample_store empty_store).1.
Definition draft : string := Eval vm_compute in sc_ID (out (NewDraft sample_system sample_store) empty_store no_scope).
Definition draft_backend : Backend nat := mkBackend draft "/u" false None None.
Definition client : string := id_text (repeat 255 16).
Definition small_file : UploadRequest := mkRequest client "note.txt" 6.
Definition created : UpSys nat := Eval vm_compute in (Create sample_system sample_store draft_backend small_file drafted).1.
Definition file : string := Eval vm_compute in id_text (repeat 1 16).
Definition chunk1 : list Z := [104; 101; 108; 108].
Definition chunk2 : list Z := [111; 33].
Definition sum1 : string := Eval vm_compute in checksum chunk1.
Definition sum2 : string := Eval vm_compute in checksum chunk2.
Definition append1 : op nat := op_Append draft_backend file 0 sum1 chunk1 None.
Definition append2 : op nat := op_Append draft_backend file 4 sum2 chunk2 None.
Definition half : UpSys nat := Eval vm_compute in (run_op sample_system sample_store append1 created).1.
Definition full : UpSys nat := Eval vm_compute in (run_op sample_system sample_store append2 half).1.
Definition complete : UpSys nat := Eval vm_compute in (run_op sample_system sample_store (op_Complete draft_backend file) full).1.
Definition request : string := id_text (repeat 9 16).
Definition claimed : UpSys nat := Eval vm_compute in
  (ClaimPreparation sample_system sample_store request draft "read this" [file] complete).1.
Definition claim_text : string := Eval vm_compute in
  out (ClaimPreparation sample_system sample_store request draft "read this" [file]) complete "".
Definition catalog_at (σ : UpSys nat) : catalog :=
  match catalog_of sample_store σ with Ok c => c | Err _ => empty_catalog sample_store end.
Definition claimed_catalog : catalog := Eval vm_compute in catalog_at claimed.

Example upload_run :
  fr_State (file_at (catalog_at full) file) = "uploading" ∧ fr_Offset (file_at (catalog_at full) file) = 6 ∧
  fr_State (file_at (catalog_at complete) file) = "ready" ∧
  uc_Data (out (Open sample_system sample_store draft_backend file) complete (mkContent [] "" noon)) = chunk1 ++ chunk2 ∧
  preparationMutation claimed_catalog draft = Some (problem 409 "Initial files belong to an accepted session request").
Proof. by vm_compute. Qed.

(** ** The hypotheses hold *)

Lemma sample_limits : limits_ok (UploadLimits sample_store).
Proof. split; vm_compute; split; congruence. Qed.
Lemma sample_range : range_law sample_system.
Proof. by intros ks w. Qed.
Lemma sample_others (σ : UpSys nat) : Inv sample_store σ → step sample_store never σ (ur_others sample_system σ).
Proof. intros (c & Hc & Hg). exists c, c. repeat (split; [done|]). apply evolves_refl. Qed.

(** Freshness, decided: nothing the sample system is asked moves its world. *)
Definition unused (σ : UpSys nat) (c : catalog) (id : string) : bool :=
  bool_decide (ct_Scopes c !! id = None) && bool_decide (ct_Files c !! id = None) && idPattern id
  && bool_decide (up_blobs σ !! id = None).
Definition fresh_next (σ : UpSys nat) : bool :=
  match begin_transaction sample_system sample_store σ with
  | (σ1, Ok (_, (c, _))) => unused σ c (id_text (repeat (Z.of_nat (up_world σ1)) 16))
  | _ => true
  end.
Lemma fresh_decided σ : fresh_next σ = true → fresh_ids sample_system sample_store σ.
Proof.
  intros H σ1 c1 w w' raw (o & b & E) Hw [= _ <-]. unfold fresh_next in H. rewrite E in H.
  assert (w = up_world σ1) as ->.
  { clear -Hw. remember (up_world σ1) as w0 eqn:E0. clear E0. induction Hw as [|w0 w1 w Ha _ IH]; [done|]. rewrite IH. by destruct Ha. }
  unfold unused in H. rewrite !andb_true_iff, !bool_decide_eq_true in H. tauto.
Qed.

Lemma reach_op o (σ σ' : UpSys nat) : reachable sample_system sample_store σ → ready sample_system sample_store o σ →
  (run_op sample_system sample_store o σ).1 = σ' → reachable sample_system sample_store σ'.
Proof. intros H1 H2 <-. by apply r_op. Qed.
Lemma created_reachable : reachable sample_system sample_store created.
Proof.
  apply (reach_op (op_Create draft_backend small_file) drafted); [|apply fresh_decided|]; [|computed..].
  apply (reach_op op_NewDraft empty_store); [by apply r_empty|apply fresh_decided|]; computed.
Qed.
Lemma half_reachable : reachable sample_system sample_store half.
Proof. apply (reach_op append1 created); [apply created_reachable|done|computed]. Qed.
Lemma complete_reachable : reachable sample_system sample_store complete.
Proof.
  apply (reach_op (op_Complete draft_backend file) full); [|done|computed].
  apply (reach_op append2 half); [apply half_reachable|done|computed].
Qed.
Lemma sample_inv σ : reachable sample_system sample_store σ → Inv sample_store σ.
Proof. apply (reachable_inv sample_system sample_store sample_limits sample_range never sample_others). Qed.

(** ** Witnesses *)

Lemma uploads_consistent_witness :
  Inv sample_store created ∧ ready sample_system sample_store append1 created ∧ Inv sample_store half ∧
  ∃ c, catalog_of sample_store created = Ok c ∧
    step sample_store (λ id, may_delete sample_system c append1 id ∨ never id) created half.
Proof.
  pose proof (uploads_consistent sample_system sample_store sample_limits sample_range never sample_others append1 created
    (sample_inv _ created_reachable) I) as [H1 H2].
  assert ((run_op sample_system sample_store append1 created).1 = half) as E by computed. rewrite E in H1, H2.
  split; [exact (sample_inv _ created_reachable)|]. split; [exact I|]. split; [exact H1|exact H2].
Defined.

Lemma uploads_within_limits_witness :
  reachable sample_system sample_store half ∧ ∃ c, catalog_of sample_store half = Ok c ∧
  usage_of is_live (files_of c) <= WorkspaceBytes (UploadLimits sample_store) ∧
  (∀ id s, ct_Scopes c !! id = Some s → usage_of (live_in id) (files_of c) <= quota (UploadLimits sample_store) s) ∧
  (∀ id r, ct_Files c !! id = Some r → 0 <= fr_Offset r <= fr_Size r ∧ fr_Size r <= FileBytes (UploadLimits sample_store)).
Proof.
  split; [exact half_reachable|].
  exact (uploads_within_limits sample_system sample_store sample_limits sample_range never sample_others half half_reachable).
Defined.

(** Between the first chunk and the download: the second chunk and the completion. *)
Definition half_answer : Upload := Eval vm_compute in
  match (Append sample_system sample_store draft_backend file 0 sum1 chunk1 None created).2 with
  | Ok u => u | Err _ => mkUpload (mkAttachment "" "" 0 "" "" "" []) 0 [] end.
Definition content : UploadContent := Eval vm_compute in
  out (Open sample_system sample_store draft_backend file) complete (mkContent [] "" noon).
Lemma acknowledged_bytes_witness :
  Append sample_system sample_store draft_backend file 0 sum1 chunk1 None created = (half, Ok half_answer) ∧
  ∃ bytes, read_chunk sample_store chunk1 None = Ok bytes ∧ checksum bytes = sum1 ∧ bytes ≠ [] ∧
    take (length bytes) (drop (Z.to_nat 0) (uc_Data content)) = bytes.
Proof.
  assert (Append sample_system sample_store draft_backend file 0 sum1 chunk1 None created = (half, Ok half_answer)) as HA by computed.
  assert ((run_op sample_system sample_store append2 half).1 = full) as E1 by computed.
  assert ((run_op sample_system sample_store (op_Complete draft_backend file) full).1 = complete) as E2 by computed.
  assert (undisturbed sample_system sample_store file half complete) as Hu.
  { apply (u_op _ _ _ append2); [done|by intros c _ []|]. rewrite E1.
    apply (u_op _ _ _ (op_Complete draft_backend file)); [done|by intros c _ []|]. rewrite E2. apply u_refl. }
  assert (Open sample_system sample_store draft_backend file complete = (complete, Ok content)) as HO by computed.
  split; [exact HA|].
  exact (acknowledged_bytes sample_system sample_store sample_limits sample_range never sample_others draft_backend file 0 sum1 chunk1
    None half_answer created half complete draft_backend content complete (sample_inv _ created_reachable) HA (λ H, H) Hu HO).
Defined.


Definition compacted_claim : UpSys nat * result (catalog * bool) := Eval vm_compute in
  compact sample_system claimed_catalog claimed.
Lemma compaction_keeps_obligations_witness :
  compact sample_system claimed_catalog claimed = (claimed, Ok (claimed_catalog, false)) ∧
  ∀ k s, ct_Submissions claimed_catalog !! k = Some s ↔ ct_Submissions claimed_catalog !! k = Some s ∧ obsolete claimed_catalog s = false.
Proof.
  assert (compact sample_system claimed_catalog claimed = (claimed, Ok (claimed_catalog, false))) as H by computed.
  split; [exact H|]. exact (proj1 (compaction_keeps_obligations sample_system claimed_catalog claimed claimed claimed_catalog false H)).
Defined.


Lemma claims_durable_witness :
  ClaimPreparation sample_system sample_store request draft "read this" [file] complete = (claimed, Ok claim_text) ∧
  ∃ c', load_catalog sample_store (up_durable claimed) = Ok c' ∧ claims c' request draft "read this" [file] claim_text.
Proof.
  assert (ClaimPreparation sample_system sample_store request draft "read this" [file] complete = (claimed, Ok claim_text)) as H by computed.
  split; [exact H|].
  exact (proj1 (claims_durable sample_system sample_store sample_limits request draft "read this" [file] claim_text complete claimed
    (λ E, match E with end) (sample_inv _ complete_reachable) H)).
Defined.

(** ** A fork at the record limit *)

(** *** The length of a JSON text *)

Lemma join_length l B : Forall (λ t, strlen t <= B) l → 0 <= B → 0 <= strlen (join "," l) <= Z.of_nat (length l) * (B + 1).
Proof.
  intros Hl HB. split; [unfold strlen; lia|]. induction Hl as [|t l Ht Hl IH]; [done|]. destruct l as [|t2 l].
  - cbn [join length]. lia.
  - change (join "," (t :: t2 :: l)) with (t +:+ "," +:+ join "," (t2 :: l)). rewrite !strlen_append. change (strlen ",") with 1.
    cbn [length] in *. lia.
Qed.
Lemma mapM_bounded {A} (f : A → json) B (l : list A) :
  (∀ a, a ∈ l → ∃ t, f a = Some t ∧ strlen t <= B) →
  ∃ ts, mapM f l = Some ts ∧ length ts = length l ∧ Forall (λ t, strlen t <= B) ts.
Proof.
  induction l as [|a l IH]; intros H; [by exists []|]. destruct (H a) as (t & Ht & Hb); [set_solver|].
  destruct IH as (ts & Hts & Hn & Hf); [set_solver|]. exists (t :: ts). cbn. rewrite Ht. cbn. rewrite Hts. cbn.
  split; [done|]. split; [congruence|by constructor].
Qed.
Lemma json_map_bounded {A} (f : A → json) (m : gmap string A) B :
  0 <= B → (∀ k a, m !! k = Some a → ∃ t, member_text (k, f a) = Some t ∧ strlen t <= B) →
  ∃ t, json_map f m = Some t ∧ 0 <= strlen t <= 2 + Z.of_nat (size m) * (B + 1).
Proof.
  intros HB H. unfold json_map. set (l := map _ _). destruct (mapM_bounded member_text B l) as (ts & Hts & Hn & Hf).
  { intros [k j] Hin. unfold l in Hin. apply list_elem_of_fmap in Hin as ([k' a] & [= -> ->] & Hin). rewrite sort_keys_perm in Hin.
    apply elem_of_map_to_list in Hin. by apply H. }
  rewrite Hts. eexists. split; [reflexivity|]. rewrite !strlen_append. change (strlen "{") with 1. change (strlen "}") with 1.
  pose proof (join_length ts B Hf HB) as Hj. assert (length ts = size m) as <-; [|lia].
  rewrite Hn. unfold l. by rewrite length_map, sort_keys_perm, length_map_to_list.
Qed.

(** Texts without anything to escape. *)
Fixpoint unescaped (s : string) : bool :=
  match s with EmptyString => true | String a s => (code a <? 128) && bool_decide (escape_ascii a = String a "") && unescaped s end.
Lemma unescaped_text s : unescaped s = true → strlen (json_string_text s) = strlen s + 2.
Proof.
  intros H. unfold json_string_text. cut (json_escape s = s).
  - intros ->. change (String dquote (s +:+ String dquote "")) with (String dquote "" +:+ s +:+ String dquote "").
    rewrite !strlen_append. change (strlen (String dquote "")) with 1. lia.
  - induction s as [|a s IH]; [done|]. cbn [unescaped] in H. rewrite !andb_true_iff, bool_decide_eq_true in H. destruct H as [[H1 H2] H3].
    cbn [json_escape]. rewrite H1, H2, IH by done. done.
Qed.
Lemma unescaped_app s t : unescaped (s +:+ t) = unescaped s && unescaped t.
Proof. induction s as [|a s IH]; [done|]. rewrite append_cons. cbn [unescaped]. by rewrite IH, !andb_assoc. Qed.
Lemma unescaped_member k v : unescaped k = true → ∃ t, member_text (k, Some v) = Some t ∧ strlen t = strlen k + 3 + strlen v.
Proof. intros H. eexists. split; [reflexivity|]. cbn. rewrite !strlen_append, unescaped_text by done. change (strlen ":") with 1. lia. Qed.

(** *** The catalog *)

(** Ten thousand prompts of the session, each with its own attempt, and the target of the fork. *)
Fixpoint bits (width n : nat) : string :=
  match width with O => "" | S w => String (if Nat.odd n then "1" else "0")%char (bits w (Nat.div2 n)) end.
Lemma bits_length w n : strlen (bits w n) = Z.of_nat w.
Proof. unfold strlen. revert n. induction w as [|w IH]; intros n; [done|]. cbn [bits String.length]. rewrite Nat2Z.inj_succ, IH. lia. Qed.
Lemma bits_unescaped w n : unescaped (bits w n) = true.
Proof. revert n. induction w as [|w IH]; intros n; [done|]. cbn [bits unescaped]. rewrite IH. by destruct (Nat.odd n). Qed.
Lemma bits_inj w n m : (n < 2 ^ w)%nat → (m < 2 ^ w)%nat → bits w n = bits w m → n = m.
Proof.
  revert n m. induction w as [|w IH]; intros n m Hn Hm H; [cbn in Hn, Hm; lia|]. cbn [bits] in H. injection H as H1 H2.
  cbn [Nat.pow] in Hn, Hm. pose proof (Nat.div2_odd n). pose proof (Nat.div2_odd m).
  assert (Nat.odd n = Nat.odd m) as Ho by (revert H1; by destruct (Nat.odd n), (Nat.odd m)). rewrite Ho in *.
  apply IH in H2; [lia|..]; destruct (Nat.odd m); cbn [Nat.b2n] in *; lia.
Qed.

Definition width : nat := 14.
Definition prompt (scope item : string) (n : nat) : submission :=
  mkSubmission scope "initial" (bits width n) "hello" "hello" None "observed" "" item.
Definition prompt_key (scope : string) (n : nat) : string := submission_key scope "initial" (bits width n).
Definition session : Scope := mkScope draft "demo" "thread" "e1" false false noon.
Definition twin : Scope := mkScope file "demo-2" "thread-2" "e1" false false noon.
Definition history (count : nat) : gmap string submission :=
  list_to_map ((λ n, (prompt_key draft n, prompt draft "i1" n)) <$> seq 0 count).
Definition long_catalog (count : nat) : catalog := mkCatalog 1 "/w" (<[draft := session]> {[file := twin]}) ∅ (history count).
Definition shown : TranscriptEntry := mkEntry "userMessage" "hello" "" "i1" None [].

Lemma prompt_key_inj scope n m : (n < 2 ^ width)%nat → (m < 2 ^ width)%nat → prompt_key scope n = prompt_key scope m → n = m.
Proof. intros Hn Hm H. apply (bits_inj width); [done|done|]. by do 4 apply (inj (String.append _)) in H. Qed.
Lemma prompt_key_scope n m : prompt_key draft n ≠ prompt_key file m.
Proof. intros H. by vm_compute in H. Qed.

Section History.
Context (count : nat) (Hcount : (count <= 2 ^ width)%nat).

Lemma history_keys : NoDup ((λ n, (prompt_key draft n, prompt draft "i1" n)) <$> seq 0 count).*1.
Proof.
  rewrite <- list_fmap_compose. apply NoDup_fmap_2_strong; [|apply NoDup_seq]. intros x y Hx Hy. apply elem_of_seq in Hx, Hy.
  apply prompt_key_inj; lia.
Qed.
Lemma history_size : size (history count) = count.
Proof. unfold history. rewrite map_size_list_to_map by apply history_keys. by rewrite length_fmap, length_seq. Qed.
Lemma history_spec k s : history count !! k = Some s ↔ ∃ n, (n < count)%nat ∧ k = prompt_key draft n ∧ s = prompt draft "i1" n.
Proof.
  unfold history. rewrite <- elem_of_list_to_map by apply history_keys. rewrite list_elem_of_fmap. split.
  - intros (n & [= -> ->] & Hn). apply elem_of_seq in Hn. exists n. split; [lia|done].
  - intros (n & Hn & -> & ->). exists n. split; [done|]. apply elem_of_seq. lia.
Qed.
Lemma history_lacks n : history count !! prompt_key file n = None.
Proof.
  destruct (history count !! _) as [s|] eqn:E; [|done]. apply history_spec in E as (m & _ & E & _). by apply eq_sym, prompt_key_scope in E.
Qed.
End History.

(** *** Its text *)

Definition entry (name value : string) : string := json_string_text name +:+ ":" +:+ value.
Lemma entry_length name value : unescaped name = true → strlen (entry name value) = strlen name + 3 + strlen value.
Proof. intros H. unfold entry. rewrite !strlen_append, unescaped_text by done. change (strlen ":") with 1. lia. Qed.
Lemma object_length l : strlen ("{" +:+ join "," l +:+ "}") <= 2 + foldr (λ t n, strlen t + 1 + n) 0 l.
Proof.
  rewrite !strlen_append. change (strlen "{") with 1. change (strlen "}") with 1. cut (strlen (join "," l) <= foldr (λ t n, strlen t + 1 + n) 0 l); [lia|].
  induction l as [|t l IH]; [done|]. destruct l as [|t2 l]; [cbn; lia|].
  change (join "," (t :: t2 :: l)) with (t +:+ "," +:+ join "," (t2 :: l)). rewrite !strlen_append. change (strlen ",") with 1.
  cbn [foldr] in *. lia.
Qed.

Lemma prompt_text scope n : unescaped scope = true →
  ∃ t, submission_json (prompt scope "i1" n) = Some t ∧ strlen t <= 180 + strlen scope.
Proof.
  intros Hs. eexists ("{" +:+ join "," [entry "scope" (json_string_text scope); entry "kind" (json_string_text "initial");
    entry "attempt" (json_string_text (bits width n)); entry "text" (json_string_text "hello"); entry "wire" (json_string_text "hello");
    entry "files" "null"; entry "state" (json_string_text "observed"); entry "itemId" (json_string_text "i1")] +:+ "}").
  split; [reflexivity|]. etrans; [apply object_length|]. cbn [foldr].
  rewrite !entry_length by reflexivity. rewrite (unescaped_text scope Hs), (unescaped_text _ (bits_unescaped _ _)), bits_length, !unescaped_text by reflexivity.
  repeat match goal with |- context [strlen ?x] => lazymatch x with scope => fail | _ => let v := eval vm_compute in (strlen x) in change (strlen x) with v end end.
  unfold width. lia.
Qed.
Lemma prompt_member scope n : unescaped scope = true →
  ∃ t, member_text (prompt_key scope n, submission_json (prompt scope "i1" n)) = Some t ∧ strlen t <= 220 + 2 * strlen scope.
Proof.
  intros Hs. destruct (prompt_text scope n Hs) as (v & -> & Hv). assert (unescaped (prompt_key scope n) = true) as Hu.
  { unfold prompt_key, submission_key. by rewrite !unescaped_app, Hs, bits_unescaped. }
  destruct (unescaped_member _ v Hu) as (t & Ht & Hl). exists t. split; [exact Ht|]. rewrite Hl. unfold prompt_key, submission_key.
  rewrite !strlen_append, bits_length. change (strlen "/") with 1. change (strlen "initial") with 7. unfold width. lia.
Qed.

Lemma scope_text k s : ct_Scopes (long_catalog 0) !! k = Some s → ∃ t, member_text (k, Scope_json s) = Some t ∧ strlen t <= 300.
Proof.
  change (ct_Scopes (long_catalog 0)) with (<[draft := session]> {[file := twin]} : gmap string Scope).
  intros [[<- <-]|[_ [<- <-]%lookup_singleton_Some]]%lookup_insert_Some.
  - assert (is_Some (member_text (draft, Scope_json session)) ∧ strlen (default "" (member_text (draft, Scope_json session))) <= 300) as [[t Ht] H]
      by (split; [vm_compute; eauto|vm_compute; congruence]). rewrite Ht in H. eauto.
  - assert (is_Some (member_text (file, Scope_json twin)) ∧ strlen (default "" (member_text (file, Scope_json twin))) <= 300) as [[t Ht] H]
      by (split; [vm_compute; eauto|vm_compute; congruence]). rewrite Ht in H. eauto.
Qed.

Section Fork.
Context (count : nat) (Hcount : Z.of_nat count <= 10000).

Lemma count_width : (count <= 2 ^ width)%nat.
Proof. apply Nat2Z.inj_le. etrans; [exact Hcount|]. vm_compute. congruence. Qed.
Lemma forked_submission c' k s : forked (long_catalog count) twin [shown] c' → ct_Submissions c' !! k = Some s →
  ∃ scope n, (n < count)%nat ∧ (scope = draft ∨ scope = file) ∧ k = prompt_key scope n ∧ s = prompt scope "i1" n.
Proof.
  intros Hf Hk. apply (fk_new _ _ _ _ Hf) in Hk as [Hk|(k0 & s0 & e & Hk & He & -> & ->)]; apply (history_spec count count_width) in Hk as (n & Hn & -> & ->).
  - exists draft, n. auto.
  - apply list_elem_of_singleton in He as ->. exists file, n. split; [done|]. split; [by right|]. by split.
Qed.
Lemma list_set_size (l : list string) : (size (list_to_set l : gset string) <= length l)%nat.
Proof.
  induction l as [|k l IH]; [done|]. cbn [list_to_set foldr length]. change (list_to_set (k :: l)) with ({[k]} ∪ list_to_set l : gset string).
  rewrite size_union_alt, size_singleton. etrans; [|apply le_n_S, IH]. cbn. apply le_n_S, subseteq_size. set_solver.
Qed.
Lemma forked_size c' : forked (long_catalog count) twin [shown] c' → Z.of_nat (size (ct_Submissions c')) <= 20000.
Proof.
  intros Hf. set (keys := (prompt_key draft <$> seq 0 count) ++ (prompt_key file <$> seq 0 count)).
  assert (size (dom (ct_Submissions c')) <= length keys)%nat as H.
  - etrans; [|apply list_set_size]. apply subseteq_size. intros k [s Hk]%elem_of_dom. apply elem_of_list_to_set.
    destruct (forked_submission c' k s Hf Hk) as (scope & n & Hn & Hsc & -> & _). unfold keys. rewrite elem_of_app, !list_elem_of_fmap.
    destruct Hsc as [-> | ->]; [left|right]; (exists n; split; [done|]; apply elem_of_seq; lia).
  - rewrite size_dom in H. unfold keys in H. rewrite length_app, !length_fmap, !length_seq in H. lia.
Qed.
Lemma forked_fits c' : forked (long_catalog count) twin [shown] c' → fits c'.
Proof.
  intros Hf. assert (ct_Files c' = ∅) as Efiles.
  { apply map_empty. intros id. destruct (ct_Files c' !! id) as [r|] eqn:E; [|done]. apply (fk_files _ _ _ _ Hf) in E as (r0 & H & _).
    destruct (lookup_empty_Some (M := gmap string) id r0 H). }
  destruct (json_map_bounded Scope_json (ct_Scopes c') 300) as (tscopes & Escopes & Hscopes); [lia| |].
  { intros k s Hk. apply scope_text. by apply (fk_scopes _ _ _ _ Hf) in Hk. }
  destruct (json_map_bounded submission_json (ct_Submissions c') 292) as (tsubs & Esubs & Hsubs); [lia| |].
  { intros k s Hk. destruct (forked_submission c' k s Hf Hk) as (scope & n & _ & Hsc & -> & ->).
    assert (unescaped scope = true ∧ strlen scope = 36) as [Hu Hl] by (by destruct Hsc as [-> | ->]; split; vm_compute).
    destruct (prompt_member scope n Hu) as (t & Ht & Hb). exists t. split; [exact Ht|]. lia. }
  assert (Z.of_nat (size (ct_Scopes c')) <= 2) as Hs2.
  { assert (size (ct_Scopes c') <= size (ct_Scopes (long_catalog 0)))%nat as H; [|change (size (ct_Scopes (long_catalog 0))) with 2%nat in H; lia].
    apply map_subseteq_size, map_subseteq_spec. intros id s Hid. by apply (fk_scopes _ _ _ _ Hf) in Hid. }
  pose proof (forked_size c' Hf) as Hs3. destruct (fk_schema _ _ _ _ Hf) as [Eschema Ework].
  exists ("{" +:+ join "," [entry "schema" "1"; entry "workspace" (json_string_text "/w"); entry "scopes" tscopes; entry "files" "{}";
    entry "submissions" tsubs] +:+ "}"). split.
  - unfold catalog_json. rewrite Eschema, Ework, Efiles, Escopes, Esubs. reflexivity.
  - etrans; [apply object_length|]. cbn [foldr]. rewrite !entry_length by reflexivity. rewrite unescaped_text by reflexivity.
    repeat match goal with |- context [strlen ?x] => lazymatch x with tscopes => fail | tsubs => fail | _ => let v := eval vm_compute in (strlen x) in change (strlen x) with v end end.
    change (maxCatalogBytes - Z.shiftl 1 20) with 15728640. lia.
Qed.
End Fork.

(** *** The fork *)

(** A store whose file is what [Fork]'s source saved last. *)
Definition text_size (c : catalog) : Z := match catalog_json c with Some text => strlen text | None => 0 end.
Definition saved_store (c : catalog) : UpSys nat :=
  let file := Some (cf_text (text_size c) (payload_of c) false) in mkUp 0%nat file file false ∅.
Lemma long_catalog_fits count : Z.of_nat count <= 10000 → fits (long_catalog count).
Proof.
  intros Hn. apply (forked_fits count Hn). split; [done|intros id r H; by exists r; auto|done|done|by left].
Qed.
Lemma long_catalog_loads count : Z.of_nat count <= maxRecords → catalog_of sample_store (saved_store (long_catalog count)) = Ok (long_catalog count).
Proof.
  intros Hn. destruct (long_catalog_fits count Hn) as (text & Ht & Hl). unfold catalog_of, saved_store. cbn [up_file].
  assert (text_size (long_catalog count) = strlen text) as -> by (unfold text_size; by rewrite Ht).
  apply load_saved; [done|done| |assert (Z.shiftl 1 20 = 1048576) by reflexivity; lia].
  unfold check_records. change (ct_Submissions (long_catalog count)) with (history count).
  rewrite (history_size count (count_width count Hn)). assert ((maxRecords <? Z.of_nat count) = false) as -> by lia. reflexivity.
Qed.
Lemma sample_calm : calm sample_system.
Proof. split; [done| |done]. intros w. by exists (true, false, 448). Qed.

Definition full_count : nat := Z.to_nat maxRecords.
Lemma full_counted : Z.of_nat full_count = maxRecords.
Proof. unfold full_count. by rewrite Z2Nat.id. Qed.
Opaque full_count.
Definition full_store : UpSys nat := saved_store (long_catalog full_count).
Lemma fork_over_limit_witness :
  catalog_of sample_store full_store = Ok (long_catalog full_count) ∧
  Z.of_nat (size (ct_Submissions (long_catalog full_count))) = maxRecords ∧
  ∃ σ', Fork sample_system sample_store "thread" twin [shown] full_store = (σ', Ok tt) ∧
    is_ok (catalog_of sample_store σ') = false ∧ is_ok (NewDraft sample_system sample_store σ').2 = false.
Proof.
  assert (Z.of_nat full_count <= maxRecords) as Hn by (rewrite full_counted; reflexivity).
  pose proof (long_catalog_loads full_count Hn) as Hc.
  assert (Z.of_nat (size (ct_Submissions (long_catalog full_count))) = maxRecords) as Hsize.
  { change (ct_Submissions (long_catalog full_count)) with (history full_count). rewrite (history_size full_count (count_width full_count Hn)).
    exact full_counted. }
  split; [exact Hc|]. split; [exact Hsize|].
  assert (history full_count !! prompt_key draft 0 = Some (prompt draft "i1" 0)) as H0.
  { apply (history_spec full_count (count_width full_count Hn)). exists 0%nat. split; [|by split].
    apply Nat2Z.inj_lt. rewrite full_counted. reflexivity. }
  pose proof (fork_over_limit sample_system sample_store "thread" twin [shown] (long_catalog full_count) (prompt_key draft 0)
    (prompt draft "i1" 0) shown full_store sample_calm sample_range Hc Hsize) as H.
  destruct (Fork sample_system sample_store "thread" twin [shown] full_store) as [σ' r] eqn:E.
  assert (r = Ok tt ∧ is_ok (catalog_of sample_store σ') = false ∧
    ∀ A (fn : catalog → Up nat (catalog * bool * A)), is_ok (transaction sample_system sample_store fn σ').2 = false ∧
      catalog_of sample_store (transaction sample_system sample_store fn σ').1 = catalog_of sample_store σ') as (H1 & H2 & H3).
  { apply H; clear H.
    - intros k s Hk. apply (history_spec full_count (count_width full_count Hn)) in Hk as (n & _ & _ & ->). reflexivity.
    - exact (forked_fits full_count Hn).
    - exact H0.
    - exists session. reflexivity.
    - reflexivity.
    - discriminate.
    - by left.
    - reflexivity.
    - reflexivity.
    - exact (history_lacks full_count (count_width full_count Hn) 0). }
  exists σ'. split; [rewrite <- H1; reflexivity|]. split; [exact H2|]. apply H3.
Defined.
