(* ===== verification/CreationProgress.v ===== *)
(** * Creation progress

    [creationprogress/progress.go]: the stages of a session's creation, framed on
    a child's standard error between ordinary diagnostics, and the decoder that
    takes them out again. *)

From S2P Require Import Prelude Effects GoStrings GoJson GoDecimal GoTime.
From Stdlib Require Import Ascii.

Open Scope Z_scope.

(** ** Events *)

Definition line_feed_char : ascii := "010"%char.
Definition record_separator : ascii := "030"%char.
Definition Environment : string := "DEV_WORKSPACE_CREATION_PROGRESS".
Definition Prefix : string := String record_separator "DEV_WORKSPACE_CREATION_PROGRESS/1 ".
Definition MaxFrameBytes : Z := 4096.

Record Event := mkEvent { Stage : string; Event_ : string; ElapsedMs : Z; Member : string }.

(** [^[a-z][a-z0-9]{0,127}$] *)
Definition is_lower (c : ascii) : bool := in_range 97 122 (code c).
Definition memberPattern (s : string) : bool :=
  match s with
  | String c s => is_lower c && all_chars (λ c, is_lower c || is_digit c) s && (strlen s <=? 127)
  | EmptyString => false
  end.
Definition stages : list string :=
  ["prepare"; "conversation"; "recovery_loaded"; "recovery_index"; "recovery_scan"; "team_member";
   "prompt"; "terminal"; "evidence"].

(** [Event.Valid] *)
Definition Valid (e : Event) : bool :=
  existsb (λ s, s == Stage e) stages && ((Event_ e == "begin") || (Event_ e == "finish"))
  && (0 <=? ElapsedMs e) && (ElapsedMs e <=? 86400000)
  && ((Event_ e != "begin") || (ElapsedMs e =? 0))
  && ((Member e == "") || ((Stage e == "team_member") && memberPattern (Member e))).

Definition Event_json (e : Event) : json :=
  json_struct [field "stage" (json_string (Stage e)); field "event" (json_string (Event_ e));
               field "elapsedMs" (json_int (ElapsedMs e));
               omitempty (Member e == "") "member" (json_string (Member e))].

(** [Begin] for an observer: what it observes at once, and in the callback. *)
Definition Begin (stage member : string) (started : Time) : Event * (Time → Event) :=
  (mkEvent stage "begin" 0 member,
   λ now, mkEvent stage "finish" (Z.quot (now - started) 1000000) member).

(** The observer of [FromEnvironment]: the bytes written for an event. *)
Definition frame (data : string) : list ascii := chars Prefix ++ chars data ++ [line_feed_char].
Definition FromEnvironment (environment : string) : option (Event → list ascii) :=
  if environment != "1" then None else
  Some (λ e, if negb (Valid e) then [] else
             match Event_json e with Some data => frame data | None => [] end).

(** ** [decode] *)

Definition hex_digit_value (c : ascii) : option Z :=
  if is_digit c then Some (code c - 48)
  else if in_range 97 102 (code c) then Some (code c - 87)
  else if in_range 65 70 (code c) then Some (code c - 55) else None.

(** [getu4] *)
Definition getu4 (l : list ascii) : option (Z * list ascii) :=
  match l with
  | "092"%char :: "u"%char :: a :: b :: c :: d :: l =>
      a ← hex_digit_value a; b ← hex_digit_value b; c ← hex_digit_value c; d ← hex_digit_value d;
      Some (((a * 16 + b) * 16 + c) * 16 + d, l)
  | _ => None
  end.

Definition encode_rune (r : Z) : list ascii :=
  map byte_chr
    (if r <? 128 then [r]
     else if r <? 2048 then [192 + r / 64; 128 + r `mod` 64]
     else if r <? 65536 then [224 + r / 4096; 128 + r / 64 `mod` 64; 128 + r `mod` 64]
     else [240 + r / 262144; 128 + r / 4096 `mod` 64; 128 + r / 64 `mod` 64; 128 + r `mod` 64]).

Definition is_surrogate (r : Z) : bool := in_range 55296 57343 r.
(** [utf16.DecodeRune] of two surrogate halves. *)
Definition decode_pair (r r1 : Z) : option Z :=
  if in_range 55296 56319 r && in_range 56320 57343 r1
  then Some ((r - 55296) * 1024 + (r1 - 56320) + 65536) else None.

Definition short_escape (c : ascii) : option ascii :=
  let z := code c in
  if (z =? 34) || (z =? 92) || (z =? 47) then Some c
  else if z =? 98 then Some "008"%char else if z =? 102 then Some "012"%char
  else if z =? 110 then Some "010"%char else if z =? 114 then Some "013"%char
  else if z =? 116 then Some "009"%char else None.

(** One escape sequence: its text and what follows. *)
Definition unescape (l : list ascii) : parsed :=
  match getu4 l with
  | Some (r, l1) =>
      if is_surrogate r then
        match getu4 l1 with
        | Some (r1, l2) => match decode_pair r r1 with
                           | Some p => Some (encode_rune p, l2)
                           | None => Some (encode_rune 65533, l1)
                           end
        | None => Some (encode_rune 65533, l1)
        end
      else Some (encode_rune r, l1)
  | None => match l with
            | _ :: c :: l => e ← short_escape c; Some ([e], l)
            | _ => None
            end
  end.

(** The text of a JSON string, in valid UTF-8, after its opening quote, and what
    follows it; every step consumes a byte. *)
Fixpoint unquote (fuel : nat) (l : list ascii) : parsed :=
  match fuel with
  | O => None
  | S fuel =>
      match l with
      | [] => None
      | c :: l1 =>
          if code c =? 34 then Some ([], l1)
          else if code c =? 92 then
            '(t, l1) ← unescape l; '(o, r) ← unquote fuel l1; Some (t ++ o, r)
          else if code c <? 32 then None
          else '(o, r) ← unquote fuel l1; Some (c :: o, r)
      end
  end.

(** The bytes of one JSON value and what follows it. *)
Definition raw_value (l : list ascii) : parsed :=
  '(_, r) ← scan (S (S (2 * length l))) Value 0 l; Some (firstn (length l - length r) l, r).

Definition syntax_error : error := ErrorsNew "invalid character".
Definition invalid_field : error := ErrorsNew "invalid progress field".
Definition known_fields : list string := ["stage"; "event"; "elapsedMs"; "member"].

Definition more (l : list ascii) : bool :=
  match skip_ws l with [] => false | c :: _ => negb (is_char c "]"%char || is_char c "}"%char) end.
Definition next_key (first : bool) (l : list ascii) : option (list ascii) :=
  match (if first then Some (skip_ws l)
         else match skip_ws l with ","%char :: l => Some (skip_ws l) | _ => None end) with
  | Some ("034"%char :: l) => Some l
  | _ => None
  end.

(** The loop over the object's members; a fifth member cannot be new. *)
Fixpoint decode_fields (fuel : nat) (first : bool) (fields : gmap string (list ascii)) (l : list ascii)
    : result (gmap string (list ascii) * list ascii) :=
  if negb (more l) then Ok (fields, l) else
  match fuel with
  | O => Err invalid_field
  | S fuel =>
      match (l ← next_key first l; unquote (S (length l)) l) with
      | None => Err syntax_error
      | Some (key, l) =>
          let key := String.string_of_list_ascii key in
          if negb (existsb (λ k, k == key) known_fields) || negb (bool_decide (fields !! key = None))
          then Err invalid_field else
          match skip_ws l with
          | ":"%char :: l =>
              match raw_value (skip_ws l) with
              | Some (value, l) => decode_fields fuel false (<[key := value]> fields) l
              | None => Err syntax_error
              end
          | _ => Err syntax_error
          end
      end
  end.

(** [json.Unmarshal] into a string and into an [int64]; [null] leaves the zero value. *)
Definition to_string (raw : list ascii) : option string :=
  match raw with
  | "034"%char :: l => match unquote (S (length l)) l with
                       | Some (o, []) => Some (String.string_of_list_ascii o)
                       | _ => None
                       end
  | _ => if decide (raw = chars "null") then Some "" else None
  end.
Definition to_int64 (raw : list ascii) : option Z :=
  let '(negative, digits) := match raw with "-"%char :: l => (true, l) | _ => (false, raw) end in
  let value := if (negative : bool) then - digits_value 0 digits else digits_value 0 digits in
  if bool_decide (digits ≠ []) && forallb is_digit digits && bool_decide (is_i64 value) then Some value else None.

Definition required (fields : gmap string (list ascii)) (key : string) : bool :=
  match fields !! key with Some raw => negb (bool_decide (raw = chars "null")) | None => false end.

Definition field_member (fields : gmap string (list ascii)) : option string :=
  match fields !! "member" with
  | None => Some ""
  | Some raw => m ← to_string raw; if memberPattern m then Some m else None
  end.

Definition to_event (fields : gmap string (list ascii)) (member : string) : option Event :=
  stage ← fields !! "stage" ≫= to_string; event ← fields !! "event" ≫= to_string;
  elapsed ← fields !! "elapsedMs" ≫= to_int64;
  Some (mkEvent stage event elapsed member).

Definition decode (data : list ascii) : result Event :=
  if negb (utf8_valid (String.string_of_list_ascii data)) then Err (ErrorsNew "invalid progress UTF-8") else
  match skip_ws data with
  | "{"%char :: l =>
      match decode_fields (length known_fields) true ∅ l with
      | Err e => Err e
      | Ok (fields, l) =>
          match skip_ws l with
          | "}"%char :: l =>
              if negb (bool_decide (skip_ws l = [])) then Err (ErrorsNew "trailing progress data")
              else if negb (forallb (required fields) ["stage"; "event"; "elapsedMs"])
              then Err (ErrorsNew "missing progress field")
              else match field_member fields with
                   | None => Err (ErrorsNew "invalid progress member")
                   | Some member =>
                       match to_event fields member with
                       | Some event => if Valid event then Ok event else Err (ErrorsNew "invalid progress event")
                       | None => Err (ErrorsNew "invalid progress event")
                       end
                   end
          | _ => Err syntax_error
          end
      end
  | _ => Err (ErrorsNew "invalid progress object")
  end.

(** ** [Decoder] *)

Section Decoder.
Context {W : Type}.

(** The writer of diagnostics and the observer act on the world. *)
Record Decoder := mkDecoder {
  world : W; pending : list ascii; discard : bool; warned : bool; rejectedBytes : Z }.
#[export] Instance eta_Decoder : Eta Decoder := λ d,
  mkDecoder (world d) (pending d) (discard d) (warned d) (rejectedBytes d).

Context (diagnostics : list ascii → W → W * option error) (observer : option (Event → W → W)).

Definition print (bytes : list ascii) : SE Decoder unit :=
  λ d, let '(w, e) := diagnostics bytes (world d) in
       (d <| world := w |>, match e with Some e => Err e | None => Ok tt end).
Definition observe (e : Event) : SE Decoder unit :=
  match observer with Some f => modify (λ d, d <| world ::= f e |>) | None => mret tt end.

Definition rejected_notice : string := "[invalid creation progress records omitted]" +:+ String line_feed_char "".
Definition oversized_notice : string := "[oversized creation progress record omitted]" +:+ String line_feed_char "".

(** [Decoder.reject] *)
Definition reject (bytes : list ascii) : SE Decoder unit :=
  d ← gets id;
  if rejectedBytes d + Z.of_nat (length bytes) <=? 16 * 1024
  then modify (λ d, d <| rejectedBytes ::= λ n, n + Z.of_nat (length bytes) |>);; print bytes
  else if negb (warned d) then modify (λ d, d <| warned := true |>);; print (chars rejected_notice)
  else mret tt.

Definition NewDecoder (w : W) : Decoder := mkDecoder w [] false false 0.

Definition has_prefix (p l : list ascii) : bool := bool_decide (firstn (length p) l = p).
(** [decode(frame[len(Prefix) : len(frame)-1])] *)
Definition frame_event (bytes : list ascii) : option Event :=
  if has_prefix (chars Prefix) bytes
  then match decode (removelast (skipn (length (chars Prefix)) bytes)) with Ok e => Some e | Err _ => None end
  else None.

(** The body of [Decoder.Write]'s loop. *)
Definition oversized (value : ascii) : SE Decoder unit :=
  modify (λ d, d <| pending := [] |> <| discard := negb (is_char value line_feed_char) |>);;
  d ← gets id;
  if negb (warned d)
  then ignore (print (chars oversized_notice));; modify (λ d, d <| warned := true |>)
  else mret tt.

Definition complete : SE Decoder unit :=
  bytes ← gets pending;
  modify (λ d, d <| pending := [] |>);;
  match frame_event bytes with Some e => observe e | None => reject bytes end.

Definition write_byte (value : ascii) : SE Decoder unit :=
  d ← gets id;
  if discard d
  then if is_char value line_feed_char then modify (λ d, d <| discard := false |>) else mret tt
  else if bool_decide (pending d = []) && negb (is_char value record_separator) then print [value]
  else
    modify (λ d, d <| pending ::= λ l, l ++ [value] |>);;
    if MaxFrameBytes <? Z.of_nat (length (pending d ++ [value])) then oversized value
    else if is_char value line_feed_char then complete
    else mret tt.

Fixpoint write_bytes (data : list ascii) : SE Decoder unit :=
  match data with [] => mret tt | value :: data => write_byte value;; write_bytes data end.
Definition Write (data : list ascii) : SE Decoder Z := write_bytes data;; mret (Z.of_nat (length data)).

(** [Decoder.Close] *)
Definition Close : SE Decoder unit :=
  bytes ← gets pending;
  r ← attempt (reject bytes);
  modify (λ d, d <| pending := [] |>);;
  lift_result r.

End Decoder.

Arguments Decoder : clear implicits.
