(* ===== verification/CreationProgressCodec.v ===== *)
(** * Creation progress: the text of an event is decoded to that event *)

From S2P Require Import Prelude Effects GoStrings GoJson GoDecimal CreationProgress.
From Stdlib Require Import Ascii.
From stdpp Require Import pretty.

Open Scope Z_scope.

(** ** Plain text

    Characters the encoder and the scanner pass through unchanged. *)

Definition plain (c : ascii) : bool := is_lower c || is_digit c || is_char c "_"%char || in_range 65 90 (code c).

Lemma plain_code c : plain c = true → 48 ≤ code c ≤ 57 ∨ 65 ≤ code c ≤ 90 ∨ code c = 95 ∨ 97 ≤ code c ≤ 122.
Proof.
  unfold plain, is_lower, is_digit, is_char, in_range. change (code "_"%char) with 95.
  rewrite !orb_true_iff, !andb_true_iff, !Z.leb_le, Z.eqb_eq. lia.
Qed.

Definition quoted (s : string) : list ascii := dquote :: chars s ++ [dquote].

Lemma escape_plain s : all_chars plain s = true → json_escape s = s.
Proof.
  induction s as [|c s IH]; [done|]. simpl. rewrite andb_true_iff. intros [Hc%plain_code Hs].
  assert ((code c <? 128) = true) as -> by lia.
  assert (escape_ascii c = String c "") as ->; [|by rewrite append_cons, append_nil, IH].
  unfold escape_ascii. repeat match goal with |- context [?a =? ?b] => assert (a =? b = false) as -> by lia end.
  assert ((code c <? 32) = false) as -> by lia. done.
Qed.

Lemma json_plain s : all_chars plain s = true → json_string_text s = String dquote (s +:+ String dquote "").
Proof. intros H. unfold json_string_text. by rewrite escape_plain. Qed.
Lemma chars_quoted s : chars (String dquote (s +:+ String dquote "")) = quoted s.
Proof. simpl. by rewrite chars_app. Qed.

Lemma valid_utf8_ascii l :
  Forall (λ c, code c < 128) l → utf8_valid (String.string_of_list_ascii l) = true.
Proof.
  induction 1 as [|c l Hc _ IH]; [done|]. simpl. assert ((code c <? 128) = true) as -> by lia. done.
Qed.

(** ** Scanning *)

Lemma unquote_plain s l fuel :
  all_chars plain s = true → (String.length s < fuel)%nat → unquote fuel (chars s ++ dquote :: l) = Some (chars s, l).
Proof.
  revert fuel. induction s as [|c s IH]; intros [|fuel]; simpl; try lia; [done|].
  rewrite andb_true_iff. intros [Hc%plain_code Hs] Hf.
  assert ((code c =? 34) = false) as -> by lia. assert ((code c =? 92) = false) as -> by lia.
  assert ((code c <? 32) = false) as -> by lia. by rewrite IH by (done || lia).
Qed.

Lemma scan_string_plain s l : all_chars plain s = true → ∃ o, scan_string (chars s ++ dquote :: l) = Some (o, l).
Proof.
  induction s as [|c s IH]; [by eexists|]. simpl. rewrite andb_true_iff. intros [Hc%plain_code Hs].
  destruct (IH Hs) as [o Ho]. assert ((code c =? 34) = false) as -> by lia.
  assert ((code c =? 92) = false) as -> by lia. assert ((code c <? 32) = false) as -> by lia.
  assert ((code c =? 226) = false) as Hne by lia.
  destruct (chars s ++ dquote :: l) as [|b [|d l3]] eqn:E; rewrite ?Hne; cbn [andb]; rewrite Ho; by eexists.
Qed.

Lemma firstn_front {A} (a l : list A) : firstn (length (a ++ l) - length l) (a ++ l) = a.
Proof. rewrite length_app, Nat.add_sub, firstn_app, Nat.sub_diag, firstn_all, firstn_O. apply app_nil_r. Qed.

Lemma raw_quoted s l : all_chars plain s = true → raw_value (quoted s ++ l) = Some (quoted s, l).
Proof.
  intros Hs. unfold raw_value. destruct (scan_string_plain s l Hs) as [o Ho].
  assert (scan (S (S (2 * length (quoted s ++ l)))) Value 0 (quoted s ++ l) = Some (dquote :: o, l)) as ->.
  { unfold quoted. rewrite <- app_comm_cons, <- app_assoc. cbn [scan skip_ws]. change (is_ws dquote) with false.
    unfold dquote at 1. cbv iota beta. simpl app. rewrite Ho. done. }
  cbn [mbind option_bind]. by rewrite firstn_front.
Qed.

(** A number's end. *)
Definition ends (l : list ascii) : Prop := ∃ c l', l = c :: l' ∧ (c = ","%char ∨ c = "}"%char).

Lemma take_digits_all ds l : forallb is_digit ds = true → ends l → take_digits (ds ++ l) = (ds, l).
Proof.
  intros Hd (c & l' & -> & Hc). induction ds as [|d ds IH]; simpl.
  - by destruct Hc as [-> | ->].
  - simpl in Hd. apply andb_true_iff in Hd as [-> Hd]. by rewrite IH.
Qed.

Lemma number_ends l : ends l → scan_fraction l = Some ([], l) ∧ scan_exponent l = Some ([], l).
Proof. by intros (c & l' & -> & [-> | ->]). Qed.

Lemma raw_digits d ds l :
  forallb is_digit (d :: ds) = true → (d = "0"%char → ds = []) → ends l →
  raw_value ((d :: ds) ++ l) = Some (d :: ds, l).
Proof.
  intros Hd Hz Hl. unfold raw_value.
  assert (scan_number ((d :: ds) ++ l) = Some (d :: ds, l)) as Hscan.
  { assert (scan_integer ((d :: ds) ++ l) = Some (d :: ds, l)) as Hi.
    { destruct (decide (d = "0"%char)) as [->|Hne]; [by rewrite Hz|].
      assert (some_digits ((d :: ds) ++ l) = Some (d :: ds, l)) as <-
        by (unfold some_digits; by rewrite take_digits_all).
      simpl in Hd. apply andb_true_iff in Hd as [Hd _]. apply digit_cases in Hd. simpl in Hd.
      destruct_or! Hd; subst; try done. }
    unfold scan_number.
    assert (∀ m : list ascii, match (d :: ds) ++ l with "-"%char :: r => (["-"%char], r) | _ => ([], (d :: ds) ++ l) end
      = ([], (d :: ds) ++ l)) as E.
    { intros _. simpl in Hd. apply andb_true_iff in Hd as [Hd _]. apply digit_cases in Hd. simpl in Hd.
      by destruct_or! Hd; subst. }
    rewrite (E []), Hi. cbn [mbind option_bind]. rewrite (proj1 (number_ends l Hl)). cbn [mbind option_bind].
    rewrite (proj2 (number_ends l Hl)). cbn [mbind option_bind]. simpl. by rewrite app_nil_r. }
  assert (scan (S (S (2 * length ((d :: ds) ++ l)))) Value 0 ((d :: ds) ++ l) = Some (d :: ds, l)) as ->.
  { rewrite <- Hscan. simpl in Hd. apply andb_true_iff in Hd as [Hd _]. apply digit_cases in Hd. simpl in Hd.
    by destruct_or! Hd; subst. }
  cbn [mbind option_bind]. by rewrite firstn_front.
Qed.

(** The text of a number the events carry: digits, without a leading zero. *)
Lemma pretty_number z : 0 ≤ z ≤ 86400000 → ∃ d ds,
  chars (pretty z) = d :: ds ∧ forallb is_digit (d :: ds) = true ∧ (d = "0"%char → ds = []) ∧
  digits_value 0 (d :: ds) = z ∧ (length (d :: ds) ≤ 8)%nat.
Proof.
  intros Hz. destruct z as [|p|p]; [by exists "0"%char, []; split_and!; simpl; try lia| |lia].
  change (pretty (Zpos p)) with (pretty_N_go (Npos p) "").
  destruct (pretty_go_digits (Npos p) "" eq_refl) as (H1 & H2 & H3). destruct H3 as (d & s & Hs & Hd); [done|].
  pose proof (pretty_go_length 8 (Npos p) "") as Hlen. rewrite Hs in *. simpl chars in *.
  exists d, (chars s). split_and!; try done. specialize (Hlen ltac:(simpl; lia)).
  simpl in Hlen. simpl.
  rewrite chars_length. lia.
Qed.

(** ** Decoding the encoder's text *)

Definition comma (first : bool) : list ascii := if first then [] else [","%char].

Lemma decode_field fuel first fields k (v : list ascii) l :
  all_chars plain k = true → k ∈ known_fields → fields !! k = None →
  (∀ c, head v = Some c → is_ws c = false) → raw_value (v ++ l) = Some (v, l) → v ≠ [] →
  decode_fields (S fuel) first fields (comma first ++ quoted k ++ ":"%char :: v ++ l)
  = decode_fields fuel false (<[k := v]> fields) l.
Proof.
  intros Hk Hin Hnew Hws Hraw Hne. cbn [decode_fields].
  assert (more (comma first ++ quoted k ++ ":"%char :: v ++ l) = true) as -> by (by destruct first).
  assert (next_key first (comma first ++ quoted k ++ ":"%char :: v ++ l)
    = Some (chars k ++ dquote :: ":"%char :: v ++ l)) as ->.
  { unfold quoted. destruct first; simpl; by rewrite <- app_assoc. }
  cbn [mbind option_bind negb]. rewrite unquote_plain; [|done|].
  2: { rewrite length_app. rewrite chars_length. lia. }
  cbv zeta. rewrite string_of_chars.
  assert (existsb (λ k0, k0 == k) known_fields = true) as ->.
  { apply existsb_exists. exists k. split; [by apply list_elem_of_In|by apply bool_decide_eq_true]. }
  rewrite (bool_decide_eq_true_2 (fields !! k = None)) by done. cbn [negb orb].
  change (skip_ws (":"%char :: v ++ l)) with (":"%char :: v ++ l). cbv iota beta.
  assert (skip_ws (v ++ l) = v ++ l) as ->.
  { destruct v as [|c v]; [done|]. simpl. by rewrite (Hws c). }
  by rewrite Hraw.
Qed.

Lemma decode_quoted fuel first fields k s l :
  all_chars plain k = true → k ∈ known_fields → fields !! k = None → all_chars plain s = true →
  decode_fields (S fuel) first fields (comma first ++ quoted k ++ ":"%char :: quoted s ++ l)
  = decode_fields fuel false (<[k := quoted s]> fields) l.
Proof. intros. apply decode_field; try done; [by intros c [= <-]|by apply raw_quoted]. Qed.

Lemma to_string_quoted s : all_chars plain s = true → to_string (quoted s) = Some s.
Proof.
  intros Hs. unfold to_string, quoted. unfold dquote at 1. cbv iota beta.
  change (S (length (chars s ++ [dquote]))) with (S (length (chars s ++ [dquote]))).
  rewrite (unquote_plain s []); [by rewrite string_of_chars|done|].
  rewrite length_app. rewrite chars_length. simpl. lia.
Qed.

Lemma all_chars_impl (p q : ascii → bool) s : (∀ c, p c = true → q c = true) → all_chars p s = true → all_chars q s = true.
Proof. intros H. induction s as [|c s IH]; [done|]. simpl. rewrite !andb_true_iff. intros [??]. auto. Qed.

Lemma member_plain m : memberPattern m = true → all_chars plain m = true ∧ m ≠ "" ∧ (String.length m ≤ 128)%nat.
Proof.
  destruct m as [|c m]; [done|]. simpl. rewrite !andb_true_iff, Z.leb_le. intros [[Hc Hm] Hl]. split; [|split; [done|]].
  - split; [by unfold plain; rewrite Hc|]. eapply all_chars_impl; [|exact Hm]. intros d Hd. unfold plain. by rewrite Hd.
  - unfold strlen in Hl. lia.
Qed.

Record valid_event (e : Event) : Prop := {
  ve_stage : Stage e ∈ stages; ve_event : Event_ e = "begin" ∨ Event_ e = "finish";
  ve_elapsed : 0 ≤ ElapsedMs e ≤ 86400000; ve_member : Member e = "" ∨ memberPattern (Member e) = true }.
Lemma Valid_spec e : Valid e = true → valid_event e.
Proof.
  unfold Valid. rewrite !andb_true_iff, !Z.leb_le, !orb_true_iff. intros [[[[[Hs He] H1] H2] _] Hm]. split.
  - apply existsb_exists in Hs as (s & Hin & ->%bool_decide_eq_true_1). by apply list_elem_of_In.
  - destruct He as [He|He]; apply bool_decide_eq_true_1 in He; auto.
  - done.
  - destruct Hm as [Hm|[_ Hm]%andb_true_iff]; [left; by apply bool_decide_eq_true_1 in Hm|by right].
Qed.

Lemma stage_plain s : s ∈ stages → all_chars plain s = true ∧ (String.length s ≤ 16)%nat.
Proof. unfold stages. rewrite !elem_of_cons. intros Hs. destruct_or! Hs; subst; try by split; [|simpl; lia]. set_solver. Qed.
Lemma event_plain s : s = "begin" ∨ s = "finish" → all_chars plain s = true ∧ (String.length s ≤ 6)%nat.
Proof. intros [-> | ->]; split; simpl; try done; lia. Qed.

Definition member_part (m : string) : list ascii :=
  if m == "" then ["}"%char] else comma false ++ quoted "member" ++ ":"%char :: quoted m ++ ["}"%char].
Definition event_text (e : Event) : list ascii :=
  "{"%char :: comma true ++ quoted "stage" ++ ":"%char :: quoted (Stage e) ++
  comma false ++ quoted "event" ++ ":"%char :: quoted (Event_ e) ++
  comma false ++ quoted "elapsedMs" ++ ":"%char :: chars (pretty (ElapsedMs e)) ++ member_part (Member e).

Lemma Event_text e : valid_event e → ∃ data, Event_json e = Some data ∧ chars data = event_text e.
Proof.
  intros [[Hs _]%stage_plain [He _]%event_plain _ Hm].
  unfold Event_json, json_struct, field, omitempty, json_string, json_int.
  rewrite !json_plain by done. unfold event_text, member_part.
  destruct (Member e == "") eqn:E.
  - cbn -[pretty String.append json_string_text]. eexists; split; [reflexivity|].
    rewrite !json_plain by done. rewrite !chars_app, !chars_quoted. simpl. rewrite <- !app_assoc. simpl.
    by rewrite <- !app_assoc.
  - destruct Hm as [Hm|[Hm _]%member_plain]; [by rewrite Hm in E|].
    rewrite json_plain by done. cbn -[pretty String.append json_string_text]. eexists; split; [reflexivity|].
    rewrite !json_plain by done. rewrite !chars_app, !chars_quoted. simpl. rewrite <- !app_assoc. simpl.
    repeat (rewrite <- !app_assoc; simpl). done.
Qed.

Definition printable (c : ascii) : Prop := 32 ≤ code c < 128.
Lemma plain_printable s : all_chars plain s = true → Forall printable (chars s).
Proof.
  induction s as [|c s IH]; simpl; [constructor|]. rewrite andb_true_iff. intros [Hc%plain_code Hs].
  constructor; [unfold printable; lia|auto].
Qed.
Lemma quoted_printable s : all_chars plain s = true → Forall printable (quoted s).
Proof.
  intros Hs. constructor; [by vm_compute|]. apply Forall_app; split; [by apply plain_printable|].
  constructor; [by vm_compute|constructor].
Qed.
Lemma quoted_length s : length (quoted s) = (String.length s + 2)%nat.
Proof. unfold quoted. simpl. rewrite length_app, chars_length. simpl. lia. Qed.

Lemma digits_printable ds : forallb is_digit ds = true → Forall printable ds.
Proof.
  intros H. apply Forall_forall. intros c Hc. rewrite forallb_forall in H. apply list_elem_of_In in Hc.
  apply H in Hc. unfold is_digit, in_range in Hc. apply andb_true_iff in Hc as [??]. unfold printable. lia.
Qed.

Ltac printables := repeat first
  [ apply Forall_app; split | apply quoted_printable; done | apply Forall_nil_2
  | apply Forall_cons_2; [by vm_compute|] ].

(** The text is printable, and much shorter than the limit of a frame. *)
Lemma event_text_shape e : valid_event e → Forall printable (event_text e) ∧ (length (event_text e) ≤ 300)%nat.
Proof.
  intros [[Hs Ls]%stage_plain [He Le]%event_plain Hz Hm].
  destruct (pretty_number _ Hz) as (d & ds & Hp & Hd & _ & _ & Hl).
  assert (Forall printable (member_part (Member e)) ∧ (length (member_part (Member e)) ≤ 150)%nat) as [Hmp Hml].
  { unfold member_part. destruct (Member e == "") eqn:E; [split; [printables|simpl; lia]|].
    destruct Hm as [Hm|(Hm & _ & Lm)%member_plain]; [by rewrite Hm in E|].
    split; [printables|]. rewrite !length_app. cbn [length]. rewrite !length_app, !quoted_length. simpl. lia. }
  unfold event_text. rewrite Hp. split.
  - printables; [by apply digits_printable|done].
  - cbn [length]. rewrite !length_app. cbn [length]. rewrite !length_app. cbn [length]. rewrite !length_app, !quoted_length.
    simpl. simpl in Hl. rewrite ?length_app. simpl. lia.
Qed.

Lemma printable_utf8 l : Forall printable l → utf8_valid (String.string_of_list_ascii l) = true.
Proof. intros H. apply valid_utf8_ascii. eapply Forall_impl; [exact H|]. intros c Hc. unfold printable in Hc. lia. Qed.

Lemma to_int64_digits d ds z :
  forallb is_digit (d :: ds) = true → digits_value 0 (d :: ds) = z → 0 ≤ z ≤ 86400000 → to_int64 (d :: ds) = Some z.
Proof.
  intros Hd Hv Hz. unfold to_int64.
  assert (∀ x : list ascii, match d :: ds with "-"%char :: l => (true, l) | _ => (false, d :: ds) end = (false, d :: ds)) as E.
  { intros _. simpl in Hd. apply andb_true_iff in Hd as [Hd _]. apply digit_cases in Hd. simpl in Hd.
    by destruct_or! Hd; subst. }
  rewrite (E []). cbv zeta iota beta. rewrite Hd, Hv, !bool_decide_eq_true_2; [done| |done]. unfold is_i64. lia.
Qed.

Ltac known := first [done | unfold known_fields; set_solver].
(** The object's members are read back. *)
Lemma decode_members e : valid_event e → ∃ fields,
  decode_fields (length known_fields) true ∅ (tail (event_text e)) = Ok (fields, ["}"%char]) ∧
  forallb (required fields) ["stage"; "event"; "elapsedMs"] = true ∧
  field_member fields = Some (Member e) ∧ to_event fields (Member e) = Some e.
Proof.
  intros [[Hs _]%stage_plain [He _]%event_plain Hz Hm].
  destruct (pretty_number _ Hz) as (d & ds & Hp & Hd & H0 & Hv & _).
  pose (f := <["elapsedMs" := d :: ds]> (<["event" := quoted (Event_ e)]> (<["stage" := quoted (Stage e)]> (∅ : gmap string (list ascii))))).
  assert (decode_fields (length known_fields) true ∅ (tail (event_text e)) = decode_fields 1 false f (member_part (Member e))) as ->.
  { unfold event_text. cbn [tail]. change (length known_fields) with 4%nat.
    rewrite decode_quoted by known. rewrite decode_quoted by known. rewrite Hp.
    rewrite decode_field; try known.
    { intros c [= <-]. simpl in Hd. apply andb_true_iff in Hd as [Hd _]. apply digit_cases in Hd. simpl in Hd.
      by destruct_or! Hd; subst. }
    apply raw_digits; [done..|]. unfold member_part, ends. destruct (Member e == ""); [by eauto|].
    exists ","%char. eexists; split; [reflexivity|auto]. }
  assert (∀ f' : gmap string (list ascii), f' !! "stage" = Some (quoted (Stage e)) → f' !! "event" = Some (quoted (Event_ e)) →
    f' !! "elapsedMs" = Some (d :: ds) →
    forallb (required f') ["stage"; "event"; "elapsedMs"] = true ∧ to_event f' (Member e) = Some e) as Hf.
  { intros f' E1 E2 E3. unfold required, to_event. cbn [forallb]. rewrite E1, E2, E3. cbn [mbind option_bind].
    rewrite !to_string_quoted by done. cbn [mbind option_bind]. rewrite (to_int64_digits _ _ _ Hd Hv Hz).
    cbn [mbind option_bind].
    assert (bool_decide (d :: ds = chars "null") = false) as ->.
    { apply bool_decide_eq_false_2. intros [= -> _]. simpl in Hd. done. }
    split; [done|]. by destruct e. }
  unfold member_part. destruct (Member e == "") eqn:E.
  - apply bool_decide_eq_true_1 in E. exists f. destruct (Hf f) as [H1 H2]; [done..|]. split_and!; try done.
    by rewrite E.
  - destruct Hm as [Hm|Hm]; [by rewrite Hm in E|]. destruct (member_plain _ Hm) as [Hmp _].
    rewrite decode_quoted by known. exists (<["member" := quoted (Member e)]> f).
    destruct (Hf (<["member" := quoted (Member e)]> f)) as [H1 H2]; [done..|]. split_and!; try done.
    unfold field_member. rewrite lookup_insert_eq, to_string_quoted by done. simpl. by rewrite Hm.
Qed.

Lemma decode_text e : Valid e = true → decode (event_text e) = Ok e.
Proof.
  intros HV. pose proof (Valid_spec e HV) as He. destruct (event_text_shape e He) as [Hp _].
  destruct (decode_members e He) as (fields & Hd & Hr & Hm & Ht). unfold decode. rewrite printable_utf8 by done. cbn [negb].
  change (skip_ws (event_text e)) with ("{"%char :: tail (event_text e)). cbv iota beta. rewrite Hd.
  change (skip_ws ["}"%char]) with ["}"%char]. cbv iota beta. change (skip_ws []) with (@nil ascii).
  rewrite Hr, Hm, Ht, HV. by rewrite bool_decide_eq_true_2.
Qed.
