(* ===== verification/CreationProgressFacts.v ===== *)
(** * Creation progress: what the decoder guarantees

    Its buffering is bounded and it observes only valid events, whatever it reads;
    a stream of events and diagnostics is taken apart again however it is cut into
    writes. *)

From S2P Require Import Prelude Effects GoStrings GoJson GoDecimal CreationProgress CreationProgressCodec.
From Stdlib Require Import Ascii.

Open Scope Z_scope.

(** ** Bounds

    The diagnostics writer is watched: every write is logged beside its world.  A write is
    rejected input when it begins as a record does, a notice, or a byte of ordinary text. *)

Definition starts_record (bytes : list ascii) : bool :=
  match bytes with c :: _ => is_char c record_separator | [] => false end.
Definition is_notice (bytes : list ascii) : bool := (bytes == chars rejected_notice) || (bytes == chars oversized_notice).
Definition plain_write (bytes : list ascii) : Prop := bytes = [] ∨ ∃ c, bytes = [c] ∧ is_char c record_separator = false.
Definition rejected_text (log : list (list ascii)) : list ascii := concat (List.filter starts_record log).
Definition notices (log : list (list ascii)) : nat := length (List.filter is_notice log).

#[local] Arguments rejected_text log : simpl never.
#[local] Arguments notices log : simpl never.
#[local] Arguments is_notice bytes : simpl never.

Section Bounds.
Context {W : Type} (diagnostics : list ascii → W → W * option error) (observer : option (Event → W → W)).

Definition logged (bytes : list ascii) (w : W * list (list ascii)) : W * list (list ascii) * option error :=
  let '(w', e) := diagnostics bytes w.1 in (w', w.2 ++ [bytes], e).
Definition watched : option (Event → W * list (list ascii) → W * list (list ascii)) :=
  (λ f e w, (f e w.1, w.2)) <$> observer.

(** One call of the decoder. *)
Inductive decoder_op (d : Decoder (W * list (list ascii))) : Decoder (W * list (list ascii)) → Prop :=
  | dop_write data : decoder_op d (Write logged watched data d).1
  | dop_close : decoder_op d (Close logged d).1.

Context (I : W → Prop).
Hypothesis diagnostics_keep : ∀ bytes w, I w → I (diagnostics bytes w).1.
Hypothesis valid_keep : ∀ f e w, observer = Some f → Valid e = true → I w → I (f e w).

Definition log_of (d : Decoder (W * list (list ascii))) : list (list ascii) := (world d).2.
Record bounded (d : Decoder (W * list (list ascii))) : Prop := {
  bd_world : I (world d).1;
  bd_pending : Z.of_nat (length (pending d)) <= MaxFrameBytes;
  bd_start : pending d = [] ∨ starts_record (pending d) = true;
  bd_rejected : Z.of_nat (length (rejected_text (log_of d))) <= rejectedBytes d <= 16 * 1024;
  bd_notices : (notices (log_of d) <= if warned d then 1 else 0)%nat;
  bd_kinds : Forall (λ bytes, starts_record bytes = true ∨ is_notice bytes = true ∨ plain_write bytes) (log_of d);
  bd_discard : discard d = true → pending d = [] }.

Definition keeps (d d' : Decoder (W * list (list ascii))) : Prop := bounded d → bounded d'.
#[local] Instance keeps_preorder : PreOrder keeps.
Proof. split; [intros d H; exact H|intros d1 d2 d3 H1 H2 H; exact (H2 (H1 H))]. Qed.

Lemma print_state bytes d : (print logged bytes d).1 = d <| world := ((diagnostics bytes (world d).1).1, log_of d ++ [bytes]) |>.
Proof. unfold print, logged, log_of. by destruct (diagnostics bytes (world d).1). Qed.
Lemma rejected_snoc log bytes : rejected_text (log ++ [bytes]) = rejected_text log ++ if starts_record bytes then bytes else [].
Proof. unfold rejected_text. rewrite List.filter_app, concat_app. cbn. destruct (starts_record bytes); cbn; by rewrite ?app_nil_r. Qed.
Lemma notices_snoc log bytes : notices (log ++ [bytes]) = (notices log + if is_notice bytes then 1 else 0)%nat.
Proof. unfold notices. rewrite List.filter_app, length_app. cbn. by destruct (is_notice bytes). Qed.
Lemma notice_start bytes : is_notice bytes = true → starts_record bytes = false.
Proof. unfold is_notice. rewrite orb_true_iff, !bool_decide_eq_true. by intros [-> | ->]. Qed.
Lemma record_notice bytes : starts_record bytes = true → is_notice bytes = false.
Proof. intros H. destruct (is_notice bytes) eqn:E; [|done]. apply notice_start in E. congruence. Qed.
Lemma plain_start bytes : plain_write bytes → starts_record bytes = false ∧ is_notice bytes = false.
Proof. intros [-> | (c & -> & Hc)]; [done|]. split; [exact Hc|]. unfold is_notice. by rewrite !bool_decide_eq_false_2. Qed.

Lemma print_ordinary bytes : plain_write bytes → rel_steps keeps (print logged bytes).
Proof.
  intros Ho d [Hw Hp Hs Hr Hn Hk Hd]. rewrite print_state. destruct (plain_start _ Ho) as [E1 E2].
  split; unfold log_of in *; cbn; try done; [by apply diagnostics_keep|by rewrite rejected_snoc, E1, app_nil_r|by rewrite notices_snoc, E2, Nat.add_0_r|].
  apply Forall_app. split; [done|]. constructor; [by right; right|done].
Qed.
(** The first notice. *)
Lemma print_notice bytes d : is_notice bytes = true → warned d = false → bounded d →
  bounded ((print logged bytes d).1 <| warned := true |>).
Proof.
  intros Hb Hf [Hw Hp Hs Hr Hn Hk Hd]. rewrite print_state. rewrite Hf in Hn. assert (E := notice_start _ Hb).
  split; unfold log_of in *; cbn; try done; [by apply diagnostics_keep|by rewrite rejected_snoc, E, app_nil_r|rewrite notices_snoc, Hb; lia|].
  apply Forall_app. split; [done|]. constructor; [by right; left|done].
Qed.
Lemma print_rejected bytes d : starts_record bytes = true → rejectedBytes d + Z.of_nat (length bytes) <= 16 * 1024 → bounded d →
  bounded ((print logged bytes d).1 <| rejectedBytes ::= λ n, n + Z.of_nat (length bytes) |>).
Proof.
  intros Hb Hroom [Hw Hp Hs Hr Hn Hk Hd]. rewrite print_state.
  split; unfold log_of in *; cbn; try done;
    [by apply diagnostics_keep|rewrite rejected_snoc, Hb, length_app; lia|by rewrite notices_snoc, record_notice, Nat.add_0_r|].
  apply Forall_app. split; [done|]. constructor; [by left|done].
Qed.
Lemma keeps_reject bytes d : bytes = [] ∨ starts_record bytes = true → bounded d → bounded (reject logged bytes d).1.
Proof.
  intros Hb H. unfold reject. unfold mbind, SE_bind, gets, id. cbv beta iota.
  destruct (rejectedBytes d + Z.of_nat (length bytes) <=? 16 * 1024) eqn:E; unfold modify; cbv beta iota.
  - apply Z.leb_le in E. rewrite print_state. destruct Hb as [-> |Hb].
    + destruct H as [Hw Hp Hs Hr Hn Hk Hd].
      split; unfold log_of in *; cbn; try done; [by apply diagnostics_keep|rewrite rejected_snoc, app_nil_r; lia|by rewrite notices_snoc, Nat.add_0_r|].
      apply Forall_app. split; [done|]. constructor; [by right; right; left|done].
    + assert (H' := print_rejected bytes d Hb E H). by rewrite print_state in H'.
  - destruct (warned d) eqn:Ew; [done|]. cbv beta iota. cbn [negb]. rewrite print_state.
    assert (H' := print_notice (chars rejected_notice) d eq_refl Ew H). by rewrite print_state in H'.
Qed.

Lemma keeps_observe e : Valid e = true → rel_steps keeps (observe watched e).
Proof.
  intros He. unfold observe, watched. destruct observer as [f|] eqn:E; [|apply rel_ret; exact _]. cbn.
  apply rel_modify. intros d [Hw Hp Hs Hr Hn Hk Hd]. split; try done. cbn. by apply valid_keep.
Qed.
Lemma keeps_reset d : bounded d → bounded (d <| pending := [] |>).
Proof. intros [Hw Hp Hs Hr Hn Hk Hd]. split; try done. by left. Qed.

Lemma frame_event_valid bytes e : frame_event bytes = Some e → Valid e = true.
Proof.
  unfold frame_event, decode. intros H. repeat (case_match; try done). simplify_eq. done.
Qed.
Lemma keeps_complete d : bounded d → bounded (complete logged watched d).1.
Proof.
  intros H. unfold complete, mbind, SE_bind, gets, modify. cbv beta iota. apply keeps_reset in H as H'.
  destruct (frame_event (pending d)) eqn:E; [by eapply keeps_observe, H'; eapply frame_event_valid|].
  apply keeps_reject; [exact (bd_start _ H)|done].
Qed.
Lemma keeps_oversized value d : bounded d → bounded (oversized logged value (d <| pending ::= λ l, l ++ [value] |>)).1.
Proof.
  intros H. unfold oversized, mbind, SE_bind, gets, modify, id. cbv beta iota.
  set (d' := d <| pending := [] |> <| discard := negb (is_char value line_feed_char) |>).
  assert (bounded d') as Hb by (destruct H; split; try done; by left).
  change (bounded ((if negb (warned d')
    then ignore (print logged (chars oversized_notice));; modify (λ x : Decoder (W * list (list ascii)), x <| warned := true |>)
    else mret tt) d').1).
  destruct (warned d') eqn:Ew; [done|]. cbn [negb]. assert (H' := print_notice (chars oversized_notice) d' eq_refl Ew Hb).
  revert H'. unfold ignore, attempt, mbind, SE_bind. destruct (print logged (chars oversized_notice) d') as [d2 r]. by destruct r.
Qed.

Lemma keeps_write_byte value : rel_steps keeps (write_byte logged watched value).
Proof.
  intros d Hb. pose proof Hb as [Hw Hp Hs Hr Hn Hk Hd]. unfold write_byte, mbind, SE_bind, gets, id. cbv beta iota.
  destruct (discard d) eqn:Ed.
  { destruct (is_char value line_feed_char); [|done]. by split. }
  destruct (bool_decide (pending d = []) && negb (is_char value record_separator)) eqn:Eo.
  { apply andb_true_iff in Eo as [_ Eo]. apply negb_true_iff in Eo. apply print_ordinary; [|done]. right. by exists value. }
  unfold modify. cbv beta iota.
  destruct (MaxFrameBytes <? Z.of_nat (length (pending d ++ [value]))) eqn:El; [by apply keeps_oversized|].
  apply Z.ltb_ge in El.
  assert (bounded (d <| pending ::= λ l, l ++ [value] |>)) as Hb'.
  { split; try done; [|simpl; congruence]. right. cbn. destruct Hs as [E|E]; [|by destruct (pending d)].
    rewrite E in Eo |- *. cbn in *. by apply negb_false_iff in Eo. }
  destruct (is_char value line_feed_char); [by apply keeps_complete|exact Hb'].
Qed.

Lemma keeps_write_bytes data : rel_steps keeps (write_bytes logged watched data).
Proof.
  induction data as [|value data IH]; [apply rel_ret; exact _|]. apply rel_bind; [exact _|apply keeps_write_byte|done].
Qed.
Lemma keeps_op d d' : decoder_op d d' → keeps d d'.
Proof.
  intros [data|].
  - apply (rel_bind keeps); [apply keeps_write_bytes|]. intros _. apply rel_ret; exact _.
  - intros H. unfold Close, mbind, SE_bind, gets, attempt. cbv beta iota. assert (H' := keeps_reject (pending d) d (bd_start _ H) H).
    destruct (reject logged (pending d) d) as [d2 r]. cbn in H' |- *. by apply keeps_reset.
Qed.

(** C18: whatever bytes the decoder reads, in whatever writes, and however its diagnostics
    writer fails: at most 4096 bytes are buffered; every write to the diagnostics is a byte of
    ordinary text, a notice, or rejected input; what was written of rejected input is at most
    16 KiB in all, and there is at most one notice; the observer is called for valid
    events only, so that any property of its world which diagnostics and valid events
    keep is kept. *)
Theorem decoder_bounds w d :
  I w → rtc decoder_op (NewDecoder (w, [])) d →
  I (world d).1 ∧ Z.of_nat (length (pending d)) <= MaxFrameBytes
  ∧ Z.of_nat (length (rejected_text (world d).2)) <= 16 * 1024 ∧ (notices (world d).2 <= 1)%nat
  ∧ Forall (λ bytes, starts_record bytes = true ∨ is_notice bytes = true ∨ plain_write bytes) (world d).2.
Proof.
  intros Hw Hrtc. assert (bounded d) as [H1 H2 _ H3 H4 H5 _].
  { assert (bounded (NewDecoder (w, []))) as Hb by (by split; cbn; unfold MaxFrameBytes; auto with lia).
    revert Hb. clear Hw. induction Hrtc as [|d1 d2 d3 Hop _ IH]; [done|]. intros Hb. apply IH, (keeps_op _ _ Hop), Hb. }
  split_and!; try done; [unfold log_of in H3; lia|]. unfold log_of in H4. destruct (warned d); lia.
Qed.

End Bounds.

(** ** A working stream

    A recording world: the diagnostics written and the events observed. *)

Record Recorder := mkRecorder { rec_out : list ascii; rec_seen : list Event }.
Definition record_bytes (bytes : list ascii) (w : Recorder) : Recorder * option error :=
  (mkRecorder (rec_out w ++ bytes) (rec_seen w), None).
Definition record_event (e : Event) (w : Recorder) : Recorder := mkRecorder (rec_out w) (rec_seen w ++ [e]).
Definition idle (out : list ascii) (seen : list Event) : Decoder Recorder := mkDecoder (mkRecorder out seen) [] false false 0.

Abbreviation feed := (write_bytes record_bytes (Some record_event)).
Definition writes (chunks : list (list ascii)) : SE (Decoder Recorder) unit :=
  foldr (λ c m, Write record_bytes (Some record_event) c;; m) (mret tt) chunks.

Lemma feed_app a b d : feed (a ++ b) d = (feed a;; feed b) d.
Proof.
  revert d. induction a as [|c a IH]; intros d; [done|]. simpl. unfold mbind, SE_bind.
  destruct (write_byte _ _ c d) as [d' [[]|e]]; [|done]. rewrite IH. unfold mbind, SE_bind. done.
Qed.
Lemma writes_concat chunks d : writes chunks d = feed (concat chunks) d.
Proof.
  revert d. induction chunks as [|c chunks IH]; intros d; [done|]. simpl. rewrite feed_app.
  unfold Write, mbind, SE_bind. destruct (feed c d) as [d' [[]|e]]; [|done]. simpl. apply IH.
Qed.

Definition ordinary (c : ascii) : Prop := c ≠ record_separator.
Lemma feed_ordinary bytes out seen : Forall ordinary bytes → feed bytes (idle out seen) = (idle (out ++ bytes) seen, Ok tt).
Proof.
  intros H. revert out. induction H as [|c bytes Hc _ IH]; intros out; [by rewrite app_nil_r|]. simpl.
  assert (write_byte record_bytes (Some record_event) c (idle out seen) = (idle (out ++ [c]) seen, Ok tt)) as Hs.
  { unfold write_byte, mbind, SE_bind, gets. cbn -[is_char]. unfold ordinary in Hc.
    destruct (is_char c record_separator) eqn:E; [by apply is_char_spec in E|]. done. }
  unfold mbind, SE_bind. rewrite Hs. rewrite IH. by rewrite <- app_assoc.
Qed.

Lemma feed_pending bytes p out seen :
  p ≠ [] → Forall (λ c, c ≠ line_feed_char) bytes → Z.of_nat (length p + length bytes) <= MaxFrameBytes →
  feed bytes (idle out seen <| pending := p |>) = (idle out seen <| pending := p ++ bytes |>, Ok tt).
Proof.
  intros Hp H. revert p Hp. induction H as [|c bytes Hc _ IH]; intros p Hp Hl; [by rewrite app_nil_r|].
  assert (write_byte record_bytes (Some record_event) c (idle out seen <| pending := p |>)
    = (idle out seen <| pending := p ++ [c] |>, Ok tt)) as Hs.
  { unfold write_byte, mbind, SE_bind, gets, id, modify. cbv beta iota.
    change (discard (idle out seen <| pending := p |>)) with false. cbv iota.
    change (pending (idle out seen <| pending := p |>)) with p.
    rewrite bool_decide_eq_false_2 by done. cbn [andb].
    assert ((MaxFrameBytes <? Z.of_nat (length (p ++ [c]))) = false) as ->
      by (apply Z.ltb_ge; rewrite length_app; simpl in *; lia).
    destruct (is_char c line_feed_char) eqn:E; [by apply is_char_spec in E|done]. }
  simpl. unfold mbind, SE_bind. rewrite Hs. rewrite (IH (p ++ [c])).
  - by rewrite <- app_assoc.
  - by destruct p.
  - rewrite length_app. simpl in *. lia.
Qed.

Lemma feed_frame data e out seen :
  Forall printable (chars data) → (length (chars data) <= 300)%nat → decode (chars data) = Ok e →
  feed (frame data) (idle out seen) = (idle out (seen ++ [e]), Ok tt).
Proof.
  intros Hp Hl Hd. unfold frame.
  change (chars Prefix) with (record_separator :: tail (chars Prefix)).
  rewrite <- app_comm_cons. cbn [write_bytes].
  assert (write_byte record_bytes (Some record_event) record_separator (idle out seen)
    = (idle out seen <| pending := [record_separator] |>, Ok tt)) as Hs by reflexivity.
  unfold mbind at 1, SE_bind at 1. rewrite Hs. cbv beta iota. rewrite app_assoc, feed_app.
  assert (Z.of_nat (length (tail (chars Prefix) ++ chars data)) <= 400) as Hlen
    by (rewrite length_app; change (length (tail (chars Prefix))) with 34%nat; lia).
  unfold mbind, SE_bind. rewrite feed_pending; [|done| |unfold MaxFrameBytes; simpl length; lia].
  2: { apply Forall_app; split; [repeat (apply Forall_cons_2; [done|]); apply Forall_nil_2|].
       eapply Forall_impl; [exact Hp|]. intros c Hc ->. by destruct Hc. }
  set (bytes := [record_separator] ++ tail (chars Prefix) ++ chars data).
  assert (frame_event (bytes ++ [line_feed_char]) = Some e) as He.
  { unfold frame_event, bytes, has_prefix.
    change ([record_separator] ++ tail (chars Prefix) ++ chars data) with (chars Prefix ++ chars data).
    rewrite <- app_assoc, bool_decide_eq_true_2 by done.
    change (skipn (length (chars Prefix)) (chars Prefix ++ chars data ++ [line_feed_char])) with (chars data ++ [line_feed_char]).
    rewrite removelast_last. by rewrite Hd. }
  cbn [write_bytes]. unfold mbind, SE_bind.
  assert (write_byte record_bytes (Some record_event) line_feed_char (idle out seen <| pending := bytes |>)
    = (idle out (seen ++ [e]), Ok tt)) as Hw.
  { unfold write_byte, mbind, SE_bind, gets, id, modify. cbv beta iota.
    change (discard (idle out seen <| pending := bytes |>)) with false. cbv iota.
    change (pending (idle out seen <| pending := bytes |>)) with bytes.
    rewrite bool_decide_eq_false_2 by done. cbn [andb].
    assert ((MaxFrameBytes <? Z.of_nat (length (bytes ++ [line_feed_char]))) = false) as ->.
    { apply Z.ltb_ge. rewrite length_app. unfold bytes, MaxFrameBytes. simpl. simpl in Hlen. lia. }
    change (is_char line_feed_char line_feed_char) with true. cbv iota.
    unfold complete, mbind, SE_bind, gets, modify. cbv beta iota.
    change (pending (idle out seen <| pending := bytes |> <| pending ::= λ l, l ++ [line_feed_char] |>)) with (bytes ++ [line_feed_char]).
    by rewrite He. }
  rewrite Hw. done.
Qed.

(** What a child writes: ordinary diagnostics, without the record separator, and
    events through the observer of [FromEnvironment]. *)
Inductive item := it_diagnostics (bytes : list ascii) | it_event (e : Event).
Definition well_formed (i : item) : Prop := match i with it_diagnostics b => Forall ordinary b | it_event _ => True end.
Definition item_bytes (emit : Event → list ascii) (i : item) : list ascii :=
  match i with it_diagnostics b => b | it_event e => emit e end.
Definition item_out (i : item) : list ascii := match i with it_diagnostics b => b | it_event _ => [] end.
Definition item_seen (i : item) : list Event := match i with it_event e => if Valid e then [e] else [] | _ => [] end.

Lemma feed_items emit items out seen :
  FromEnvironment "1" = Some emit → Forall well_formed items →
  feed (concat (map (item_bytes emit) items)) (idle out seen)
  = (idle (out ++ concat (map item_out items)) (seen ++ concat (map item_seen items)), Ok tt).
Proof.
  intros Hemit. assert (∀ e, emit e = if negb (Valid e) then [] else
    match Event_json e with Some data => frame data | None => [] end) as He by (intros e; by injection Hemit as <-).
  clear Hemit. intros H. revert out seen.
  induction H as [|i items Hi _ IH]; intros out seen; [simpl; by rewrite !app_nil_r|]. cbn [map concat].
  rewrite feed_app. unfold mbind, SE_bind. destruct i as [b|e]; cbn [item_bytes item_out item_seen].
  - rewrite feed_ordinary by done. rewrite IH, <- app_assoc. done.
  - rewrite He. destruct (Valid e) eqn:HV; cbn [negb]; [|exact (IH out seen)].
    destruct (event_text_shape e (Valid_spec e HV)) as [Hp Hl].
    destruct (Event_text e (Valid_spec e HV)) as (data & Hj & Hc). rewrite Hj.
    rewrite (feed_frame data e); rewrite ?Hc; [|done|lia|by apply decode_text].
    specialize (IH out (seen ++ [e])). rewrite <- app_assoc in IH. exact IH.
Qed.

(** C17: events written among ordinary diagnostics reach the observer exactly as
    they were, each valid one once and in order, and the diagnostics pass unchanged
    and complete, however the stream is cut into writes: nothing stays buffered,
    rejected or discarded. *)
Theorem progress_transport emit items chunks :
  FromEnvironment "1" = Some emit → Forall well_formed items →
  concat chunks = concat (map (item_bytes emit) items) →
  writes chunks (NewDecoder (mkRecorder [] [])) =
    (idle (concat (map item_out items)) (concat (map item_seen items)), Ok tt).
Proof. intros Hemit Hwf Hc. rewrite writes_concat, Hc. apply (feed_items emit items [] [] Hemit Hwf). Qed.

(** ** Concrete runs *)

Definition sample_event : Event := mkEvent "team_member" "finish" 125 "agent2".
Definition sample_emit (e : Event) : list ascii :=
  if negb (Valid e) then [] else match Event_json e with Some data => frame data | None => [] end.
Definition sample_items : list item :=
  [it_diagnostics (chars "building"); it_event sample_event; it_event (mkEvent "unknown" "begin" 0 ""); it_diagnostics (chars "done")].

Lemma progress_transport_witness :
  writes (map (λ c, [c]) (concat (map (item_bytes sample_emit) sample_items))) (NewDecoder (mkRecorder [] []))
  = (idle (chars "buildingdone") [sample_event], Ok tt).
Proof.
  apply (progress_transport sample_emit sample_items).
  - reflexivity.
  - apply Forall_forall. intros i Hi. repeat (apply elem_of_cons in Hi as [->|Hi]); [| | | |by apply elem_of_nil in Hi];
      simpl; try done; repeat (apply Forall_cons_2; [by vm_compute|]); apply Forall_nil_2.
  - computed.
Defined.

Definition sample_stream : list ascii := chars "x" ++ sample_emit sample_event ++ [record_separator; "y"%char; line_feed_char; record_separator].
Lemma decoder_bounds_witness :
  let d := (Write (logged record_bytes) (watched (Some record_event)) sample_stream (NewDecoder (mkRecorder [] [], []))).1 in
  rec_seen (world d).1 = [sample_event] ∧ rejected_text (world d).2 = [record_separator; "y"%char; line_feed_char]
  ∧ Forall (λ e, Valid e = true) (rec_seen (world d).1) ∧ Z.of_nat (length (pending d)) <= 4096 ∧ (notices (world d).2 <= 1)%nat.
Proof.
  cbv zeta. destruct (decoder_bounds record_bytes (Some record_event) (λ w, Forall (λ e, Valid e = true) (rec_seen w)))
    with (w := mkRecorder [] []) (d := (Write (logged record_bytes) (watched (Some record_event)) sample_stream
      (NewDecoder (mkRecorder [] [], []))).1) as (H1 & H2 & _ & H4 & _).
  - intros bytes w H. exact H.
  - intros f e w [= <-] He H. apply Forall_app; split; [exact H|by constructor].
  - constructor.
  - apply rtc_once, dop_write.
  - split; [vm_compute; reflexivity|]. split; [vm_compute; reflexivity|]. split; [exact H1|]. split; [exact H2|exact H4].
Defined.
